(* ===== verification/_CoqProject ===== *)
-Q . S2P
Prelude.v
CString.v
Hash.v
FlatHashMap.v
MemoryPool.v
ByteBuffer.v
SharedBuffer.v
FramingProtocol.v
FrameDecoder.v
PeersToFlush.v
PeerManager.v
HostLifecycle.v
PeerSend.v
LoopFlush.v
RpcCalls.v
RpcRegistry.v
RpcDispatch.v
CommandsBuffer.v
CommandQueue.v
LoopAutoIndex.v
CommandHandle.v
BatchWriter.v
Time.v
TimeString.v
MapPeerHandle.v
LogPath.v
LogName.v
Log.v
SendPaths.v
LoopControl.v
HostCommands.v
UdpHost.v
LoopIteration.v
Delivery.v
ReturnCallback.v
RpcSend.v
ConnectCommands.v
UsLoop.v
ChatServer.v
ChatClient.v
PeerStorage.v
Coroutines.v
PeerCallbacks.v
Converters.v
Dns.v
Receiving.v
HandleHash.v
UdpPeer.v
PeerSharing.v
Example1.v
FramePrint.v
LogMacros.v
RandomBytes.v
MallocPool.v
ByteWriters.v
PeerFlags.v
BufferMoves.v
TimeOps.v
