(* ===== verification/Prelude.v ===== *)
(** * ICon7: verification of an asynchronous RPC library

    ICon7 connects processes over TCP (uSockets) and lets them call registered functions of
    each other. A [Loop] owns the sockets of its [Host]s and one thread; everything that
    touches a connection runs on that thread, and other threads hand it [Command]s. A
    connection is a [PeerData] object in a slot of the loop's [PeerManager]; users name it by
    a versioned [PeerHandle]. Received bytes go through the [FrameDecoder] to the
    [RPCEnvironment], which runs a function or the callback of an earlier call; sent frames
    are queued in the peer and written when the socket accepts them.

    ** Files and sources (all under src/; .hpp files are in include/icon7/, .cpp in src/)

    - Prelude.v: machine integers, failure, vectors and memory blocks, automation, and the
      interface [MapImpl] of a hash map.
    - Hash.v: Hash.hpp. FlatHashMap.v: FlatHashMap.hpp, two vectors linked by indices; it
      provides the instance of [MapImpl].
    - MemoryPool.v: MemoryPool.cpp and the memory statistics; the allocator is the class
      [Allocator]. MallocPool.v: the same without rpmalloc, and the operators of
      MemoryPool_new.cpp; [malloc] is the class [Malloc]. RandomBytes.v: Random.cpp and
      FlatHashMap.cpp; the generator is the class [Generator].
    - ByteBuffer.v: ByteBufferWritable (ByteBuffer.hpp, ByteBuffer.cpp). SharedBuffer.v:
      ByteBufferReadable, reference-counted storages on a heap. ByteWriters.v: ByteWriter.hpp.
    - FramingProtocol.v: FramingProtocol.cpp. FrameDecoder.v: FrameDecoder.cpp.
    - PeersToFlush.v: PeersToFlush.cpp. PeerManager.v: PeerManager.cpp with the handles of
      PeerHandle.hpp. PeerSharing.v: PeerManager.cpp used from other threads, as interleaved
      steps. HostLifecycle.v: the socket callbacks of HostUStcp.cpp and Host.cpp, connect errors
      included.
      PeerCallbacks.v: the connect and disconnect callbacks of the user (Host.cpp, Peer.cpp).
      PeerFlags.v: the state flags of Peer.hpp, in the runs of PeerCallbacks.v.
      Receiving.v: data on the sockets of a host, HostLifecycle.v joined with RpcDispatch.v
      through the class [Receiver].
    - PeerSend.v: the sending half of Peer.cpp and PeerUStcp.cpp; the socket is the class
      [Socket]. LoopFlush.v: Loop.cpp's flushing of peers and the commands of Command.cpp that
      send and disconnect, over the states of PeerManager.v and PeerSend.v. PeerStorage.v: the
      storages of the frames in the queues of a peer, over SharedBuffer.v.
    - RpcCalls.v: the waiting callbacks of a peer (RPCEnvironment, Peer.cpp,
      OnReturnCallback.cpp), over any [MapImpl]. RpcRegistry.v: the registered functions and
      RpcName. RpcDispatch.v: from received bytes to executed functions and callbacks
      (Peer.cpp, RPCEnvironment.cpp, MessageConverter.hpp, PeerFlagsArgumentsReader.cpp).
      Converters.v: the three kinds of converters of MessageConverter.hpp and the objects that
      functions change.
    - CommandsBuffer.v: CommandsBuffer.cpp and CommandsBufferHandler.cpp. BufferMoves.v: buffers
      as objects that are moved and destroyed. CommandQueue.v:
      CommandExecutionQueue.cpp; the concurrent queue is the class [ConcurrentQueue], and
      [QueueLaws] promises what moodycamel does: the commands of one producer stay in order.
      Where a file has a queue that is a list, one thread fills it.
      CommandHandle.v: Command.hpp. BatchWriter.v: MultiBatchWriter.cpp and MapLoop.hpp.
      Coroutines.v: the awaitable of CommandExecutionQueue and CoroutineHelper.hpp, as
      interleaved steps of the threads of the queues.
    - SendPaths.v: the overloads of [Send] and [Disconnect] of Peer.cpp and PeerHandle.cpp,
      over LoopFlush.v, CommandsBuffer.v, CommandQueue.v and BatchWriter.v; a way to send is
      an instance of the class [SendRoute].
    - ConnectCommands.v: the requests of Host.cpp to connect, over HostLifecycle.v; uSockets is
      the class [Connecting].
    - LoopControl.v: the flags, the thread and the waiting of Loop.cpp, as interleaved steps.
      HostCommands.v: the commands of Host.cpp, HostUStcp.cpp and Loop.cpp that listen, stop
      listening and destroy; the listening of uSockets is the class [Listening].
    - LoopIteration.v: one iteration of a loop (Loop.cpp, Host.cpp, RPCEnvironment.cpp), which
      joins SendPaths.v, CommandQueue.v, LoopFlush.v and RpcCalls.v. Delivery.v: the path of a
      message from the sending thread to the decoder of the other process. RpcSend.v:
      [RPCEnvironment::Send] (RPCEnvironment.hpp), on the whole path to the remote function.
    - UsLoop.v: LoopUS.cpp and the contexts of HostUStcp.cpp, the object that owns the uSockets
      loop, over LoopIteration.v; what uSockets answers and calls back is an input.
    - ReturnCallback.v: OnReturnCallback.hpp and OnReturnCallback.cpp, the functions a program
      passes to a call, over the events of RpcCalls.v.
    - LoopAutoIndex.v: LoopAutoIndex.cpp. MapPeerHandle.v: MapPeerHandle.hpp.
    - CString.v: [std::string], [sprintf] and [sscanf] as far as the code uses them.
      Time.v, TimeString.v and TimeOps.v: Time.cpp and Time.hpp, dates, timestamps as text, and
      their arithmetic.
    - LogPath.v, LogName.v, Log.v: Debug.cpp, the paths, the function names, the lines and
      files of the log. LogMacros.v: the macros of Debug.hpp. FramePrint.v: names and frames as
      text (RpcName.cpp, ByteBuffer.cpp).
    - UdpHost.v: the packet ring and the identities of HostUStcpUdp.cpp; the UDP socket is the
      class [UdpSocket]. UdpPeer.v: the socket and buffers of a UDP host and the peers of
      PeerUStcpUdp.cpp. HandleHash.v: the hash of PeerHandle.hpp. Dns.v: DNS.cpp; the resolver is the class [Resolver].
    - ChatServer.v, ChatClient.v: examples/chat_server.cpp and examples/chat_client.cpp, programs
      on top of HostLifecycle.v and RpcSend.v. Example1.v: examples/example1.cpp, over RpcSend.v,
      RpcDispatch.v and ReturnCallback.v.

    ** How the code is modelled

    A computation returns an [option]; [None] is a failed [assert], a null or dangling pointer,
    an access outside a vector or block, or a loop that used up its fuel, so a theorem that
    a run returns [Some] excludes all of these. State is passed explicitly as records with the
    fields of the code. Unsigned arithmetic that can leave its range is wrapped ([u8], [u32],
    [u64]); offsets, sizes and addresses are integers. Objects that several parts share (peer
    data, storages, converters, command objects) live in a store indexed by identity, with the
    pointers of the code as keys. Code outside the repository is a class with named laws
    ([Allocator], [Socket], [ConcurrentQueue], the codecs of bitscpp), and each theorem that
    depends on one has a witness with a concrete instance.

    ** What the theorems show

    - Data structures refine their abstract counterparts under every sequence of operations:
      the hash map a finite map, the flush set a finite set, the buffer a list of bytes, the
      registry a map from names to functions, the slots and handles a partial map with one
      owner per handle, byte writers the bytes that were written to each, moved commands
      buffers a map of queues.
    - Sharing: the questions of other threads about peers are answered, in every interleaving
      with the writes of the loop, for the peers at one moment of the question and without a
      race ([shared_reads_are_linearizable]); the flags of a peer tell what happened to it and
      never go back ([peer_flags_only_advance]).
    - Streams: whatever pieces bytes arrive in, the decoder delivers exactly the frames of
      the stream; what a peer was given to send is what the socket accepted plus what is
      still pending; frames written are the frames read, and headers read back
      ([header_round_trip]).
    - Calls: a call, its transport in any pieces, the execution of the function, the answer
      and the callback form one theorem from end to end ([remote_call_end_to_end]); calls
      without an answer are followed from the thread that makes them, through the loop, to
      the function ([remote_functions_run_once]); callbacks and the functions of the user run
      at most once.
    - Ownership: reference counts are exact, commands run or are released once, connections
      are reported closed once, released handles never resolve again. A connect error of a
      socket that leads to a peer is the one event that stops a host, and only in a build that
      checks assertions ([every_connection_disconnects_once], [peer_flags_only_advance]).
    - Scheduling: a peer with something to send is always in the flush set, one pass visits
      each such peer once; commands of buffers and handlers keep their order and do not overlap
      ([commands_buffer_layout]), those of queues keep the order of each thread
      ([execute_runs_commands_in_order]), unless a command executes the queue itself
      ([reentrant_command_overtakes]).
    - Delivery: if the sockets accept what they are offered, messages sent in any way by one
      thread are on the wire after one iteration, and the other process, whatever pieces the
      bytes arrive in, gets exactly these messages in order ([messages_are_delivered]); a
      check for timeouts removes only expired callbacks, and can reach each of them
      ([timeout_checks_remove_only_expired_calls]).
    - Equivalence: every way to send a frame gives the peer the same bytes in the same order;
      a connection does with the bytes of its socket what it would do alone, whatever the
      others receive.
    - Callbacks: a request that names a peer by its handle reaches this peer or none, also when
      its slot is used again, and closed connections are announced once each and in order;
      methods of objects see the calls in order, and answers carry the ids and the results of
      their calls; a call that waits in a queue does there what it would have done at once.
    - Coroutines: in every interleaving in which no awaitable is written too late a coroutine
      does its work once, in order and on the thread of the queue it awaited. Within one thread
      no awaitable is; when a coroutine moves to another thread it can be
      ([await_suspend_writes_a_released_frame]), and such a run fails.
    - The loop on uSockets: whichever callbacks come, the turns of a big iteration are a sequence
      of commands, events and flushes in their order; the end executes every command and
      leaves no host, context or timer ([destroyed_us_loop_is_released]).
    - Programs: the nicknames of the chat server belong to connected peers, and its messages go
      to the right readers; the first example counts to three and exits with 0.
    - End of life: no iteration runs after the wait for the loop's thread returned, none begins
      while a stop is queued, and a destroyed loop has answered every request to listen with
      its own result; every request to connect is answered once, with the peer of its
      socket.
    - Text: timestamps survive printing and parsing, a log line has its fields in order, its
      file is never used after it was closed, paths and function names are cleaned in finitely
      many steps; names can be read back from their text, and a printed frame shows its parts.
    - UDP, which the source does not use yet: every packet of the ring is sent once, slots are
      never overwritten before they are sent, identities are unique; which sockets and buffers are never released
      is counted exactly.
    - Failures of the code are stated the same way, as theorems about the same definitions
      (for example [growing_the_map_sends_frames_twice], [rehash_shrink_out_of_bounds],
      [failed_connect_stops], [stop_before_start_is_lost]).

    ** Bounds and fuel

    Every fuel is a number of rounds the code cannot exceed, and the theorems prove that the
    run returns: chain walks of the hash map get the number of entries, the decoder's loop two
    rounds per byte, [_InternalSend] its one recursive call, [append] and [reserve] their
    mutual depth, the queue's [Execute] the commands plus the rounds its penalty allows, the
    date loops the days and the twelve months, the loops over paths and names the length of
    the text, the search for an identity one round more than there are peers. Size hypotheses such as [2^28] for bodies,
    [2^30] for buffers and maps and [2^31] for counts are those of the code's integer widths
    and assertions.

    ** What is not modelled

    The inside of uSockets, bitscpp, rpmalloc and the concurrent queue, which are not part of the
    repository: that [us_loop_run] returns, and that an iteration ends after a wake-up, is not
    claimed. The queue of LoopIteration.v and UsLoop.v holds the commands that send and
    disconnect; the commands that connect, listen, call and destroy are in the files of their
    functions, each with a queue of its own kind. Also not modelled: queues that are destroyed
    while coroutines wait in them; the clocks, [Sleep] and the conversions of times to [double]; the SSL options,
    which are only handed to uSockets; the packets of the experimental UDP transport, which are
    commented out in the source, and the sending of its peers, which names a field that
    [SendFrameStruct] does not have; PrintDetailsAboutFrame, whose body is behind [if (false)];
    FlatCuckooHashMap.hpp, which is commented out; MapLoop::Set and Get and the wrapper of
    MapPeerHandle.hpp, which nothing instantiates; the console and the set-up of the example
    programs. *)

From stdpp Require Export base list gmap sets.
From Stdlib Require Export ZArith Lia.

Declare Scope icon7_scope.
Delimit Scope icon7_scope with icon7.

Open Scope Z_scope.

(** ** Machine integers *)

(** [uint8_t], [uint32_t] and [uint64_t] values are integers of the range; arithmetic
    that can leave the range is wrapped explicitly, the way the C++ code wraps. *)
Definition u8 (x : Z) : Z := x mod 2 ^ 8.
Definition u32 (x : Z) : Z := x mod 2 ^ 32.
Definition u64 (x : Z) : Z := x mod 2 ^ 64.

(** The value of a [uint32_t] read as [int] (two's complement). *)
Definition i32 (x : Z) : Z :=
  let y := u32 x in if y <? 2 ^ 31 then y else y - 2 ^ 32.

Definition is_u8 (x : Z) : Prop := 0 <= x < 2 ^ 8.
Definition is_u32 (x : Z) : Prop := 0 <= x < 2 ^ 32.
Definition is_u64 (x : Z) : Prop := 0 <= x < 2 ^ 64.

(** ** Failure: a false [assert], a null dereference or an out-of-range access *)

(** A computation that can stop the program is an [option]; [None] is the stop. *)
Notation "'let*' p := c 'in' k" := (match c with Some p => k | None => None end)
  (at level 10, p pattern, c at level 200, k at level 200,
   format "'[v' let*  p  :=  c  in '/' k ']'") : icon7_scope.
Notation "'assert*' b 'in' k" := (if b then k else None)
  (at level 10, b at level 200, k at level 200,
   format "'[v' assert*  b  in '/' k ']'") : icon7_scope.
Open Scope icon7_scope.

(** ** Vectors and memory blocks *)

(** [std::vector] sizes and indices are integers. *)
Definition zlen {A} (l : list A) : Z := Z.of_nat (length l).

(** [v[i]]: [None] is the out-of-range access. *)
Definition vget {A} (v : list A) (i : Z) : option A :=
  if i <? 0 then None else v !! Z.to_nat i.

(** [v[i] = x]: [None] is the out-of-range access. *)
Definition vset {A} (v : list A) (i : Z) (x : A) : option (list A) :=
  if (0 <=? i) && (i <? zlen v) then Some (<[Z.to_nat i := x]> v) else None.

(** [v.resize(n, x)]. *)
Definition vresize {A} (v : list A) (n : Z) (x : A) : list A :=
  take (Z.to_nat n) v ++ replicate (Z.to_nat (n - zlen v)) x.

(** The [n] bytes at offset [off] of a block. *)
Definition slice {A} (off n : Z) (mem : list A) : list A :=
  take (Z.to_nat n) (drop (Z.to_nat off) mem).

(** [memcpy(mem + at, src, src.size())]: [None] when the target leaves the block. *)
Definition memcpy {A} (mem : list A) (at_ : Z) (src : list A) : option (list A) :=
  if (0 <=? at_) && (at_ + zlen src <=? zlen mem) then
    Some (take (Z.to_nat at_) mem ++ src ++ drop (Z.to_nat (at_ + zlen src)) mem)
  else None.

(** The little-endian value of some bytes. *)
Fixpoint le_load (l : list Z) : Z :=
  match l with
  | [] => 0
  | b :: l => b + 256 * le_load l
  end.

Arguments u8 : simpl never.
Arguments u32 : simpl never.
Arguments u64 : simpl never.
Arguments i32 : simpl never.
Arguments zlen : simpl never.
Arguments Z.shiftr : simpl never.
Arguments Z.shiftl : simpl never.
Arguments Z.pow : simpl never.
Arguments Z.land : simpl never.
Arguments Z.lor : simpl never.

(** ** Automation *)

Create HintDb icon7.
Create Rewrite HintDb icon7_len.

(** Decide every integer comparison a goal or a hypothesis branches on. *)
Ltac cmp_step :=
  match goal with
  | |- context [?a <? ?b] => destruct (Z.ltb_spec a b)
  | |- context [?a <=? ?b] => destruct (Z.leb_spec a b)
  | |- context [?a =? ?b] => destruct (Z.eqb_spec a b)
  | H : context [?a <? ?b] |- _ => destruct (Z.ltb_spec a b)
  | H : context [?a <=? ?b] |- _ => destruct (Z.leb_spec a b)
  | H : context [?a =? ?b] |- _ => destruct (Z.eqb_spec a b)
  end.
Ltac cmp := repeat (cmp_step; try lia; simpl in *; try discriminate).

(** Take apart the binds of a hypothesis that says a computation returned. *)
Ltac inv_bind H :=
  repeat match type of H with
  | (match ?c with Some _ => _ | None => None end) = Some _ =>
      let E := fresh "E" in destruct c eqn:E; [ | discriminate H ]
  | (if ?b then _ else None) = Some _ =>
      let E := fresh "A" in destruct b eqn:E; [ | discriminate H ]
  end.

(** ** Generic lemmas *)

Section Vectors.
Context {A : Type}.
Implicit Types (l v src mem : list A) (i n off : Z) (x : A).

Lemma zlen_nonneg l : 0 <= zlen l.
Proof. unfold zlen. lia. Qed.

Lemma zlen_nil : zlen (@nil A) = 0.
Proof. done. Qed.

Lemma zlen_cons x l : zlen (x :: l) = 1 + zlen l.
Proof. unfold zlen. simpl. lia. Qed.

Lemma zlen_app l1 l2 : zlen (l1 ++ l2) = zlen l1 + zlen l2.
Proof. unfold zlen. rewrite length_app. lia. Qed.

Lemma zlen_insert l (k : nat) x : zlen (<[k := x]> l) = zlen l.
Proof. unfold zlen. by rewrite length_insert. Qed.

Lemma zlen_0_nil l : zlen l = 0 -> l = [].
Proof. unfold zlen. intros. apply length_zero_iff_nil. lia. Qed.

Lemma zlen_take l (k : nat) : zlen (take k l) = Z.min (Z.of_nat k) (zlen l).
Proof. unfold zlen. rewrite length_take. lia. Qed.

Lemma zlen_drop l (k : nat) : zlen (drop k l) = Z.max 0 (zlen l - Z.of_nat k).
Proof. unfold zlen. rewrite length_drop. lia. Qed.

Lemma zlen_replicate (k : nat) x : zlen (replicate k x) = Z.of_nat k.
Proof. unfold zlen. by rewrite length_replicate. Qed.

Lemma zlen_slice off n mem :
  0 <= off -> 0 <= n -> off + n <= zlen mem -> zlen (slice off n mem) = n.
Proof. intros. unfold slice. rewrite zlen_take, zlen_drop. lia. Qed.

Lemma slice_nil off mem : slice off 0 mem = [].
Proof. done. Qed.

Lemma memcpy_in_range mem at_ src :
  0 <= at_ -> at_ + zlen src <= zlen mem ->
  memcpy mem at_ src =
    Some (take (Z.to_nat at_) mem ++ src ++ drop (Z.to_nat (at_ + zlen src)) mem).
Proof. intros. unfold memcpy. by cmp. Qed.

Lemma memcpy_zlen mem at_ src mem' :
  memcpy mem at_ src = Some mem' -> zlen mem' = zlen mem.
Proof.
  unfold memcpy. intros H. cmp. injection H as <-.
  rewrite !zlen_app, zlen_take, zlen_drop. pose proof (zlen_nonneg src). lia.
Qed.

(** The bytes a [memcpy] writes after [n] bytes already there. *)
Lemma slice_memcpy_append mem off n src mem' :
  0 <= off -> 0 <= n ->
  memcpy mem (off + n) src = Some mem' ->
  slice off (n + zlen src) mem' = slice off n mem ++ src.
Proof.
  intros Ho Hn. unfold memcpy. intros H. cmp. injection H as <-.
  pose proof (zlen_nonneg src). unfold slice, zlen in *.
  rewrite drop_app_le by (rewrite length_take; lia).
  replace (Z.to_nat (off + n)) with (Z.to_nat off + Z.to_nat n)%nat by lia.
  rewrite skipn_firstn_comm, Nat.add_comm, Nat.add_sub.
  rewrite take_app_ge by (rewrite length_take, length_drop; lia).
  f_equal. rewrite length_take, length_drop, take_app_le by lia.
  apply take_ge. lia.
Qed.

(** Writing in front of a region leaves it as it was. *)
Lemma slice_memcpy_before mem off n at_ src mem' :
  at_ + zlen src <= off -> memcpy mem at_ src = Some mem' ->
  slice off n mem' = slice off n mem.
Proof.
  intros Ho. unfold memcpy. intros H. cmp. injection H as <-.
  pose proof (zlen_nonneg src). unfold slice, zlen in *. f_equal.
  rewrite drop_app_ge by (rewrite length_take; lia).
  rewrite drop_app_ge by (rewrite length_take; lia).
  rewrite drop_drop, length_take. f_equal. lia.
Qed.

(** A region that starts where the [memcpy] wrote. *)
Lemma slice_memcpy_at mem at_ n src mem' :
  0 <= n -> memcpy mem at_ src = Some mem' ->
  slice at_ (zlen src + n) mem' = src ++ slice (at_ + zlen src) n mem.
Proof.
  intros Hn. unfold memcpy. intros H. cmp. injection H as <-.
  pose proof (zlen_nonneg src). unfold slice, zlen in *.
  rewrite drop_app_ge by (rewrite length_take; lia).
  rewrite length_take_le by lia. rewrite Nat.sub_diag, drop_0.
  replace (Z.to_nat (Z.of_nat (length src) + n)) with (length src + Z.to_nat n)%nat by lia.
  by rewrite take_app_add.
Qed.

Lemma slice_split mem off n k :
  0 <= off -> 0 <= k <= n -> slice off n mem = slice off k mem ++ slice (off + k) (n - k) mem.
Proof.
  intros. unfold slice.
  replace (Z.to_nat n) with (Z.to_nat k + Z.to_nat (n - k))%nat by lia.
  replace (Z.to_nat (off + k)) with (Z.to_nat off + Z.to_nat k)%nat by lia.
  rewrite <- drop_drop, <- (take_take_drop (drop (Z.to_nat off) mem) (Z.to_nat k)). done.
Qed.

Lemma vget_lookup v (k : nat) : vget v (Z.of_nat k) = v !! k.
Proof. unfold vget. cmp. by rewrite Nat2Z.id. Qed.

Lemma vget_Some_range v i x : vget v i = Some x -> 0 <= i < zlen v.
Proof.
  unfold vget, zlen. intros H. cmp. apply lookup_lt_Some in H. lia.
Qed.

Lemma vget_nil i : vget (@nil A) i = None.
Proof. unfold vget. by destruct (i <? 0). Qed.

Lemma vget_is_Some v i : 0 <= i < zlen v -> exists x, vget v i = Some x.
Proof.
  unfold vget, zlen. intros. cmp. apply lookup_lt_is_Some_2. lia.
Qed.

Lemma vset_in_range v i x : 0 <= i < zlen v -> vset v i x = Some (<[Z.to_nat i := x]> v).
Proof. intros. unfold vset. by cmp. Qed.

Lemma vset_Some v i x v' :
  vset v i x = Some v' -> 0 <= i < zlen v /\ v' = <[Z.to_nat i := x]> v.
Proof. unfold vset. intros H. cmp. by injection H as <-. Qed.

Lemma vset_is_Some v i x : 0 <= i < zlen v -> exists v', vset v i x = Some v'.
Proof. intros. rewrite vset_in_range by done. eauto. Qed.

Lemma vset_zlen v i x v' : vset v i x = Some v' -> zlen v' = zlen v.
Proof. intros [_ ->]%vset_Some. apply zlen_insert. Qed.

Lemma vget_vset v i x v' j :
  vset v i x = Some v' -> vget v' j = if j =? i then Some x else vget v j.
Proof.
  intros [Hr ->]%vset_Some. unfold vget, zlen in *.
  destruct (Z.ltb_spec j 0); destruct (Z.eqb_spec j i); subst; try lia; try done.
  - rewrite list_lookup_insert_eq by lia. done.
  - rewrite list_lookup_insert_ne by lia. done.
Qed.

Lemma vget_snoc v x i : vget (v ++ [x]) i = if i =? zlen v then Some x else vget v i.
Proof.
  unfold vget, zlen. destruct (Z.ltb_spec i 0).
  - destruct (Z.eqb_spec i (Z.of_nat (length v))); [ lia | done ].
  - destruct (Z.eqb_spec i (Z.of_nat (length v))) as [-> | Hn].
    + rewrite Nat2Z.id. apply list_lookup_middle. done.
    + destruct (Z.ltb_spec i (Z.of_nat (length v))).
      * rewrite lookup_app_l by lia. done.
      * rewrite !lookup_ge_None_2; [ done | lia | rewrite length_app; simpl; lia ].
Qed.

Lemma vget_take v (k : nat) i :
  vget (take k v) i = if i <? Z.of_nat k then vget v i else None.
Proof.
  unfold vget. destruct (Z.ltb_spec i 0).
  - by destruct (i <? Z.of_nat k).
  - destruct (Z.ltb_spec i (Z.of_nat k)).
    + apply lookup_take_lt. lia.
    + apply lookup_take_ge. lia.
Qed.

Lemma vget_elem v i x : vget v i = Some x -> x ∈ v.
Proof. unfold vget. intros H. cmp. eauto using list_elem_of_lookup_2. Qed.

Lemma elem_vget v x : x ∈ v -> exists i, vget v i = Some x.
Proof.
  intros [i Hi]%list_elem_of_lookup. exists (Z.of_nat i). by rewrite vget_lookup.
Qed.

(** Overwriting an element and dropping a copy of the new value: the multiset loses the
    old element. *)
Lemma swap_remove_perm l (k : nat) a b :
  l !! k = Some a -> <[k := b]> l ++ [a] ≡ₚ l ++ [b].
Proof.
  intros Hk. pose proof (lookup_lt_Some _ _ _ Hk) as Hlt.
  rewrite <- (take_drop_middle l k a) at 2 by done.
  rewrite insert_take_drop by done.
  rewrite <- !app_assoc. apply Permutation_app_head. simpl.
  rewrite <- !Permutation_cons_append. apply perm_swap.
Qed.

(** Moving the last element of a vector into slot [k] and dropping the last slot. *)
Lemma move_last_perm l (k : nat) a b :
  l !! k = Some a -> l !! (length l - 1)%nat = Some b -> (k < length l - 1)%nat ->
  a :: take (length l - 1) (<[k := b]> l) ≡ₚ l.
Proof.
  intros Ha Hb Hk. destruct l as [|c l0 _] using rev_ind; [ done | ].
  rewrite length_app in *. simpl in *.
  replace (length l0 + 1 - 1)%nat with (length l0) in * by lia.
  rewrite list_lookup_middle in Hb by done. simplify_eq.
  rewrite lookup_app_l in Ha by done. rewrite insert_app_l by done.
  rewrite take_app_le by (rewrite length_insert; lia).
  rewrite take_ge by (rewrite length_insert; lia).
  rewrite <- swap_remove_perm by done. apply Permutation_cons_append.
Qed.

Lemma zlen_vresize v n x : 0 <= n -> zlen (vresize v n x) = n.
Proof.
  intros. unfold vresize. rewrite zlen_app, zlen_take, zlen_replicate. lia.
Qed.

Lemma vget_vresize v n x i : zlen v <= n ->
  vget (vresize v n x) i = if (zlen v <=? i) && (i <? n) then Some x else vget v i.
Proof.
  intros Hn. unfold vget, vresize, zlen in *. destruct (Z.ltb_spec i 0).
  - by rewrite (proj2 (Z.leb_gt _ i)) by lia.
  - rewrite take_ge by lia.
    destruct (Z.leb_spec (Z.of_nat (length v)) i); simpl.
    + rewrite lookup_app_r by lia. destruct (Z.ltb_spec i n).
      * apply lookup_replicate_2. lia.
      * rewrite !lookup_ge_None_2; [ done | lia | rewrite length_replicate; lia ].
    + by rewrite lookup_app_l by lia.
Qed.

End Vectors.

#[export] Hint Rewrite @zlen_app @zlen_take @zlen_drop @zlen_insert @zlen_cons @zlen_nil
  @zlen_replicate : icon7_len.
#[export] Hint Resolve zlen_nonneg : icon7.

(** Unsigned wrap-around is the identity inside the range. *)
Lemma u32_small x : is_u32 x -> u32 x = x.
Proof. apply Z.mod_small. Qed.

Lemma u64_small x : is_u64 x -> u64 x = x.
Proof. apply Z.mod_small. Qed.

Lemma u32_range x : is_u32 (u32 x).
Proof. apply Z.mod_pos_bound. done. Qed.

Lemma u8_range x : is_u8 (u8 x).
Proof. apply Z.mod_pos_bound. done. Qed.

Lemma i32_small x : 0 <= x < 2 ^ 31 -> i32 x = x.
Proof. intros. unfold i32. rewrite u32_small by (unfold is_u32; lia). by cmp. Qed.

Lemma le_load_bound l : Forall is_u8 l -> 0 <= le_load l < 2 ^ (8 * zlen l).
Proof.
  induction 1 as [|b l Hb _ IH]; cbn [le_load]; [ done | ]. rewrite zlen_cons.
  pose proof (zlen_nonneg l). replace (8 * (1 + zlen l)) with (8 + 8 * zlen l) by lia.
  rewrite Z.pow_add_r by lia. unfold is_u8 in Hb. lia.
Qed.

Lemma le_load_byte l i b :
  Forall is_u8 l -> vget l i = Some b -> le_load l / 2 ^ (8 * i) mod 256 = b.
Proof.
  intros Hl. revert i. induction Hl as [|c l Hc _ IH]; intros i Hi.
  { apply vget_Some_range in Hi. unfold zlen in Hi. simpl in Hi. lia. }
  pose proof (vget_Some_range _ _ _ Hi) as Hr. cbn [le_load]. unfold is_u8 in Hc.
  change (2 ^ 8) with 256 in Hc. destruct (Z.eq_dec i 0) as [-> | Hn].
  - change (2 ^ (8 * 0)) with 1. unfold vget in Hi. simpl in Hi. simplify_eq.
    rewrite Z.div_1_r, (Z.mul_comm 256), Z.mod_add by lia. apply Z.mod_small. lia.
  - replace (8 * i) with (8 + 8 * (i - 1)) by lia. rewrite Z.pow_add_r, <- Z.div_div by lia.
    change (2 ^ 8) with 256. rewrite (Z.mul_comm 256), Z.div_add, (Z.div_small c), Z.add_0_l by lia.
    apply IH. unfold vget in *. cmp. by replace (Z.to_nat i) with (S (Z.to_nat (i - 1))) in Hi by lia.
Qed.

Lemma le_load_app l l' : le_load (l ++ l') = le_load l + 2 ^ (8 * zlen l) * le_load l'.
Proof.
  induction l as [|b l IH]; [ change (le_load l' = 0 + 1 * le_load l'); lia | ].
  rewrite zlen_cons. cbn [app le_load]. rewrite IH. pose proof (zlen_nonneg l).
  replace (8 * (1 + zlen l)) with (8 + 8 * zlen l) by lia. rewrite Z.pow_add_r by lia. lia.
Qed.

(** ** Interfaces between components *)

(** What a hash map promises to its clients: the operations return on every table that
    satisfies the representation invariant, and act as the finite map the table stands
    for. [map_limit] is the number of entries up to which an insertion is guaranteed. *)
Class MapImpl (T K V : Type) `{Countable K} := {
  map_inv : T -> Prop;
  map_abs : T -> gmap K V;
  map_limit : Z;
  map_get : T -> K -> option (option V);
  map_set : T -> K -> V -> option T;
  map_remove : T -> K -> option T;
  map_get_ok : forall t k, map_inv t -> map_get t k = Some (map_abs t !! k);
  map_set_ok : forall t k x, map_inv t -> Z.of_nat (size (map_abs t)) < map_limit ->
    exists t', map_set t k x = Some t' /\ map_inv t' /\ map_abs t' = <[k := x]> (map_abs t);
  map_remove_ok : forall t k, map_inv t ->
    exists t', map_remove t k = Some t' /\ map_inv t' /\ map_abs t' = delete k (map_abs t)
}.
