(* ===== verification/CString.v ===== *)
(** * C and C++ strings

    What src/Time.cpp and src/Debug.cpp use of [std::string], [sprintf], [sscanf] and [atoi].
    A string is the list of its characters' codes. Positions are integers; the functions that
    throw or read outside of the string return [None] there. *)

From Stdlib Require Import Ascii String.
From S2P Require Import Prelude.

Module CString.

Definition chars (s : string) : list Z :=
  map (fun c => Z.of_nat (nat_of_ascii c)) (list_ascii_of_string s).

(** ** std::string *)

Definition starts_with (p s : list Z) : bool := bool_decide (take (length p) s = p).

Definition ends_with (s p : list Z) : bool :=
  bool_decide (drop (length s - length p) s = p).

(** [s.find(p)]: the first position, [None] is [npos]. *)
Fixpoint find_nat (s p : list Z) : option nat :=
  if starts_with p s then Some O
  else match s with
       | [] => None
       | _ :: s => S <$> find_nat s p
       end.

Definition find (s p : list Z) : option Z := Z.of_nat <$> find_nat s p.

(** The last position [<= from] at which [p] stands. *)
Fixpoint rfind_from (from : nat) (s p : list Z) : option nat :=
  if starts_with p (drop from s) && (from + length p <=? length s)%nat then Some from
  else match from with
       | O => None
       | S from => rfind_from from s p
       end.

(** [s.rfind(p, pos)]. *)
Definition rfind (s p : list Z) (pos : Z) : option Z :=
  Z.of_nat <$> rfind_from (Z.to_nat (Z.min pos (zlen s))) s p.

(** [s.replace(pos, len, r)] and [s.erase(pos, len)] throw when [pos] is behind the end; a
    length that leaves the string is cut. *)
Definition replace (s : list Z) (pos len : Z) (r : list Z) : option (list Z) :=
  if (0 <=? pos) && (pos <=? zlen s)
  then Some (take (Z.to_nat pos) s ++ r ++ drop (Z.to_nat (pos + len)) s)
  else None.

Definition erase (s : list Z) (pos len : Z) : option (list Z) := replace s pos len [].

(** ** sprintf *)

(** The [n] lowest decimal digits of [x]. *)
Fixpoint digits (n : nat) (x : Z) : list Z :=
  match n with
  | O => []
  | S n => digits n (x / 10) ++ [48 + x mod 10]
  end.

(** The number of decimal digits of [x]; a 64-bit integer has at most 20. *)
Fixpoint ndigits (fuel : nat) (x : Z) : nat :=
  match fuel with
  | O => O
  | S fuel => if x =? 0 then O else S (ndigits fuel (x / 10))
  end.

(** ["%P.Pi"] with a precision [P] of at least 1. *)
Definition print_int (prec : nat) (x : Z) : list Z :=
  (if x <? 0 then [45] else []) ++ digits (Nat.max prec (ndigits 20 (Z.abs x))) (Z.abs x).

(** ["%+i"]. *)
Definition print_signed (x : Z) : list Z :=
  (if x <? 0 then [45] else [43]) ++ digits (Nat.max 1 (ndigits 20 (Z.abs x))) (Z.abs x).

(** Printing into a buffer with room for [cap] characters and the final zero. *)
Definition sprintf (cap : Z) (s : list Z) : option (list Z) :=
  assert* zlen s <=? cap in Some s.

(** ** sscanf and atoi *)

Definition is_digit (c : Z) : bool := (48 <=? c) && (c <=? 57).

Definition is_space (c : Z) : bool := (c =? 32) || ((9 <=? c) && (c <=? 13)).

Fixpoint skip_spaces (s : list Z) : list Z :=
  match s with
  | c :: s' => if is_space c then skip_spaces s' else s
  | [] => []
  end.

Fixpoint scan_digits (s : list Z) (acc : Z) : Z * list Z :=
  match s with
  | c :: s' => if is_digit c then scan_digits s' (acc * 10 + (c - 48)) else (acc, s)
  | [] => (acc, [])
  end.

(** The sign in front of a number: negative or not, and the rest. *)
Definition scan_sign (s : list Z) : bool * list Z :=
  match s with
  | 45 :: s => (true, s)
  | 43 :: s => (false, s)
  | _ => (false, s)
  end.

Definition starts_with_digit (s : list Z) : bool :=
  match s with c :: _ => is_digit c | [] => false end.

(** One ["%d"]: white space, a sign, digits. [None] is a matching failure. *)
Definition scan_int (s : list Z) : option (Z * list Z) :=
  let '(neg, s) := scan_sign (skip_spaces s) in
  if starts_with_digit s then
    let '(x, s) := scan_digits s 0 in Some (if neg then - x else x, s)
  else None.

(** A format is a list of ["%d"] and of characters that must be there. *)
Inductive directive := PercentD | Exactly (c : Z).

(** The values that were converted before the first mismatch. *)
Fixpoint sscanf (fmt : list directive) (s : list Z) : list Z :=
  match fmt with
  | [] => []
  | Exactly c :: fmt =>
      match s with
      | c' :: s => if c =? c' then sscanf fmt s else []
      | [] => []
      end
  | PercentD :: fmt =>
      match scan_int s with
      | Some (x, s) => x :: sscanf fmt s
      | None => []
      end
  end.

Definition atoi (s : list Z) : Z := match scan_int s with Some (x, _) => x | None => 0 end.

(** ** Numbers *)

Lemma length_digits n x : length (digits n x) = n.
Proof. revert x. induction n as [|n IH]; intros x; [ done | ]. cbn [digits]. rewrite length_app, IH. simpl. lia. Qed.

Lemma digits_mod n x : digits n (x mod 10 ^ Z.of_nat n) = digits n x.
Proof.
  revert x. induction n as [|n IH]; intros x; [ done | ]. cbn [digits].
  replace (10 ^ Z.of_nat (S n)) with (10 * 10 ^ Z.of_nat n) by (rewrite Nat2Z.inj_succ, Z.pow_succ_r; lia).
  assert (0 < 10 ^ Z.of_nat n) by (apply Z.pow_pos_nonneg; lia).
  rewrite Z.rem_mul_r by lia. f_equal; [ | f_equal; f_equal ].
  - rewrite <- (IH (x / 10)). f_equal. replace (x mod 10 + 10 * (x / 10 mod 10 ^ Z.of_nat n)) with (x mod 10 + x / 10 mod 10 ^ Z.of_nat n * 10) by lia.
    rewrite Z.div_add, Z.div_small by (lia || (apply Z.mod_pos_bound; lia)). lia.
  - replace (x mod 10 + 10 * (x / 10 mod 10 ^ Z.of_nat n)) with (x mod 10 + x / 10 mod 10 ^ Z.of_nat n * 10) by lia.
    rewrite Z.mod_add, Z.mod_mod by lia. done.
Qed.

(** Digits split at every place. *)
Lemma digits_add a b x : digits (a + b) x = digits a (x / 10 ^ Z.of_nat b) ++ digits b x.
Proof.
  revert x. induction b as [|b IH]; intros x.
  - rewrite Nat.add_0_r. change (10 ^ Z.of_nat 0) with 1. by rewrite Z.div_1_r, app_nil_r.
  - rewrite Nat.add_succ_r. cbn [digits]. rewrite IH, app_assoc. do 3 f_equal.
    rewrite Z.div_div by (lia || (apply Z.pow_pos_nonneg; lia)). f_equal. rewrite Nat2Z.inj_succ, Z.pow_succ_r; lia.
Qed.

Lemma digits_zero n : digits n 0 = replicate n 48.
Proof.
  induction n as [|n IH]; [ done | ]. cbn [digits]. change (0 / 10) with 0. rewrite IH.
  change (48 + 0 mod 10) with 48. by rewrite <- replicate_cons_app.
Qed.

(** Appending zeros multiplies. *)
Lemma digits_shift a b x : 0 <= x -> digits a x ++ replicate b 48 = digits (a + b) (x * 10 ^ Z.of_nat b).
Proof.
  intros Hx. rewrite digits_add, Z.div_mul by (apply Z.pow_nonzero; lia). f_equal.
  by rewrite <- digits_mod, Z.mod_mul, digits_zero by (apply Z.pow_nonzero; lia).
Qed.

Lemma digits_Forall n x : Forall (fun c => is_digit c = true) (digits n x).
Proof.
  revert x. induction n as [|n IH]; intros x; [ done | ]. cbn [digits]. apply Forall_app. split; [ done | ].
  apply Forall_singleton. unfold is_digit. pose proof (Z.mod_pos_bound x 10). cmp.
Qed.

Lemma digit_not_space c : is_digit c = true -> is_space c = false /\ c <> 45 /\ c <> 43 /\ c <> 85.
Proof. unfold is_digit, is_space. intros H. split_and!; cmp. Qed.

Lemma scan_digits_digits n x acc s : 0 <= x < 10 ^ Z.of_nat n ->
  scan_digits (digits n x ++ s) acc = scan_digits s (acc * 10 ^ Z.of_nat n + x).
Proof.
  revert x acc s. induction n as [|n IH]; intros x acc s Hx.
  - change (10 ^ Z.of_nat 0) with 1 in *. simpl. f_equal. lia.
  - rewrite Nat2Z.inj_succ, Z.pow_succ_r in * by lia. cbn [digits]. rewrite <- app_assoc, IH
      by (split; [ apply Z.div_pos; lia | apply Z.div_lt_upper_bound; lia ]).
    pose proof (Z.mod_pos_bound x 10). pose proof (Z.div_mod x 10). cbn [app scan_digits].
    replace (is_digit (48 + x mod 10)) with true by (unfold is_digit; cmp). f_equal. lia.
Qed.

Lemma scan_digits_end s acc : starts_with_digit s = false -> scan_digits s acc = (acc, s).
Proof. destruct s as [|c s]; [ done | ]. simpl. by intros ->. Qed.

(** Digits are read back as the number they stand for. *)
Lemma scan_int_digits n x s : 0 <= x < 10 ^ Z.of_nat n -> (0 < n)%nat -> starts_with_digit s = false ->
  scan_int (digits n x ++ s) = Some (x, s).
Proof.
  intros Hx Hn Hs. unfold scan_int. pose proof (digits_Forall n x) as Hd. pose proof (length_digits n x) as Hl.
  pose proof (scan_digits_digits n x 0 s Hx) as Hscan. destruct (digits n x) as [|c l]; [ simpl in Hl; lia | ].
  apply Forall_cons in Hd as [Hc _]. destruct (digit_not_space c Hc) as (Hsp & H45 & H43 & _).
  cbn [app skip_spaces] in *. rewrite Hsp.
  assert (scan_sign (c :: l ++ s) = (false, c :: l ++ s)) as ->.
  { unfold scan_sign. repeat case_match; congruence. }
  cbn [starts_with_digit]. rewrite Hc, Hscan, Z.mul_0_l, Z.add_0_l, scan_digits_end by done. done.
Qed.

(** With a sign in front. *)
Lemma scan_int_signed n x s (neg : bool) : 0 <= x < 10 ^ Z.of_nat n -> (0 < n)%nat -> starts_with_digit s = false ->
  scan_int ((if neg then 45 else 43) :: digits n x ++ s) = Some (if neg then - x else x, s).
Proof.
  intros Hx Hn Hs. unfold scan_int. pose proof (digits_Forall n x) as Hd. pose proof (length_digits n x) as Hl.
  pose proof (scan_digits_digits n x 0 s Hx) as Hscan. rewrite Z.mul_0_l, Z.add_0_l, (scan_digits_end s) in Hscan by done.
  destruct (digits n x) as [|c l]; [ simpl in Hl; lia | ]. apply Forall_cons in Hd as [Hc _].
  destruct neg; cbn; cbn in Hscan; rewrite Hc in *; by rewrite Hscan.
Qed.

Lemma ndigits_bound fuel x : 0 <= x < 10 ^ Z.of_nat fuel -> x < 10 ^ Z.of_nat (ndigits fuel x).
Proof.
  revert x. induction fuel as [|fuel IH]; intros x Hx; [ apply Hx | ]. cbn [ndigits].
  destruct (Z.eqb_spec x 0) as [-> | Hn]; [ done | ].
  rewrite Nat2Z.inj_succ, Z.pow_succ_r in * by lia.
  specialize (IH (x / 10) ltac:(split; [ apply Z.div_pos; lia | apply Z.div_lt_upper_bound; lia ])).
  pose proof (Z.div_mod x 10). pose proof (Z.mod_pos_bound x 10). lia.
Qed.

Lemma ndigits_small n fuel x : 0 <= x < 10 ^ Z.of_nat n -> (ndigits fuel x <= n)%nat.
Proof.
  revert fuel x. induction n as [|n IH]; intros [|fuel] x Hx; cbn [ndigits]; try lia.
  - change (10 ^ Z.of_nat 0) with 1 in Hx. rewrite (proj2 (Z.eqb_eq x 0)); lia.
  - destruct (Z.eqb_spec x 0); [ lia | ]. rewrite Nat2Z.inj_succ, Z.pow_succ_r in Hx by lia.
    specialize (IH fuel (x / 10) ltac:(split; [ apply Z.div_pos; lia | apply Z.div_lt_upper_bound; lia ])). lia.
Qed.

(** A number that fits its precision is printed with exactly that many digits. *)
Lemma print_int_digits n x : 0 <= x < 10 ^ Z.of_nat n -> print_int n x = digits n x.
Proof.
  intros Hx. unfold print_int. rewrite (proj2 (Z.ltb_ge x 0)), Z.abs_eq by lia.
  pose proof (ndigits_small n 20 x Hx). by rewrite Nat.max_l.
Qed.

(** A number printed with its sign is read back. *)
Lemma scan_print_signed x s : - 10 ^ 20 < x < 10 ^ 20 -> starts_with_digit s = false ->
  scan_int (print_signed x ++ s) = Some (x, s).
Proof.
  intros Hx Hs. unfold print_signed. set (n := Nat.max 1 (ndigits 20 (Z.abs x))).
  assert (0 <= Z.abs x < 10 ^ Z.of_nat n) as Hb.
  { split; [ lia | ]. pose proof (ndigits_bound 20 (Z.abs x) ltac:(lia)).
    apply Z.lt_le_trans with (10 ^ Z.of_nat (ndigits 20 (Z.abs x))); [ done | ]. apply Z.pow_le_mono_r; lia. }
  pose proof (scan_int_signed n (Z.abs x) s (x <? 0) Hb ltac:(lia) Hs) as E.
  destruct (Z.ltb_spec x 0); cbn [app]; cbn [app] in E; rewrite E; do 2 f_equal; lia.
Qed.

(** ** Searching *)

Lemma starts_with_spec p s : starts_with p s = true <-> exists r, s = p ++ r.
Proof.
  unfold starts_with. rewrite bool_decide_eq_true. split.
  - intros H. exists (drop (length p) s). by rewrite <- H at 1; rewrite take_drop.
  - intros [r ->]. by rewrite take_app_length.
Qed.

(** A position that is found is an occurrence, and no occurrence is before it. *)
Lemma find_nat_Some s p n : find_nat s p = Some n -> exists x y, s = x ++ p ++ y /\ length x = n.
Proof.
  revert n. induction s as [|c s IH]; intros n; cbn [find_nat]; destruct (starts_with p _) eqn:Hp.
  1, 3: intros [= <-]; apply starts_with_spec in Hp as [r ->]; by exists [], r.
  - done.
  - intros (m & Hm & ->)%fmap_Some. destruct (IH m Hm) as (x & y & -> & Hx). exists (c :: x), y. simpl. split; [ done | by rewrite Hx ].
Qed.

Lemma find_nat_None s p : find_nat s p = None <-> forall x y, s <> x ++ p ++ y.
Proof.
  induction s as [|c s IH]; cbn [find_nat]; destruct (starts_with p _) eqn:Hp.
  1, 3: apply starts_with_spec in Hp as [r Hr]; split; [ done | intros H; by destruct (H [] r) ].
  - split; [ | done ]. intros _ x y H. symmetry in H. apply app_nil in H as [-> [-> _]%app_nil]. by rewrite (proj2 (starts_with_spec [] [])) in Hp by by exists [].
  - rewrite fmap_None, IH. split.
    + intros H [|c' x] y E; simplify_eq/=; [ | by apply (H x y) ].
      rewrite (proj2 (starts_with_spec _ _)) in Hp; [ done | ]. by exists y.
    + intros H x y ->. by apply (H (c :: x) y).
Qed.

(** A single character is found exactly when it is there. *)
Lemma find_nat_char_None s c : find_nat s [c] = None <-> c ∉ s.
Proof.
  rewrite find_nat_None. split.
  - intros H (x & y & ->)%list_elem_of_split. by apply (H x y).
  - intros H x y ->. set_solver.
Qed.

Lemma find_Some s p n : find s p = Some n -> exists x y, s = x ++ p ++ y /\ zlen x = n.
Proof. unfold find. intros (m & (x & y & -> & <-)%find_nat_Some & ->)%fmap_Some. by exists x, y. Qed.

Lemma find_None s p : find s p = None <-> forall x y, s <> x ++ p ++ y.
Proof. unfold find. by rewrite fmap_None, find_nat_None. Qed.

(** The last occurrence up to a position. *)
Lemma rfind_from_Some from s p n : rfind_from from s p = Some n ->
  exists x y, s = x ++ p ++ y /\ length x = n /\ (n <= from)%nat /\
    forall x' y', s = x' ++ p ++ y' -> (length x' <= from)%nat -> (length x' <= n)%nat.
Proof.
  assert (forall k, starts_with p (drop k s) && (k + length p <=? length s)%nat = true -> exists x y, s = x ++ p ++ y /\ length x = k) as Hhit.
  { intros k [[r Hr]%starts_with_spec Hl%Nat.leb_le]%andb_true_iff. exists (take k s), r. rewrite <- Hr, take_drop, length_take. split; [ done | lia ]. }
  induction from as [|from IH]; cbn [rfind_from].
  - destruct (_ && _) eqn:E; [ | done ]. intros [= <-]. destruct (Hhit _ E) as (x & y & Hs & Hx). exists x, y. eauto.
  - destruct (starts_with p (drop (S from) s) && (S from + length p <=? length s)%nat) eqn:E.
    + intros [= <-]. destruct (Hhit _ E) as (x & y & Hs & Hx). exists x, y. eauto.
    + intros H. destruct (IH H) as (x & y & Hs & Hx & Hn & Hlast). exists x, y. split_and!; try done; [ lia | ].
      intros x' y' Hs' Hle. destruct (decide (length x' = S from)) as [Heq | Hne]; [ | apply (Hlast x' y' Hs'); lia ].
      exfalso. revert E. rewrite Hs', <- Heq, drop_app_length, andb_false_iff. intros [Hf | Hf].
      * rewrite (proj2 (starts_with_spec _ _)) in Hf; [ done | by exists y' ].
      * apply Nat.leb_gt in Hf. rewrite !length_app in Hf. lia.
Qed.

Lemma rfind_from_None from s p : rfind_from from s p = None ->
  forall x y, s = x ++ p ++ y -> (from < length x)%nat.
Proof.
  intros H x y ->. revert H. induction from as [|from IH]; cbn [rfind_from]; destruct (_ && _) eqn:E; try done; intros H.
  - destruct x as [|c x]; [ | simpl; lia ]. revert E. cbn [app]. rewrite drop_0, andb_false_iff. intros [Hf | Hf].
    + rewrite (proj2 (starts_with_spec _ _)) in Hf; [ done | by exists y ].
    + apply Nat.leb_gt in Hf. rewrite !length_app in Hf. lia.
  - specialize (IH H). destruct (decide (length x = S from)) as [Heq | Hne]; [ | lia ].
    exfalso. revert E. rewrite <- Heq, drop_app_length, andb_false_iff. intros [Hf | Hf].
    + rewrite (proj2 (starts_with_spec _ _)) in Hf; [ done | by exists y ].
    + apply Nat.leb_gt in Hf. rewrite !length_app in Hf. lia.
Qed.

Lemma rfind_Some s p pos n : 0 <= pos <= zlen s -> rfind s p pos = Some n ->
  exists x y, s = x ++ p ++ y /\ zlen x = n /\ n <= pos /\
    forall x' y', s = x' ++ p ++ y' -> zlen x' <= pos -> zlen x' <= n.
Proof.
  unfold rfind. intros Hp (m & Hm & ->)%fmap_Some. rewrite Z.min_l in Hm by lia.
  apply rfind_from_Some in Hm as (x & y & Hs & Hx & Hm & Hlast). exists x, y. unfold zlen. split_and!; try done; try lia.
  intros x' y' E Hle. specialize (Hlast x' y' E). lia.
Qed.

Lemma rfind_None s p pos : 0 <= pos <= zlen s -> rfind s p pos = None ->
  forall x y, s = x ++ p ++ y -> pos < zlen x.
Proof.
  unfold rfind. intros Hp Hn x y E. rewrite fmap_None, Z.min_l in Hn by lia.
  pose proof (rfind_from_None _ _ _ Hn x y E). unfold zlen. lia.
Qed.

(** Replacing what was found. *)
Lemma replace_found x p y r len : len = zlen p -> replace (x ++ p ++ y) (zlen x) len r = Some (x ++ r ++ y).
Proof.
  intros ->. unfold replace. pose proof (zlen_nonneg x). pose proof (zlen_nonneg (p ++ y)).
  rewrite (proj2 (Z.leb_le 0 _)), (proj2 (Z.leb_le (zlen x) _)) by (rewrite ?zlen_app in *; lia). cbn [andb].
  replace (Z.to_nat (zlen x + zlen p)) with (length (x ++ p)) by (rewrite length_app; unfold zlen; lia).
  unfold zlen at 1. rewrite Nat2Z.id, take_app_length, (app_assoc x p y), drop_app_length. done.
Qed.

End CString.
