(* ===== verification/Hash.v ===== *)
(** * Hash functions of the hash map (include/icon7/Hash.hpp)

    [Hash32] and [Hash64] are one step of the FNV hash. The code multiplies by the FNV
    prime with shifts and additions ([ICON7_USE_FNV_MULT = false]); the theorems show that
    the shifts compute the same value as the multiplication branch, that every [Hash<K>]
    specialisation returns a [uint32_t], and that the block loop over a string consumes
    every byte and leaves a tail that fits the eight bytes it is copied to. *)

From S2P Require Import Prelude.

Definition ICON7_USE_FNV_MULT : bool := false.

Definition StartHash32 : Z := 0x811c9dc5.
Definition StartHash64 : Z := 0xcbf29ce484222325.

(** Both branches of the [if constexpr], selected by [mult]. *)
Definition Hash32_with (mult : bool) (a b : Z) : Z :=
  let prime := 0x01000193 in
  let h := Z.lxor b a in
  if mult then u32 (h * prime)
  else
    let a := u32 (h + u32 (Z.shiftl h 1)) in
    let b := u32 (u32 (Z.shiftl h 24) + u32 (Z.shiftl h 4)) in
    u32 (u32 (b + a) + u32 (Z.shiftl a 7)).

Definition Hash32 (a b : Z) : Z := Hash32_with ICON7_USE_FNV_MULT a b.

Definition Hash64_with (mult : bool) (a b : Z) : Z :=
  let prime := 0x00000100000001b3 in
  let h := Z.lxor b a in
  if mult then u64 (h * prime)
  else
    let a := u64 (h + u64 (Z.shiftl h 1)) in
    let b := u64 (Z.shiftl h 40) in
    u64 (u64 (u64 (b + a) + u64 (Z.shiftl a 4)) + u64 (Z.shiftl a 7)).

Definition Hash64 (a b : Z) : Z := Hash64_with ICON7_USE_FNV_MULT a b.

(** [Hash<K>::hash(k, base)] for each key type; [base] is a [uint64_t] and the argument
    of [Hash32] truncates it to 32 bits, the result truncates to 32 bits. *)
Definition hash_uint64 (k base : Z) : Z := u32 (Hash64 k base).
Definition hash_uint32 (k base : Z) : Z := Hash32 k (u32 base).
Definition hash_int32 (k base : Z) : Z := Hash32 (u32 k) (u32 base).
Definition hash_int64 (k base : Z) : Z := Hash32 (u32 (u64 k)) (u32 base).

(** [memcpy(&v, ptr + i, n)] into the eight bytes of [v = 0]: [None] when it writes past
    them. *)
Definition load_tail (l : list Z) : option Z :=
  if zlen l <=? 8 then Some (le_load l) else None.

(** The block loop: [i + 8 < size] with a 32-bit [i]; the list is the string from [i]. *)
Fixpoint hash_blocks (fuel : nat) (size i h : Z) (rest : list Z) : option (Z * list Z) :=
  match fuel with
  | O => None
  | S fuel =>
      if u32 (i + 8) <? size then
        hash_blocks fuel size (u32 (i + 8)) (Hash64 h (le_load (take 8 rest))) (drop 8 rest)
      else Some (h, rest)
  end.

Definition hash_string (k : list Z) (base : Z) : option Z :=
  let size := u32 (zlen k) in
  let* (h, rest) := hash_blocks (S (length k)) size 0 base k in
  let* v := load_tail rest in
  Some (u32 (Hash64 h v)).

(** ** Lemmas *)

(** Congruence modulo [m] goes through sums and products. *)
Lemma cong_add m a b a' b' :
  a mod m = a' mod m -> b mod m = b' mod m -> (a + b) mod m = (a' + b') mod m.
Proof. intros Ha Hb. by rewrite Zplus_mod, Ha, Hb, <- Zplus_mod. Qed.

Lemma cong_mul m a b a' : a mod m = a' mod m -> (a * b) mod m = (a' * b) mod m.
Proof. intros Ha. by rewrite <- Zmult_mod_idemp_l, Ha, Zmult_mod_idemp_l. Qed.

Ltac cong :=
  rewrite ?Zmod_mod;
  first [ reflexivity | apply cong_add; cong | apply cong_mul; cong ].

Lemma Hash32_with_shift a b : Hash32_with false a b = Hash32_with true a b.
Proof.
  unfold Hash32_with, u32. rewrite !Z.shiftl_mul_pow2 by lia.
  generalize (Z.lxor b a). intros h.
  replace (h * 0x01000193) with (h * 2 ^ 24 + h * 2 ^ 4 + (h + h * 2 ^ 1) + (h + h * 2 ^ 1) * 2 ^ 7)
    by lia.
  cong.
Qed.

Lemma Hash64_with_shift a b : Hash64_with false a b = Hash64_with true a b.
Proof.
  unfold Hash64_with, u64. rewrite !Z.shiftl_mul_pow2 by lia.
  generalize (Z.lxor b a). intros h.
  replace (h * 0x00000100000001b3) with
    (h * 2 ^ 40 + (h + h * 2 ^ 1) + (h + h * 2 ^ 1) * 2 ^ 4 + (h + h * 2 ^ 1) * 2 ^ 7) by lia.
  cong.
Qed.

Lemma Hash32_range a b : is_u32 (Hash32 a b).
Proof. unfold Hash32. cbn. apply u32_range. Qed.

Lemma hash_blocks_tail fuel size i h rest :
  (length rest < fuel)%nat -> 0 <= i -> size < 2 ^ 32 - 8 -> i + zlen rest = size ->
  exists h' tail,
    hash_blocks fuel size i h rest = Some (h', tail) /\ zlen tail <= 8
    /\ (rest <> [] -> tail <> []) /\ exists blocks, rest = blocks ++ tail /\ (8 | zlen blocks).
Proof.
  revert i h rest. induction fuel as [|fuel IH]; intros i h rest Hf Hi Hs Hl; [lia|].
  simpl. unfold zlen in Hl. rewrite u32_small by (unfold is_u32; lia). cmp.
  - assert (length rest > 8)%nat by lia.
    edestruct (IH (i + 8) (Hash64 h (le_load (take 8 rest))) (drop 8 rest))
      as (h' & tail & Hr & Ht & Hn & blocks & Hb & Hd); [ | lia | lia | | ].
    { rewrite length_drop. lia. }
    { rewrite zlen_drop. unfold zlen. lia. }
    exists h', tail. repeat split; [ done | done | | ].
    + intros _. apply Hn. intros E. apply (f_equal length) in E. rewrite length_drop in E.
      simpl in E. lia.
    + exists (take 8 rest ++ blocks). split.
      * by rewrite <- app_assoc, <- Hb, take_drop.
      * rewrite zlen_app, zlen_take. apply Z.divide_add_r; [ | done ].
        exists 1. unfold zlen. lia.
  - exists h, rest. repeat split; [ unfold zlen; lia | done | ].
    exists []. split; [ done | exists 0; done ].
Qed.

(** ** Properties *)

(** The shift-and-add form of both FNV steps equals the multiplication by the FNV
    prime, the branch [ICON7_USE_FNV_MULT] selects when it is true. *)
Theorem hash_shift_is_fnv_mult a b :
  Hash32 a b = u32 (Z.lxor b a * 0x01000193)
  /\ Hash64 a b = u64 (Z.lxor b a * 0x00000100000001b3).
Proof. split; [ apply Hash32_with_shift | apply Hash64_with_shift ]. Qed.

(** Hashing a string of fewer than [2^32 - 8] bytes returns, the final [memcpy] stays
    inside the eight bytes of its target and the result is a [uint32_t]. *)
Theorem hash_string_total k base :
  zlen k < 2 ^ 32 - 8 -> exists h, hash_string k base = Some h /\ is_u32 h.
Proof.
  intros Hk. pose proof (zlen_nonneg k). unfold hash_string.
  rewrite u32_small by (unfold is_u32; lia).
  destruct (hash_blocks_tail (S (length k)) (zlen k) 0 base k)
    as (h' & tail & -> & Ht & _); [ lia | lia | lia | lia | ].
  unfold load_tail. cmp. eauto using u32_range.
Qed.

Lemma hash_string_total_witness : exists h, hash_string [104; 105] StartHash64 = Some h /\ is_u32 h.
Proof. apply (hash_string_total [104; 105] StartHash64). reflexivity. Defined.
