(* ===== verification/FlatHashMap.v ===== *)
(** * The flat hash map (include/icon7/FlatHashMap.hpp)

    [heads] holds, per bucket, the one-based index of the first pair of the bucket's chain
    (0 for an empty bucket); [buckets] is the dense array of pairs, each with the one-based
    index of the next pair of its chain. [Remove] keeps the array dense by moving the last
    pair into the hole. The model keeps both arrays, the 32-bit capacity arithmetic and the
    assertions; the theorems show that on every reachable map each operation returns and
    acts as the corresponding operation of a finite map ([gmap]). *)

From S2P Require Import Prelude.

Module FHM.

Record Pair (K V : Type) := mkPair { key : K; v : V; next : Z }.
Arguments mkPair {K V} _ _ _.
Arguments key {K V} _.
Arguments v {K V} _.
Arguments next {K V} _.

Record FlatHashMap (K V : Type) := mkMap { heads : list Z; buckets : list (Pair K V) }.
Arguments mkMap {K V} _ _.
Arguments heads {K V} _.
Arguments buckets {K V} _.

Definition set_next {K V} (p : Pair K V) (n : Z) : Pair K V := mkPair (key p) (v p) n.

(** The doubling loop of [RoundCapacity]; no result when it does not end. *)
Fixpoint double_until (fuel : nat) (capacity newCapacity : Z) : option Z :=
  match fuel with
  | O => None
  | S fuel =>
      if capacity <? newCapacity then double_until fuel (u32 (Z.shiftl capacity 1)) newCapacity
      else Some capacity
  end.

Definition RoundCapacity (newCapacity min : Z) : option Z :=
  let capacity := 16 in
  let minCap := u32 (min + Z.shiftr min 1 + 5) in
  let newCapacity := if newCapacity <? minCap then minCap else newCapacity in
  double_until 33 capacity newCapacity.

(** [(x & (x - 1)) == 0], the power-of-two test of the assertions. *)
Definition pow2_test (x : Z) : bool := Z.land x (x - 1) =? 0.

Section FlatHashMap.
Context {K V : Type} `{EqK : EqDecision K} `{CountK : !Countable K}.

(** [THash::hash(key, baseHash)] with the [baseHash] the map drew when it was built. *)
Context (hash : K -> Z).

Abbreviation table := (FlatHashMap K V).

Definition FlatHashMap_init (initialCapacity : Z) : option table :=
  let initialCapacity := if initialCapacity <? 16 then 16 else initialCapacity in
  assert* pow2_test initialCapacity in
  Some (mkMap (vresize [] initialCapacity 0) []).

Definition Bucket (m : table) (k : K) : option Z :=
  assert* pow2_test (zlen (heads m)) in
  Some (Z.land (hash k) (u32 (u32 (zlen (heads m)) - 1))).

(** The chain walk of [GetElement]: the one-based index of the pair with the key and of
    the pair before it in the chain, or [(0, 0)]. *)
Fixpoint walk (fuel : nat) (bs : list (Pair K V)) (k : K) (i prev : Z) : option (Z * Z) :=
  match fuel with
  | O => None
  | S fuel =>
      if i =? 0 then Some (0, 0)
      else
        let* b := vget bs (i - 1) in
        if decide (key b = k) then Some (i, prev) else walk fuel bs k (next b) i
  end.

Definition GetElement (m : table) (k : K) (bucketHead : Z) : option (Z * Z) :=
  let* b := Bucket m k in
  assert* b =? bucketHead in
  let* bucket := vget (heads m) bucketHead in
  walk (S (length (buckets m))) (buckets m) k bucket 0.

Definition Get (m : table) (k : K) : option (option V) :=
  let* bucketHead := Bucket m k in
  let* (current, prev) := GetElement m k bucketHead in
  if current =? 0 then Some None
  else
    let* p := vget (buckets m) (current - 1) in
    Some (Some (v p)).

Definition Has (m : table) (k : K) : option bool :=
  let* r := Get m k in
  Some (match r with None => false | Some _ => true end).

(** The tail of [_Insert]: push the pair in front of its chain. *)
Definition push_front (m : table) (k : K) (x : V) (bucketHead : Z) : option table :=
  let* h := vget (heads m) bucketHead in
  let bs := buckets m ++ [mkPair k x h] in
  let* hs := vset (heads m) bucketHead (u32 (zlen bs)) in
  Some (mkMap hs bs).

(** [for (i = 0; i < oldSize; ++i) heads[i] = 0]. *)
Fixpoint zero_heads (n : nat) (i : Z) (hs : list Z) : option (list Z) :=
  match n with
  | O => Some hs
  | S n => let* hs := vset hs i 0 in zero_heads n (i + 1) hs
  end.

(** [_Insert] and [Rehash] call each other; [fuel] bounds the nesting. *)
Fixpoint _Insert (fuel : nat) (m : table) (k : K) (x : V) (bucketHead : Z) : option table :=
  match fuel with
  | O => None
  | S fuel =>
      let n := zlen (buckets m) in
      if zlen (heads m) <? n + Z.shiftr n 1 then
        let* m := Rehash_ fuel m (u32 (Z.shiftl (zlen (heads m)) 1)) in
        let* bucketHead := Bucket m k in
        push_front m k x bucketHead
      else push_front m k x bucketHead
  end
with Rehash_ (fuel : nat) (m : table) (newCapacity : Z) : option table :=
  match fuel with
  | O => None
  | S fuel =>
      let* capacity := RoundCapacity newCapacity (u32 (zlen (buckets m))) in
      let oldSize := u32 (zlen (heads m)) in
      let hs := vresize (heads m) capacity 0 in
      let* hs := zero_heads (Z.to_nat oldSize) 0 hs in
      let oldBuckets := buckets m in
      (fix reinsert (ps : list (Pair K V)) (m : table) : option table :=
         match ps with
         | [] => Some m
         | p :: ps =>
             let* bucketHead := Bucket m (key p) in
             let* m := _Insert fuel m (key p) (v p) bucketHead in
             reinsert ps m
         end) oldBuckets (mkMap hs [])
  end.

(** Three levels of nesting: an insertion, the rehash it triggers, the insertions of the
    rehash. *)
Definition Insert (m : table) (k : K) (x : V) (bucketHead : Z) : option table := _Insert 3 m k x bucketHead.
Definition Rehash (m : table) (newCapacity : Z) : option table := Rehash_ 2 m newCapacity.

Definition InsertOrSet (m : table) (k : K) (x : V) : option table :=
  let* bucketHead := Bucket m k in
  let* (current, prev) := GetElement m k bucketHead in
  if current =? 0 then Insert m k x bucketHead
  else
    let* elem := vget (buckets m) (current - 1) in
    let* bs := vset (buckets m) (current - 1) (mkPair (key elem) x (next elem)) in
    Some (mkMap (heads m) bs).

(** Make the pair after [prev] of the bucket's chain (the first one when [prev] is 0) the
    pair [n]. *)
Definition set_link (m : table) (bucketHead prev n : Z) : option table :=
  if prev =? 0 then
    let* hs := vset (heads m) bucketHead n in
    Some (mkMap hs (buckets m))
  else
    let* q := vget (buckets m) (prev - 1) in
    let* bs := vset (buckets m) (prev - 1) (set_next q n) in
    Some (mkMap (heads m) bs).

(** Unlink a pair from its chain. *)
Definition unlink (m : table) (bucketHead current prev : Z) : option table :=
  let* p := vget (buckets m) (current - 1) in
  set_link m bucketHead prev (next p).

(** Move the last pair into the hole [current] and relink it. *)
Definition move_last (m : table) (current prevRem : Z) : option table :=
  let n := zlen (buckets m) in
  let* last := vget (buckets m) (n - 1) in
  let* bucketHeadLast := Bucket m (key last) in
  let* (_, prevLast) := GetElement m (key last) bucketHeadLast in
  let prevLast := if prevLast =? current then prevRem else prevLast in
  let* bs := vset (buckets m) (current - 1) last in
  let bs := take (Z.to_nat (n - 1)) bs in
  set_link (mkMap (heads m) bs) bucketHeadLast prevLast current.

Definition Remove (m : table) (k : K) : option table :=
  let n := zlen (buckets m) in
  if n =? 0 then Some m
  else if n =? 1 then
    let* p := vget (buckets m) 0 in
    if decide (key p = k) then
      let* bucketHead := Bucket m k in
      let* h := vget (heads m) bucketHead in
      assert* h =? 1 in
      let* hs := vset (heads m) bucketHead 0 in
      Some (mkMap hs [])
    else Some m
  else
    let* bucketHeadRem := Bucket m k in
    let* (current, prev) := GetElement m k bucketHeadRem in
    if current =? 0 then Some m
    else
      let* m := unlink m bucketHeadRem current prev in
      if current =? n then
        Some (mkMap (heads m) (take (Z.to_nat (n - 1)) (buckets m)))
      else
        move_last m current prev.

Definition Clear (m : table) : table :=
  if zlen (buckets m) =? 0 then m
  else mkMap (replicate (length (heads m)) 0) [].

Definition Size (m : table) : Z := u32 (zlen (buckets m)).
Definition Capacity (m : table) : Z := u32 (zlen (heads m)).

(** [GetRandom] with the drawn number [r = RandHashBase()]. *)
Definition GetRandom (m : table) (r : Z) : option (option (Pair K V)) :=
  if zlen (buckets m) =? 0 then Some None
  else
    let* p := vget (buckets m) (u32 r mod zlen (buckets m)) in
    Some (Some p).

(** The loop of [FindPrevId]: the pair before the one with the key, -1 without one. *)
Fixpoint find_prev (fuel : nat) (bs : list (Pair K V)) (k : K) (i prev : Z) : option Z :=
  match fuel with
  | O => None
  | S fuel =>
      if i =? 0 then Some (-1)
      else
        let* b := vget bs (i - 1) in
        if decide (key b = k) then Some prev else find_prev fuel bs k (next b) i
  end.

Definition FindPrevId (m : table) (bucket : Z) (k : K) : option Z :=
  let* i := vget (heads m) bucket in
  find_prev (S (length (buckets m))) (buckets m) k i 0.

Definition GetNext (m : table) (prev bucket : Z) : option Z :=
  if 0 <? prev then
    let* p := vget (buckets m) (prev - 1) in
    Some (next p)
  else if prev =? 0 then vget (heads m) bucket
  else Some 0.

(** ** The representation invariant *)

(** Following [next] from [i] through the pairs [c] leads to [j]. *)
Fixpoint seg (bs : list (Pair K V)) (i : Z) (c : list Z) (j : Z) : Prop :=
  match c with
  | [] => i = j
  | y :: c => i = y /\ exists p, vget bs (y - 1) = Some p /\ seg bs (next p) c j
  end.

(** The bucket of a key in a table with [n] heads. *)
Definition bucket_of (n : Z) (k : K) : Z := Z.land (hash k) (n - 1).

(** Bucket [b] has a finite chain of distinct pairs: those whose key belongs to [b],
    except the pair [hole] when one is being removed. *)
Definition bucket_ok (hole : Z) (m : table) (b : Z) : Prop :=
  exists h c, vget (heads m) b = Some h /\ seg (buckets m) h c 0 /\ NoDup c
    /\ forall y, y ∈ c <-> y <> hole /\ exists p, vget (buckets m) (y - 1) = Some p
                          /\ bucket_of (zlen (heads m)) (key p) = b.

Record inv_hole (hole : Z) (m : table) : Prop := {
  inv_pow2 : exists e, 4 <= e <= 31 /\ zlen (heads m) = 2 ^ e;
  inv_keys : NoDup (key <$> buckets m);
  inv_size : zlen (buckets m) < 2 ^ 32;
  inv_chain : forall b, 0 <= b < zlen (heads m) -> bucket_ok hole m b
}.

Definition inv (m : table) : Prop := inv_hole 0 m.

(** The finite map a table stands for. *)
Definition to_map (m : table) : gmap K V :=
  list_to_map ((fun p => (key p, v p)) <$> buckets m).

(** ** Chains *)

Lemma seg_app bs i c1 c2 j :
  seg bs i (c1 ++ c2) j <-> exists k, seg bs i c1 k /\ seg bs k c2 j.
Proof.
  revert i. induction c1 as [|y c1 IH]; intros i; simpl.
  - split; [ by eauto | by intros (k & -> & ?) ].
  - split.
    + intros (-> & p & Hp & (k & H1 & H2)%IH). eauto 10.
    + intros (k & (-> & p & Hp & H1) & H2). split; [ done | ]. exists p. rewrite IH. eauto.
Qed.

Lemma seg_ext bs bs' i c j :
  (forall y, y ∈ c -> vget bs' (y - 1) = vget bs (y - 1)) -> seg bs i c j -> seg bs' i c j.
Proof.
  revert i. induction c as [|y c IH]; intros i Hext; simpl; [ done | ].
  intros (-> & p & Hp & Hs). split; [ done | ]. exists p. split.
  - rewrite Hext; [ done | set_solver ].
  - apply IH; [ intros; apply Hext; set_solver | done ].
Qed.

Lemma seg_range bs i c j y : seg bs i c j -> y ∈ c -> 1 <= y <= zlen bs.
Proof.
  revert i. induction c as [|z c IH]; intros i Hs Hy; [ by apply elem_of_nil in Hy | ].
  destruct Hs as (-> & p & Hp & Hs). apply vget_Some_range in Hp.
  apply elem_of_cons in Hy as [-> | Hy]; [ lia | eauto ].
Qed.

(** The last pair of a chain prefix, [d] when it is empty. *)
Fixpoint last_or (d : Z) (c : list Z) : Z :=
  match c with
  | [] => d
  | y :: c => last_or y c
  end.

(** The walk over a chain finds the first pair with the key, or the end. *)
Lemma walk_found fuel bs k i prev c1 y c2 p :
  seg bs i (c1 ++ y :: c2) 0 -> (length c1 < fuel)%nat ->
  (forall z q, z ∈ c1 -> vget bs (z - 1) = Some q -> key q <> k) ->
  vget bs (y - 1) = Some p -> key p = k ->
  walk fuel bs k i prev = Some (y, last_or prev c1).
Proof.
  revert fuel i prev. induction c1 as [|z c1 IH]; intros [|fuel] i prev Hs Hf Hne Hy Hk;
    simpl in Hf; try lia; simpl.
  - destruct Hs as (-> & p' & Hp' & Hs). pose proof (vget_Some_range _ _ _ Hp').
    cmp. simplify_eq. rewrite Hp'. by case_decide.
  - destruct Hs as (-> & q & Hq & Hs). pose proof (vget_Some_range _ _ _ Hq).
    cmp. rewrite Hq. case_decide as E.
    { exfalso. eapply (Hne z); [ set_solver | done | done ]. }
    apply IH; [ done | lia | | done | done ].
    intros z' q' Hz'. apply Hne. set_solver.
Qed.

Lemma walk_missing fuel bs k i prev c :
  seg bs i c 0 -> (length c < fuel)%nat ->
  (forall z q, z ∈ c -> vget bs (z - 1) = Some q -> key q <> k) ->
  walk fuel bs k i prev = Some (0, 0).
Proof.
  revert fuel i prev. induction c as [|z c IH]; intros [|fuel] i prev Hs Hf Hne;
    simpl in Hf; try lia; simpl.
  - destruct Hs. by cmp.
  - destruct Hs as (-> & q & Hq & Hs). pose proof (vget_Some_range _ _ _ Hq).
    cmp. rewrite Hq. case_decide as E.
    { exfalso. eapply (Hne z); [ set_solver | done | done ]. }
    apply IH; [ done | lia | ]. intros z' q' Hz'. apply Hne. set_solver.
Qed.

(** A chain of distinct pairs is no longer than the array. *)
Lemma seg_length bs i c j : seg bs i c j -> NoDup c -> (length c <= length bs)%nat.
Proof.
  intros Hs Hnd.
  assert (c ⊆+ (Z.of_nat <$> seq 1 (length bs))) as Hsub.
  { apply NoDup_submseteq; [ done | ]. intros y Hy.
    pose proof (seg_range _ _ _ _ _ Hs Hy) as Hr. unfold zlen in Hr.
    apply list_elem_of_fmap. exists (Z.to_nat y). split; [ lia | ]. apply elem_of_seq. lia. }
  apply submseteq_length in Hsub. by rewrite length_fmap, length_seq in Hsub.
Qed.

(** ** Buckets *)

Lemma pow2_test_pow2 e : 0 <= e -> pow2_test (2 ^ e) = true.
Proof.
  intros. unfold pow2_test. rewrite <- Z.ones_equiv || rewrite Z.sub_1_r, <- Z.ones_equiv.
  rewrite Z.land_ones by lia. rewrite Z_mod_same_full. done.
Qed.

Lemma bucket_of_range e k : 0 <= e -> 0 <= bucket_of (2 ^ e) k < 2 ^ e.
Proof.
  intros. unfold bucket_of. rewrite Z.sub_1_r, <- Z.ones_equiv, Z.land_ones by lia.
  apply Z.mod_pos_bound. lia.
Qed.

Lemma Bucket_Some hole (m : table) (k : K) : inv_hole hole m ->
  Bucket m k = Some (bucket_of (zlen (heads m)) k)
  /\ 0 <= bucket_of (zlen (heads m)) k < zlen (heads m).
Proof.
  intros [(e & He & Hz) _ _ _]. unfold Bucket. rewrite Hz, pow2_test_pow2 by lia.
  assert (2 ^ e <= 2 ^ 31) by (apply Z.pow_le_mono_r; lia).
  assert (0 < 2 ^ e) by lia.
  rewrite !u32_small by (unfold is_u32; rewrite ?u32_small; unfold is_u32; lia).
  split; [ done | ]. apply bucket_of_range. lia.
Qed.

Lemma keys_inj (bs : list (Pair K V)) i j p q :
  NoDup (key <$> bs) -> vget bs i = Some p -> vget bs j = Some q -> key p = key q -> i = j.
Proof.
  intros Hnd Hp Hq Hk. pose proof (vget_Some_range _ _ _ Hp).
  pose proof (vget_Some_range _ _ _ Hq). unfold vget in *. cmp.
  enough (Z.to_nat i = Z.to_nat j) by lia.
  eapply (NoDup_lookup (key <$> bs)); [ done | | ];
    rewrite list_lookup_fmap; [ by rewrite Hp | rewrite Hq; simpl; congruence ].
Qed.

(** [GetElement] on a key that is in the array. *)
Lemma GetElement_found hole (m : table) y p :
  inv_hole hole m -> vget (buckets m) (y - 1) = Some p -> y <> hole ->
  exists h c1 c2,
    vget (heads m) (bucket_of (zlen (heads m)) (key p)) = Some h
    /\ seg (buckets m) h (c1 ++ y :: c2) 0 /\ NoDup (c1 ++ y :: c2)
    /\ (forall z, z ∈ c1 ++ y :: c2 <-> z <> hole /\ exists q, vget (buckets m) (z - 1) = Some q
           /\ bucket_of (zlen (heads m)) (key q) = bucket_of (zlen (heads m)) (key p))
    /\ GetElement m (key p) (bucket_of (zlen (heads m)) (key p)) = Some (y, last_or 0 c1).
Proof.
  intros Hinv Hy Hne. destruct (Bucket_Some _ _ (key p) Hinv) as [HB Hr].
  destruct (inv_chain _ _ Hinv _ Hr) as (h & c & Hh & Hs & Hnd & Hc).
  assert (y ∈ c) as Hin by (apply Hc; eauto).
  apply list_elem_of_split in Hin as (c1 & c2 & ->).
  exists h, c1, c2. repeat (split; [ done | ]).
  unfold GetElement. rewrite HB, Z.eqb_refl, Hh.
  eapply walk_found; [ done | | | done | done ].
  - apply seg_length in Hs; [ | done ]. rewrite length_app in Hs. simpl in Hs. lia.
  - intros z q Hz Hq Hk.
    assert (z - 1 = y - 1) by (eapply keys_inj; eauto using inv_keys).
    assert (z = y) as -> by lia. rewrite NoDup_app in Hnd.
    destruct Hnd as (_ & Hd & _). apply (Hd y Hz). set_solver.
Qed.

(** [GetElement] on a key that is not in the array. *)
Lemma GetElement_missing hole (m : table) (k : K) :
  inv_hole hole m -> k ∉ key <$> buckets m ->
  GetElement m k (bucket_of (zlen (heads m)) k) = Some (0, 0).
Proof.
  intros Hinv Hk. destruct (Bucket_Some _ _ k Hinv) as [HB Hr].
  destruct (inv_chain _ _ Hinv _ Hr) as (h & c & Hh & Hs & Hnd & Hc).
  unfold GetElement. rewrite HB, Z.eqb_refl, Hh.
  eapply walk_missing; [ done | | ].
  - apply seg_length in Hs; [ lia | done ].
  - intros z q _ Hq <-. apply Hk. unfold vget in Hq. cmp.
    apply list_elem_of_fmap. eauto using list_elem_of_lookup_2.
Qed.

(** Every key is in the array or not. *)
Lemma key_cases (m : table) (k : K) :
  (exists y p, vget (buckets m) (y - 1) = Some p /\ key p = k /\ 1 <= y)
  \/ k ∉ key <$> buckets m.
Proof.
  destruct (decide (k ∈ key <$> buckets m)) as [Hin | ]; [ left | by right ].
  apply list_elem_of_fmap in Hin as (p & -> & Hp).
  apply list_elem_of_lookup in Hp as [i Hi].
  exists (Z.of_nat i + 1), p. replace (Z.of_nat i + 1 - 1) with (Z.of_nat i) by lia.
  rewrite vget_lookup. split_and!; [ done | done | lia ].
Qed.

(** ** The abstract map *)

Lemma to_map_Some (m : table) i p :
  NoDup (key <$> buckets m) -> vget (buckets m) i = Some p -> to_map m !! key p = Some (v p).
Proof.
  intros Hnd Hp. unfold to_map. apply elem_of_list_to_map.
  - by rewrite <- list_fmap_compose.
  - apply list_elem_of_fmap. exists p. split; [ done | ].
    unfold vget in Hp. cmp. eauto using list_elem_of_lookup_2.
Qed.

Lemma to_map_None (m : table) (k : K) : k ∉ key <$> buckets m -> to_map m !! k = None.
Proof.
  intros Hk. unfold to_map. apply not_elem_of_list_to_map.
  by rewrite <- list_fmap_compose.
Qed.

Lemma Get_spec hole (m : table) (k : K) :
  inv_hole hole m -> (forall p, vget (buckets m) (hole - 1) = Some p -> key p <> k) ->
  Get m k = Some (to_map m !! k).
Proof.
  intros Hinv Hh. unfold Get. destruct (Bucket_Some _ _ k Hinv) as [-> _].
  destruct (key_cases m k) as [(y & p & Hy & <- & Hr) | Hk].
  - destruct (GetElement_found hole m y p) as (h & c1 & c2 & _ & _ & _ & _ & ->);
      [ done | done | intros ->; by eapply Hh | ].
    cmp. rewrite Hy, (to_map_Some m (y - 1)); eauto using inv_keys.
  - rewrite (GetElement_missing hole) by done. by rewrite to_map_None.
Qed.

(** ** Insertion *)

Lemma bucket_ok_head_irrelevant hole (m m' : table) b :
  buckets m' = buckets m -> zlen (heads m') = zlen (heads m) ->
  vget (heads m') b = vget (heads m) b -> bucket_ok hole m b -> bucket_ok hole m' b.
Proof.
  intros Hb Hz Hv (h & c & Hh & Hs & Hnd & Hc). exists h, c.
  rewrite Hb, Hz, Hv. done.
Qed.

Lemma push_front_spec (m : table) k x :
  inv m -> k ∉ key <$> buckets m -> zlen (buckets m) + 1 < 2 ^ 32 ->
  exists m' h, push_front m k x (bucket_of (zlen (heads m)) k) = Some m'
    /\ inv m' /\ zlen (heads m') = zlen (heads m) /\ buckets m' = buckets m ++ [mkPair k x h].
Proof.
  intros Hinv Hk Hn. destruct (Bucket_Some _ _ k Hinv) as [_ Hr].
  destruct (inv_chain _ _ Hinv _ Hr) as (h & c & Hh & Hs & Hnd & Hc).
  pose proof (zlen_nonneg (buckets m)) as Hn0.
  set (bs := buckets m ++ [mkPair k x h]).
  assert (zlen bs = zlen (buckets m) + 1) as Hzb by (unfold bs; rewrite zlen_app; done).
  destruct (vset_is_Some (heads m) _ (u32 (zlen bs)) Hr) as [hs Hhs].
  exists (mkMap hs bs), h. unfold push_front. rewrite Hh. fold bs. rewrite Hhs.
  rewrite u32_small in Hhs by (unfold is_u32; lia).
  pose proof (vset_zlen _ _ _ _ Hhs) as Hz.
  split_and!; [ done | | done | done ].
  assert (forall y p, vget (buckets m) (y - 1) = Some p -> vget bs (y - 1) = Some p) as Hold.
  { intros y p Hp. unfold bs. rewrite vget_snoc. apply vget_Some_range in Hp as ?. by cmp. }
  split; simpl.
  - rewrite Hz. apply Hinv.
  - unfold bs. rewrite fmap_app. apply NoDup_app. split_and!; [ apply Hinv | | ].
    + intros y Hy Hy'. apply list_elem_of_singleton in Hy'. simpl in Hy'. by subst.
    + apply NoDup_singleton.
  - lia.
  - intros b Hb. rewrite Hz in Hb.
    destruct (inv_chain _ _ Hinv _ Hb) as (h' & c' & Hh' & Hs' & Hnd' & Hc').
    unfold bucket_ok. simpl. rewrite Hz, (vget_vset _ _ _ _ _ Hhs).
    assert (seg bs h' c' 0) as Hs''.
    { eapply seg_ext; [ | done ]. intros y Hy. apply Hc' in Hy as (_ & p & Hp & _).
      rewrite Hp. eauto. }
    assert (zlen bs ∉ c') as Hnew.
    { intros Hy. pose proof (seg_range _ _ _ _ _ Hs' Hy). lia. }
    destruct (Z.eqb_spec b (bucket_of (zlen (heads m)) k)) as [-> | Hne].
    + exists (zlen bs), (zlen bs :: c'). split_and!; [ done | | by constructor | ].
      * split; [ done | ]. exists (mkPair k x h). split; [ | simpl; congruence ].
        unfold bs at 1. rewrite vget_snoc. by cmp.
      * intros y. rewrite elem_of_cons, Hc'. split.
        -- intros [-> | (Hy & p & Hp & Hb')]; [ | eauto 6 ].
           split; [ lia | ]. exists (mkPair k x h). unfold bs at 1. rewrite vget_snoc. by cmp.
        -- intros (Hy & p & Hp & Hb'). unfold bs in Hp. rewrite vget_snoc in Hp.
           destruct (Z.eqb_spec (y - 1) (zlen (buckets m))); [ left; lia | eauto 6 ].
    + exists h', c'. split_and!; [ done | done | done | ].
      intros y. rewrite Hc'. split; [ intros (? & p & Hp & ?); eauto 6 | ].
      intros (Hy & p & Hp & Hb'). unfold bs in Hp. rewrite vget_snoc in Hp.
      destruct (Z.eqb_spec (y - 1) (zlen (buckets m))); [ | eauto 6 ].
      by simplify_eq.
Qed.

(** ** Rehashing *)

Lemma double_until_spec fuel a t :
  0 <= a <= 31 -> t <= 2 ^ 31 -> 31 - a < Z.of_nat fuel ->
  exists e, a <= e <= 31 /\ double_until fuel (2 ^ a) t = Some (2 ^ e) /\ t <= 2 ^ e.
Proof.
  revert a. induction fuel as [|fuel IH]; intros a Ha Ht Hf; [ lia | ]. simpl.
  destruct (Z.ltb_spec (2 ^ a) t).
  - assert (a < 31) by (destruct (Z.eq_dec a 31) as [->|]; lia).
    rewrite Z.shiftl_mul_pow2, Z.mul_comm, <- Z.pow_add_r by lia.
    assert (2 ^ (1 + a) <= 2 ^ 31) by (apply Z.pow_le_mono_r; lia).
    rewrite u32_small by (unfold is_u32; lia).
    destruct (IH (1 + a)) as (e & He & -> & Hte); [ lia | done | lia | ].
    exists e. split_and!; [ lia | lia | done | done ].
  - exists a. split_and!; [ lia | lia | done | done ].
Qed.

Lemma RoundCapacity_spec newCapacity min :
  0 <= newCapacity <= 2 ^ 31 -> 0 <= min -> min + Z.shiftr min 1 + 5 <= 2 ^ 31 ->
  exists e, 4 <= e <= 31 /\ RoundCapacity newCapacity min = Some (2 ^ e)
    /\ newCapacity <= 2 ^ e /\ min + Z.shiftr min 1 + 5 <= 2 ^ e.
Proof.
  intros Hc Hm Hmin. assert (0 <= Z.shiftr min 1) by (apply Z.shiftr_nonneg; lia).
  unfold RoundCapacity. rewrite u32_small by (unfold is_u32; lia).
  set (t := if _ <? _ then _ else _).
  assert (newCapacity <= t /\ min + Z.shiftr min 1 + 5 <= t /\ t <= 2 ^ 31) as (Ht1 & Ht2 & Ht3)
    by (unfold t; cmp).
  destruct (double_until_spec 33 4 t) as (e & He & E & Hte); [ lia | lia | lia | ].
  exists e. change (2 ^ 4) with 16 in E. split_and!; [ lia | lia | done | lia | lia ].
Qed.

Lemma zero_heads_spec n i hs :
  0 <= i -> i + Z.of_nat n <= zlen hs ->
  exists hs', zero_heads n i hs = Some hs' /\ zlen hs' = zlen hs
    /\ forall j, vget hs' j = if (i <=? j) && (j <? i + Z.of_nat n) then Some 0 else vget hs j.
Proof.
  revert i hs. induction n as [|n IH]; intros i hs Hi Hn; cbn [zero_heads].
  - exists hs. split_and!; [ done | done | ]. intros j.
    destruct (Z.leb_spec i j), (Z.ltb_spec j (i + Z.of_nat 0)); simpl; try done; lia.
  - destruct (vset_is_Some hs i 0) as [hs1 E]; [ lia | ]. rewrite E.
    pose proof (vset_zlen _ _ _ _ E) as Hz.
    destruct (IH (i + 1) hs1) as (hs' & -> & Hz' & Hj); [ lia | lia | ].
    exists hs'. split_and!; [ done | lia | ]. intros j. rewrite Hj, (vget_vset _ _ _ _ _ E).
    destruct (Z.leb_spec (i + 1) j), (Z.ltb_spec j (i + 1 + Z.of_nat n)), (Z.eqb_spec j i),
      (Z.leb_spec i j), (Z.ltb_spec j (i + Z.of_nat (S n))); simpl; try done; lia.
Qed.

Lemma zero_heads_out_of_range n i hs :
  0 <= i <= zlen hs -> zlen hs < i + Z.of_nat n -> zero_heads n i hs = None.
Proof.
  revert i hs. induction n as [|n IH]; intros i hs Hi Hn; cbn [zero_heads]; [ lia | ].
  destruct (vset hs i 0) as [hs1|] eqn:E; [ | done ].
  pose proof (vset_zlen _ _ _ _ E) as Hz. apply vset_Some in E as [? _]. apply IH; lia.
Qed.

Lemma inv_empty (hs : list Z) e :
  4 <= e <= 31 -> zlen hs = 2 ^ e -> (forall b, 0 <= b < zlen hs -> vget hs b = Some 0) ->
  inv (mkMap hs []).
Proof.
  intros He Hz Hb. split; simpl.
  - eauto.
  - constructor.
  - done.
  - intros b Hr. exists 0, []. simpl. split_and!; [ by apply Hb | done | constructor | ].
    intros y. split; [ by intros ?%elem_of_nil | ].
    intros (_ & p & Hp%vget_Some_range & _). unfold zlen in Hp. simpl in Hp. lia.
Qed.

(** The key-value pairs of the array, in order. *)
Definition kvs (m : table) : list (K * V) := (fun p => (key p, v p)) <$> buckets m.

Lemma kvs_keys (m : table) : (kvs m).*1 = key <$> buckets m.
Proof. unfold kvs. by rewrite <- list_fmap_compose. Qed.

Lemma zlen_kvs (m : table) : zlen (kvs m) = zlen (buckets m).
Proof. unfold zlen, kvs. by rewrite length_fmap. Qed.

Lemma to_map_kvs (m m' : table) : kvs m = kvs m' -> to_map m = to_map m'.
Proof. unfold to_map, kvs. by intros ->. Qed.

(** An insertion that does not exceed the load factor only pushes the pair. *)
Lemma _Insert_no_rehash fuel (m : table) k x b :
  (zlen (heads m) <? zlen (buckets m) + Z.shiftr (zlen (buckets m)) 1) = false ->
  _Insert (S fuel) m k x b = push_front m k x b.
Proof. intros E. cbn. by rewrite E. Qed.

Abbreviation reinsert fuel :=
  (fix reinsert (ps : list (Pair K V)) (m : table) : option table :=
     match ps with
     | [] => Some m
     | p :: ps =>
         let* bucketHead := Bucket m (key p) in
         let* m := _Insert fuel m (key p) (v p) bucketHead in
         reinsert ps m
     end).

Lemma half_mono a b : a <= b -> Z.shiftr a 1 <= Z.shiftr b 1.
Proof. intros. rewrite !Z.shiftr_div_pow2 by lia. apply Z.div_le_mono; lia. Qed.

Lemma reinsert_spec fuel ps (m : table) :
  inv m -> NoDup ((key <$> buckets m) ++ (key <$> ps)) ->
  zlen (buckets m) + zlen ps < 2 ^ 32 ->
  (zlen (buckets m) + zlen ps) + Z.shiftr (zlen (buckets m) + zlen ps) 1 <= zlen (heads m) ->
  exists m', reinsert (S fuel) ps m = Some m' /\ inv m' /\ zlen (heads m') = zlen (heads m)
    /\ kvs m' = kvs m ++ ((fun p => (key p, v p)) <$> ps).
Proof.
  revert m. induction ps as [|p ps IH]; intros m Hinv Hnd Hn Hl.
  { exists m. rewrite app_nil_r. done. }
  rewrite zlen_cons in Hn, Hl. pose proof (zlen_nonneg ps).
  destruct (Bucket_Some _ _ (key p) Hinv) as [-> _].
  rewrite _Insert_no_rehash.
  2: { apply Z.ltb_ge. pose proof (half_mono (zlen (buckets m)) (zlen (buckets m) + (1 + zlen ps))).
       lia. }
  destruct (push_front_spec m (key p) (v p)) as (m1 & h & -> & Hinv1 & Hz1 & Hb1).
  { done. }
  { rewrite fmap_cons, NoDup_app in Hnd. destruct Hnd as (_ & Hd & _).
    intros Hin. apply (Hd _ Hin). by left. }
  { lia. }
  assert (zlen (buckets m1) = zlen (buckets m) + 1) as Hzb by (rewrite Hb1, zlen_app; done).
  destruct (IH m1) as (m' & E & Hinv' & Hz' & Hk'); [ done | | lia | | ].
  - rewrite Hb1, fmap_app, <- app_assoc. done.
  - rewrite Hz1, Hzb. replace (zlen (buckets m) + 1 + zlen ps)
      with (zlen (buckets m) + (1 + zlen ps)) by lia. lia.
  - exists m'. split_and!; [ done | done | congruence | ].
    rewrite Hk'. unfold kvs. rewrite Hb1, fmap_app, <- app_assoc. done.
Qed.

Lemma Rehash_unfold fuel (m : table) newCapacity :
  Rehash_ (S fuel) m newCapacity =
    let* capacity := RoundCapacity newCapacity (u32 (zlen (buckets m))) in
    let* hs := zero_heads (Z.to_nat (u32 (zlen (heads m)))) 0 (vresize (heads m) capacity 0) in
    reinsert fuel (buckets m) (mkMap hs []).
Proof. reflexivity. Qed.

Lemma Rehash_spec fuel (m : table) newCapacity :
  inv m -> zlen (heads m) <= newCapacity <= 2 ^ 31 ->
  zlen (buckets m) + Z.shiftr (zlen (buckets m)) 1 + 5 <= 2 ^ 31 ->
  exists m', Rehash_ (S (S fuel)) m newCapacity = Some m' /\ inv m' /\ kvs m' = kvs m
    /\ newCapacity <= zlen (heads m')
    /\ zlen (buckets m) + Z.shiftr (zlen (buckets m)) 1 + 5 <= zlen (heads m').
Proof.
  intros Hinv Hc Hn. pose proof (zlen_nonneg (heads m)). pose proof (zlen_nonneg (buckets m)).
  assert (0 <= Z.shiftr (zlen (buckets m)) 1) by (apply Z.shiftr_nonneg; lia).
  rewrite Rehash_unfold, !u32_small by (unfold is_u32; lia).
  destruct (RoundCapacity_spec newCapacity (zlen (buckets m))) as (e & He & -> & He1 & He2);
    [ lia | lia | lia | ].
  assert (0 <= 2 ^ e) by lia.
  destruct (zero_heads_spec (Z.to_nat (zlen (heads m))) 0 (vresize (heads m) (2 ^ e) 0))
    as (hs & -> & Hz & Hj); [ done | rewrite zlen_vresize; lia | ].
  rewrite zlen_vresize in Hz by lia.
  destruct (reinsert_spec fuel (buckets m) (mkMap hs [])) as (m' & E & Hinv' & Hz' & Hk'); cbn [heads buckets].
  - apply (inv_empty _ e); [ done | done | ]. intros b Hb. rewrite Hj.
    destruct (Z.leb_spec 0 b), (Z.ltb_spec b (0 + Z.of_nat (Z.to_nat (zlen (heads m))))); simpl;
      try done; try lia.
    unfold vresize, vget. cmp. rewrite lookup_app_r by (rewrite length_take; unfold zlen in *; lia).
    apply lookup_replicate_2. rewrite length_take. unfold zlen in *. lia.
  - apply Hinv.
  - rewrite zlen_nil. lia.
  - rewrite zlen_nil, !Z.add_0_l, Hz. lia.
  - exists m'. rewrite E. simpl in Hz'. split_and!; [ done | done | done | lia | lia ].
Qed.

Lemma Insert_spec (m : table) k x :
  inv m -> k ∉ key <$> buckets m -> zlen (buckets m) < 2 ^ 30 ->
  exists m', Insert m k x (bucket_of (zlen (heads m)) k) = Some m' /\ inv m'
    /\ kvs m' = kvs m ++ [(k, x)] /\ zlen (heads m) <= zlen (heads m').
Proof.
  intros Hinv Hk Hn. unfold Insert. pose proof (zlen_nonneg (buckets m)).
  destruct (zlen (heads m) <? zlen (buckets m) + Z.shiftr (zlen (buckets m)) 1) eqn:El.
  - assert (Z.shiftr (zlen (buckets m)) 1 <= 2 ^ 29) as Hh
      by (rewrite Z.shiftr_div_pow2 by lia; apply Z.div_le_upper_bound; lia).
    apply Z.ltb_lt in El as El'.
    destruct (inv_pow2 _ _ Hinv) as (e & He & Hz).
    assert (e <= 30) as He30.
    { destruct (Z.eq_dec e 31) as [-> | ]; [ | lia ]. lia. }
    assert (2 ^ e <= 2 ^ 30) by (apply Z.pow_le_mono_r; lia).
    change (_Insert 3 m k x ?b) with (let n := zlen (buckets m) in
      if zlen (heads m) <? n + Z.shiftr n 1 then
        let* m := Rehash_ 2 m (u32 (Z.shiftl (zlen (heads m)) 1)) in
        let* bucketHead := Bucket m k in
        push_front m k x bucketHead
      else push_front m k x b).
    cbv zeta. rewrite El, Z.shiftl_mul_pow2, u32_small by (unfold is_u32; lia).
    destruct (Rehash_spec 0 m (zlen (heads m) * 2 ^ 1)) as (m1 & -> & Hinv1 & Hk1 & Hc1 & _);
      [ done | lia | lia | ].
    destruct (Bucket_Some _ _ k Hinv1) as [-> _].
    destruct (push_front_spec m1 k x) as (m' & h & -> & Hinv' & Hz' & Hb').
    { done. } { by rewrite <- kvs_keys, Hk1, kvs_keys. }
    { rewrite <- zlen_kvs, Hk1, zlen_kvs. lia. }
    exists m'. split_and!; [ done | done | | lia ].
    unfold kvs at 1. rewrite Hb', fmap_app. fold (kvs m1). by rewrite Hk1.
  - rewrite _Insert_no_rehash by done.
    destruct (push_front_spec m k x) as (m' & h & -> & Hinv' & Hz' & Hb'); [ done | done | lia | ].
    exists m'. split_and!; [ done | done | | lia ].
    unfold kvs at 1. rewrite Hb', fmap_app. done.
Qed.

Lemma to_map_snoc (m m' : table) k x :
  k ∉ key <$> buckets m -> kvs m' = kvs m ++ [(k, x)] -> to_map m' = <[k := x]> (to_map m).
Proof.
  intros Hk E. unfold to_map. fold (kvs m'). fold (kvs m). rewrite E.
  rewrite list_to_map_app. simpl. rewrite insert_empty.
  rewrite <- insert_union_singleton_r.
  - done.
  - apply not_elem_of_list_to_map. by rewrite kvs_keys.
Qed.

(** Replacing the value of a pair keeps the chains. *)
Lemma set_value_spec (m : table) y p x bs :
  inv m -> vget (buckets m) (y - 1) = Some p ->
  vset (buckets m) (y - 1) (mkPair (key p) x (next p)) = Some bs ->
  inv (mkMap (heads m) bs) /\ to_map (mkMap (heads m) bs) = <[key p := x]> (to_map m).
Proof.
  intros Hinv Hp Hs.
  assert (Hkeys : key <$> bs = key <$> buckets m).
  { apply vset_Some in Hs as [Hr ->]. rewrite list_fmap_insert. simpl. apply list_insert_id.
    rewrite list_lookup_fmap. unfold vget in Hp. cmp. by rewrite Hp. }
  assert (Hnx : forall z q, vget (buckets m) (z - 1) = Some q ->
            exists q', vget bs (z - 1) = Some q' /\ key q' = key q /\ next q' = next q).
  { intros z q Hq. rewrite (vget_vset _ _ _ _ _ Hs).
    destruct (Z.eqb_spec (z - 1) (y - 1)) as [E | ]; [ | eauto ].
    rewrite E in Hq. simplify_eq. eauto. }
  assert (Hxn : forall z q', vget bs (z - 1) = Some q' ->
            exists q, vget (buckets m) (z - 1) = Some q /\ key q' = key q).
  { intros z q'. rewrite (vget_vset _ _ _ _ _ Hs).
    destruct (Z.eqb_spec (z - 1) (y - 1)) as [E | ]; [ | eauto ].
    intros [= <-]. rewrite E. eauto. }
  split.
  - split; simpl; [ apply Hinv | rewrite Hkeys; apply Hinv
      | rewrite (vset_zlen _ _ _ _ Hs); apply Hinv | ].
    intros b Hb. destruct (inv_chain _ _ Hinv _ Hb) as (h & c & Hh & Hc & Hnd & Hm).
    exists h, c. simpl. split_and!; [ done | | done | ].
    + clear -Hc Hnx. revert h Hc. induction c as [|z c IH]; intros h; simpl; [ done | ].
      intros (-> & q & Hq & Hc). destruct (Hnx _ _ Hq) as (q' & Hq' & _ & Hn).
      split; [ done | ]. exists q'. rewrite Hn. eauto.
    + intros z. rewrite Hm. split; intros (Hz & q & Hq & Hb').
      * destruct (Hnx _ _ Hq) as (q' & Hq' & Hk & _). split; [ done | ]. exists q'.
        by rewrite Hk.
      * destruct (Hxn _ _ Hq) as (q' & Hq' & Hk). split; [ done | ]. exists q'.
        by rewrite <- Hk.
  - apply map_eq. intros k. destruct (decide (k = key p)) as [-> | Hne].
    + rewrite lookup_insert_eq.
      apply (to_map_Some (mkMap (heads m) bs) (y - 1) (mkPair (key p) x (next p))).
      * simpl. rewrite Hkeys. apply Hinv.
      * simpl. rewrite (vget_vset _ _ _ _ _ Hs). by rewrite Z.eqb_refl.
    + rewrite lookup_insert_ne by done.
      destruct (key_cases m k) as [(z & q & Hq & <- & _) | Hk].
      * rewrite (to_map_Some m (z - 1) q) by (done || apply Hinv).
        apply (to_map_Some (mkMap (heads m) bs) (z - 1) q); simpl.
        { rewrite Hkeys. apply Hinv. }
        rewrite (vget_vset _ _ _ _ _ Hs).
        destruct (Z.eqb_spec (z - 1) (y - 1)) as [E | ]; [ | done ].
        rewrite E in Hq. by simplify_eq.
      * rewrite !to_map_None; [ done | done | ]. simpl. by rewrite Hkeys.
Qed.

Lemma InsertOrSet_spec (m : table) k x :
  inv m -> zlen (buckets m) < 2 ^ 30 ->
  exists m', InsertOrSet m k x = Some m' /\ inv m' /\ to_map m' = <[k := x]> (to_map m).
Proof.
  intros Hinv Hn. unfold InsertOrSet. destruct (Bucket_Some _ _ k Hinv) as [-> _].
  destruct (key_cases m k) as [(y & p & Hy & <- & Hr) | Hk].
  - destruct (GetElement_found 0 m y p) as (h & c1 & c2 & _ & _ & _ & _ & ->);
      [ done | done | lia | ].
    cmp. rewrite Hy. apply vget_Some_range in Hy as Hrange.
    destruct (vset_is_Some (buckets m) (y - 1) (mkPair (key p) x (next p)) Hrange) as [bs E].
    rewrite E. eexists. split; [ done | ]. eapply set_value_spec; eauto.
  - rewrite (GetElement_missing 0), Z.eqb_refl by done.
    destruct (Insert_spec m k x) as (m' & -> & Hinv' & Hkv & _); [ done | done | done | ].
    exists m'. split_and!; [ done | done | ]. by apply to_map_snoc.
Qed.

(** ** Removal *)

Lemma kvs_mem (m m' : table) y (P : K -> Prop) :
  kvs m = kvs m' -> (exists p, vget (buckets m) y = Some p /\ P (key p)) ->
  exists p, vget (buckets m') y = Some p /\ P (key p).
Proof.
  intros E (p & Hp & HP). unfold vget in *. cmp.
  apply (f_equal (lookup (Z.to_nat y))) in E. unfold kvs in E.
  rewrite !list_lookup_fmap, Hp in E. simpl in E.
  destruct (buckets m' !! Z.to_nat y) as [p' | ]; [ | done ].
  simpl in E. simplify_eq. exists p'. split; [ done | congruence ].
Qed.

Lemma last_or_snoc d c q : last_or d (c ++ [q]) = q.
Proof. revert d. induction c as [|y c IH]; intros d; simpl; auto. Qed.

Lemma kvs_set_next (m : table) q Q n bs :
  vget (buckets m) q = Some Q -> vset (buckets m) q (set_next Q n) = Some bs ->
  kvs (mkMap (heads m) bs) = kvs m.
Proof.
  intros HQ [Hr ->]%vset_Some. unfold kvs. simpl. rewrite list_fmap_insert. simpl.
  apply list_insert_id. rewrite list_lookup_fmap. unfold vget in HQ. cmp. by rewrite HQ.
Qed.

(** Redirecting the end of a chain prefix. *)
Lemma set_link_spec (m : table) b h c j n :
  vget (heads m) b = Some h -> seg (buckets m) h c j -> NoDup c ->
  exists m' h', set_link m b (last_or 0 c) n = Some m' /\ zlen (heads m') = zlen (heads m)
    /\ kvs m' = kvs m /\ vget (heads m') b = Some h' /\ seg (buckets m') h' c n
    /\ (forall b', b' <> b -> vget (heads m') b' = vget (heads m) b')
    /\ (forall z, z ∉ c -> vget (buckets m') (z - 1) = vget (buckets m) (z - 1)).
Proof.
  intros Hh Hs Hnd. unfold set_link. destruct c as [|q c _] using rev_ind.
  - simpl. apply vget_Some_range in Hh as Hr.
    destruct (vset_is_Some (heads m) b n Hr) as [hs E]. rewrite E.
    exists (mkMap hs (buckets m)), n. simpl.
    split_and!; [ done | by eapply vset_zlen | done | | done | | done ].
    + rewrite (vget_vset _ _ _ _ _ E). by rewrite Z.eqb_refl.
    + intros b' Hb'. rewrite (vget_vset _ _ _ _ _ E). by cmp.
  - rewrite last_or_snoc. apply seg_app in Hs as (k & Hs & -> & Q & HQ & Hj).
    apply vget_Some_range in HQ as Hr. cmp. rewrite HQ.
    destruct (vset_is_Some (buckets m) (q - 1) (set_next Q n) Hr) as [bs E]. rewrite E.
    exists (mkMap (heads m) bs), h. simpl.
    assert (forall z, z <> q -> vget bs (z - 1) = vget (buckets m) (z - 1)) as Hoth.
    { intros z Hz. rewrite (vget_vset _ _ _ _ _ E). by cmp. }
    apply NoDup_app in Hnd as (Hnd & Hd & _).
    split_and!; [ done | done | by eapply kvs_set_next | done | | done | ].
    + apply seg_app. exists q. split.
      * eapply seg_ext; [ | done ]. intros z Hz. apply Hoth. intros ->.
        apply (Hd q Hz). by left.
      * split; [ done | ]. exists (set_next Q n). split; [ | done ].
        rewrite (vget_vset _ _ _ _ _ E). by rewrite Z.eqb_refl.
    + intros z Hz. apply Hoth. intros ->. apply Hz. set_solver.
Qed.

Lemma kvs_inv_fields (m m' : table) :
  kvs m' = kvs m -> zlen (buckets m') = zlen (buckets m)
  /\ (key <$> buckets m') = (key <$> buckets m).
Proof. intros E. by rewrite <- !zlen_kvs, <- !kvs_keys, E. Qed.

Lemma unlink_spec (m : table) y p h c1 c2 :
  inv m -> vget (buckets m) (y - 1) = Some p ->
  let b := bucket_of (zlen (heads m)) (key p) in
  vget (heads m) b = Some h -> seg (buckets m) h (c1 ++ y :: c2) 0 -> NoDup (c1 ++ y :: c2) ->
  (forall z, z ∈ c1 ++ y :: c2 <-> z <> 0 /\ exists q, vget (buckets m) (z - 1) = Some q
     /\ bucket_of (zlen (heads m)) (key q) = b) ->
  exists m', unlink m b y (last_or 0 c1) = Some m' /\ inv_hole y m'
    /\ kvs m' = kvs m /\ zlen (heads m') = zlen (heads m).
Proof.
  intros Hinv Hp b Hh Hs Hnd Hc. unfold unlink. rewrite Hp.
  apply seg_app in Hs as (k & Hs1 & -> & p' & Hp' & Hs2). simplify_eq.
  apply NoDup_app in Hnd as (Hnd1 & Hd & Hnd2). apply NoDup_cons in Hnd2 as [Hy2 Hnd2].
  destruct (set_link_spec m b h c1 y (next p)) as (m' & h' & -> & Hz & Hkv & Hh' & Hs' & Hb' & Ho);
    [ done | done | done | ].
  destruct (kvs_inv_fields _ _ Hkv) as [Hn Hk].
  exists m'. split_and!; [ done | | done | done ].
  split; [ rewrite Hz; apply Hinv | rewrite Hk; apply Hinv | rewrite Hn; apply Hinv | ].
  intros b' Hr. rewrite Hz in Hr. unfold bucket_ok. rewrite Hz.
  assert (Hmem : forall z Q, (exists q, vget (buckets m') (z - 1) = Some q /\ Q (key q))
                    <-> (exists q, vget (buckets m) (z - 1) = Some q /\ Q (key q))).
  { intros z Q. split; apply (kvs_mem _ _ (z - 1) Q); congruence. }
  destruct (decide (b' = b)) as [-> | Hne].
  - exists h', (c1 ++ c2). split_and!; [ done | | | ].
    + apply seg_app. exists (next p). split; [ done | ]. eapply seg_ext; [ | done ].
      intros z Hz2. apply Ho. intros Hz1. apply (Hd z Hz1). by right.
    + apply NoDup_app. split_and!; [ done | | done ]. intros z Hz1 Hz2. apply (Hd z Hz1). by right.
    + intros z. rewrite (Hmem z (fun k => bucket_of (zlen (heads m)) k = b)).
      specialize (Hc z). assert (1 <= y) by (apply vget_Some_range in Hp; lia). split.
      * intros Hz12. split; [ intros -> | apply Hc; set_solver ].
        apply elem_of_app in Hz12 as [Hz1 | Hz2]; [ | done ].
        apply (Hd y Hz1). by left.
      * intros [Hzy Hq]. assert (z ∈ c1 ++ y :: c2) as Hz'.
        { apply Hc. split; [ | done ]. destruct Hq as (q & Hq%vget_Some_range & _). lia. }
        set_solver.
  - destruct (inv_chain _ _ Hinv _ Hr) as (h2 & c & Hh2 & Hs & Hnd & Hc2).
    assert (forall z, z ∈ c -> z ∉ c1) as Hdis.
    { intros z Hz1 Hz2. apply Hc2 in Hz1 as (_ & q1 & Hq1 & E1).
      assert (z ∈ c1 ++ y :: c2) as Hz' by set_solver.
      apply Hc in Hz' as (_ & q2 & Hq2 & E2). simplify_eq. }
    exists h2, c. split_and!; [ by rewrite Hb' | | done | ].
    + eapply seg_ext; [ | done ]. intros z Hz1. apply Ho, Hdis, Hz1.
    + intros z. rewrite (Hmem z (fun k => bucket_of (zlen (heads m)) k = b')), Hc2.
      split; intros [Hz0 (q & Hq & E)]; (split; [ | eauto ]).
      * intros ->. simplify_eq.
      * apply vget_Some_range in Hq. lia.
Qed.

(** Dropping the last pair when it is the hole. *)
Lemma pop_spec (m : table) :
  1 <= zlen (buckets m) -> inv_hole (zlen (buckets m)) m ->
  inv (mkMap (heads m) (take (Z.to_nat (zlen (buckets m) - 1)) (buckets m))).
Proof.
  intros Hn Hinv. set (bs := take _ _).
  assert (forall z, vget bs (z - 1) = if z - 1 <? zlen (buckets m) - 1
                                      then vget (buckets m) (z - 1) else None) as Hbs.
  { intros z. unfold bs. rewrite vget_take. by replace (Z.of_nat _) with (zlen (buckets m) - 1) by lia. }
  split; simpl.
  - apply Hinv.
  - unfold bs. rewrite fmap_take. eapply sublist_NoDup; [ apply Hinv | apply sublist_take ].
  - unfold bs. rewrite zlen_take. pose proof (inv_size _ _ Hinv). lia.
  - intros b Hb. destruct (inv_chain _ _ Hinv _ Hb) as (h & c & Hh & Hs & Hnd & Hc).
    exists h, c. simpl. split_and!; [ done | | done | ].
    + eapply seg_ext; [ | done ]. intros z Hz. rewrite Hbs.
      pose proof (seg_range _ _ _ _ _ Hs Hz). apply Hc in Hz as [? _]. by cmp.
    + intros z. rewrite Hc. setoid_rewrite Hbs. split.
      * intros (Hz & q & Hq & E). apply vget_Some_range in Hq as ?.
        split; [ lia | ]. exists q. by cmp.
      * intros (Hz & q & Hq & E). destruct (Z.ltb_spec (z - 1) (zlen (buckets m) - 1)); [ | done ].
        split; [ lia | eauto ].
Qed.

(** The array after the last pair was moved into slot [y]. *)
Definition moved (bs : list (Pair K V)) (y : Z) (last : Pair K V) : list (Pair K V) :=
  take (Z.to_nat (zlen bs - 1)) (<[Z.to_nat (y - 1) := last]> bs).

Lemma vget_moved bs y last z :
  1 <= y < zlen bs ->
  vget (moved bs y last) (z - 1) =
    if z =? y then Some last else if z <? zlen bs then vget bs (z - 1) else None.
Proof.
  intros Hy. unfold moved. rewrite vget_take.
  rewrite (vget_vset bs (y - 1) last) by (apply vset_in_range; lia).
  replace (Z.of_nat (Z.to_nat (zlen bs - 1))) with (zlen bs - 1) by lia.
  destruct (Z.ltb_spec (z - 1) (zlen bs - 1)), (Z.eqb_spec (z - 1) (y - 1)), (Z.eqb_spec z y),
    (Z.ltb_spec z (zlen bs)); try lia; done.
Qed.

Lemma kvs_moved (m : table) y p last :
  vget (buckets m) (y - 1) = Some p -> vget (buckets m) (zlen (buckets m) - 1) = Some last ->
  y < zlen (buckets m) ->
  (key p, v p) :: kvs (mkMap (heads m) (moved (buckets m) y last)) ≡ₚ kvs m.
Proof.
  intros Hp Hl Hy. apply vget_Some_range in Hp as Hr. unfold kvs, moved. simpl.
  rewrite fmap_take, list_fmap_insert. unfold vget, zlen in *. cmp.
  replace (Z.to_nat (Z.of_nat (length (buckets m)) - 1)) with (length (buckets m) - 1)%nat in * by lia.
  rewrite <- (length_fmap (fun p : Pair K V => (key p, v p)) (buckets m)).
  apply (move_last_perm ((fun p : Pair K V => (key p, v p)) <$> buckets m)).
  - rewrite list_lookup_fmap. by rewrite Hp.
  - rewrite list_lookup_fmap, length_fmap. by rewrite Hl.
  - rewrite length_fmap. lia.
Qed.

(** The chain of bucket [b] after the move: [y] stands where the last pair stood. *)
Lemma moved_bucket_ok (m m' : table) y last h c1 c2 b b' :
  inv_hole y m -> 1 <= y < zlen (buckets m) ->
  vget (buckets m) (zlen (buckets m) - 1) = Some last ->
  b = bucket_of (zlen (heads m)) (key last) ->
  seg (buckets m) (next last) c2 0 -> NoDup (c1 ++ zlen (buckets m) :: c2) ->
  (forall z, z ∈ c1 ++ zlen (buckets m) :: c2 <-> z <> y /\ exists q,
     vget (buckets m) (z - 1) = Some q /\ bucket_of (zlen (heads m)) (key q) = b) ->
  zlen (heads m') = zlen (heads m) ->
  kvs m' = kvs (mkMap (heads m) (moved (buckets m) y last)) ->
  vget (heads m') b = Some h -> seg (buckets m') h c1 y ->
  (forall b', b' <> b -> vget (heads m') b' = vget (heads m) b') ->
  (forall z, z ∉ c1 -> vget (buckets m') (z - 1) = vget (moved (buckets m) y last) (z - 1)) ->
  0 <= b' < zlen (heads m) -> bucket_ok 0 m' b'.
Proof.
  intros Hinv Hy Hlast Hb Hs2 Hnd Hc Hz Hkv Hh Hs1 Hheads Ho Hr. set (n := zlen (buckets m)) in *.
  assert (Hmem : forall z Q, (exists q, vget (buckets m') (z - 1) = Some q /\ Q (key q)) <->
    (z = y /\ Q (key last)) \/ (z <> y /\ z < n /\ exists q, vget (buckets m) (z - 1) = Some q /\ Q (key q))).
  { intros z Q. split.
    - intros Hq. apply (kvs_mem _ (mkMap (heads m) (moved (buckets m) y last))) in Hq as (q & Hq & HQ);
        [ | done ].
      simpl in Hq. rewrite vget_moved in Hq by done. fold n in Hq.
      destruct (Z.eqb_spec z y); simplify_eq; [ by left | ].
      destruct (Z.ltb_spec z n); [ eauto 6 | done ].
    - intros Hq. apply (kvs_mem (mkMap (heads m) (moved (buckets m) y last))); [ done | ].
      simpl. rewrite vget_moved by done. fold n.
      destruct Hq as [[-> HQ] | (Hzy & Hzn & Hq)]; [ rewrite Z.eqb_refl; eauto | by cmp ]. }
  apply NoDup_app in Hnd as (Hnd1 & Hd & Hnd2). apply NoDup_cons in Hnd2 as [Hn2 Hnd2].
  assert (Hyc : y ∉ c1 ++ n :: c2) by (rewrite Hc; intros [? _]; done).
  unfold bucket_ok. rewrite Hz. destruct (decide (b' = b)) as [-> | Hne].
  - exists h, (c1 ++ y :: c2). split_and!; [ done | | | ].
    + apply seg_app. exists y. split; [ done | ]. split; [ done | ]. exists last. split.
      * rewrite Ho by set_solver. rewrite vget_moved by done. by rewrite Z.eqb_refl.
      * eapply seg_ext; [ | done ]. intros z Hz2. rewrite Ho.
        2: { intros Hz1. apply (Hd z Hz1). by right. }
        pose proof (seg_range _ _ _ _ _ Hs2 Hz2).
        rewrite vget_moved by done. fold n.
        assert (z <> y) by (intros ->; set_solver). assert (z <> n) by (intros ->; done). by cmp.
    + apply NoDup_app. split_and!; [ done | set_solver | ]. apply NoDup_cons. set_solver.
    + intros z. rewrite (Hmem z (fun k => bucket_of (zlen (heads m)) k = b)).
      specialize (Hc z). split.
      * intros Hz'. destruct (decide (z = y)) as [-> | Hzy]; [ split; [ lia | by left ] | ].
        assert (z ∈ c1 ++ n :: c2) as Hz'' by set_solver. apply Hc in Hz'' as (_ & q & Hq & E).
        apply vget_Some_range in Hq as Hqr. fold n in Hqr. split; [ lia | ]. right.
        assert (z <> n) by (intros ->; set_solver). split_and!; [ done | lia | eauto ].
      * intros [_ [[-> _] | (Hzy & Hzn & Hq)]]; [ set_solver | ].
        assert (z ∈ c1 ++ n :: c2) as Hz' by (apply Hc; eauto). set_solver by lia.
  - destruct (inv_chain _ _ Hinv _ Hr) as (h2 & c & Hh2 & Hs & Hndc & Hc2).
    assert (forall z, z ∈ c -> z ∉ c1 /\ z <> y /\ z < n) as Hdis.
    { intros z Hzc. apply Hc2 in Hzc as (Hzy & q & Hq & E). apply vget_Some_range in Hq as Hqr.
      fold n in Hqr. split_and!; [ | done | ].
      - intros Hz1. assert (z ∈ c1 ++ n :: c2) as Hz' by set_solver.
        apply Hc in Hz' as (_ & q' & Hq' & E'). simplify_eq.
      - destruct (decide (z = n)) as [-> | ]; [ | lia ]. simplify_eq. }
    exists h2, c. split_and!; [ by rewrite Hheads | | done | ].
    + eapply seg_ext; [ | done ]. intros z Hzc. destruct (Hdis z Hzc) as (? & ? & ?).
      rewrite Ho, vget_moved by done. fold n. by cmp.
    + intros z. rewrite (Hmem z (fun k => bucket_of (zlen (heads m)) k = b')). split.
      * intros Hzc. destruct (Hdis z Hzc) as (? & ? & ?). apply Hc2 in Hzc as (_ & q & Hq & E).
        apply vget_Some_range in Hq as ?. split; [ lia | eauto 8 ].
      * intros [_ [[-> E] | (Hzy & Hzn & Hq)]]; [ congruence | apply Hc2; eauto ].
Qed.

Lemma move_last_spec (m : table) y p prevRem :
  inv_hole y m -> vget (buckets m) (y - 1) = Some p -> y < zlen (buckets m) ->
  exists m', move_last m y prevRem = Some m' /\ inv m' /\ (key p, v p) :: kvs m' ≡ₚ kvs m.
Proof.
  intros Hinv Hp Hyn. apply vget_Some_range in Hp as Hr. unfold move_last.
  destruct (vget_is_Some (buckets m) (zlen (buckets m) - 1)) as [last Hlast]; [ lia | ].
  rewrite Hlast. destruct (Bucket_Some _ _ (key last) Hinv) as [-> HrB].
  destruct (GetElement_found y m (zlen (buckets m)) last)
    as (h & c1 & c2 & Hh & Hs & Hnd & Hc & ->); [ done | done | lia | ].
  apply seg_app in Hs as (k & Hs1 & -> & l' & Hl' & Hs2). simplify_eq.
  assert (y ∉ c1 ++ zlen (buckets m) :: c2) as Hyc by (rewrite Hc; intros [? _]; done).
  assert (last_or 0 c1 =? y = false) as ->.
  { apply Z.eqb_neq. intros E. destruct c1 as [|q c1 _] using rev_ind; simpl in E; [ lia | ].
    rewrite last_or_snoc in E. subst q. apply Hyc. set_solver. }
  rewrite vset_in_range by lia. fold (moved (buckets m) y last).
  assert (NoDup c1) as Hnd1 by (apply NoDup_app in Hnd; apply Hnd).
  destruct (set_link_spec (mkMap (heads m) (moved (buckets m) y last))
    (bucket_of (zlen (heads m)) (key last)) h c1 (zlen (buckets m)) y)
    as (m' & h' & -> & Hz & Hkv & Hh' & Hs' & Hb' & Ho); simpl in *; [ done | | done | ].
  { eapply seg_ext; [ | done ]. intros z Hz. pose proof (seg_range _ _ _ _ _ Hs1 Hz).
    rewrite vget_moved by lia.
    assert (z <> y) by (intros ->; set_solver).
    assert (z <> zlen (buckets m)).
    { intros ->. apply NoDup_app in Hnd as (_ & Hd & _). apply (Hd _ Hz). by left. }
    by cmp. }
  pose proof (kvs_moved m y p last Hp Hlast Hyn) as Hperm.
  assert (zlen (buckets m') = zlen (buckets m) - 1) as Hln.
  { rewrite <- !zlen_kvs, Hkv. apply Permutation_length in Hperm. simpl in Hperm.
    unfold zlen. lia. }
  exists m'. split_and!; [ done | | by rewrite Hkv ].
  split.
  - rewrite Hz. apply Hinv.
  - rewrite <- kvs_keys, Hkv. pose proof (inv_keys _ _ Hinv) as Hk.
    rewrite <- kvs_keys, <- Hperm in Hk. by apply NoDup_cons in Hk as [_ Hk].
  - pose proof (inv_size _ _ Hinv). lia.
  - intros b' Hr'. rewrite Hz in Hr'. eapply (moved_bucket_ok m m' y last h' c1 c2); eauto. lia.
Qed.

Lemma to_map_delete (m m' : table) k x :
  NoDup (key <$> buckets m) -> (k, x) :: kvs m' ≡ₚ kvs m -> to_map m' = delete k (to_map m).
Proof.
  intros Hnd Hp. unfold to_map. fold (kvs m) (kvs m').
  rewrite <- kvs_keys in Hnd.
  assert (NoDup (((k, x) :: kvs m').*1)) as Hnd' by (by rewrite Hp).
  rewrite <- (list_to_map_proper ((k, x) :: kvs m') (kvs m)) by done.
  simpl. apply NoDup_cons in Hnd' as [Hk _].
  rewrite delete_insert_id; [ done | ]. by apply not_elem_of_list_to_map.
Qed.

Lemma delete_missing (m : table) k : k ∉ key <$> buckets m -> delete k (to_map m) = to_map m.
Proof. intros Hk. apply delete_id. by apply to_map_None. Qed.

(** The single-pair case of [Remove]. *)
Lemma Remove_single (m : table) p :
  inv m -> buckets m = [p] -> exists hs, Remove m (key p) = Some (mkMap hs [])
    /\ inv (mkMap hs []).
Proof.
  intros Hinv Hb. unfold Remove. rewrite Hb.
  change (zlen [p] =? 0) with false. change (zlen [p] =? 1) with true.
  change (vget [p] 0) with (Some p). cbv iota beta. rewrite decide_True by done.
  destruct (Bucket_Some _ _ (key p) Hinv) as [-> Hr].
  assert (Honly : forall y q, vget (buckets m) (y - 1) = Some q -> y = 1 /\ q = p).
  { intros y q Hq. apply vget_Some_range in Hq as Hqr. rewrite Hb in *. unfold zlen in Hqr.
    simpl in Hqr. assert (y = 1) as -> by lia. split; [ done | ].
    unfold vget in Hq. simpl in Hq. congruence. }
  assert (Hp1 : vget (buckets m) (1 - 1) = Some p) by (rewrite Hb; done).
  destruct (inv_chain _ _ Hinv _ Hr) as (h & c & Hh & Hs & Hnd & Hc).
  assert (h = 1) as ->.
  { assert (1 ∈ c) as H1 by (apply Hc; eauto). destruct c as [|y c]; [ by apply elem_of_nil in H1 | ].
    destruct Hs as (-> & q & Hq & _). by destruct (Honly _ _ Hq). }
  rewrite Hh, Z.eqb_refl.
  destruct (vset_is_Some (heads m) _ 0 Hr) as [hs E]. rewrite E. exists hs. split; [ done | ].
  destruct (inv_pow2 _ _ Hinv) as (e & He & Hz). pose proof (vset_zlen _ _ _ _ E) as Hz'.
  apply (inv_empty _ e); [ done | congruence | ].
  intros b Hb'. rewrite Hz' in Hb'. rewrite (vget_vset _ _ _ _ _ E).
  destruct (Z.eqb_spec b (bucket_of (zlen (heads m)) (key p))) as [ | Hne]; [ done | ].
  destruct (inv_chain _ _ Hinv _ Hb') as (h & c' & Hh' & Hs' & _ & Hc').
  rewrite Hh'. destruct c' as [|y c']; [ by simpl in Hs'; subst | ].
  assert (y ∈ y :: c') as (_ & q & Hq & E')%Hc' by set_solver.
  destruct (Honly _ _ Hq) as [_ ->]. congruence.
Qed.

Lemma Remove_spec (m : table) k :
  inv m -> exists m', Remove m k = Some m' /\ inv m' /\ to_map m' = delete k (to_map m).
Proof.
  intros Hinv. pose proof (zlen_nonneg (buckets m)) as Hn0.
  destruct (key_cases m k) as [(y & p & Hy & <- & Hr) | Hk].
  - apply vget_Some_range in Hy as Hyr.
    destruct (Z.eq_dec (zlen (buckets m)) 1) as [E1 | Hn1].
    { destruct (buckets m) as [|p' [|? ?]] eqn:Eb; unfold zlen in E1; simpl in E1; try lia.
      assert (p' = p) as ->.
      { unfold zlen in Hyr. simpl in Hyr. assert (y = 1) as -> by lia.
        unfold vget in Hy. simpl in Hy. congruence. }
      destruct (Remove_single m p Hinv Eb) as (hs & -> & Hinv').
      eexists. split_and!; [ done | done | ]. eapply (to_map_delete m _ _ (v p)).
      - apply Hinv.
      - unfold kvs. rewrite Eb. done. }
    unfold Remove.
    rewrite (proj2 (Z.eqb_neq (zlen (buckets m)) 0)), (proj2 (Z.eqb_neq (zlen (buckets m)) 1)) by lia.
    destruct (Bucket_Some _ _ (key p) Hinv) as [-> HrB].
    destruct (GetElement_found 0 m y p) as (h & c1 & c2 & Hh & Hs & Hnd & Hc & ->);
      [ done | done | lia | ].
    rewrite (proj2 (Z.eqb_neq y 0)) by lia.
    destruct (unlink_spec m y p h c1 c2) as (m1 & -> & Hinv1 & Hkv & Hz); try done.
    destruct (kvs_inv_fields _ _ Hkv) as [Hln _].
    assert (exists p1, vget (buckets m1) (y - 1) = Some p1 /\ key p1 = key p) as (p1 & Hp1 & Ek).
    { apply (kvs_mem m m1 (y - 1) (fun k => k = key p)); eauto. }
    destruct (Z.eqb_spec y (zlen (buckets m))) as [-> | Hyn].
    + rewrite <- Hln in *. eexists. split_and!; [ done | by apply pop_spec; [ lia | ] | ].
      eapply (to_map_delete m _ _ (v p1)); [ apply Hinv | ]. rewrite <- Hkv, <- Ek.
      unfold kvs. simpl. rewrite fmap_take. unfold vget, zlen in *. cmp.
      assert (length (buckets m1) = S (length (buckets m1) - 1)) as El by lia.
      rewrite <- (firstn_all ((fun p => (key p, v p)) <$> buckets m1)) at 2.
      rewrite length_fmap, El. erewrite take_S_r.
      2: { rewrite list_lookup_fmap. replace (length (buckets m1) - 1)%nat
             with (Z.to_nat (Z.of_nat (length (buckets m1)) - 1)) by lia. by rewrite Hp1. }
      rewrite <- Permutation_cons_append.
      by replace (Z.to_nat (Z.of_nat (S (length (buckets m1) - 1)) - 1))
        with (length (buckets m1) - 1)%nat by lia.
    + destruct (move_last_spec m1 y p1 (last_or 0 c1)) as (m' & -> & Hinv' & Hperm);
        [ done | done | lia | ].
      exists m'. split_and!; [ done | done | ]. eapply to_map_delete; [ apply Hinv | ].
      rewrite <- Hkv, <- Ek. done.
  - exists m. rewrite delete_missing by done. split_and!; [ | done | done ].
    unfold Remove. cmp; [ done | | ].
    + destruct (buckets m) as [|p [|? ?]] eqn:Eb; unfold zlen in *; simpl in *; try lia.
      rewrite decide_False; [ done | ]. intros <-. apply Hk. set_solver.
    + destruct (Bucket_Some _ _ k Hinv) as [-> _]. by rewrite (GetElement_missing 0).
Qed.

Lemma Clear_spec (m : table) : inv m -> inv (Clear m) /\ to_map (Clear m) = ∅.
Proof.
  intros Hinv. unfold Clear. destruct (Z.eqb_spec (zlen (buckets m)) 0) as [E | E].
  - split; [ done | ]. apply zlen_0_nil in E. unfold to_map. by rewrite E.
  - split; [ | done ]. destruct (inv_pow2 _ _ Hinv) as (e & He & Hz).
    apply (inv_empty _ e); [ done | | ].
    + unfold zlen. rewrite length_replicate. done.
    + intros b Hb. unfold vget, zlen in *. rewrite length_replicate in Hb. cmp.
      apply lookup_replicate_2. lia.
Qed.

Lemma FlatHashMap_init_spec e :
  4 <= e <= 31 -> exists m : table, FlatHashMap_init (2 ^ e) = Some m /\ inv m /\ to_map m = ∅
    /\ zlen (heads m) = 2 ^ e.
Proof.
  intros He. assert (2 ^ 4 <= 2 ^ e) by (apply Z.pow_le_mono_r; lia).
  unfold FlatHashMap_init. rewrite (proj2 (Z.ltb_ge (2 ^ e) 16)) by lia.
  rewrite pow2_test_pow2 by lia. eexists. split_and!; [ done | | done | ].
  - apply (inv_empty _ e); [ done | rewrite zlen_vresize; lia | ].
    intros b Hb. rewrite zlen_vresize in Hb by lia. unfold vget, vresize. cmp.
    rewrite take_nil. apply lookup_replicate_2. rewrite zlen_nil. lia.
  - simpl. rewrite zlen_vresize; lia.
Qed.

Lemma to_map_size (m : table) : inv m -> Z.of_nat (size (to_map m)) = zlen (buckets m).
Proof.
  intros Hinv. unfold to_map. fold (kvs m). rewrite <- zlen_kvs. unfold zlen.
  rewrite <- length_map_to_list, map_to_list_to_map; [ done | ].
  rewrite kvs_keys. apply Hinv.
Qed.

(** ** The table as a finite map *)

(** [FlatHashMap] provides the map interface to the components that store their data in
    it; the limit keeps the rehash of an insertion inside 32 bits. *)
#[export] Instance FlatHashMap_MapImpl : MapImpl table K V.
Proof.
  refine {| map_inv := inv; map_abs := to_map; map_limit := 2 ^ 30;
            map_get := Get; map_set := InsertOrSet; map_remove := Remove |}.
  - intros t k Hinv. apply (Get_spec 0); [ done | ]. by intros p [? _]%vget_Some_range.
  - intros t k x Hinv Hn. apply InsertOrSet_spec; [ done | ].
    rewrite <- to_map_size by done. lia.
  - intros t k. apply Remove_spec.
Defined.

(** The operations that change a map. *)
Inductive map_op :=
| OInsertOrSet (k : K) (x : V)
| ORemove (k : K)
| OClear.

Definition exec_op (m : table) (o : map_op) : option table :=
  match o with
  | OInsertOrSet k x => InsertOrSet m k x
  | ORemove k => Remove m k
  | OClear => Some (Clear m)
  end.

Fixpoint exec_ops (m : table) (os : list map_op) : option table :=
  match os with
  | [] => Some m
  | o :: os => let* m := exec_op m o in exec_ops m os
  end.

(** The same operations on a finite map. *)
Definition spec_op (s : gmap K V) (o : map_op) : gmap K V :=
  match o with
  | OInsertOrSet k x => <[k := x]> s
  | ORemove k => delete k s
  | OClear => ∅
  end.

Definition spec_ops (s : gmap K V) (os : list map_op) : gmap K V := fold_left spec_op os s.

Lemma spec_op_size s o : (size (spec_op s o) <= S (size s))%nat.
Proof.
  destruct o as [k x | k | ]; simpl.
  - rewrite map_size_insert. destruct (s !! k); simpl; lia.
  - rewrite map_size_delete. destruct (s !! k); simpl; lia.
  - rewrite map_size_empty. lia.
Qed.

Lemma exec_op_spec m o :
  inv m -> (Z.of_nat (size (to_map m)) < 2 ^ 30) ->
  exists m', exec_op m o = Some m' /\ inv m' /\ to_map m' = spec_op (to_map m) o.
Proof.
  intros Hinv Hn. rewrite to_map_size in Hn by done. destruct o as [k x | k | ]; simpl.
  - by apply InsertOrSet_spec.
  - by apply Remove_spec.
  - eexists. split; [ done | by apply Clear_spec ].
Qed.

Lemma exec_ops_spec os : forall m,
  inv m -> Z.of_nat (size (to_map m) + length os) <= 2 ^ 30 ->
  exists m', exec_ops m os = Some m' /\ inv m' /\ to_map m' = spec_ops (to_map m) os.
Proof.
  induction os as [|o os IH]; intros m Hinv Hn; simpl in *; [ eauto | ].
  destruct (exec_op_spec m o) as (m1 & -> & Hinv1 & E1); [ done | lia | ].
  unfold spec_ops. simpl. rewrite <- E1. apply IH; [ done | ].
  pose proof (spec_op_size (to_map m) o). rewrite E1. lia.
Qed.

Lemma find_prev_walk fuel bs k i prev :
  find_prev fuel bs k i prev =
    let* (current, p) := walk fuel bs k i prev in
    Some (if current =? 0 then -1 else p).
Proof.
  revert i prev. induction fuel as [|fuel IH]; intros i prev; simpl; [ done | ].
  destruct (Z.eqb_spec i 0) as [-> | Hi]; [ done | ].
  destruct (vget bs (i - 1)) as [b|]; [ | done ]. case_decide; [ | apply IH ].
  by rewrite (proj2 (Z.eqb_neq i 0)).
Qed.

(** ** Properties *)

(** C5: a map built with a power-of-two capacity of at most [2^31] and put through any
    sequence of at most [2^30] insertions, removals and clears never fails an assertion,
    never accesses a vector out of range and never runs a chain walk without end; [Get],
    [Has] and [Size] of the result are those of the finite map that the same operations
    build. *)
Theorem flat_hash_map_refines_gmap e os :
  4 <= e <= 31 -> zlen os <= 2 ^ 30 ->
  exists m0 m, FlatHashMap_init (2 ^ e) = Some m0 /\ exec_ops m0 os = Some m
    /\ (forall k, Get m k = Some (spec_ops ∅ os !! k))
    /\ (forall k, Has m k = Some (bool_decide (is_Some (spec_ops ∅ os !! k))))
    /\ Size m = Z.of_nat (size (spec_ops ∅ os)).
Proof.
  intros He Hn. destruct (FlatHashMap_init_spec e He) as (m0 & E0 & Hinv0 & Em0 & _).
  destruct (exec_ops_spec os m0) as (m & E & Hinv & Em);
    [ done | rewrite Em0, map_size_empty; exact Hn | ].
  rewrite Em0 in Em. exists m0, m.
  assert (HG : forall k, Get m k = Some (spec_ops ∅ os !! k)).
  { intros k. rewrite <- Em. apply (map_get_ok (MapImpl := FlatHashMap_MapImpl)). done. }
  split_and!; [ done | done | done | | ].
  - intros k. unfold Has. rewrite HG. by destruct (spec_ops ∅ os !! k).
  - unfold Size. rewrite <- Em, to_map_size, u32_small; [ done | | done ].
    pose proof (zlen_nonneg (buckets m)). pose proof (inv_size _ _ Hinv). done.
Qed.

(** Growing a map with [Rehash] keeps its contents and reaches at least the requested
    capacity, on every map that operations build from an empty one. *)
Theorem rehash_grow_keeps_map e os m0 m newCapacity :
  4 <= e <= 31 -> zlen os <= 2 ^ 30 -> FlatHashMap_init (2 ^ e) = Some m0 ->
  exec_ops m0 os = Some m -> Capacity m <= newCapacity <= 2 ^ 31 ->
  exists m', Rehash m newCapacity = Some m' /\ newCapacity <= Capacity m' /\ Size m' = Size m
    /\ forall k, Get m' k = Get m k.
Proof.
  intros He Hn Hinit Hex Hc. destruct (FlatHashMap_init_spec e He) as (m0' & E0 & Hinv0 & Em0 & _).
  simplify_eq.
  destruct (exec_ops_spec os m0) as (m' & E & Hinv & Em);
    [ done | rewrite Em0, map_size_empty; exact Hn | ]. simplify_eq.
  assert (Hsz : zlen (buckets m) <= 2 ^ 30).
  { rewrite <- to_map_size, Em, Em0 by done. clear - Hn. etrans; [ | exact Hn ].
    unfold zlen, spec_ops. apply inj_le. change (length os) with (size (∅ : gmap K V) + length os)%nat.
    generalize (∅ : gmap K V) as s. induction os as [|o os IH]; intros s; simpl; [ lia | ].
    assert (zlen os <= 2 ^ 30) as H' by (rewrite zlen_cons in Hn; lia).
    specialize (IH H' (spec_op s o)). pose proof (spec_op_size s o). lia. }
  destruct (inv_pow2 _ _ Hinv) as (e' & He' & Hz).
  assert (2 ^ e' <= 2 ^ 31) by (apply Z.pow_le_mono_r; lia).
  assert (0 < 2 ^ e') by (apply Z.pow_pos_nonneg; lia).
  unfold Capacity in Hc. rewrite u32_small in Hc by (unfold is_u32; lia).
  pose proof (half_mono _ _ Hsz). change (Z.shiftr (2 ^ 30) 1) with (2 ^ 29) in *.
  destruct (Rehash_spec 0 m newCapacity) as (m' & E' & Hinv' & Hkv & Hcap & _); [ done | lia | lia | ].
  destruct (inv_pow2 _ _ Hinv') as (e2 & He2 & Hz2).
  assert (2 ^ e2 <= 2 ^ 31) by (apply Z.pow_le_mono_r; lia).
  exists m'. split_and!.
  - exact E'.
  - unfold Capacity. rewrite u32_small by (unfold is_u32; lia). done.
  - unfold Size. by rewrite <- !zlen_kvs, Hkv.
  - intros k. pose proof (map_get_ok (MapImpl := FlatHashMap_MapImpl)) as HG. simpl in HG.
    rewrite !HG by done. by rewrite (to_map_kvs m' m).
Qed.

(** [Rehash] to a capacity that rounds below the current one writes past the end of
    the shrunk [heads]: the zeroing loop still runs to the old size. *)
Theorem rehash_shrink_out_of_bounds (m : table) newCapacity capacity :
  inv m -> RoundCapacity newCapacity (u32 (zlen (buckets m))) = Some capacity ->
  0 <= capacity < Capacity m -> Rehash m newCapacity = None.
Proof.
  intros Hinv Hr Hc. destruct (inv_pow2 _ _ Hinv) as (e' & He' & Hz).
  unfold Rehash. rewrite Rehash_unfold, Hr. unfold Capacity in Hc.
  rewrite zero_heads_out_of_range; [ done | | ]; rewrite zlen_vresize; lia.
Qed.

(** [FindPrevId] gives the predecessor that [GetElement] gives, and -1 for a key that
    is not stored; [GetNext] of it leads to the pair [GetElement] finds. *)
Theorem FindPrevId_agrees (m : table) k :
  inv m ->
  exists b current prev, Bucket m k = Some b /\ GetElement m k b = Some (current, prev)
    /\ FindPrevId m b k = Some (if current =? 0 then -1 else prev)
    /\ (current <> 0 -> GetNext m prev b = Some current)
    /\ (current = 0 <-> to_map m !! k = None).
Proof.
  intros Hinv. destruct (Bucket_Some _ _ k Hinv) as [Eb Hr]. exists (bucket_of (zlen (heads m)) k).
  destruct (vget_is_Some (heads m) _ Hr) as [h Hh].
  assert (HF : forall current prev,
    GetElement m k (bucket_of (zlen (heads m)) k) = Some (current, prev) ->
    FindPrevId m (bucket_of (zlen (heads m)) k) k = Some (if current =? 0 then -1 else prev)).
  { intros current prev. unfold GetElement, FindPrevId. rewrite Eb, Z.eqb_refl, Hh, find_prev_walk.
    by intros ->. }
  destruct (key_cases m k) as [(y & p & Hy & <- & Hr') | Hk].
  - destruct (GetElement_found 0 m y p) as (h' & c1 & c2 & Hh' & Hs & _ & _ & E); [ done | done | lia | ].
    exists y, (last_or 0 c1). split_and!; [ done | done | by apply HF | | ].
    + intros _. unfold GetNext. destruct c1 as [|q c1 _] using rev_ind; simpl.
      * simplify_eq. destruct Hs as [-> _]. done.
      * rewrite last_or_snoc. apply seg_app in Hs as (j & Hs1 & -> & _).
        pose proof (seg_range _ _ _ _ q Hs1 ltac:(set_solver)). cmp.
        apply seg_app in Hs1 as (j' & _ & -> & Q & HQ & HQ'). rewrite HQ. by simpl in HQ'; subst.
    + erewrite to_map_Some by (done || apply Hinv). split; [ lia | done ].
  - exists 0, 0. rewrite (GetElement_missing 0) in * by done.
    split_and!; [ done | done | by apply HF | done | ]. by rewrite to_map_None.
Qed.

End FlatHashMap.

(** ** Witnesses *)

(** Keys 1 and 17 collide: both fall into bucket 1 of 16. *)
Definition sample_ops : list (map_op (K := Z) (V := Z)) :=
  [OInsertOrSet 1 10; OInsertOrSet 17 20; OInsertOrSet 2 30; ORemove 1].

Lemma flat_hash_map_refines_gmap_witness :
  exists m0 m, FlatHashMap_init (2 ^ 4) = Some m0 /\ exec_ops id m0 sample_ops = Some m
    /\ (forall k, Get id m k = Some (spec_ops ∅ sample_ops !! k))
    /\ (forall k, Has id m k = Some (bool_decide (is_Some (spec_ops ∅ sample_ops !! k))))
    /\ Size m = Z.of_nat (size (spec_ops ∅ sample_ops)).
Proof.
  apply (flat_hash_map_refines_gmap id 4 sample_ops); [ lia | ].
  intros E. vm_compute in E. discriminate E.
Defined.

Definition sample_table : FlatHashMap Z Z :=
  default (mkMap [] []) (let* m := FlatHashMap_init 16 in exec_ops id m sample_ops).

Lemma rehash_grow_keeps_map_witness :
  exists m', Rehash id sample_table 64 = Some m' /\ 64 <= Capacity m' /\ Size m' = Size sample_table
    /\ forall k, Get id m' k = Get id sample_table k.
Proof.
  apply (rehash_grow_keeps_map id 4 sample_ops (mkMap (replicate 16 0) []) sample_table 64).
  - lia.
  - intros E. vm_compute in E. discriminate E.
  - vm_compute. reflexivity.
  - vm_compute. reflexivity.
  - split; intros E; vm_compute in E; discriminate E.
Defined.

Definition empty32 : FlatHashMap Z Z := mkMap (replicate 32 0) [].

Lemma empty32_inv : inv id empty32.
Proof.
  destruct (FlatHashMap_init_spec (V := Z) id 5) as (m & E & Hinv & _); [ lia | ].
  vm_compute in E. injection E as <-. exact Hinv.
Qed.

Lemma rehash_shrink_out_of_bounds_witness : Rehash id empty32 16 = None.
Proof.
  apply (rehash_shrink_out_of_bounds id empty32 16 16).
  - apply empty32_inv.
  - vm_compute. reflexivity.
  - split; [ lia | vm_compute; reflexivity ].
Defined.

Lemma FindPrevId_agrees_witness :
  exists b current prev, Bucket id empty32 7 = Some b
    /\ GetElement id empty32 7 b = Some (current, prev)
    /\ FindPrevId empty32 b 7 = Some (if current =? 0 then -1 else prev)
    /\ (current <> 0 -> GetNext empty32 prev b = Some current)
    /\ (current = 0 <-> to_map empty32 !! 7 = None).
Proof. apply (FindPrevId_agrees id empty32 7). apply empty32_inv. Defined.

End FHM.
