(* ===== verification/MemoryPool.v ===== *)
(** * The memory pool (src/MemoryPool.cpp, include/icon7/MemoryPool.hpp, Stats.hpp)

    [MemoryPool::Allocate] and [Release] forward to rpmalloc (the default build,
    [ICON7_USE_RPMALLOC=1]) and keep statistics. rpmalloc is not part of the repository: the
    class [Allocator] holds what the library relies on. The first part shows that the
    statistics account for the live blocks exactly; the second models the lock-free update of
    [maxInUseAtOnce] as a step relation of concurrent allocations. *)

From S2P Require Import Prelude.

(** What rpmalloc gives: [usable n] is [rpmalloc_usable_size] of a block that
    [rpmalloc(n)] returned, [fresh n] the bytes the new block happens to hold. *)
Class Allocator := {
  usable : Z -> Z;
  fresh : Z -> list Z;
  usable_ge : forall n, 0 <= n -> n <= usable n;
  usable_u32 : forall n, n < 2 ^ 31 -> usable n < 2 ^ 32;
  fresh_zlen : forall n, zlen (fresh n) = usable n
}.

(** Class sizes that are multiples of 16, and blocks of zero bytes. *)
#[refine] Instance round16_allocator : Allocator := {
  usable n := Z.max 0 ((n + 15) / 16 * 16);
  fresh n := replicate (Z.to_nat (Z.max 0 ((n + 15) / 16 * 16))) 0
}.
Proof.
  - intros n Hn. pose proof (Z.div_mod (n + 15) 16). pose proof (Z.mod_pos_bound (n + 15) 16). lia.
  - intros n Hn. pose proof (Z.div_mod (n + 15) 16). pose proof (Z.mod_pos_bound (n + 15) 16). lia.
  - intros n. rewrite zlen_replicate. lia.
Defined.

Module MemoryPool.

(** [struct MemoryStats]; the counters are 64-bit and do not wrap below [2^63] bytes. *)
Record MemoryStats := mkStats {
  smallAllocations : Z;
  mediumAllocations : Z;
  largeAllocations : Z;
  allocatedBytes : Z;
  maxInUseAtOnce : Z;
  smallDeallocations : Z;
  mediumDeallocations : Z;
  largeDeallocations : Z;
  deallocatedBytes : Z
}.

Definition MemoryStats_init : MemoryStats := mkStats 0 0 0 0 0 0 0 0 0.

Definition MAX_BYTES_FOR_SMALL_ALLOCATIONS : Z := 256.
Definition MAX_BYTES_FOR_MEDIUM_ALLOCATIONS : Z := 4096.

Definition isSmall (bytes : Z) : bool := bytes <=? MAX_BYTES_FOR_SMALL_ALLOCATIONS.
Definition isMedium (bytes : Z) : bool :=
  negb (isSmall bytes) && (bytes <=? MAX_BYTES_FOR_MEDIUM_ALLOCATIONS).
Definition isLarge (bytes : Z) : bool :=
  negb (isSmall bytes) && negb (bytes <=? MAX_BYTES_FOR_MEDIUM_ALLOCATIONS).

Section Sequential.
Context `{Allocator}.

(** The counters [Allocate] updates for a block of [bytes] usable bytes; without other
    threads the compare-exchange loop stores the larger value at once. *)
Definition count_allocation (s : MemoryStats) (bytes : Z) : MemoryStats :=
  let allocated := allocatedBytes s + bytes in
  let max := allocated - deallocatedBytes s in
  let v := maxInUseAtOnce s in
  mkStats
    (smallAllocations s + Z.b2z (isSmall bytes))
    (mediumAllocations s + Z.b2z (isMedium bytes))
    (largeAllocations s + Z.b2z (isLarge bytes))
    allocated
    (if v <? max then max else v)
    (smallDeallocations s) (mediumDeallocations s) (largeDeallocations s) (deallocatedBytes s).

(** [Allocate]: the block with its capacity; [None] is the null pointer returned when the
    allocator gave less than asked. *)
Definition Allocate (s : MemoryStats) (bytes : Z) : MemoryStats * option (list Z) :=
  let _bytes := usable bytes in
  if _bytes <? bytes then (s, None)
  else (count_allocation s _bytes, Some (fresh bytes)).

(** [Release] of a block: the size argument is replaced by the block's usable size. *)
Definition Release (s : MemoryStats) (block : list Z) : MemoryStats :=
  let bytes := zlen block in
  mkStats
    (smallAllocations s) (mediumAllocations s) (largeAllocations s) (allocatedBytes s)
    (maxInUseAtOnce s)
    (smallDeallocations s + Z.b2z (isSmall bytes))
    (mediumDeallocations s + Z.b2z (isMedium bytes))
    (largeDeallocations s + Z.b2z (isLarge bytes))
    (deallocatedBytes s + bytes).

(** A program's calls: allocate, or release the [i]-th live block. *)
Inductive pool_op := PAllocate (bytes : Z) | PRelease (i : nat).

Definition pool_step (st : MemoryStats * list (list Z)) (o : pool_op)
  : MemoryStats * list (list Z) :=
  let '(s, live) := st in
  match o with
  | PAllocate bytes =>
      let '(s, b) := Allocate s bytes in
      (s, match b with Some b => b :: live | None => live end)
  | PRelease i =>
      match live !! i with
      | Some b => (Release s b, delete i live)
      | None => (s, live)
      end
  end.

Definition pool_run (os : list pool_op) : MemoryStats * list (list Z) :=
  fold_left pool_step os (MemoryStats_init, []).

Definition sum_bytes (live : list (list Z)) : Z := foldr (fun b n => zlen b + n) 0 live.
Definition count_blocks (p : Z -> bool) (live : list (list Z)) : Z :=
  foldr (fun b n => Z.b2z (p (zlen b)) + n) 0 live.

Record accounted (s : MemoryStats) (live : list (list Z)) : Prop := {
  acc_bytes : allocatedBytes s - deallocatedBytes s = sum_bytes live;
  acc_small : smallAllocations s - smallDeallocations s = count_blocks isSmall live;
  acc_medium : mediumAllocations s - mediumDeallocations s = count_blocks isMedium live;
  acc_large : largeAllocations s - largeDeallocations s = count_blocks isLarge live;
  acc_max : sum_bytes live <= maxInUseAtOnce s <= allocatedBytes s
}.

Lemma sum_bytes_delete live i b :
  live !! i = Some b -> sum_bytes live = zlen b + sum_bytes (delete i live).
Proof.
  revert i. induction live as [|c live IH]; intros [|i] Hi; simplify_eq/=; [ done | ].
  rewrite (IH i) by done. lia.
Qed.

Lemma count_blocks_delete p live i b :
  live !! i = Some b -> count_blocks p live = Z.b2z (p (zlen b)) + count_blocks p (delete i live).
Proof.
  revert i. induction live as [|c live IH]; intros [|i] Hi; simplify_eq/=; [ done | ].
  rewrite (IH i) by done. lia.
Qed.

Lemma Allocate_block s bytes : 0 <= bytes ->
  Allocate s bytes = (count_allocation s (usable bytes), Some (fresh bytes)).
Proof. intros Hb. unfold Allocate. pose proof (usable_ge bytes Hb). by cmp. Qed.

Lemma Allocate_accounted s live bytes :
  accounted s live ->
  let '(s', b) := Allocate s bytes in
  accounted s' (match b with Some b => b :: live | None => live end).
Proof.
  intros [Hb Hs Hm Hl Hx]. unfold Allocate. destruct (Z.ltb_spec (usable bytes) bytes); [ by split | ].
  assert (0 <= usable bytes) by (rewrite <- fresh_zlen; apply zlen_nonneg).
  split; simpl; rewrite ?fresh_zlen; try lia. destruct (Z.ltb_spec (maxInUseAtOnce s)
    (allocatedBytes s + usable bytes - deallocatedBytes s)); lia.
Qed.

Lemma Release_accounted s live i b :
  live !! i = Some b -> accounted s live -> accounted (Release s b) (delete i live).
Proof.
  intros Hi [Hb Hs Hm Hl Hx]. pose proof (zlen_nonneg b).
  rewrite (sum_bytes_delete _ i b) in Hb, Hx by done.
  rewrite (count_blocks_delete isSmall _ i b) in Hs by done.
  rewrite (count_blocks_delete isMedium _ i b) in Hm by done.
  rewrite (count_blocks_delete isLarge _ i b) in Hl by done. split; simpl; lia.
Qed.

Lemma pool_step_accounted s live o :
  accounted s live -> let '(s', live') := pool_step (s, live) o in accounted s' live'.
Proof.
  intros Ha. destruct o as [bytes | i]; simpl.
  - pose proof (Allocate_accounted s live bytes Ha). by destruct (Allocate s bytes).
  - destruct (live !! i) as [b|] eqn:Hi; [ by apply Release_accounted | done ].
Qed.

(** After any sequence of allocations and releases the statistics account for the live
    blocks: the bytes allocated and not released are the usable bytes of the live blocks,
    each size class counts its live blocks, and [maxInUseAtOnce] bounds the bytes in use. *)
Theorem pool_stats_account_for_live_blocks os :
  let '(s, live) := pool_run os in accounted s live.
Proof.
  unfold pool_run.
  assert (accounted MemoryStats_init []) as Ha by (split; simpl; lia).
  revert Ha. generalize MemoryStats_init ([] : list (list Z)).
  induction os as [|o os IH]; intros s live Ha; [ done | ]. cbn [fold_left].
  pose proof (pool_step_accounted s live o Ha). destruct (pool_step (s, live) o). by apply IH.
Qed.

End Sequential.

(** ** Concurrent updates of [maxInUseAtOnce] *)

(** The position of a thread inside the statistics part of [Allocate]. *)
Inductive alloc_pc :=
| PcAdd (bytes : Z)               (* before [allocatedBytes += bytes] *)
| PcReadDealloc (allocated : Z)   (* before reading [deallocatedBytes] *)
| PcLoad (max : Z)                (* before [v = maxInUseAtOnce] *)
| PcLoop (max v : Z)              (* at [while (max > v)] *)
| PcDone (max : Z).

Record shared_stats := mkShared { sh_alloc : Z; sh_dealloc : Z; sh_max : Z }.

(** One atomic access of one allocating thread, or the [deallocatedBytes += bytes] of a
    releasing one. The weak compare-exchange can fail with [v] already current. *)
Inductive pc_step : shared_stats -> alloc_pc -> shared_stats -> alloc_pc -> Prop :=
| step_add a d m bytes :
    pc_step (mkShared a d m) (PcAdd bytes) (mkShared (a + bytes) d m) (PcReadDealloc (a + bytes))
| step_read_dealloc a d m x :
    pc_step (mkShared a d m) (PcReadDealloc x) (mkShared a d m) (PcLoad (x - d))
| step_load a d m max :
    pc_step (mkShared a d m) (PcLoad max) (mkShared a d m) (PcLoop max m)
| step_exit s max v : max <= v -> pc_step s (PcLoop max v) s (PcDone max)
| step_cas_ok a d max v :
    v < max -> pc_step (mkShared a d v) (PcLoop max v) (mkShared a d max) (PcDone max)
| step_cas_fail a d m max v :
    v < max -> pc_step (mkShared a d m) (PcLoop max v) (mkShared a d m) (PcLoop max m).

Inductive system_step : shared_stats * list alloc_pc -> shared_stats * list alloc_pc -> Prop :=
| sys_alloc s s' ts i pc pc' :
    ts !! i = Some pc -> pc_step s pc s' pc' -> system_step (s, ts) (s', <[i := pc']> ts)
| sys_release a d m ts bytes :
    0 <= bytes -> system_step (mkShared a d m, ts) (mkShared a (d + bytes) m, ts)
| sys_spawn s ts bytes : 0 <= bytes -> system_step (s, ts) (s, ts ++ [PcAdd bytes]).

(** What is known at each position: a value a thread loaded is not above the current
    maximum, a finished thread's value is recorded. *)
Definition pc_ok (m : Z) (pc : alloc_pc) : Prop :=
  match pc with
  | PcLoop max v => v <= m
  | PcDone max => max <= m
  | _ => True
  end.

Definition system_ok (st : shared_stats * list alloc_pc) : Prop :=
  Forall (pc_ok (sh_max st.1)) st.2.

Lemma pc_step_mono s pc s' pc' : pc_step s pc s' pc' -> sh_max s <= sh_max s'.
Proof. destruct 1; simpl; lia. Qed.

Lemma pc_step_ok s pc s' pc' :
  pc_step s pc s' pc' -> pc_ok (sh_max s) pc -> pc_ok (sh_max s') pc'.
Proof. destruct 1; simpl; lia. Qed.

Lemma pc_ok_mono m m' pc : m <= m' -> pc_ok m pc -> pc_ok m' pc.
Proof. destruct pc; simpl; lia. Qed.

Lemma system_step_mono st st' : system_step st st' -> sh_max st.1 <= sh_max st'.1.
Proof. destruct 1; simpl; [ eauto using pc_step_mono | lia | lia ]. Qed.

Lemma system_step_ok st st' : system_step st st' -> system_ok st -> system_ok st'.
Proof.
  destruct 1 as [s s' ts i pc pc' Hi Hp | | s ts bytes Hb]; unfold system_ok; simpl; intros Hok.
  - apply Forall_insert.
    + eapply Forall_impl; [ exact Hok | ]. intros q. apply pc_ok_mono. by eapply pc_step_mono.
    + eapply pc_step_ok; [ done | ]. by eapply Forall_lookup_1 in Hok.
  - done.
  - apply Forall_app. split; [ done | by repeat constructor ].
Qed.

(** However allocations and releases of several threads interleave, and however often
    the weak compare-exchange fails, [maxInUseAtOnce] never decreases and, once a thread has
    left the loop, it is at least the amount in use that thread computed. *)
Theorem max_in_use_covers_finished_threads st st' max :
  rtc system_step (mkShared 0 0 0, []) st -> rtc system_step st st' ->
  sh_max st.1 <= sh_max st'.1 /\ (PcDone max ∈ st'.2 -> max <= sh_max st'.1).
Proof.
  intros H0 H1. split.
  - clear H0. induction H1 as [| st1 st2 st3 Hs _ IH]; [ lia | ].
    pose proof (system_step_mono _ _ Hs). lia.
  - assert (system_ok (mkShared 0 0 0, [])) as Hok by constructor.
    assert (H2 : rtc system_step (mkShared 0 0 0, []) st') by (etrans; done). clear H0 H1.
    induction H2 as [st0 | st1 st2 st3 Hs _ IH].
    + intros Hin. by apply (proj1 (Forall_forall _ _) Hok) in Hin.
    + apply IH. by eapply system_step_ok.
Qed.

Lemma max_in_use_covers_finished_threads_witness :
  exists st, rtc system_step (mkShared 0 0 0, []) st
    /\ (sh_max st.1 <= sh_max st.1 /\ (PcDone 64 ∈ st.2 -> 64 <= sh_max st.1)).
Proof.
  exists (mkShared 64 0 64, [PcDone 64]).
  assert (rtc system_step (mkShared 0 0 0, []) (mkShared 64 0 64, [PcDone 64])) as Hr.
  { eapply rtc_l; [ apply (sys_spawn _ _ 64); lia | ].
    eapply rtc_l; [ eapply (sys_alloc _ _ _ 0); [ reflexivity | apply step_add ] | ].
    eapply rtc_l; [ eapply (sys_alloc _ _ _ 0); [ reflexivity | apply step_read_dealloc ] | ].
    eapply rtc_l; [ eapply (sys_alloc _ _ _ 0); [ reflexivity | apply step_load ] | ].
    eapply rtc_l; [ eapply (sys_alloc _ _ _ 0); [ reflexivity | apply step_cas_ok; lia ] | ].
    apply rtc_refl. }
  split; [ exact Hr | ]. exact (max_in_use_covers_finished_threads _ _ 64 Hr (rtc_refl _ _)).
Defined.

End MemoryPool.
