(* ===== verification/ByteBuffer.v ===== *)
(** * Writable byte buffers (include/icon7/ByteBuffer.hpp, src/ByteBuffer.cpp)

    A [ByteBufferWritable] owns a block of the memory pool. The first [_offset] bytes are
    head room: the first 20 are kept for the storage header the block gets when it becomes
    shared, the rest lets [prepend] put a frame header in front of the data without moving
    it. The model keeps the block as the list of its bytes, the four counters as the code
    has them, the 32-bit arithmetic, and every assertion ([None] when one is false); the
    pointer [buffer] is the block and [_offset]. *)

From S2P Require Import Prelude MemoryPool.

(** [ByteBufferStorageHeader]: five fields of four bytes; the data starts at 32. *)
Definition sizeof_StorageHeader : Z := 20.
Definition INITIAL_DATA_OFFSET : Z := 32.

Record ByteBufferWritable := mkW {
  buffer : option (list Z);
  _size : Z;
  _capacity : Z;
  _offset : Z;
  _flags : Z
}.

Definition ByteBufferWritable_default : ByteBufferWritable := mkW None 0 0 0 0.

Definition valid (w : ByteBufferWritable) : bool := bool_decide (is_Some (buffer w)).

(** [std::bit_width]. *)
Definition bit_width (x : Z) : Z := if x <=? 0 then 0 else Z.log2 x + 1.

(** [while (maxCap >= capacity) maxCap -= diff]. *)
Fixpoint lower_until (fuel : nat) (maxCap diff capacity : Z) : option Z :=
  match fuel with
  | O => None
  | S fuel =>
      if capacity <=? maxCap then lower_until fuel (u32 (maxCap - diff)) diff capacity
      else Some maxCap
  end.

(** Five tests of the loop condition are enough: [capacity] is above an eighth of the
    first [maxCap]. *)
Definition round_capacity_up (capacity : Z) : option Z :=
  assert* capacity <? 2 ^ 30 in
  let capacity := u32 (capacity + INITIAL_DATA_OFFSET) in
  let width := bit_width (Z.max capacity 64) in
  let maxCap := u32 (Z.shiftl 1 width) in
  let diff := u32 (Z.shiftl 1 (width - 2)) in
  let* maxCap := lower_until 5 maxCap diff capacity in
  let maxCap := u32 (maxCap + diff) in
  Some (u32 (maxCap - INITIAL_DATA_OFFSET)).

Section Buffers.
Context `{Allocator}.

(** The block [MemoryPool::Allocate] returns does not depend on its statistics. *)
Definition pool_block (bytes : Z) : option (list Z) :=
  (MemoryPool.Allocate MemoryPool.MemoryStats_init bytes).2.

Definition ByteBufferWritable_capacity (capacity : Z) : option ByteBufferWritable :=
  if capacity =? 0 then Some ByteBufferWritable_default
  else
    let offset := INITIAL_DATA_OFFSET in
    let* capacity := round_capacity_up capacity in
    let* buf := pool_block (u32 (capacity + offset)) in
    Some (mkW (Some buf) 0 (u32 (zlen buf - offset)) offset 0).

(** [free_buffer]: the assertions and the emptied buffer. *)
Definition free_buffer (w : ByteBufferWritable) : option ByteBufferWritable :=
  match buffer w with
  | None => Some w
  | Some _ =>
      assert* negb (_capacity w =? 0) in
      assert* negb (_offset w =? 0) in
      Some ByteBufferWritable_default
  end.

(** [*this = std::move(o)]: the old block is freed, the new one taken over. *)
Definition move_assign (w o : ByteBufferWritable) : option ByteBufferWritable :=
  let* _ := free_buffer w in
  Some o.

(** [memcpy(buffer + _size, src, bytes); _size += bytes]: a null buffer takes no byte. *)
Definition store_at_end (w : ByteBufferWritable) (src : list Z) : option ByteBufferWritable :=
  match buffer w with
  | None => match src with [] => Some w | _ :: _ => None end
  | Some mem =>
      let* mem := memcpy mem (_offset w + _size w) src in
      Some (mkW (Some mem) (u32 (_size w + zlen src)) (_capacity w) (_offset w) (_flags w))
  end.

(** The bytes from [data()] on that [size()] counts. *)
Definition contents (w : ByteBufferWritable) : list Z :=
  match buffer w with
  | None => []
  | Some mem => slice (_offset w) (_size w) mem
  end.

(** [append], [reserve] and [reserve_or_shrink] call each other; [fuel] bounds the
    nesting. *)
Fixpoint append_ (fuel : nat) (w : ByteBufferWritable) (src : list Z)
  : option ByteBufferWritable :=
  match fuel with
  | O => None
  | S fuel =>
      let* w := reserve_ fuel w (u32 (_size w + zlen src)) in
      store_at_end w src
  end
with reserve_ (fuel : nat) (w : ByteBufferWritable) (newCapacity : Z)
  : option ByteBufferWritable :=
  match fuel with
  | O => None
  | S fuel =>
      assert* newCapacity <? 2 ^ 30 in
      assert* _size w <=? _capacity w in
      let* w :=
        if _capacity w <? newCapacity then
          assert* _size w <=? newCapacity in
          let* w := reserve_or_shrink_ fuel w newCapacity in
          assert* valid w in
          assert* newCapacity <=? _capacity w in
          Some w
        else Some w in
      if valid w then
        assert* negb (_capacity w =? 0) in
        assert* negb (_offset w =? 0) in
        Some w
      else
        assert* _capacity w =? 0 in
        assert* _offset w =? 0 in
        assert* _size w =? 0 in
        Some w
  end
with reserve_or_shrink_ (fuel : nat) (w : ByteBufferWritable) (minCapacity : Z)
  : option ByteBufferWritable :=
  match fuel with
  | O => None
  | S fuel =>
      assert* _size w <=? _capacity w in
      let* capacity := round_capacity_up minCapacity in
      let* buf := ByteBufferWritable_capacity capacity in
      let buf := mkW (buffer buf) (_size buf) (_capacity buf) (_offset buf) (_flags w) in
      let* buf :=
        match buffer w with
        | Some mem => append_ fuel buf (slice (_offset w) (Z.min (_size w) (_capacity buf)) mem)
        | None =>
            assert* _size w =? 0 in
            assert* _capacity w =? 0 in
            assert* _offset w =? 0 in
            Some buf
        end in
      let* w := move_assign w buf in
      assert* valid w in
      Some w
  end.

(** An append that reallocates nests five calls: append, reserve, reserve_or_shrink, the
    append of the old bytes to the new block and its reserve. *)
Definition append (w : ByteBufferWritable) (src : list Z) : option ByteBufferWritable :=
  append_ 5 w src.
Definition reserve (w : ByteBufferWritable) (newCapacity : Z) : option ByteBufferWritable :=
  reserve_ 4 w newCapacity.
Definition reserve_or_shrink (w : ByteBufferWritable) (minCapacity : Z)
  : option ByteBufferWritable :=
  reserve_or_shrink_ 3 w minCapacity.

Definition write (w : ByteBufferWritable) (data : list Z) : option ByteBufferWritable :=
  append w data.

Definition push_back (w : ByteBufferWritable) (byte : Z) : option ByteBufferWritable :=
  let* w := reserve w (u32 (_size w + 1)) in
  store_at_end w [byte].

Definition resize (w : ByteBufferWritable) (newSize : Z) : option ByteBufferWritable :=
  let* w := if _capacity w <? newSize then reserve w newSize else Some w in
  Some (mkW (buffer w) newSize (_capacity w) (_offset w) (_flags w)).

Definition clear (w : ByteBufferWritable) : option ByteBufferWritable :=
  match buffer w with
  | Some mem =>
      let capacity := u32 (_capacity w + _offset w) in
      let offset := INITIAL_DATA_OFFSET in
      Some (mkW (Some mem) 0 (u32 (capacity - offset)) offset 0)
  | None =>
      assert* _capacity w =? 0 in
      assert* _offset w =? 0 in
      Some (mkW None 0 (_capacity w) (_offset w) 0)
  end.

(** The argument [src] of [prepend]: bytes, or a null pointer with a count. *)
Definition src_bytes (src : list Z + Z) : Z :=
  match src with inl l => zlen l | inr n => n end.

(** [memcpy(buffer, src, bytes)] at the new start of the data. *)
Definition store_front (w : ByteBufferWritable) (l : list Z) : option ByteBufferWritable :=
  match buffer w with
  | None => None
  | Some mem =>
      let* mem := memcpy mem (_offset w) l in
      Some (mkW (Some mem) (_size w) (_capacity w) (_offset w) (_flags w))
  end.

Definition prepend (w : ByteBufferWritable) (src : list Z + Z) : option ByteBufferWritable :=
  let bytes := src_bytes src in
  assert* (valid w && negb (_capacity w =? 0)) || (negb (valid w) && (_capacity w =? 0)) in
  if _offset w <? sizeof_StorageHeader + bytes then
    let* buf := ByteBufferWritable_capacity (u32 (bytes + _capacity w)) in
    let* buf :=
      match src with
      | inl l => append buf l
      | inr n => Some (mkW (buffer buf) (u32 (_size buf + n)) (_capacity buf) (_offset buf) (_flags buf))
      end in
    let* buf := if _size w =? 0 then Some buf else append buf (contents w) in
    move_assign w buf
  else if negb (valid w) then
    match src with
    | inl l => append w l
    | inr n => resize w n
    end
  else
    let w := mkW (buffer w) (u32 (_size w + bytes)) (u32 (_capacity w + bytes))
                 (u32 (_offset w - bytes)) (_flags w) in
    match src with
    | inl l => store_front w l
    | inr _ => Some w
    end.

(** The copy constructor. *)
Definition ByteBufferWritable_copy (o : ByteBufferWritable) : option ByteBufferWritable :=
  match buffer o with
  | Some _ =>
      let* w := ByteBufferWritable_capacity (_size o) in
      let* w := append w (contents o) in
      Some (mkW (buffer w) (_size w) (_capacity w) (_offset w) (_flags o))
  | None => Some ByteBufferWritable_default
  end.

(** ** Well-formed buffers *)

Definition wf (w : ByteBufferWritable) : Prop :=
  0 <= _size w /\
  match buffer w with
  | None => _size w = 0 /\ _capacity w = 0 /\ _offset w = 0
  | Some mem =>
      sizeof_StorageHeader <= _offset w <= INITIAL_DATA_OFFSET
      /\ zlen mem = _offset w + _capacity w /\ 64 <= zlen mem < 2 ^ 32
      /\ _size w <= _capacity w
  end.

(** The largest capacity [reserve] can provide. *)
Definition MAX_RESERVE : Z := 2 ^ 30 - INITIAL_DATA_OFFSET.

(** ** Capacity rounding *)

(** The least multiple of [d] that is at least [x]. *)
Definition round_up (x d : Z) : Z := (x + d - 1) / d * d.

Lemma round_up_spec x d : 0 < d -> x <= round_up x d < x + d.
Proof.
  intros. unfold round_up. pose proof (Z.div_mod (x + d - 1) d).
  pose proof (Z.mod_pos_bound (x + d - 1) d). lia.
Qed.

Lemma lower_until_spec fuel q d x :
  0 < d -> 0 < x -> q * d < 2 ^ 32 -> x <= (q + 1) * d -> 0 <= q ->
  q * d - x < (Z.of_nat fuel - 1) * d -> (0 < fuel)%nat ->
  lower_until fuel (q * d) d x = Some (round_up x d - d).
Proof.
  revert q. induction fuel as [|fuel IH]; intros q Hd Hx Hq Hle Hq0 Hf Hf0; [ lia | ].
  simpl. destruct (Z.leb_spec x (q * d)).
  - assert (0 < q) by nia. rewrite u32_small by (unfold is_u32; nia).
    replace (q * d - d) with ((q - 1) * d) by lia. apply IH; try lia; nia.
  - f_equal. unfold round_up. assert ((x + d - 1) / d = q + 1) as ->; [ | lia ].
    symmetry. apply Z.div_unique with (x + d - 1 - (q + 1) * d); nia.
Qed.

(** The rounding step for a total of [t] bytes: a quarter of the next power of two. *)
Definition cap_step (t : Z) : Z := 2 ^ (Z.log2 (Z.max t 64) - 1).

Lemma cap_step_bounds t : 0 < t < 2 ^ 31 ->
  32 <= cap_step t <= 2 ^ 29 /\ t < 4 * cap_step t /\ (64 <= t -> 2 * cap_step t <= t).
Proof.
  intros Ht. unfold cap_step. pose proof (Z.log2_spec (Z.max t 64)) as Hl.
  assert (6 <= Z.log2 (Z.max t 64)) by (change 6 with (Z.log2 64); apply Z.log2_le_mono; lia).
  assert (Z.log2 (Z.max t 64) < 31) by (apply Z.log2_lt_pow2; lia).
  set (l := Z.log2 (Z.max t 64)) in *.
  assert (2 ^ l = 2 * 2 ^ (l - 1)) as E by (rewrite <- Z.pow_succ_r by lia; f_equal; lia).
  rewrite Z.pow_succ_r in Hl by lia.
  assert (2 ^ 5 <= 2 ^ (l - 1)) by (apply Z.pow_le_mono_r; lia).
  assert (2 ^ (l - 1) <= 2 ^ 29) by (apply Z.pow_le_mono_r; lia). lia.
Qed.

Lemma round_capacity_up_eq c : 0 <= c < 2 ^ 30 ->
  round_capacity_up c = Some (round_up (c + 32) (cap_step (c + 32)) - 32).
Proof.
  intros Hc. unfold round_capacity_up, INITIAL_DATA_OFFSET.
  rewrite (proj2 (Z.ltb_lt _ _)) by lia. rewrite (u32_small (c + 32)) by (unfold is_u32; lia).
  set (t := c + 32) in *. destruct (cap_step_bounds t) as (Hd & Hlt & Hge); [ lia | ].
  unfold bit_width. rewrite (proj2 (Z.leb_gt _ _)) by lia.
  replace (Z.log2 (Z.max t 64) + 1 - 2) with (Z.log2 (Z.max t 64) - 1) by lia.
  rewrite !Z.shiftl_1_l. fold (cap_step t).
  assert (2 ^ (Z.log2 (Z.max t 64) + 1) = 4 * cap_step t) as ->.
  { unfold cap_step. change 4 with (2 ^ 2).
    assert (6 <= Z.log2 (Z.max t 64)) by (change 6 with (Z.log2 64); apply Z.log2_le_mono; lia).
    rewrite <- Z.pow_add_r by lia. f_equal. lia. }
  rewrite (u32_small (4 * _)), (u32_small (cap_step t)) by (unfold is_u32; lia).
  rewrite lower_until_spec; try lia.
  pose proof (round_up_spec t (cap_step t)).
  rewrite !u32_small; try (unfold is_u32; lia); [ f_equal; lia | ].
  rewrite u32_small; unfold is_u32; lia.
Qed.

(** What a rounded capacity is good for. *)
Lemma round_capacity_up_spec c : 0 <= c < 2 ^ 30 ->
  exists r, round_capacity_up c = Some r /\ c <= r < 2 ^ 31 - 32 /\ (0 < c -> 32 <= r)
    /\ (c <= MAX_RESERVE -> r <= MAX_RESERVE) /\ (MAX_RESERVE < c -> 2 ^ 30 <= r).
Proof.
  intros Hc. rewrite round_capacity_up_eq by lia. eexists. split; [ done | ].
  set (t := c + 32). destruct (cap_step_bounds t) as (Hd & Hlt & Hge); [ lia | ].
  pose proof (round_up_spec t (cap_step t)) as Hr.
  assert (exists k, cap_step t = 2 ^ k /\ 5 <= k <= 29) as (k & Ek & Hk).
  { exists (Z.log2 (Z.max t 64) - 1). split; [ done | ].
    assert (6 <= Z.log2 (Z.max t 64)) by (change 6 with (Z.log2 64); apply Z.log2_le_mono; lia).
    assert (Z.log2 (Z.max t 64) < 31) by (apply Z.log2_lt_pow2; lia). lia. }
  unfold round_up in *. set (q := (t + cap_step t - 1) / cap_step t) in *.
  assert (2 ^ 30 = 2 ^ (30 - k) * 2 ^ k) as Ep by (rewrite <- Z.pow_add_r by lia; f_equal; lia).
  assert (2 <= 2 ^ (30 - k)) by (change 2 with (2 ^ 1) at 1; apply Z.pow_le_mono_r; lia).
  unfold MAX_RESERVE, INITIAL_DATA_OFFSET. rewrite Ek in *. split_and!; try lia.
  - intros. assert (32 < t) by lia. assert (0 < q) by nia.
    destruct (Z.eq_dec k 5) as [-> | ]; [ lia | ].
    assert (2 ^ 6 <= 2 ^ k) by (apply Z.pow_le_mono_r; lia). nia.
  - intros. assert (q <= 2 ^ (30 - k)); nia.
  - intros. destruct (Z.eq_dec k 29) as [-> | ]; [ lia | ].
    assert (2 ^ k <= 2 ^ 28) by (apply Z.pow_le_mono_r; lia). lia.
Qed.

(** ** Allocation *)

Lemma pool_block_spec n : 0 <= n ->
  exists buf, pool_block n = Some buf /\ n <= zlen buf /\ zlen buf = usable n.
Proof.
  intros Hn. unfold pool_block. rewrite MemoryPool.Allocate_block by done. simpl.
  eexists. split; [ done | ]. rewrite fresh_zlen. split; [ by apply usable_ge | done ].
Qed.

Lemma contents_empty w : _size w = 0 -> contents w = [].
Proof. intros E. unfold contents. rewrite E. by destruct (buffer w). Qed.

Lemma ByteBufferWritable_capacity_spec c : 0 < c < 2 ^ 30 ->
  exists mem cap, ByteBufferWritable_capacity c = Some (mkW (Some mem) 0 cap 32 0)
    /\ c <= cap /\ zlen mem = 32 + cap /\ 64 <= zlen mem < 2 ^ 32.
Proof.
  intros Hc. unfold ByteBufferWritable_capacity, INITIAL_DATA_OFFSET.
  rewrite (proj2 (Z.eqb_neq c 0)) by lia.
  destruct (round_capacity_up_spec c) as (r & -> & Hr & Hr32 & _); [ lia | ].
  rewrite (u32_small (r + 32)) by (unfold is_u32; lia).
  destruct (pool_block_spec (r + 32)) as (mem & -> & Hm & Hu); [ lia | ].
  assert (zlen mem < 2 ^ 32) by (rewrite Hu; apply usable_u32; lia).
  rewrite u32_small by (unfold is_u32; lia). eexists _, _. split_and!; [ done | lia.. ].
Qed.

(** ** Growing and appending *)

(** Everything an operation that only adds at the end leaves alone. *)
Record extends (w w' : ByteBufferWritable) (src : list Z) : Prop := {
  ext_wf : wf w';
  ext_contents : contents w' = contents w ++ src;
  ext_size : _size w' = _size w + zlen src;
  ext_flags : _flags w' = _flags w;
  ext_capacity : _capacity w <= _capacity w';
  ext_offset : _offset w' = _offset w \/ _offset w' = INITIAL_DATA_OFFSET
}.

Lemma wf_size w : wf w -> 0 <= _size w <= _capacity w /\ _capacity w < 2 ^ 32.
Proof.
  intros [Hs Hw]. destruct (buffer w) as [mem|].
  - destruct Hw as (Ho & Hz & Hm & Hc). unfold sizeof_StorageHeader in *. lia.
  - lia.
Qed.

Lemma wf_zlen_contents w : wf w -> zlen (contents w) = _size w.
Proof.
  intros [Hs Hw]. unfold contents. destruct (buffer w) as [mem|].
  - destruct Hw as (Ho & Hz & Hm & Hc). unfold sizeof_StorageHeader in *.
    apply zlen_slice; lia.
  - by destruct Hw as [-> _].
Qed.

Lemma wf_valid w : wf w -> valid w = negb (_capacity w =? 0) /\ valid w = negb (_offset w =? 0).
Proof.
  intros [Hs Hw]. unfold valid. destruct (buffer w) as [mem|].
  - destruct Hw as (Ho & Hz & Hm & Hc). unfold sizeof_StorageHeader, INITIAL_DATA_OFFSET in *.
    rewrite bool_decide_eq_true_2 by eauto.
    by rewrite !(proj2 (Z.eqb_neq _ _)) by lia.
  - destruct Hw as (_ & -> & ->). rewrite bool_decide_eq_false_2; [ done | ]. by intros [? [=]].
Qed.

Lemma free_buffer_wf w : wf w -> free_buffer w = Some ByteBufferWritable_default \/ free_buffer w = Some w.
Proof.
  intros Hw. destruct (wf_valid w Hw) as [Hc Ho]. unfold free_buffer, valid in *.
  destruct (buffer w) as [mem|]; [ left | by right ].
  rewrite bool_decide_eq_true_2 in Hc, Ho by eauto. by rewrite <- Hc, <- Ho.
Qed.

Lemma move_assign_wf w o : wf w -> move_assign w o = Some o.
Proof. intros Hw. unfold move_assign. by destruct (free_buffer_wf w Hw) as [-> | ->]. Qed.

Lemma store_at_end_spec w src :
  wf w -> _size w + zlen src <= _capacity w ->
  exists w', store_at_end w src = Some w' /\ extends w w' src
    /\ _capacity w' = _capacity w /\ _offset w' = _offset w /\ valid w' = valid w.
Proof.
  intros Hwf Hc. pose proof (zlen_nonneg src). pose proof (wf_size w Hwf).
  destruct Hwf as [Hs Hw]. unfold store_at_end, valid. destruct (buffer w) as [mem|] eqn:Eb.
  - destruct Hw as (Ho & Hz & Hm & Hsc). unfold sizeof_StorageHeader in *.
    destruct (memcpy mem (_offset w + _size w) src) as [mem'|] eqn:E.
    2: { rewrite memcpy_in_range in E; [ done | lia | lia ]. }
    pose proof (memcpy_zlen _ _ _ _ E) as Hz'.
    rewrite u32_small by (unfold is_u32; lia).
    eexists. split_and!; [ done | | done | done | ].
    + split; simpl; try done; try lia; try by left.
      * split; [ simpl; lia | simpl; unfold sizeof_StorageHeader; lia ].
      * unfold contents. simpl. rewrite Eb. apply slice_memcpy_append; [ lia | lia | done ].
    + by rewrite !bool_decide_eq_true_2 by eauto.
  - destruct Hw as (E1 & E2 & E3). destruct src as [|b src]; [ | rewrite zlen_cons in Hc; pose proof (zlen_nonneg src); lia ].
    exists w. split_and!; [ done | | done | done | by rewrite Eb ].
    split; try done.
    + split; [ lia | rewrite Eb; done ].
    + by rewrite app_nil_r.
    + rewrite zlen_nil. lia.
    + by left.
Qed.

Lemma reserve_enough fuel w n :
  wf w -> n <= _capacity w -> n < 2 ^ 30 -> reserve_ (S fuel) w n = Some w.
Proof.
  intros Hw Hn Hlt. destruct (wf_valid w Hw) as [Hv Hv']. pose proof (wf_size w Hw). cbn [reserve_].
  rewrite (proj2 (Z.ltb_lt n _)), (proj2 (Z.leb_le (_size w) _)), (proj2 (Z.ltb_ge (_capacity w) _)) by lia.
  destruct (valid w).
  - by rewrite <- Hv, <- Hv'.
  - destruct (_capacity w =? 0) eqn:E; [ | done ]. destruct (_offset w =? 0); [ | done ].
    apply Z.eqb_eq in E. by rewrite (proj2 (Z.eqb_eq (_size w) 0)) by lia.
Qed.

Lemma append_fits fuel w src :
  wf w -> _size w + zlen src <= _capacity w -> _size w + zlen src < 2 ^ 30 ->
  exists w', append_ (S (S fuel)) w src = Some w' /\ extends w w' src
    /\ _capacity w' = _capacity w /\ _offset w' = _offset w /\ valid w' = valid w.
Proof.
  intros Hw Hc Hlt. pose proof (wf_size w Hw). pose proof (zlen_nonneg src).
  cbn [append_]. rewrite u32_small by (unfold is_u32; lia).
  rewrite reserve_enough by (done || lia). by apply store_at_end_spec.
Qed.

Lemma reserve_or_shrink_spec fuel w n :
  wf w -> 0 < n <= MAX_RESERVE -> _size w <= n ->
  exists w', reserve_or_shrink_ (S (S (S fuel))) w n = Some w' /\ wf w' /\ contents w' = contents w
    /\ _size w' = _size w /\ _flags w' = _flags w /\ n <= _capacity w' /\ _offset w' = 32.
Proof.
  intros Hw Hn Hs. pose proof (wf_size w Hw). cbn [reserve_or_shrink_].
  rewrite (proj2 (Z.leb_le (_size w) _)) by lia. unfold MAX_RESERVE, INITIAL_DATA_OFFSET in Hn.
  destruct (round_capacity_up_spec n) as (r & -> & Hr & _ & Hr' & _); [ lia | ].
  unfold MAX_RESERVE, INITIAL_DATA_OFFSET in Hr'.
  destruct (ByteBufferWritable_capacity_spec r) as (mem & cap & -> & Hc & Hz & Hz'); [ lia | ].
  cbn [buffer _size _capacity _offset]. set (buf := mkW (Some mem) 0 cap 32 (_flags w)).
  assert (wf buf) as Hbuf.
  { split; simpl; [ lia | ]. unfold sizeof_StorageHeader, INITIAL_DATA_OFFSET. lia. }
  destruct (buffer w) as [m|] eqn:Eb.
  - rewrite Z.min_l by lia. change (slice (_offset w) (_size w) m) with
      (match Some m with None => [] | Some mem => slice (_offset w) (_size w) mem end).
    rewrite <- Eb. fold (contents w). pose proof (wf_zlen_contents w Hw) as Hzc.
    destruct (append_fits fuel buf (contents w)) as (w' & -> & Hx & Hc' & Ho' & Hv');
      [ done | simpl; lia | simpl; lia | ].
    rewrite move_assign_wf by done. rewrite Hv'. change (valid buf) with true. destruct Hx.
    exists w'. split_and!; [ done | done | | | done | simpl in *; lia | done ].
    + rewrite ext_contents0, contents_empty by done. done.
    + rewrite ext_size0. simpl. lia.
  - destruct Hw as [_ Hw']. rewrite Eb in Hw'. destruct Hw' as (E1 & E2 & E3).
    rewrite !(proj2 (Z.eqb_eq _ 0)) by lia. cbv iota.
    unfold move_assign, free_buffer. rewrite Eb. change (valid buf) with true.
    exists buf. split_and!; [ done | done | | | done | simpl; lia | done ].
    + rewrite !contents_empty by done. done.
    + simpl. lia.
Qed.

Lemma reserve_spec fuel w n :
  wf w -> 0 <= n <= MAX_RESERVE ->
  exists w', reserve_ (S (S (S (S fuel)))) w n = Some w' /\ wf w' /\ contents w' = contents w
    /\ _size w' = _size w /\ _flags w' = _flags w /\ n <= _capacity w'
    /\ _capacity w <= _capacity w' /\ (_offset w' = _offset w \/ _offset w' = INITIAL_DATA_OFFSET).
Proof.
  intros Hw Hn. pose proof (wf_size w Hw). unfold MAX_RESERVE, INITIAL_DATA_OFFSET in Hn.
  destruct (Z.le_gt_cases n (_capacity w)) as [Hle | Hgt].
  { exists w. rewrite reserve_enough by (done || lia). split_and!; (done || lia || by left). }
  destruct (reserve_or_shrink_spec fuel w n) as (w' & E & Hw' & Hc & Hs & Hf & Hcap & Ho);
    [ done | unfold MAX_RESERVE, INITIAL_DATA_OFFSET; lia | lia | ].
  destruct (wf_valid w' Hw') as [Hv Hv'].
  rewrite (proj2 (Z.eqb_neq (_capacity w') 0)) in Hv by lia.
  exists w'. cbn [reserve_]. rewrite E, Hv.
  rewrite (proj2 (Z.ltb_lt n _)), (proj2 (Z.leb_le (_size w) (_capacity w))),
    (proj2 (Z.ltb_lt (_capacity w) n)), (proj2 (Z.leb_le (_size w) n)),
    (proj2 (Z.leb_le n (_capacity w'))) by lia.
  simpl. rewrite Hv. rewrite !(proj2 (Z.eqb_neq _ 0)) by lia. split_and!; (done || lia || by right).
Qed.

Lemma ByteBufferWritable_capacity_eq c r : 0 < c < 2 ^ 30 -> round_capacity_up c = Some r ->
  ByteBufferWritable_capacity c = Some (mkW (Some (fresh (r + 32))) 0 (usable (r + 32) - 32) 32 0).
Proof.
  intros Hc E. destruct (round_capacity_up_spec c) as (r' & E' & Hr & _); [ lia | ]. simplify_eq.
  unfold ByteBufferWritable_capacity, INITIAL_DATA_OFFSET, pool_block.
  rewrite (proj2 (Z.eqb_neq c 0)), E by lia. rewrite (u32_small (r + 32)) by (unfold is_u32; lia).
  rewrite MemoryPool.Allocate_block by lia. cbn [snd]. rewrite fresh_zlen.
  pose proof (usable_ge (r + 32)). pose proof (usable_u32 (r + 32)).
  by rewrite u32_small by (unfold is_u32; lia).
Qed.

(** The first reservation of an empty buffer. *)
Lemma reserve_default n r :
  0 < n < 2 ^ 30 -> 0 < r < 2 ^ 30 -> round_capacity_up n = Some r -> round_capacity_up r = Some r ->
  reserve ByteBufferWritable_default n =
    Some (mkW (Some (fresh (r + 32))) 0 (usable (r + 32) - 32) 32 0).
Proof.
  intros Hn Hr E E'. destruct (round_capacity_up_spec n) as (r' & E'' & Hr' & _); [ lia | ]. simplify_eq.
  pose proof (usable_ge (r + 32)). unfold reserve.
  assert (reserve_or_shrink_ 3 ByteBufferWritable_default n =
    Some (mkW (Some (fresh (r + 32))) 0 (usable (r + 32) - 32) 32 0)) as Es.
  { cbn [reserve_or_shrink_]. rewrite E, (ByteBufferWritable_capacity_eq r r) by done. done. }
  change (reserve_ 4 ?w n) with (reserve_ (S 3) w n). cbn -[reserve_or_shrink_ Z.ltb Z.leb Z.eqb valid].
  rewrite Es. change (0 <=? 0) with true.
  rewrite (proj2 (Z.ltb_lt n _)), (proj2 (Z.ltb_lt 0 n)), (proj2 (Z.leb_le 0 n)) by lia.
  change (valid (mkW (Some (fresh (r + 32))) 0 (usable (r + 32) - 32) 32 0)) with true.
  cbn [_capacity]. rewrite (proj2 (Z.leb_le n _)) by lia. cbv iota beta.
  change (valid (mkW (Some (fresh (r + 32))) 0 (usable (r + 32) - 32) 32 0)) with true.
  cbn [_capacity _offset]. by rewrite (proj2 (Z.eqb_neq (usable (r + 32) - 32) 0)) by lia.
Qed.

Lemma append_spec w src :
  wf w -> _size w + zlen src <= MAX_RESERVE ->
  exists w', append w src = Some w' /\ extends w w' src.
Proof.
  intros Hw Hn. pose proof (wf_size w Hw). pose proof (zlen_nonneg src).
  unfold MAX_RESERVE, INITIAL_DATA_OFFSET in Hn. unfold append. cbn [append_].
  rewrite u32_small by (unfold is_u32; lia).
  destruct (reserve_spec 0 w (_size w + zlen src)) as (w1 & -> & Hw1 & Hc & Hs & Hf & Hn1 & Hcap & Ho);
    [ done | unfold MAX_RESERVE, INITIAL_DATA_OFFSET; lia | ].
  destruct (store_at_end_spec w1 src) as (w' & -> & [] & Hc' & Ho' & _); [ done | lia | ].
  exists w'. split; [ done | ]. split; try done; try congruence; try lia.
Qed.

(** The head room of a buffer that was filled at its end only. *)
Lemma extends_head_room w w' src :
  extends w w' src -> _offset w = 0 \/ _offset w = INITIAL_DATA_OFFSET -> 0 < _size w' ->
  valid w' = true /\ _offset w' = INITIAL_DATA_OFFSET.
Proof.
  intros [Hw _ _ _ _ Ho] Hw0 Hs. pose proof (wf_size w' Hw). destruct (wf_valid w' Hw) as [Hv Hv'].
  rewrite (proj2 (Z.eqb_neq (_capacity w') 0)) in Hv by lia. split; [ done | ].
  destruct Ho as [E | E]; [ | done ]. destruct Hw0 as [E0 | E0]; [ | congruence ].
  rewrite Hv, E, E0 in Hv'. done.
Qed.

Lemma push_back_spec w b :
  wf w -> _size w + 1 <= MAX_RESERVE -> exists w', push_back w b = Some w' /\ extends w w' [b].
Proof. exact (append_spec w [b]). Qed.

Lemma clear_spec w : wf w ->
  exists w', clear w = Some w' /\ wf w' /\ contents w' = [] /\ _size w' = 0 /\ _flags w' = 0
    /\ buffer w' = buffer w /\ (valid w = true -> _offset w' = 32)
    /\ _capacity w' + _offset w' = _capacity w + _offset w.
Proof.
  intros [Hs Hw]. unfold clear, valid. destruct (buffer w) as [mem|] eqn:Eb.
  - destruct Hw as (Ho & Hz & Hm & Hc). unfold sizeof_StorageHeader, INITIAL_DATA_OFFSET in *.
    rewrite (u32_small (_capacity w + _offset w)), u32_small by (unfold is_u32; lia).
    eexists. split_and!; [ done | | done | done | done | done | done | simpl; lia ].
    split; simpl; [ lia | unfold sizeof_StorageHeader, INITIAL_DATA_OFFSET; lia ].
  - destruct Hw as (E1 & E2 & E3). rewrite E2, E3. simpl.
    eexists. split_and!; [ done | | done | done | done | done | done | done ]. done.
Qed.

Lemma resize_spec w n :
  wf w -> 0 <= n <= MAX_RESERVE ->
  exists w', resize w n = Some w' /\ wf w' /\ _size w' = n /\ _flags w' = _flags w
    /\ take (Z.to_nat n) (contents w) = take (Z.to_nat (_size w)) (contents w').
Proof.
  intros Hw Hn. unfold resize.
  assert (exists w1, (if _capacity w <? n then reserve w n else Some w) = Some w1 /\ wf w1
    /\ contents w1 = contents w /\ _size w1 = _size w /\ _flags w1 = _flags w
    /\ n <= _capacity w1) as (w1 & -> & [Hs1 Hw1] & Hc & Hs & Hf & Hcap).
  { destruct (Z.ltb_spec (_capacity w) n); [ | exists w; split_and!; (done || lia) ].
    destruct (reserve_spec 0 w n) as (w1 & E & ? & ? & ? & ? & ? & ? & ?); [ done | done | ].
    exists w1. split_and!; (done || lia). }
  eexists. split_and!; [ done | | done | done | ].
  - split; simpl; [ lia | ]. destruct (buffer w1) as [mem|]; [ | lia ]. lia.
  - rewrite <- Hc, <- Hs. unfold contents. simpl. destruct (buffer w1) as [mem|]; [ | by rewrite !take_nil ].
    unfold slice. rewrite !take_take. f_equal. lia.
Qed.

(** Inside the head room [prepend] does not move the data and keeps the flags. *)
Lemma prepend_in_place w l :
  wf w -> valid w = true -> sizeof_StorageHeader + zlen l <= _offset w ->
  exists w', prepend w (inl l) = Some w' /\ wf w' /\ contents w' = l ++ contents w
    /\ _size w' = _size w + zlen l /\ _flags w' = _flags w
    /\ _offset w' = _offset w - zlen l /\ _capacity w' = _capacity w + zlen l.
Proof.
  intros Hwf Hv Ho. pose proof (wf_valid w Hwf) as [Hc _]. pose proof (zlen_nonneg l).
  unfold prepend, src_bytes. rewrite <- Hc, Hv. cbn [andb orb negb].
  rewrite (proj2 (Z.ltb_ge _ _)) by lia. unfold valid in Hv.
  destruct Hwf as [Hs Hw]. destruct (buffer w) as [mem|] eqn:Eb.
  2: { destruct (bool_decide_reflect (is_Some (@None (list Z)))) as [[? [=]]|]; done. }
  destruct Hw as (Hof & Hz & Hm & Hsc). unfold sizeof_StorageHeader, INITIAL_DATA_OFFSET in *.
  unfold store_front. cbn [buffer _size _capacity _offset _flags].
  rewrite !u32_small by (unfold is_u32; lia).
  destruct (memcpy mem (_offset w - zlen l) l) as [mem'|] eqn:E.
  2: { rewrite memcpy_in_range in E; [ done | lia | lia ]. }
  pose proof (memcpy_zlen _ _ _ _ E) as Hz'.
  eexists. split_and!; [ done | | | done | done | done | done ].
  - split; simpl; [ lia | unfold sizeof_StorageHeader, INITIAL_DATA_OFFSET; lia ].
  - unfold contents. simpl. rewrite Eb. rewrite Z.add_comm.
    rewrite (slice_memcpy_at _ _ _ _ _ Hs E).
    by replace (_offset w - zlen l + zlen l) with (_offset w) by lia.
Qed.

(** Without enough head room [prepend] moves the data to a new block; the flags of the
    buffer are not carried over. *)
Lemma prepend_moves w l :
  wf w -> _offset w < sizeof_StorageHeader + zlen l -> 0 < zlen l ->
  zlen l + _capacity w <= MAX_RESERVE ->
  exists w', prepend w (inl l) = Some w' /\ wf w' /\ contents w' = l ++ contents w
    /\ _size w' = _size w + zlen l /\ _flags w' = 0 /\ _offset w' = 32.
Proof.
  intros Hwf Ho Hl Hcap. pose proof (wf_valid w Hwf) as [Hc _]. pose proof (wf_size w Hwf).
  unfold MAX_RESERVE, INITIAL_DATA_OFFSET in Hcap.
  pose proof (wf_zlen_contents w Hwf) as Hzc. unfold prepend, src_bytes. rewrite Hc, negb_involutive.
  replace (negb _ && negb _ || _ && _)%bool with true by (by destruct (_capacity w =? 0)).
  rewrite (proj2 (Z.ltb_lt _ _)) by lia. rewrite (u32_small (zlen l + _)) by (unfold is_u32; lia).
  destruct (ByteBufferWritable_capacity_spec (zlen l + _capacity w)) as (mem & cap & -> & Hcp & Hz & Hz');
    [ lia | ].
  destruct (append_fits 3 (mkW (Some mem) 0 cap 32 0) l) as (b1 & E1 & [W1 C1 S1 F1 _] & Hb1 & Hb1' & _);
    [ split; simpl; unfold sizeof_StorageHeader, INITIAL_DATA_OFFSET; lia | simpl; lia | simpl; lia | ].
  unfold append. rewrite E1. rewrite (contents_empty (mkW _ 0 _ _ _)) in C1 by done.
  cbn [_size _capacity _offset _flags app] in *.
  destruct (Z.eqb_spec (_size w) 0) as [E0 | _].
  - rewrite move_assign_wf by done. exists b1.
    rewrite (contents_empty w), app_nil_r by done. split_and!; (done || lia).
  - destruct (append_fits 3 b1 (contents w)) as (b2 & -> & [W2 C2 S2 F2 _] & Hb2 & Hb2' & _);
      [ done | lia | lia | ].
    rewrite move_assign_wf by done. exists b2.
    split_and!; [ done | done | by rewrite C2, C1 | lia | congruence | congruence ].
Qed.

Lemma ByteBufferWritable_copy_spec w :
  wf w -> _size w <= MAX_RESERVE ->
  exists w', ByteBufferWritable_copy w = Some w' /\ wf w' /\ contents w' = contents w
    /\ (valid w = true -> _flags w' = _flags w).
Proof.
  intros Hw Hs. unfold ByteBufferWritable_copy, valid. pose proof (wf_size w Hw) as Hsz.
  pose proof (wf_zlen_contents w Hw) as Hzc.
  destruct (buffer w) as [mem|] eqn:Eb.
  2: { exists ByteBufferWritable_default. unfold contents. rewrite Eb. split_and!; done. }
  assert (exists b, ByteBufferWritable_capacity (_size w) = Some b /\ wf b /\ _size b = 0) as (b & -> & Hb & Hb0).
  { unfold MAX_RESERVE, INITIAL_DATA_OFFSET in Hs.
    destruct (Z.eq_dec (_size w) 0) as [-> | ]; [ by exists ByteBufferWritable_default | ].
    destruct (ByteBufferWritable_capacity_spec (_size w)) as (m & cap & -> & Hc & Hz & Hz'); [ lia | ].
    eexists. split_and!; [ done | | done ].
    split; simpl; unfold sizeof_StorageHeader, INITIAL_DATA_OFFSET; lia. }
  destruct (append_spec b (contents w)) as (w' & -> & []); [ done | lia | ].
  eexists. split_and!; [ done | exact ext_wf0 | | done ].
  unfold contents in *. simpl. rewrite ext_contents0. rewrite Hb0. by destruct (buffer b).
Qed.

Lemma round_up_divides x d : 0 < d -> (d | x) -> round_up x d = x.
Proof.
  intros Hd [q ->]. unfold round_up. f_equal.
  replace (q * d + d - 1) with (d - 1 + q * d) by lia.
  rewrite Z.div_add, Z.div_small by lia. lia.
Qed.

(** Rounding a rounded total leaves it: its step divides it. *)
Lemma cap_step_round_up t : 0 < t < 2 ^ 31 ->
  (cap_step (round_up t (cap_step t)) | round_up t (cap_step t)).
Proof.
  intros Ht. destruct (cap_step_bounds t Ht) as (Hd & Hlt & Hge).
  set (d := cap_step t) in *. pose proof (round_up_spec t d) as Hr. set (T := round_up t d) in *.
  assert (T = (t + d - 1) / d * d) as ET by done.
  set (q := (t + d - 1) / d) in *.
  assert (exists l, d = 2 ^ l /\ 5 <= l) as (l & El & Hl).
  { exists (Z.log2 (Z.max t 64) - 1). split; [ done | ].
    assert (6 <= Z.log2 (Z.max t 64)) by (change 6 with (Z.log2 64); apply Z.log2_le_mono; lia). lia. }
  assert (2 ^ (l + 1) = 2 * d /\ 2 ^ (l + 2) = 4 * d /\ 2 ^ (l + 3) = 8 * d) as (P1 & P2 & P3)
    by (rewrite El, !Z.pow_add_r by lia; lia).
  assert (q < 5) by (apply (Z.mul_lt_mono_pos_r d); lia).
  assert (T <= 4 * d) by (rewrite ET; apply Z.mul_le_mono_nonneg_r; lia). unfold cap_step at 1.
  destruct (Z.eq_dec T (4 * d)) as [E | Hne].
  - rewrite (Z.log2_unique _ (l + 2)), E;
      [ | lia | rewrite P2; replace (Z.succ (l + 2)) with (l + 3) by lia; lia ].
    replace (l + 2 - 1) with (l + 1) by lia. rewrite P1. exists 2. lia.
  - assert (2 * d <= Z.max T 64) as H2.
    { destruct (Z.le_gt_cases 64 t); [ lia | ]. assert (d = 32); [ | lia ].
      subst d. unfold cap_step. by rewrite Z.max_r by lia. }
    rewrite (Z.log2_unique _ (l + 1));
      [ | lia | rewrite P1; replace (Z.succ (l + 1)) with (l + 2) by lia; lia ].
    replace (l + 1 - 1) with l by lia. rewrite <- El. exists q. done.
Qed.

(** ** Buffers as byte lists *)

Inductive buf_op :=
| BAppend (src : list Z)
| BPushBack (byte : Z)
| BReserve (n : Z)
| BClear.

Definition exec_buf_op (w : ByteBufferWritable) (o : buf_op) : option ByteBufferWritable :=
  match o with
  | BAppend src => append w src
  | BPushBack b => push_back w b
  | BReserve n => reserve w n
  | BClear => clear w
  end.

Fixpoint exec_buf_ops (w : ByteBufferWritable) (os : list buf_op) : option ByteBufferWritable :=
  match os with
  | [] => Some w
  | o :: os => let* w := exec_buf_op w o in exec_buf_ops w os
  end.

(** The same operations on the list of the bytes. *)
Definition spec_buf_op (l : list Z) (o : buf_op) : list Z :=
  match o with
  | BAppend src => l ++ src
  | BPushBack b => l ++ [b]
  | BReserve _ => l
  | BClear => []
  end.

Definition spec_buf_ops (l : list Z) (os : list buf_op) : list Z := fold_left spec_buf_op os l.

(** The bytes an operation can add, and the capacity it asks for. *)
Definition op_bytes (o : buf_op) : Z :=
  match o with BAppend src => zlen src | BPushBack _ => 1 | _ => 0 end.
Definition op_in_range (o : buf_op) : Prop :=
  match o with BReserve n => 0 <= n <= MAX_RESERVE | _ => True end.

Fixpoint ops_bytes (os : list buf_op) : Z :=
  match os with [] => 0 | o :: os => op_bytes o + ops_bytes os end.

Lemma ops_bytes_nonneg os : 0 <= ops_bytes os.
Proof.
  induction os as [|[src| | |] os IH]; simpl; try lia. pose proof (zlen_nonneg src). lia.
Qed.

Lemma exec_buf_op_spec w o :
  wf w -> op_in_range o -> _size w + op_bytes o <= MAX_RESERVE ->
  exists w', exec_buf_op w o = Some w' /\ wf w' /\ contents w' = spec_buf_op (contents w) o
    /\ _size w' <= _size w + op_bytes o.
Proof.
  intros Hw Hr Hn. destruct o as [src | b | n | ];
    cbn [exec_buf_op spec_buf_op op_bytes op_in_range] in *.
  - destruct (append_spec w src) as (w' & -> & []); [ done | done | ]. exists w'. split_and!; (done || lia).
  - destruct (push_back_spec w b) as (w' & -> & []); [ done | done | ]. exists w'.
    rewrite zlen_cons, zlen_nil in *. split_and!; (done || lia).
  - destruct (reserve_spec 0 w n) as (w' & E & Hw' & Hc & Hs & _); [ done | done | ].
    exists w'. split_and!; (done || lia).
  - destruct (clear_spec w Hw) as (w' & -> & Hw' & Hc & Hs & _). pose proof (wf_size w Hw).
    exists w'. split_and!; (done || lia).
Qed.

Lemma exec_buf_ops_spec os : forall w,
  wf w -> Forall op_in_range os -> _size w + ops_bytes os <= MAX_RESERVE ->
  exists w', exec_buf_ops w os = Some w' /\ wf w' /\ contents w' = spec_buf_ops (contents w) os.
Proof.
  induction os as [|o os IH]; intros w Hw Hr Hn; cbn [exec_buf_ops ops_bytes] in *; [ eauto | ].
  apply Forall_cons in Hr as [Ho Hr]. pose proof (ops_bytes_nonneg os).
  destruct (exec_buf_op_spec w o) as (w1 & -> & Hw1 & E & Hs); [ done | done | lia | ].
  unfold spec_buf_ops. simpl. rewrite <- E. apply IH; [ done | done | lia ].
Qed.

(** ** Properties *)

(** For every capacity up to [2^30 - 32] the rounding loop ends, the result is at least
    the request and at most half a block larger, it is a fixed point (the reallocation
    rounds twice) and the total is at least 64 bytes. *)
Theorem round_capacity_up_correct c :
  0 < c <= MAX_RESERVE ->
  exists r, round_capacity_up c = Some r /\ c <= r <= MAX_RESERVE /\ 64 <= r + 32
    /\ (32 <= c -> 2 * (r + 32) <= 3 * (c + 32)) /\ round_capacity_up r = Some r.
Proof.
  intros Hc. unfold MAX_RESERVE, INITIAL_DATA_OFFSET in Hc.
  destruct (round_capacity_up_spec c) as (r & E & Hr & Hr32 & Hmax & _); [ lia | ].
  unfold MAX_RESERVE, INITIAL_DATA_OFFSET in *.
  exists r. split_and!; [ done | lia | lia | lia | | ].
  - intros H32. rewrite round_capacity_up_eq in E by lia. injection E as <-.
    destruct (cap_step_bounds (c + 32)) as (Hd & Hlt & Hge); [ lia | ].
    pose proof (round_up_spec (c + 32) (cap_step (c + 32))). lia.
  - rewrite round_capacity_up_eq in E |- * by lia. injection E as E. f_equal.
    replace (r + 32) with (round_up (c + 32) (cap_step (c + 32))) by lia.
    destruct (cap_step_bounds (c + 32)) as (Hd & Hlt & Hge); [ lia | ].
    pose proof (round_up_spec (c + 32) (cap_step (c + 32))).
    rewrite round_up_divides; [ lia | | apply cap_step_round_up; lia ].
    destruct (cap_step_bounds (round_up (c + 32) (cap_step (c + 32)))); lia.
Qed.

Lemma round_capacity_up_correct_witness :
  exists r, round_capacity_up 100 = Some r /\ 100 <= r <= MAX_RESERVE /\ 64 <= r + 32
    /\ (32 <= 100 -> 2 * (r + 32) <= 3 * (100 + 32)) /\ round_capacity_up r = Some r.
Proof. apply (round_capacity_up_correct 100). split; vm_compute; congruence. Defined.

(** C29: a buffer put through any sequence of [append], [push_back], [reserve] and [clear]
    that adds at most [2^30 - 32] bytes in all and reserves at most [2^30 - 32] bytes at a time
    never fails an assertion, never writes outside its block, stays well formed and holds
    exactly the bytes the same operations build on a list, whatever the allocator returns.
    (Larger capacities, up to [2^30], pass the first assertion of [reserve] and fail a later
    one: [reserve_stops_just_below_its_limit].) *)
Theorem byte_buffer_refines_list os :
  Forall op_in_range os -> ops_bytes os <= MAX_RESERVE ->
  exists w, exec_buf_ops ByteBufferWritable_default os = Some w /\ wf w
    /\ contents w = spec_buf_ops [] os /\ _size w = zlen (spec_buf_ops [] os).
Proof.
  intros Hr Hn.
  destruct (exec_buf_ops_spec os ByteBufferWritable_default) as (w & E & Hw & Hc); [ done | done | done | ].
  exists w. split_and!; [ done | done | done | ].
  rewrite <- (wf_zlen_contents w Hw). by rewrite Hc.
Qed.

(** [reserve] accepts a request between [2^30 - 32] and [2^30], which its own assertion
    allows, but stops the program: the request is rounded up to at least [2^30] and the
    constructor's second rounding asserts a capacity below [2^30]. *)
Theorem reserve_stops_just_below_its_limit w n :
  wf w -> MAX_RESERVE < n < 2 ^ 30 -> _capacity w < n -> reserve w n = None.
Proof.
  intros Hw Hn Hc. pose proof (wf_size w Hw). unfold MAX_RESERVE, INITIAL_DATA_OFFSET in Hn.
  unfold reserve. cbn [reserve_ reserve_or_shrink_].
  destruct (round_capacity_up_spec n) as (r & -> & Hr & _ & _ & Hbig); [ lia | ].
  unfold MAX_RESERVE, INITIAL_DATA_OFFSET in Hbig. specialize (Hbig ltac:(lia)).
  unfold ByteBufferWritable_capacity, round_capacity_up.
  rewrite (proj2 (Z.ltb_ge r _)), (proj2 (Z.eqb_neq r 0)), (proj2 (Z.ltb_lt (_capacity w) n)),
    (proj2 (Z.ltb_lt n (2 ^ 30))), (proj2 (Z.leb_le (_size w) n)),
    (proj2 (Z.leb_le (_size w) (_capacity w))) by lia. done.
Qed.

(** [prepend] of bytes puts them in front of the contents. Inside the head room the
    block, the data and the flags stay; otherwise the data moves to a new block with full
    head room and the flags are reset to 0. *)
Theorem prepend_correct w l :
  wf w -> 0 < zlen l -> zlen l + _capacity w <= MAX_RESERVE ->
  exists w', prepend w (inl l) = Some w' /\ wf w' /\ contents w' = l ++ contents w
    /\ (if sizeof_StorageHeader + zlen l <=? _offset w
         then _flags w' = _flags w /\ _offset w' = _offset w - zlen l
         else _flags w' = 0 /\ _offset w' = 32).
Proof.
  intros Hw Hl Hc. destruct (Z.leb_spec (sizeof_StorageHeader + zlen l) (_offset w)) as [Hle | Hgt].
  - destruct (prepend_in_place w l) as (w' & -> & Hw' & E & _ & Hf & Ho & _); [ done | | done | ].
    + rewrite (proj2 (wf_valid w Hw)). unfold sizeof_StorageHeader in *.
      by rewrite (proj2 (Z.eqb_neq _ 0)) by lia.
    + exists w'. split_and!; done.
  - destruct (prepend_moves w l) as (w' & -> & Hw' & E & _ & Hf & Ho); [ done | done | done | done | ].
    exists w'. split_and!; done.
Qed.

End Buffers.

(** ** Witnesses *)

Lemma byte_buffer_refines_list_witness :
  exists w, exec_buf_ops ByteBufferWritable_default [BAppend [1; 2; 3]; BReserve 200; BPushBack 4] = Some w
    /\ wf w /\ contents w = spec_buf_ops [] [BAppend [1; 2; 3]; BReserve 200; BPushBack 4]
    /\ _size w = zlen (spec_buf_ops [] [BAppend [1; 2; 3]; BReserve 200; BPushBack 4]).
Proof.
  apply (byte_buffer_refines_list [BAppend [1; 2; 3]; BReserve 200; BPushBack 4]).
  - repeat constructor; vm_compute; congruence.
  - vm_compute. congruence.
Defined.

Lemma reserve_stops_just_below_its_limit_witness :
  reserve ByteBufferWritable_default (2 ^ 30 - 1) = None.
Proof.
  apply (reserve_stops_just_below_its_limit ByteBufferWritable_default (2 ^ 30 - 1)).
  - split; [ | split; [ | split ] ]; vm_compute; congruence.
  - split; vm_compute; congruence.
  - vm_compute. congruence.
Defined.

Definition sample_buffer : ByteBufferWritable := mkW (Some (replicate 64 7)) 5 32 32 1.

Lemma prepend_correct_witness :
  exists w', prepend sample_buffer (inl [1; 2]) = Some w' /\ wf w'
    /\ contents w' = [1; 2] ++ contents sample_buffer
    /\ (if sizeof_StorageHeader + zlen [1; 2] <=? _offset sample_buffer
         then _flags w' = _flags sample_buffer /\ _offset w' = _offset sample_buffer - zlen [1; 2]
         else _flags w' = 0 /\ _offset w' = 32).
Proof.
  apply (prepend_correct sample_buffer [1; 2]).
  - split; [ | split; [ split | split; [ | split; [ split | ] ] ] ]; vm_compute; congruence.
  - vm_compute. congruence.
  - vm_compute. congruence.
Defined.
