(* ===== verification/SharedBuffer.v ===== *)
(** * Shared byte buffers (ByteBufferReadable, ByteBufferStorageHeader of ByteBuffer.hpp)

    A [ByteBufferReadable] is a handle on a storage that several handles can share; the
    storage counts its handles and is returned to the memory pool when the last one goes.
    The model keeps a heap of storages and a table of the program's handles, so that
    aliasing, the reference counts, double frees and leaks are visible; [None] is a use of a
    storage that is no longer there or a false assertion. *)

From S2P Require Import Prelude MemoryPool ByteBuffer.

(** [ByteBufferStorageHeader] at the start of its block. *)
Record Storage := mkStorage {
  refCounter : Z;
  st_size : Z;
  st_offset : Z;
  st_capacity : Z;
  st_flags : Z;
  st_block : list Z
}.

(** The data bytes: [size] bytes at [data() = this + offset]. *)
Definition st_data (st : Storage) : list Z := slice (st_offset st) (st_size st) (st_block st).

Definition set_ref (st : Storage) (n : Z) : Storage :=
  mkStorage n (st_size st) (st_offset st) (st_capacity st) (st_flags st) (st_block st).

Module SharedBuffer.

Abbreviation heap := (gmap nat Storage).

(** The [storage] pointer of a [ByteBufferReadable]. *)
Abbreviation handle := (option nat).

Definition ref (h : heap) (l : nat) : option heap :=
  let* st := h !! l in
  Some (<[l := set_ref st (u32 (refCounter st + 1))]> h).

(** [ByteBufferStorageHeader::free]: the block leaves the heap. *)
Definition free (h : heap) (l : nat) : option heap :=
  let* st := h !! l in
  assert* refCounter st =? 0 in
  Some (delete l h).

Definition unref (h : heap) (l : nat) : option heap :=
  let* st := h !! l in
  let n := u32 (refCounter st - 1) in
  let h := <[l := set_ref st n]> h in
  if n =? 0 then free h l else Some h.

(** The constructor from a writable buffer, whose block lies at address [l]. *)
Definition from_writable (h : heap) (l : nat) (w : ByteBufferWritable) : heap * handle :=
  match buffer w with
  | None => (h, None)
  | Some mem =>
      (<[l := mkStorage 1 (_size w) (_offset w) (_capacity w) (_flags w) mem]> h, Some l)
  end.

Definition copy_construct (h : heap) (o : handle) : option (heap * handle) :=
  match o with
  | None => Some (h, None)
  | Some l => let* h := ref h l in Some (h, Some l)
  end.

(** The destructor. *)
Definition destroy (h : heap) (r : handle) : option heap :=
  match r with
  | None => Some h
  | Some l => unref h l
  end.

(** [r = o]: the heap and the new value of [r]. *)
Definition assign_copy (h : heap) (r o : handle) : option (heap * handle) :=
  if decide (r = o) then Some (h, r)
  else
    let* h := destroy h r in
    copy_construct h o.

(** [r = std::move(o)]: the heap and the new values of [r] and [o]. *)
Definition assign_move (h : heap) (r o : handle) : option (heap * handle * handle) :=
  if decide (r = o) then Some (h, r, o)
  else
    let* h := destroy h r in
    Some (h, o, None).

(** [TryRecycle] on a storage: the writable buffer over the whole block. *)
Definition recycle_block (st : Storage) : ByteBufferWritable :=
  let cap := u32 (st_offset st + st_capacity st) in
  mkW (Some (st_block st)) 0 (u32 (cap - INITIAL_DATA_OFFSET)) INITIAL_DATA_OFFSET 0.

(** [TryRecycle]: the compare-exchange of the counter from 1 to 0 decides. *)
Definition TryRecycle (h : heap) (r : handle) : option (heap * handle * ByteBufferWritable) :=
  match r with
  | None => Some (h, None, ByteBufferWritable_default)
  | Some l =>
      let* st := h !! l in
      if refCounter st =? 1 then Some (delete l h, None, recycle_block st)
      else
        assert* 1 <=? refCounter st in
        Some (h, Some l, ByteBufferWritable_default)
  end.

(** [data()] and [size()] of a handle: the bytes it gives access to. *)
Definition read (h : heap) (r : handle) : option (list Z) :=
  match r with
  | None => Some []
  | Some l => let* st := h !! l in Some (st_data st)
  end.

(** ** Programs over a table of handles *)

Inductive sb_op :=
| SNew (l : nat) (w : ByteBufferWritable)   (* a new handle from a writable buffer at [l] *)
| SCopy (i : nat)                           (* a new handle, copy of handle [i] *)
| SMove (i : nat)                           (* a new handle, moved from handle [i] *)
| SDestroy (i : nat)                        (* the end of handle [i]'s life *)
| SAssignCopy (i j : nat)
| SAssignMove (i j : nat)
| STryRecycle (i : nat).

Abbreviation state := (heap * list handle)%type.

(** An index outside the table is not a handle of the program: nothing happens. *)
Definition sb_step (s : state) (o : sb_op) : option state :=
  let '(h, hs) := s in
  match o with
  | SNew l w =>
      if bool_decide (is_Some (h !! l)) then Some s
      else let '(h, r) := from_writable h l w in Some (h, hs ++ [r])
  | SCopy i =>
      match hs !! i with
      | None => Some s
      | Some o => let* (h, r) := copy_construct h o in Some (h, hs ++ [r])
      end
  | SMove i =>
      match hs !! i with
      | None => Some s
      | Some o => Some (h, <[i := None]> hs ++ [o])
      end
  | SDestroy i =>
      match hs !! i with
      | None => Some s
      | Some r => let* h := destroy h r in Some (h, <[i := None]> hs)
      end
  | SAssignCopy i j =>
      match hs !! i, hs !! j with
      | Some r, Some o => let* (h, r) := assign_copy h r o in Some (h, <[i := r]> hs)
      | _, _ => Some s
      end
  | SAssignMove i j =>
      match hs !! i, hs !! j with
      | Some r, Some o =>
          let* (h, r, o) := assign_move h r o in Some (h, <[i := r]> (<[j := o]> hs))
      | _, _ => Some s
      end
  | STryRecycle i =>
      match hs !! i with
      | None => Some s
      | Some r => let* (h, r, _) := TryRecycle h r in Some (h, <[i := r]> hs)
      end
  end.

Fixpoint sb_run (s : state) (os : list sb_op) : option state :=
  match os with
  | [] => Some s
  | o :: os => let* s := sb_step s o in sb_run s os
  end.

(** ** Ownership *)

(** The number of handles on [l]. *)
Definition occ (l : nat) (hs : list handle) : Z :=
  foldr (fun r n => (if decide (r = Some l) then 1 else 0) + n) 0 hs.

(** The count stored at an address, 0 where there is no storage. *)
Definition ref_at (h : heap) (l : nat) : Z := from_option refCounter 0 (h !! l).

(** Every storage of the heap counts its handles and has one; no handle dangles. *)
Definition owned (h : heap) (hs : list handle) : Prop :=
  forall l, occ l hs = ref_at h l /\ forall st, h !! l = Some st -> 0 < refCounter st.

Lemma occ_nonneg l hs : 0 <= occ l hs.
Proof. induction hs as [|r hs IH]; simpl; [ lia | ]. case_decide; lia. Qed.

Lemma occ_le l hs : occ l hs <= zlen hs.
Proof. induction hs as [|r hs IH]; simpl; rewrite ?zlen_cons; [ done | ]. case_decide; lia. Qed.

Lemma occ_app l hs hs' : occ l (hs ++ hs') = occ l hs + occ l hs'.
Proof. induction hs as [|r hs IH]; simpl; [ done | ]. case_decide; lia. Qed.

Lemma occ_one l r : occ l [r] = if decide (r = Some l) then 1 else 0.
Proof. simpl. case_decide; lia. Qed.

Lemma occ_insert l hs i r r' :
  hs !! i = Some r -> occ l (<[i := r']> hs) = occ l hs - occ l [r] + occ l [r'].
Proof.
  rewrite !occ_one. revert i. induction hs as [|q hs IH]; intros [|i] Hi; simplify_eq/=.
  - repeat case_decide; lia.
  - rewrite (IH i Hi). repeat case_decide; lia.
Qed.

(** Ownership does not depend on the order of the handles. *)
#[export] Instance occ_Permutation l : Proper ((≡ₚ) ==> (=)) (occ l).
Proof.
  intros hs hs' Hp. induction Hp; simpl; repeat case_decide; lia.
Qed.

#[export] Instance owned_Permutation h : Proper ((≡ₚ) ==> (iff)) (owned h).
Proof.
  intros hs hs' Hp. unfold owned. split; intros Ho l; specialize (Ho l);
    [ rewrite <- (occ_Permutation l _ _ Hp) | rewrite (occ_Permutation l _ _ Hp) ]; done.
Qed.

(** A live handle points to a storage. *)
Lemma owned_live h hs i l :
  owned h hs -> hs !! i = Some (Some l) ->
  exists st, h !! l = Some st /\ refCounter st = occ l hs /\ 0 < refCounter st.
Proof.
  intros Ho Hi. destruct (Ho l) as [E Hpos]. unfold ref_at in E.
  assert (0 < occ l hs) as Hocc.
  { pose proof (occ_insert l hs i (Some l) None Hi) as H'. rewrite !occ_one in H'.
    pose proof (occ_nonneg l (<[i := None]> hs)). rewrite decide_True, decide_False in H' by done. lia. }
  destruct (h !! l) as [st|]; simpl in *; [ eauto | lia ].
Qed.

(** Rewriting one count of the heap. *)
Lemma ref_at_insert h l st l' :
  ref_at (<[l := st]> h) l' = if decide (l = l') then refCounter st else ref_at h l'.
Proof.
  unfold ref_at. case_decide as E; [ subst; by rewrite lookup_insert_eq | by rewrite lookup_insert_ne ].
Qed.

Lemma ref_at_delete h l l' : ref_at (delete l h) l' = if decide (l = l') then 0 else ref_at h l'.
Proof.
  unfold ref_at. case_decide as E; [ subst; by rewrite lookup_delete_eq | by rewrite lookup_delete_ne ].
Qed.

(** One more handle. *)
Lemma copy_construct_owned h hs o i :
  owned h hs -> hs !! i = Some o -> zlen hs < 2 ^ 32 - 1 ->
  exists h', copy_construct h o = Some (h', o)
    /\ (forall hs', (forall l, occ l hs' = occ l hs + occ l [o]) -> owned h' hs').
Proof.
  intros Ho Hi Hn. destruct o as [l|]; simpl.
  - destruct (owned_live _ _ _ _ Ho Hi) as (st & Est & Er & Hpos).
    pose proof (occ_le l hs). unfold ref. rewrite Est.
    rewrite u32_small by (unfold is_u32; lia). eexists. split; [ done | ].
    intros hs' Hocc l'. rewrite Hocc, ref_at_insert. destruct (Ho l') as [E Hp].
    rewrite E. unfold ref_at. split.
    + repeat case_decide; simplify_eq; simpl; rewrite ?Est; simpl; lia.
    + intros st'. destruct (decide (l = l')) as [<- | Hne].
      * rewrite lookup_insert_eq. intros [= <-]. simpl. lia.
      * rewrite lookup_insert_ne by done. apply Hp.
  - eexists. split; [ done | ]. intros hs' Hocc l'. rewrite Hocc. destruct (Ho l') as [E Hp].
    split; [ simpl; lia | done ].
Qed.

(** One handle less. *)
Lemma destroy_owned h hs r i :
  owned h hs -> hs !! i = Some r -> zlen hs < 2 ^ 32 ->
  exists h', destroy h r = Some h'
    /\ (forall hs', (forall l, occ l hs' = occ l hs - occ l [r]) -> owned h' hs')
    /\ (forall l st, h' !! l = Some st ->
          exists st', h !! l = Some st' /\ st = set_ref st' (refCounter st)).
Proof.
  intros Ho Hi Hn. destruct r as [l|]; simpl.
  2: { eexists. split_and!; [ done | | ].
       - intros hs' Hocc l'. rewrite Hocc. destruct (Ho l') as [E Hp]. split; [ simpl; lia | done ].
       - intros l st E. exists st. split; [ done | by destruct st ]. }
  destruct (owned_live _ _ _ _ Ho Hi) as (st & Est & Er & Hpos). pose proof (occ_le l hs).
  unfold unref, free. rewrite Est, u32_small by (unfold is_u32; lia).
  destruct (Z.eqb_spec (refCounter st - 1) 0) as [E1 | E1].
  - rewrite lookup_insert_eq. simpl. rewrite (proj2 (Z.eqb_eq _ 0)) by lia.
    eexists. split_and!; [ done | | ].
    + intros hs' Hocc l'. rewrite Hocc, ref_at_delete, ref_at_insert. destruct (Ho l') as [E Hp].
      split.
      * rewrite E. unfold ref_at. repeat case_decide; simplify_eq; rewrite ?Est; simpl; lia.
      * intros st'. destruct (decide (l = l')) as [<- | Hne]; [ by rewrite lookup_delete_eq | ].
        rewrite lookup_delete_ne, lookup_insert_ne by done. apply Hp.
    + intros l' st' E. apply lookup_delete_Some in E as [Hne E]. rewrite lookup_insert_ne in E by done.
      exists st'. split; [ done | by destruct st' ].
  - eexists. split_and!; [ done | | ].
    + intros hs' Hocc l'. rewrite Hocc, ref_at_insert. destruct (Ho l') as [E Hp]. split.
      * rewrite E. unfold ref_at. repeat case_decide; simplify_eq; rewrite ?Est; simpl; lia.
      * intros st'. destruct (decide (l = l')) as [<- | Hne].
        -- rewrite lookup_insert_eq. intros [= <-]. simpl. lia.
        -- rewrite lookup_insert_ne by done. apply Hp.
    + intros l' st' E. apply lookup_insert_Some in E as [[<- <-] | [Hne E]]; [ eauto | ].
      exists st'. split; [ done | by destruct st' ].
Qed.

Lemma occ_insert_None hs i r l :
  hs !! i = Some r -> occ l (<[i := None]> hs) = occ l hs - occ l [r].
Proof. intros Hi. rewrite (occ_insert l hs i r None Hi), (occ_one l None), decide_False by done. lia. Qed.

Lemma assign_copy_owned h hs i j r o :
  owned h hs -> hs !! i = Some r -> hs !! j = Some o -> zlen hs < 2 ^ 32 - 1 ->
  exists h', assign_copy h r o = Some (h', o) /\ owned h' (<[i := o]> hs).
Proof.
  intros Ho Hi Hj Hn. unfold assign_copy. destruct (decide (r = o)) as [-> | Hne].
  { exists h. split; [ done | ]. by rewrite list_insert_id. }
  destruct (destroy_owned h hs r i) as (h1 & -> & H1 & _); [ done | done | lia | ].
  assert (i <> j) by congruence.
  assert (owned h1 (<[i := None]> hs)) as Ho1 by (apply H1; intros; by apply occ_insert_None).
  destruct (copy_construct_owned h1 (<[i := None]> hs) o j) as (h2 & -> & H2);
    [ done | by rewrite list_lookup_insert_ne | by rewrite zlen_insert | ].
  exists h2. split; [ done | ]. apply H2. intros l.
  rewrite (occ_insert l hs i r o Hi), (occ_insert_None hs i r l Hi). lia.
Qed.

Lemma assign_move_owned h hs i j r o :
  owned h hs -> hs !! i = Some r -> hs !! j = Some o -> zlen hs < 2 ^ 32 ->
  exists h' r' o', assign_move h r o = Some (h', r', o') /\ owned h' (<[i := r']> (<[j := o']> hs)).
Proof.
  intros Ho Hi Hj Hn. unfold assign_move. destruct (decide (r = o)) as [-> | Hne].
  { exists h, o, o. split; [ done | ]. by rewrite (list_insert_id hs j), (list_insert_id hs i). }
  destruct (destroy_owned h hs r i) as (h1 & -> & H1 & _); [ done | done | lia | ].
  exists h1, o, None. split; [ done | ]. assert (j <> i) by congruence. apply H1. intros l.
  rewrite (occ_insert l _ i r) by (by rewrite list_lookup_insert_ne).
  rewrite (occ_insert_None hs j o l Hj). lia.
Qed.

Lemma TryRecycle_owned h hs i r :
  owned h hs -> hs !! i = Some r ->
  exists h' r' w, TryRecycle h r = Some (h', r', w) /\ owned h' (<[i := r']> hs).
Proof.
  intros Ho Hi. destruct r as [l|]; simpl.
  2: { exists h, None, ByteBufferWritable_default. split; [ done | ]. by rewrite list_insert_id. }
  destruct (owned_live _ _ _ _ Ho Hi) as (st & Est & Er & Hpos). rewrite Est.
  destruct (Z.eqb_spec (refCounter st) 1) as [E1 | E1].
  - eexists _, _, _. split; [ done | ]. intros l'. destruct (Ho l') as [E Hp].
    rewrite (occ_insert_None hs i _ l' Hi), occ_one, ref_at_delete, E. split.
    + unfold ref_at. repeat case_decide; simplify_eq; rewrite ?Est; simpl; lia.
    + intros st'. rewrite lookup_delete_Some. intros [_ ?]. by apply Hp.
  - rewrite (proj2 (Z.leb_le _ _)) by lia. eexists _, _, _. split; [ done | ]. by rewrite list_insert_id.
Qed.

Lemma from_writable_owned h hs l w :
  owned h hs -> h !! l = None ->
  let '(h', r) := from_writable h l w in owned h' (hs ++ [r]).
Proof.
  intros Ho Hl. unfold from_writable. destruct (buffer w) as [mem|]; intros l'; destruct (Ho l') as [E Hp];
    rewrite occ_app, occ_one, E.
  - rewrite ref_at_insert. unfold ref_at. split.
    + repeat case_decide; simplify_eq; rewrite ?Hl; simpl; lia.
    + intros st' [[<- <-] | [_ ?]]%lookup_insert_Some; [ simpl; lia | by apply Hp ].
  - rewrite decide_False by done. split; [ lia | done ].
Qed.

Lemma sb_step_owned h hs o :
  owned h hs -> zlen hs < 2 ^ 32 - 1 ->
  exists h' hs', sb_step (h, hs) o = Some (h', hs') /\ owned h' hs' /\ zlen hs' <= zlen hs + 1.
Proof.
  intros Ho Hn. destruct o as [l w | i | i | i | i j | i j | i]; simpl.
  - case_bool_decide as Hl; [ eexists _, _; split_and!; (done || lia) | ].
    pose proof (from_writable_owned h hs l w Ho (proj2 (eq_None_not_Some _) Hl)) as Hf.
    destruct (from_writable h l w) as [h' r]. eexists _, _. split_and!; [ done | done | ].
    rewrite zlen_app, zlen_cons, zlen_nil. lia.
  - destruct (hs !! i) as [o|] eqn:Hi; [ | eexists _, _; split_and!; (done || lia) ].
    destruct (copy_construct_owned h hs o i) as (h' & -> & H'); [ done | done | lia | ].
    eexists _, _. split_and!; [ done | apply H'; intros; apply occ_app | ].
    rewrite zlen_app, zlen_cons, zlen_nil. lia.
  - destruct (hs !! i) as [o|] eqn:Hi; [ | eexists _, _; split_and!; (done || lia) ].
    eexists _, _. split_and!; [ done | | rewrite zlen_app, zlen_insert, zlen_cons, zlen_nil; lia ].
    intros l. rewrite occ_app, (occ_insert_None hs i o l Hi). destruct (Ho l) as [E Hp].
    split; [ lia | done ].
  - destruct (hs !! i) as [r|] eqn:Hi; [ | eexists _, _; split_and!; (done || lia) ].
    destruct (destroy_owned h hs r i) as (h' & -> & H' & _); [ done | done | lia | ].
    eexists _, _. split_and!; [ done | apply H'; intros; by apply occ_insert_None | rewrite zlen_insert; lia ].
  - destruct (hs !! i) as [r|] eqn:Hi; [ | eexists _, _; split_and!; (done || lia) ].
    destruct (hs !! j) as [o|] eqn:Hj; [ | eexists _, _; split_and!; (done || lia) ].
    destruct (assign_copy_owned h hs i j r o) as (h' & -> & H'); [ done.. | ].
    eexists _, _. split_and!; [ done | done | rewrite zlen_insert; lia ].
  - destruct (hs !! i) as [r|] eqn:Hi; [ | eexists _, _; split_and!; (done || lia) ].
    destruct (hs !! j) as [o|] eqn:Hj; [ | eexists _, _; split_and!; (done || lia) ].
    destruct (assign_move_owned h hs i j r o) as (h' & r' & o' & -> & H'); [ done | done | done | lia | ].
    eexists _, _. split_and!; [ done | done | rewrite !zlen_insert; lia ].
  - destruct (hs !! i) as [r|] eqn:Hi; [ | eexists _, _; split_and!; (done || lia) ].
    destruct (TryRecycle_owned h hs i r) as (h' & r' & w & -> & H'); [ done.. | ].
    eexists _, _. split_and!; [ done | done | rewrite !zlen_insert; lia ].
Qed.

Lemma sb_run_owned os : forall h hs,
  owned h hs -> zlen hs + zlen os < 2 ^ 32 ->
  exists h' hs', sb_run (h, hs) os = Some (h', hs') /\ owned h' hs'.
Proof.
  induction os as [|o os IH]; intros h hs Ho Hn; cbn [sb_run]; [ eauto | ].
  rewrite zlen_cons in Hn. pose proof (zlen_nonneg os).
  destruct (sb_step_owned h hs o) as (h1 & hs1 & -> & Ho1 & Hz); [ done | lia | ].
  apply IH; [ done | lia ].
Qed.

(** ** Properties *)

(** C30: any program of fewer than [2^32] handle operations (construction, copies, moves,
    assignments with self-assignment, destruction, recycling) starting without handles never
    uses a freed storage and never frees one twice; each storage's counter is the number of
    its handles; and when every handle has ended, every storage has been released. *)
Theorem shared_buffer_counts_are_exact os :
  zlen os < 2 ^ 32 ->
  exists h hs, sb_run (∅, []) os = Some (h, hs)
    /\ (forall l st, h !! l = Some st -> refCounter st = occ l hs /\ 0 < occ l hs)
    /\ (forall i l, hs !! i = Some (Some l) -> is_Some (h !! l))
    /\ (Forall (fun r => r = None) hs -> h = ∅).
Proof.
  intros Hn. destruct (sb_run_owned os ∅ []) as (h & hs & E & Ho).
  - intros l. split; [ done | ]. intros st. by rewrite lookup_empty.
  - done.
  - exists h, hs. split_and!; [ done | | | ].
    + intros l st Hl. destruct (Ho l) as [El Hp]. unfold ref_at in El. rewrite Hl in El. simpl in El.
      specialize (Hp st Hl). lia.
    + intros i l Hi. destruct (owned_live _ _ _ _ Ho Hi) as (st & -> & _). eauto.
    + intros Hall. apply map_empty. intros l. destruct (Ho l) as [El Hp].
      destruct (h !! l) as [st|] eqn:Hl; [ | done ]. specialize (Hp st eq_refl).
      unfold ref_at in El. rewrite Hl in El. simpl in El. exfalso.
      assert (occ l hs = 0); [ | lia ]. clear - Hall. induction Hall as [|r hs -> _ IH]; done.
Qed.

Lemma shared_buffer_counts_are_exact_witness :
  exists h hs, sb_run (∅, []) [SNew 0 sample_buffer; SCopy 0; SDestroy 0] = Some (h, hs)
    /\ (forall l st, h !! l = Some st -> refCounter st = occ l hs /\ 0 < occ l hs)
    /\ (forall i l, hs !! i = Some (Some l) -> is_Some (h !! l))
    /\ (Forall (fun r => r = None) hs -> h = ∅).
Proof.
  apply (shared_buffer_counts_are_exact [SNew 0 sample_buffer; SCopy 0; SDestroy 0]). reflexivity.
Defined.

(** [TryRecycle] takes the block back exactly when its handle is the only one: then the
    result is a well-formed empty buffer over the whole block, otherwise an empty buffer
    without a block and the storage, with its data, stays with the other handles. *)
Theorem try_recycle_iff_sole_owner h hs i l w mem n :
  owned h hs -> hs !! i = Some (Some l) -> wf w -> buffer w = Some mem ->
  h !! l = Some (mkStorage n (_size w) (_offset w) (_capacity w) (_flags w) mem) ->
  (occ l hs = 1 ->
     exists w', TryRecycle h (Some l) = Some (delete l h, None, w') /\ wf w' /\ buffer w' = buffer w
       /\ contents w' = [] /\ _capacity w' + 32 = _capacity w + _offset w) /\
  (1 < occ l hs ->
     TryRecycle h (Some l) = Some (h, Some l, ByteBufferWritable_default)
     /\ read h (Some l) = Some (contents w)).
Proof.
  intros Ho Hi [Hs Hw] Hb Hl. destruct (owned_live _ _ _ _ Ho Hi) as (st & Est & Er & Hpos).
  rewrite Hl in Est. injection Est as <-. unfold TryRecycle, read. rewrite Hl. simpl in *.
  rewrite Hb in *. destruct Hw as (Hwo & Hz & Hz' & Hsz).
  unfold sizeof_StorageHeader, INITIAL_DATA_OFFSET in *. split; intros Hocc.
  - rewrite (proj2 (Z.eqb_eq _ 1)) by lia. eexists. split; [ done | ].
    unfold recycle_block, INITIAL_DATA_OFFSET. simpl.
    rewrite (u32_small (_offset w + _capacity w)), u32_small by (unfold is_u32; lia).
    split_and!; [ | done | done | simpl; lia ].
    split; simpl; [ lia | unfold sizeof_StorageHeader, INITIAL_DATA_OFFSET; lia ].
  - rewrite (proj2 (Z.eqb_neq _ 1)), (proj2 (Z.leb_le _ _)) by lia. split; [ done | ].
    unfold st_data, contents. by rewrite Hb.
Qed.

Lemma try_recycle_iff_sole_owner_witness :
  let h := {[ 0%nat := mkStorage 1 5 32 32 1 (replicate 64 7) ]} in
  (occ 0 [Some 0%nat] = 1 ->
     exists w', TryRecycle h (Some 0%nat) = Some (delete 0%nat h, None, w') /\ wf w'
       /\ buffer w' = buffer sample_buffer /\ contents w' = []
       /\ _capacity w' + 32 = _capacity sample_buffer + _offset sample_buffer) /\
  (1 < occ 0 [Some 0%nat] ->
     TryRecycle h (Some 0%nat) = Some (h, Some 0%nat, ByteBufferWritable_default)
     /\ read h (Some 0%nat) = Some (contents sample_buffer)).
Proof.
  apply (try_recycle_iff_sole_owner _ [Some 0%nat] 0 0 sample_buffer (replicate 64 7) 1).
  - intros [|l].
    + split; [ reflexivity | ]. intros st [= <-]. reflexivity.
    + unfold ref_at. rewrite lookup_singleton_ne by done. done.
  - reflexivity.
  - split; [ | split; [ split | split; [ | split; [ split | ] ] ] ]; vm_compute; congruence.
  - reflexivity.
  - reflexivity.
Defined.

(** ** Shared data does not change *)

(** Every storage of [h'] is one of [h], but for its counter. *)
Definition only_counts (h h' : heap) : Prop :=
  forall l st', h' !! l = Some st' -> exists st, h !! l = Some st /\ st' = set_ref st (refCounter st').

Lemma same_storage (h : heap) l st :
  h !! l = Some st -> exists st', h !! l = Some st' /\ st = set_ref st' (refCounter st).
Proof. intros E. exists st. by destruct st. Qed.

#[export] Instance only_counts_PreOrder : PreOrder only_counts.
Proof.
  split.
  - intros h l st. apply same_storage.
  - intros h1 h2 h3 H12 H23 l st3 (st2 & E2 & E3)%H23. apply H12 in E2 as (st1 & E1 & E2).
    exists st1. split; [ done | ]. rewrite E3, E2. done.
Qed.

Lemma only_counts_insert h l st n :
  h !! l = Some st -> only_counts h (<[l := set_ref st n]> h).
Proof.
  intros Hl l' st' [[<- <-] | [_ ?]]%lookup_insert_Some; [ eauto | by apply same_storage ].
Qed.

Lemma only_counts_delete h l : only_counts h (delete l h).
Proof. intros l' st' [_ ?]%lookup_delete_Some. by apply same_storage. Qed.

Lemma destroy_only_counts h r h' : destroy h r = Some h' -> only_counts h h'.
Proof.
  destruct r as [l|]; [ | by intros [= <-] ]. simpl. unfold unref, free.
  destruct (h !! l) as [st|] eqn:El; [ | done ]. intros H.
  destruct (u32 (refCounter st - 1) =? 0).
  - inv_bind H. injection H as <-. etrans; [ by apply only_counts_insert | apply only_counts_delete ].
  - injection H as <-. by apply only_counts_insert.
Qed.

Lemma copy_only_counts h o h' r : copy_construct h o = Some (h', r) -> only_counts h h'.
Proof.
  destruct o as [l|]; [ | by intros [= <- <-] ]. simpl. unfold ref. intros H.
  destruct (h !! l) as [st|] eqn:El; [ | done ]. injection H as <- <-. by apply only_counts_insert.
Qed.

Lemma sb_step_only_counts s o s' l :
  sb_step s o = Some s' -> (forall w, o <> SNew l w) ->
  forall st', s'.1 !! l = Some st' -> exists st, s.1 !! l = Some st /\ st' = set_ref st (refCounter st').
Proof.
  destruct s as [h hs]. intros E Hnew. assert (only_counts h s'.1 \/ exists l' w, o = SNew l' w) as [Hok | (l' & w & ->)].
  - destruct o as [l' w | i | i | i | i j | i j | i]; [ by eauto | left.. ]; simpl in E;
      (destruct (hs !! i) as [r|]; [ | by injection E as <- ]).
    + inv_bind E. destruct p. injection E as <-. by eapply copy_only_counts.
    + by injection E as <-.
    + inv_bind E. injection E as <-. by eapply destroy_only_counts.
    + destruct (hs !! j) as [o|]; [ | by injection E as <- ]. inv_bind E. destruct p. injection E as <-.
      unfold assign_copy in E0. case_decide; [ by injection E0 as <- | ]. inv_bind E0.
      etrans; [ by eapply destroy_only_counts | by eapply copy_only_counts ].
    + destruct (hs !! j) as [o|]; [ | by injection E as <- ]. inv_bind E. destruct p as [[??]?].
      injection E as <-. unfold assign_move in E0. case_decide; [ by injection E0 as <- | ]. inv_bind E0.
      injection E0 as <- <- <-. by eapply destroy_only_counts.
    + inv_bind E. destruct p as [[??]?]. injection E as <-. destruct r as [l'|]; simpl in E0; [ | by injection E0 as <- ].
      inv_bind E0. destruct (_ =? 1).
      * injection E0 as <-. apply only_counts_delete.
      * inv_bind E0. by injection E0 as <-.
  - exact (Hok l).
  - intros st'. simpl in E. case_bool_decide; [ injection E as <-; by apply same_storage | ].
    destruct (decide (l = l')) as [-> | Hne]; [ by destruct (Hnew w) | ].
    unfold from_writable in E. destruct (buffer w) as [mem|]; injection E as <-; simpl.
    + rewrite lookup_insert_ne by done. by apply same_storage.
    + by apply same_storage.
Qed.

(** While no new buffer is made at its address, the data, size, offset, capacity and
    flags of a storage are the same after any program of handle operations: handles of one
    storage never see each other's effects. *)
Theorem shared_data_is_immutable os : forall s s' l st',
  sb_run s os = Some s' -> (forall w, SNew l w ∉ os) -> s'.1 !! l = Some st' ->
  exists st, s.1 !! l = Some st /\ st' = set_ref st (refCounter st')
    /\ read s'.1 (Some l) = read s.1 (Some l).
Proof.
  intros s s' l st' Hrun Hnew Hl.
  assert (exists st, s.1 !! l = Some st /\ st' = set_ref st (refCounter st')) as (st & E & Est).
  { revert s Hrun. induction os as [|o os IH]; intros s Hrun; cbn [sb_run] in Hrun.
    - injection Hrun as ->. exists st'. by destruct st'.
    - destruct (sb_step s o) as [s1|] eqn:E; [ | done ].
      destruct IH with (s := s1) as (st1 & E1 & Est1); [ | done | ].
      { intros w Hw. apply (Hnew w). by right. }
      destruct (sb_step_only_counts _ _ _ l E) with (st' := st1) as (st & E0 & Est); [ | done | ].
      { intros w ->. apply (Hnew w). by left. }
      exists st. split; [ done | ]. rewrite Est1, Est. done. }
  exists st. split_and!; [ done | done | ]. unfold read. rewrite Hl, E, Est. done.
Qed.

Definition sample_storage (n : Z) : Storage := mkStorage n 5 32 32 1 (replicate 64 7).
Definition sample_state (n : nat) : state :=
  ({[ 0%nat := sample_storage (Z.of_nat n) ]}, replicate n (Some 0%nat)).

Lemma shared_data_is_immutable_witness :
  exists st, (sample_state 1).1 !! 0%nat = Some st
    /\ sample_storage 2 = set_ref st (refCounter (sample_storage 2))
    /\ read (sample_state 2).1 (Some 0%nat) = read (sample_state 1).1 (Some 0%nat).
Proof.
  apply (shared_data_is_immutable [SCopy 0] (sample_state 1) (sample_state 2) 0 (sample_storage 2)).
  - vm_compute. reflexivity.
  - intros w Hw. apply list_elem_of_singleton in Hw. discriminate Hw.
  - vm_compute. reflexivity.
Defined.

End SharedBuffer.
