(* ===== verification/FramingProtocol.v ===== *)
(** * The frame header (src/FramingProtocol.cpp, include/icon7/Flags.hpp)

    A frame is a header of one to four bytes followed by the body. The two low bits of the
    first byte hold the header size minus one, the next two bits the frame type, the rest of
    the header the body size minus one, in little-endian order. *)

From S2P Require Import Prelude MemoryPool ByteBuffer.

Definition FLAG_UNRELIABLE : Z := 0.
Definition FLAG_RELIABLE : Z := 1.
Definition FLAGS_CALL_NO_FEEDBACK : Z := 0.
Definition FLAGS_CALL : Z := 2.
Definition FLAGS_CALL_RETURN_FEEDBACK : Z := 4.
Definition FLAGS_PROTOCOL_CONTROLL_SEQUENCE : Z := 6.

Module FramingProtocol.

(** 0 is the value returned after the fatal log entry for an oversized body. *)
Definition GetHeaderSize (dataSize : Z) : Z :=
  if dataSize <=? Z.shiftl 1 4 then 1
  else if dataSize <=? Z.shiftl 1 12 then 2
  else if dataSize <=? Z.shiftl 1 20 then 3
  else if dataSize <=? Z.shiftl 1 28 then 4
  else 0.

(** The 32-bit word the header bytes are taken from. *)
Definition header_word (headerSize dataSize flags : Z) : Z :=
  let h := 0 in
  let h := Z.lor h (Z.shiftl (Z.land flags 6) 1) in
  let h := Z.lor h (headerSize - 1) in
  Z.lor h (u32 (Z.shiftl (u32 (dataSize - 1)) 4)).

(** The bytes [WriteHeader] stores at [header[0..headerSize-1]]. *)
Definition WriteHeader (headerSize dataSize flags : Z) : option (list Z) :=
  assert* 1 <=? headerSize in
  assert* headerSize <=? 4 in
  let h := header_word headerSize dataSize flags in
  Some ((fun i : nat => Z.land (Z.shiftr h (Z.shiftl (Z.of_nat i) 3)) 0xFF)
          <$> seq 0 (Z.to_nat headerSize)).

Definition GetPacketHeaderSize (headerFirstByte : Z) : Z := Z.land headerFirstByte 3 + 1.

Definition GetPacketFlags (header : list Z) (otherFlags : Z) : option Z :=
  let* h0 := vget header 0 in
  Some (Z.lor otherFlags (Z.land (Z.shiftr h0 1) 6)).

(** [h |= ((uint32_t)header[i]) << n]. *)
Definition or_byte (header : list Z) (i n h : Z) : option Z :=
  let* b := vget header i in
  Some (Z.lor h (Z.shiftl b n)).

(** The [switch] falls through from the header size to 1. *)
Definition GetPacketBodySize (header : list Z) (headerSize : Z) : option Z :=
  assert* 1 <=? headerSize in
  assert* headerSize <=? 4 in
  let h := 0 in
  let* h := if 4 <=? headerSize then or_byte header 3 24 h else Some h in
  let* h := if 3 <=? headerSize then or_byte header 2 16 h else Some h in
  let* h := if 2 <=? headerSize then or_byte header 1 8 h else Some h in
  let* h := or_byte header 0 0 h in
  Some (Z.shiftr h 4 + 1).

Section Buffer.
Context `{Allocator}.

Definition WriteHeaderIntoBuffer (buf : ByteBufferWritable) (flags : Z)
  : option ByteBufferWritable :=
  let size := _size buf in
  let buf := mkW (buffer buf) (_size buf) (_capacity buf) (_offset buf) flags in
  let headerSize := GetHeaderSize (_size buf) in
  let* buf := prepend buf (inr headerSize) in
  let* header := WriteHeader headerSize size flags in
  store_front buf header.

End Buffer.

(** ** Bit arithmetic *)

Lemma lor_add a b n : 0 <= n -> 0 <= b < 2 ^ n -> Z.lor (a * 2 ^ n) b = a * 2 ^ n + b.
Proof.
  intros Hn Hb. rewrite <- Z.add_lor_land, <- (Z.add_0_r (Z.lor _ _)) at 1.
  rewrite <- Z.shiftl_mul_pow2 by done. f_equal. symmetry. apply Z.bits_inj'. intros i Hi.
  rewrite Z.land_spec, Z.bits_0. destruct (Z.lt_ge_cases i n).
  - by rewrite Z.shiftl_spec_low.
  - rewrite <- (Z.mod_small b (2 ^ n)), Z.mod_pow2_bits_high by lia. apply andb_false_r.
Qed.

Lemma add_lor a b n : 0 <= n -> 0 <= b < 2 ^ n -> Z.lor b (a * 2 ^ n) = a * 2 ^ n + b.
Proof. rewrite Z.lor_comm. apply lor_add. Qed.

Lemma land_flags f : 0 <= Z.land f 6 < 8 /\ Z.land f 6 = 2 * (Z.land f 6 / 2).
Proof.
  assert (Z.land f 6 = Z.land (f mod 8) 6) as ->.
  { change 8 with (2 ^ 3). rewrite <- Z.land_ones, <- Z.land_assoc by lia. done. }
  pose proof (Z.mod_pos_bound f 8) as Hf. generalize dependent (f mod 8). intros x Hx.
  assert (x = 0 \/ x = 1 \/ x = 2 \/ x = 3 \/ x = 4 \/ x = 5 \/ x = 6 \/ x = 7)
    as [->|[->|[->|[->|[->|[->|[->| ->]]]]]]] by lia; split; vm_compute; (done || split; congruence).
Qed.

(** The header word by its fields. *)
Lemma header_word_eq hs ds f :
  1 <= hs <= 4 -> 1 <= ds <= 2 ^ 28 ->
  header_word hs ds f = (ds - 1) * 16 + 2 * Z.land f 6 + (hs - 1).
Proof.
  intros Hhs Hds. unfold header_word. destruct (land_flags f) as [Hf Ef].
  rewrite Z.lor_0_l. rewrite (u32_small (ds - 1)) by (unfold is_u32; lia).
  rewrite !Z.shiftl_mul_pow2 by lia. rewrite u32_small by (unfold is_u32; lia).
  rewrite Ef at 1. replace (2 * (Z.land f 6 / 2) * 2 ^ 1) with (Z.land f 6 / 2 * 2 ^ 2) by lia.
  rewrite lor_add by lia. rewrite add_lor by lia. lia.
Qed.

Lemma header_word_bound hs ds f :
  1 <= hs <= 4 -> 1 <= ds <= 2 ^ (8 * hs - 4) -> 0 <= header_word hs ds f < 2 ^ (8 * hs).
Proof.
  intros Hhs Hds. assert (2 ^ (8 * hs - 4) <= 2 ^ 28) by (apply Z.pow_le_mono_r; lia).
  rewrite header_word_eq by lia. destruct (land_flags f) as [Hf Ef].
  assert (2 ^ (8 * hs) = 2 ^ (8 * hs - 4) * 16) as -> by
    (change 16 with (2 ^ 4); rewrite <- Z.pow_add_r by lia; f_equal; lia). lia.
Qed.

Lemma byte_of h i : 0 <= i -> Z.land (Z.shiftr h i) 0xFF = h / 2 ^ i mod 256.
Proof.
  intros. change 0xFF with (Z.ones 8). rewrite Z.land_ones, Z.shiftr_div_pow2 by lia. done.
Qed.

(** The size ladder gives the smallest header that can hold the size. *)
Lemma GetHeaderSize_spec ds : 1 <= ds <= 2 ^ 28 ->
  1 <= GetHeaderSize ds <= 4 /\ ds <= 2 ^ (8 * GetHeaderSize ds - 4)
  /\ (forall hs, 1 <= hs < GetHeaderSize ds -> 2 ^ (8 * hs - 4) < ds).
Proof.
  intros Hds. unfold GetHeaderSize. rewrite !Z.shiftl_1_l. cmp; split_and!; try lia; intros hs Hs;
    try lia.
  - assert (hs = 1) as -> by lia. lia.
  - assert (hs = 1 \/ hs = 2) as [-> | ->] by lia; lia.
  - assert (hs = 1 \/ hs = 2 \/ hs = 3) as [-> | [-> | ->]] by lia; lia.
Qed.

Lemma WriteHeader_spec hs ds f : 1 <= hs <= 4 ->
  exists header, WriteHeader hs ds f = Some header /\ zlen header = hs
    /\ forall i, 0 <= i < hs -> vget header i = Some (header_word hs ds f / 2 ^ (8 * i) mod 256).
Proof.
  intros Hhs. unfold WriteHeader.
  rewrite (proj2 (Z.leb_le 1 hs)), (proj2 (Z.leb_le hs 4)) by lia.
  eexists. split_and!; [ done | | ].
  - unfold zlen. rewrite length_fmap, length_seq. lia.
  - intros i Hi. unfold vget. cmp. rewrite list_lookup_fmap, lookup_seq_lt by lia. simpl.
    rewrite byte_of, Z.shiftl_mul_pow2 by (rewrite ?Z.shiftl_mul_pow2; lia).
    do 4 f_equal. lia.
Qed.

(** The highest byte needs no mask. *)
Lemma top_byte h i : 0 <= i -> 0 <= h < 2 ^ (8 * (i + 1)) -> h / 2 ^ (8 * i) mod 256 = h / 2 ^ (8 * i).
Proof.
  intros Hi Hh. apply Z.mod_small. split; [ apply Z.div_pos; lia | ].
  apply Z.div_lt_upper_bound; [ lia | ]. change 256 with (2 ^ 8).
  rewrite <- Z.pow_add_r by lia. replace (8 * i + 8) with (8 * (i + 1)) by lia. lia.
Qed.

Lemma join_bytes a b n m :
  0 <= n -> 0 <= m -> a * 2 ^ (n + m) + b * 2 ^ n = (a * 2 ^ m + b) * 2 ^ n.
Proof. intros. rewrite Z.pow_add_r by lia. lia. Qed.

(** The loaded word is the little-endian sum of the header bytes. *)
Lemma GetPacketBodySize_word header hs h :
  1 <= hs <= 4 -> 0 <= h < 2 ^ (8 * hs) ->
  (forall i, 0 <= i < hs -> vget header i = Some (h / 2 ^ (8 * i) mod 256)) ->
  GetPacketBodySize header hs = Some (h / 16 + 1).
Proof.
  intros Hhs Hh Hv. unfold GetPacketBodySize, or_byte.
  rewrite (proj2 (Z.leb_le 1 hs)), (proj2 (Z.leb_le hs 4)) by lia.
  assert (Hb : forall i, 0 <= h / 2 ^ (8 * i) mod 256 < 256) by (intros; apply Z.mod_pos_bound; lia).
  pose proof (Hb 0). pose proof (Hb 1). pose proof (Hb 2). pose proof (Hb 3).
  assert (hs = 1 \/ hs = 2 \/ hs = 3 \/ hs = 4) as [-> | [-> | [-> | ->]]] by lia;
    cbn [Z.leb Z.compare Pos.compare Pos.compare_cont];
    rewrite ?(Hv 3), ?(Hv 2), ?(Hv 1), (Hv 0) by lia; do 2 f_equal;
    rewrite ?Z.lor_0_l, Z.shiftl_0_r, ?Z.shiftl_mul_pow2, Z.shiftr_div_pow2 by lia;
    change (2 ^ 4) with 16; do 1 f_equal; change (2 ^ (8 * 0)) with 1 in *; rewrite Z.div_1_r in *.
  - apply Z.mod_small. lia.
  - rewrite lor_add by lia. rewrite top_byte by lia.
    change (2 ^ (8 * 1)) with 256 in *. change (2 ^ 8) with 256. pose proof (Z.div_mod h 256). lia.
  - rewrite lor_add by lia. rewrite (join_bytes _ _ 8 8 ltac:(lia) ltac:(lia)), lor_add by lia. rewrite top_byte by lia.
    change (2 ^ (8 * 1)) with 256 in *. change (2 ^ (8 * 2)) with (256 * 256) in *.
    change (2 ^ 8) with 256. rewrite <- Z.div_div by lia.
    pose proof (Z.div_mod h 256). pose proof (Z.div_mod (h / 256) 256). lia.
  - rewrite lor_add by lia. rewrite (join_bytes _ _ 16 8 ltac:(lia) ltac:(lia)), lor_add by lia.
    rewrite (join_bytes _ _ 8 8 ltac:(lia) ltac:(lia)), lor_add by lia. rewrite top_byte by lia.
    change (2 ^ (8 * 1)) with 256 in *. change (2 ^ (8 * 2)) with (256 * 256) in *.
    change (2 ^ (8 * 3)) with (256 * 256 * 256) in *. change (2 ^ 8) with 256.
    rewrite <- !Z.div_div by lia. pose proof (Z.div_mod h 256). pose proof (Z.div_mod (h / 256) 256).
    pose proof (Z.div_mod (h / 256 / 256) 256). lia.
Qed.

(** Any header bytes decode to a body size the header can express. *)
Lemma GetPacketBodySize_bytes header hs :
  1 <= hs <= 4 -> Forall is_u8 header -> hs <= zlen header ->
  GetPacketBodySize header hs = Some (le_load (take (Z.to_nat hs) header) / 16 + 1)
  /\ 1 <= le_load (take (Z.to_nat hs) header) / 16 + 1 <= 2 ^ (8 * hs - 4).
Proof.
  intros Hhs Hu Hl. set (l := take (Z.to_nat hs) header).
  assert (Forall is_u8 l) as Hl8 by (by apply Forall_take).
  assert (zlen l = hs) as Hz by (unfold l; rewrite zlen_take; lia).
  pose proof (le_load_bound l Hl8) as Hb. rewrite Hz in Hb. split.
  - apply GetPacketBodySize_word; [ done | done | ]. intros i Hi.
    destruct (vget_is_Some l i) as [b Hi']; [ lia | ]. rewrite (le_load_byte l i b) by done.
    unfold l in Hi'. rewrite vget_take in Hi'. cmp. done.
  - assert (2 ^ (8 * hs) = 16 * 2 ^ (8 * hs - 4)) as E by
      (change 16 with (2 ^ 4); rewrite <- Z.pow_add_r by lia; f_equal; lia).
    assert (0 <= le_load l / 16) by (apply Z.div_pos; lia).
    assert (le_load l / 16 < 2 ^ (8 * hs - 4)) by (apply Z.div_lt_upper_bound; lia). lia.
Qed.

Lemma GetPacketHeaderSize_range b : 1 <= GetPacketHeaderSize b <= 4.
Proof.
  unfold GetPacketHeaderSize. change 3 with (Z.ones 2). rewrite Z.land_ones by lia.
  pose proof (Z.mod_pos_bound b (2 ^ 2)). lia.
Qed.

(** The first header byte holds the header size and the frame type. *)
Lemma header_first_byte hs ds f :
  1 <= hs <= 4 -> 1 <= ds <= 2 ^ 28 ->
  let h0 := header_word hs ds f / 2 ^ (8 * 0) mod 256 in
  GetPacketHeaderSize h0 = hs /\ Z.land (Z.shiftr h0 1) 6 = Z.land f 6.
Proof.
  intros Hhs Hds. cbv zeta. change (2 ^ (8 * 0)) with 1. rewrite Z.div_1_r.
  rewrite header_word_eq by lia. destruct (land_flags f) as [Hf Ef]. set (g := Z.land f 6 / 2) in *.
  assert (0 <= g < 4) by lia.
  assert (((ds - 1) * 16 + 2 * Z.land f 6 + (hs - 1)) mod 256 =
    (ds - 1) mod 16 * 16 + 4 * g + (hs - 1)) as ->.
  { pose proof (Z.div_mod (ds - 1) 16). pose proof (Z.mod_pos_bound (ds - 1) 16).
    symmetry. apply Z.mod_unique with ((ds - 1) / 16); lia. }
  pose proof (Z.mod_pos_bound (ds - 1) 16 ltac:(lia)) as Hm.
  split.
  - unfold GetPacketHeaderSize. change 3 with (Z.ones 2). rewrite Z.land_ones by lia.
    change (2 ^ 2) with 4. assert (((ds - 1) mod 16 * 16 + 4 * g + (hs - 1)) mod 4 = hs - 1) as ->; [ | lia ].
    symmetry. apply Z.mod_unique with ((ds - 1) mod 16 * 4 + g); lia.
  - rewrite Z.shiftr_div_pow2 by lia. change (2 ^ 1) with 2. rewrite Ef.
    assert (exists c, 0 <= c <= 1 /\ ((ds - 1) mod 16 * 16 + 4 * g + (hs - 1)) / 2 = 
        (ds - 1) mod 16 * 2 ^ 3 + (2 * g + c)) as (c & Hc & ->).
    { exists ((hs - 1) / 2). split.
      - assert (hs = 1 \/ hs = 2 \/ hs = 3 \/ hs = 4) as [-> | [-> | [-> | ->]]] by lia; vm_compute; split; congruence.
      - replace ((ds - 1) mod 16 * 16 + 4 * g + (hs - 1)) with
          (hs - 1 + ((ds - 1) mod 16 * 8 + 2 * g) * 2) by lia.
        rewrite Z.div_add by lia. lia. }
    rewrite <- lor_add by lia. rewrite Z.land_lor_distr_l.
    assert (Z.land ((ds - 1) mod 16 * 2 ^ 3) 6 = 0) as ->.
    { apply Z.bits_inj'. intros i Hi. rewrite Z.land_spec, Z.bits_0.
      destruct (Z.lt_ge_cases i 3).
      - rewrite <- Z.shiftl_mul_pow2, Z.shiftl_spec_low by lia. done.
      - change 6 with (6 mod 2 ^ 3). rewrite Z.mod_pow2_bits_high by lia. apply andb_false_r. }
    rewrite Z.lor_0_l.
    assert (g = 0 \/ g = 1 \/ g = 2 \/ g = 3) as [-> | [-> | [-> | ->]]] by lia;
      (assert (c = 0 \/ c = 1) as [-> | ->] by lia; done).
Qed.

(** The frame of a body: its header and the body. *)
Definition frame (body : list Z) (flags : Z) : option (list Z) :=
  let* header := WriteHeader (GetHeaderSize (zlen body)) (zlen body) flags in
  Some (header ++ body).

Lemma header_bytes_u8 hs ds f header :
  1 <= hs <= 4 -> WriteHeader hs ds f = Some header -> Forall is_u8 header.
Proof.
  intros Hhs E. destruct (WriteHeader_spec hs ds f Hhs) as (header' & E' & Hz & Hv). simplify_eq.
  apply Forall_lookup_2. intros i b Hi. rewrite <- vget_lookup in Hi.
  pose proof (vget_Some_range _ _ _ Hi). rewrite Hv in Hi by lia. simplify_eq.
  apply Z.mod_pos_bound. done.
Qed.

(** Every field of a written header reads back. *)
Lemma header_fields ds f :
  1 <= ds <= 2 ^ 28 ->
  exists header h0, WriteHeader (GetHeaderSize ds) ds f = Some header
    /\ zlen header = GetHeaderSize ds /\ Forall is_u8 header /\ vget header 0 = Some h0
    /\ GetPacketHeaderSize h0 = GetHeaderSize ds
    /\ (forall rest other, GetPacketFlags (header ++ rest) other = Some (Z.lor other (Z.land f 6)))
    /\ (forall rest, GetPacketBodySize (header ++ rest) (GetHeaderSize ds) = Some ds).
Proof.
  intros Hds. destruct (GetHeaderSize_spec ds Hds) as (Hhs & Hfit & _).
  destruct (WriteHeader_spec (GetHeaderSize ds) ds f Hhs) as (header & E & Hz & Hv).
  destruct (header_first_byte (GetHeaderSize ds) ds f Hhs Hds) as [Hs Hf].
  assert (Happ : forall rest i, 0 <= i < GetHeaderSize ds -> vget (header ++ rest) i = vget header i).
  { intros rest i Hi. unfold vget, zlen in *. cmp. apply lookup_app_l. lia. }
  eexists header, _. split_and!; [ done | done | by eapply header_bytes_u8 | apply Hv; lia | done | | ].
  - intros rest other. unfold GetPacketFlags. rewrite Happ, Hv by lia. by rewrite Hf.
  - intros rest.
    rewrite (GetPacketBodySize_word _ _ (header_word (GetHeaderSize ds) ds f)).
    + f_equal. rewrite header_word_eq by done. destruct (land_flags f) as [Hf' Ef].
      assert (((ds - 1) * 16 + 2 * Z.land f 6 + (GetHeaderSize ds - 1)) / 16 = ds - 1) as ->; [ | lia ].
      symmetry. apply Z.div_unique with (2 * Z.land f 6 + (GetHeaderSize ds - 1)); lia.
    + done.
    + apply header_word_bound; lia.
    + intros i Hi. rewrite Happ by done. by apply Hv.
Qed.

Section WriteIntoBuffer.
Context `{Allocator}.

(** Inside the head room, reserving the header and filling it is prepending it. *)
Lemma WriteHeaderIntoBuffer_in_place w flags :
  wf w -> valid w = true -> _offset w = 32 -> 1 <= _size w <= 2 ^ 28 ->
  exists w' header, WriteHeaderIntoBuffer w flags = Some w'
    /\ WriteHeader (GetHeaderSize (_size w)) (_size w) flags = Some header
    /\ wf w' /\ contents w' = header ++ contents w /\ _flags w' = flags
    /\ _offset w' = 32 - GetHeaderSize (_size w).
Proof.
  intros Hw Hv Ho Hs. destruct (header_fields (_size w) flags Hs) as (header & h0 & E & Hz & _).
  destruct (GetHeaderSize_spec _ Hs) as (Hhs & _ & _).
  set (w1 := mkW (buffer w) (_size w) (_capacity w) (_offset w) flags).
  destruct (prepend_in_place w1 header) as (w' & E' & Hw' & Hc & _ & Hf & Ho' & _);
    [ exact Hw | exact Hv | unfold sizeof_StorageHeader; simpl; lia | ].
  exists w', header. split_and!; [ | done | done | exact Hc | exact Hf | simpl in Ho'; lia ].
  rewrite <- E'. unfold WriteHeaderIntoBuffer. cbn [_size]. rewrite E. fold w1. unfold prepend, src_bytes.
  rewrite Hz. change (_size w1) with (_size w).
  destruct (valid w1 && _ || _); [ | done ].
  rewrite (proj2 (Z.ltb_ge _ _)) by (unfold sizeof_StorageHeader; simpl; lia).
  change (valid w1) with (valid w). by rewrite Hv.
Qed.

(** ** Properties *)

(** C14: for every body size from 1 to [2^28] and any flags the written header has the
    smallest sufficient size, and the header size, the frame type and the body size read
    back from it, whatever follows the header. *)
Theorem header_round_trip ds f :
  1 <= ds <= 2 ^ 28 ->
  exists header h0, WriteHeader (GetHeaderSize ds) ds f = Some header
    /\ zlen header = GetHeaderSize ds /\ vget header 0 = Some h0
    /\ GetPacketHeaderSize h0 = GetHeaderSize ds
    /\ (forall rest other, GetPacketFlags (header ++ rest) other = Some (Z.lor other (Z.land f 6)))
    /\ (forall rest, GetPacketBodySize (header ++ rest) (GetHeaderSize ds) = Some ds)
    /\ (forall hs, 1 <= hs < GetHeaderSize ds -> 2 ^ (8 * hs - 4) < ds).
Proof.
  intros Hds. destruct (header_fields ds f Hds) as (header & h0 & ? & ? & _ & ? & ? & ? & ?).
  exists header, h0. split_and!; try done. by apply GetHeaderSize_spec.
Qed.

(** [WriteHeaderIntoBuffer] on a buffer with full head room and 1 to [2^28] bytes puts
    the header in front of the bytes without moving them and records the flags. *)
Theorem write_header_into_buffer_frames w flags :
  wf w -> valid w = true -> _offset w = 32 -> 1 <= _size w <= 2 ^ 28 ->
  exists w', WriteHeaderIntoBuffer w flags = Some w' /\ wf w' /\ _flags w' = flags
    /\ Some (contents w') = frame (contents w) flags
    /\ _offset w' = 32 - GetHeaderSize (_size w).
Proof.
  intros Hw Hv Ho Hs.
  destruct (WriteHeaderIntoBuffer_in_place w flags Hw Hv Ho Hs) as (w' & header & E & Eh & Hw' & Hc & Hf & Ho').
  exists w'. split_and!; [ done | done | done | | done ].
  unfold frame. by rewrite (wf_zlen_contents w Hw), Eh, Hc.
Qed.

(** A body of more than [2^28] bytes stops the program: the header size 0 that
    [GetHeaderSize] returns for it fails the assertion of [WriteHeader]. *)
Theorem oversized_body_stops w flags :
  2 ^ 28 < _size w -> WriteHeaderIntoBuffer w flags = None.
Proof.
  intros Hs. unfold WriteHeaderIntoBuffer, GetHeaderSize. cbn [_size]. rewrite !Z.shiftl_1_l.
  rewrite !(proj2 (Z.leb_gt _ _)) by lia. by destruct (prepend _ _).
Qed.

End WriteIntoBuffer.

(** An empty body gets the one-byte header of a 16-byte body: the reader of such a frame
    takes the next 16 bytes of the stream as its body. *)
Theorem empty_body_header_claims_16_bytes f :
  exists h0, WriteHeader (GetHeaderSize 0) 0 f = Some [h0] /\ GetPacketHeaderSize h0 = 1
    /\ GetPacketBodySize [h0] 1 = Some 16.
Proof.
  destruct (WriteHeader_spec 1 0 f) as (header & E & Hz & Hv); [ lia | ].
  change (GetHeaderSize 0) with 1. rewrite E. destruct header as [|h0 [|h1 header]]; try done.
  exists h0. split; [ done | ]. specialize (Hv 0 ltac:(lia)). change (vget [h0] 0) with (Some h0) in Hv.
  assert (header_word 1 0 f / 2 ^ (8 * 0) mod 256 = 15 * 16 + 2 * Z.land f 6) as Ew.
  { unfold header_word. change (u32 (Z.shiftl (u32 (0 - 1)) 4)) with ((2 ^ 28 - 1) * 2 ^ 4).
    rewrite Z.lor_0_l, Z.lor_0_r. destruct (land_flags f) as [Hf Ef].
    rewrite Z.shiftl_mul_pow2 by lia. rewrite add_lor by lia.
    change (2 ^ (8 * 0)) with 1. rewrite Z.div_1_r. symmetry.
    apply Z.mod_unique with (2 ^ 24 - 1); lia. }
  rewrite Ew in Hv. injection Hv as ->. destruct (land_flags f) as [Hf Ef].
  assert (Z.land f 6 / 2 = 0 \/ Z.land f 6 / 2 = 1 \/ Z.land f 6 / 2 = 2 \/ Z.land f 6 / 2 = 3)
    as [E2 | [E2 | [E2 | E2]]] by lia; rewrite Ef, E2; split; reflexivity.
Qed.

(** ** Witnesses *)

Lemma header_round_trip_witness :
  exists header h0, WriteHeader (GetHeaderSize 300) 300 2 = Some header
    /\ zlen header = GetHeaderSize 300 /\ vget header 0 = Some h0
    /\ GetPacketHeaderSize h0 = GetHeaderSize 300
    /\ (forall rest other, GetPacketFlags (header ++ rest) other = Some (Z.lor other (Z.land 2 6)))
    /\ (forall rest, GetPacketBodySize (header ++ rest) (GetHeaderSize 300) = Some 300)
    /\ (forall hs, 1 <= hs < GetHeaderSize 300 -> 2 ^ (8 * hs - 4) < 300).
Proof. apply (header_round_trip 300 2). lia. Defined.

Lemma write_header_into_buffer_frames_witness :
  exists w', WriteHeaderIntoBuffer sample_buffer 4 = Some w' /\ wf w' /\ _flags w' = 4
    /\ Some (contents w') = frame (contents sample_buffer) 4
    /\ _offset w' = 32 - GetHeaderSize (_size sample_buffer).
Proof.
  apply (write_header_into_buffer_frames sample_buffer 4).
  - split; [ | split; [ split | split; [ | split; [ split | ] ] ] ]; vm_compute; congruence.
  - reflexivity.
  - reflexivity.
  - split; vm_compute; congruence.
Defined.

Lemma oversized_body_stops_witness :
  WriteHeaderIntoBuffer (mkW None (2 ^ 28 + 1) 0 0 0) 0 = None.
Proof. apply (oversized_body_stops (mkW None (2 ^ 28 + 1) 0 0 0) 0). simpl. lia. Defined.

End FramingProtocol.
