(* ===== verification/FrameDecoder.v ===== *)
(** * The frame decoder (src/FrameDecoder.cpp)

    [PushData] cuts a byte stream that arrives in pieces of any size into frames and passes
    each complete frame to a callback. The model keeps the decoder's two buffers (the one
    being filled and the spare one kept for recycling), the sizes, every assertion, the log
    entries that "should never happen" and the [throw]. The callback and the handles it
    keeps are the environment [Env]: [onPacket] says what happens to the handle it is given,
    [sole] whether the spare buffer has no other handle left. *)

From S2P Require Import Prelude MemoryPool ByteBuffer SharedBuffer FramingProtocol.

Module FrameDecoder.
Import FramingProtocol.

(** What the callback did with its [ByteBufferReadable &]: kept no copy, kept a copy of the
    handle, or moved the handle away. *)
Inductive fate := Released | Retained | Taken.

Record FrameDecoder := mkD {
  _writable_buffer : ByteBufferWritable;
  _buffer : option Storage;
  headerSize : Z;
  frameSize : Z;
  fatal_logs : Z
}.

Definition set_writable (d : FrameDecoder) (w : ByteBufferWritable) : FrameDecoder :=
  mkD w (_buffer d) (headerSize d) (frameSize d) (fatal_logs d).

(** [LOG_FATAL] writes a log entry and continues; the entries are counted. *)
Definition log_fatal (d : FrameDecoder) : FrameDecoder :=
  mkD (_writable_buffer d) (_buffer d) (headerSize d) (frameSize d) (fatal_logs d + 1).

(** [ByteBufferReadable::capacity()]. *)
Definition readable_capacity (r : option Storage) : Z :=
  match r with Some st => st_capacity st | None => 0 end.

(** [ByteBufferReadable(std::move(w))]. *)
Definition to_readable (w : ByteBufferWritable) : option Storage :=
  match buffer w with
  | None => None
  | Some mem => Some (mkStorage 1 (_size w) (_offset w) (_capacity w) (_flags w) mem)
  end.

(** [r.TryRecycle()], [sole] telling whether the handle is the only one. *)
Definition try_recycle (r : option Storage) (sole : bool) : ByteBufferWritable * option Storage :=
  match r with
  | None => (ByteBufferWritable_default, None)
  | Some st =>
      if sole then (SharedBuffer.recycle_block st, None)
      else (ByteBufferWritable_default, Some st)
  end.

Definition Restart (d : FrameDecoder) (sole : bool) : option FrameDecoder :=
  let w := _writable_buffer d in
  let* (w, r) :=
    if (_capacity w =? 0) || (_capacity w <? readable_capacity (_buffer d)) then
      let '(w', r) := try_recycle (_buffer d) sole in
      let* w := move_assign w w' in
      Some (w, r)
    else Some (w, _buffer d) in
  let* w := clear w in
  Some (mkD w r 0 0 (fatal_logs d)).

(** The constructor. *)
Definition FrameDecoder_init : option FrameDecoder :=
  Restart (mkD ByteBufferWritable_default None 0 0 0) true.

Section Decoder.
Context `{Allocator}.
Context {Env : Type} (sole : Env -> bool).

(** The callback with its user pointer: the frame's bytes and the header size. *)
Context (onPacket : option (Env -> list Z -> Z -> Env * fate)).

(** Append the first [n] bytes of the data to the frame being built. *)
Definition take_bytes (d : FrameDecoder) (data : list Z) (n : Z)
  : option (FrameDecoder * list Z) :=
  let* w := append (_writable_buffer d) (take (Z.to_nat n) data) in
  Some (set_writable d w, drop (Z.to_nat n) data).

(** The start of an iteration: take the first byte of a new frame. *)
Definition start_frame (d : FrameDecoder) (data : list Z) : option (FrameDecoder * list Z) :=
  if headerSize d =? 0 then
    assert* _size (_writable_buffer d) =? 0 in
    let* b := vget data 0 in
    let d := mkD (_writable_buffer d) (_buffer d) (GetPacketHeaderSize b) (frameSize d) (fatal_logs d) in
    take_bytes d data 1
  else
    assert* negb (_size (_writable_buffer d) =? 0) in
    Some (d, data).

(** Take the rest of the header. *)
Definition fill_header (d : FrameDecoder) (data : list Z) : option (FrameDecoder * list Z) :=
  if _size (_writable_buffer d) <? headerSize d then
    take_bytes d data (Z.min (zlen data) (headerSize d - _size (_writable_buffer d)))
  else Some (d, data).

(** When exactly the header is there, read the frame size and make room. *)
Definition read_header (d : FrameDecoder) : option FrameDecoder :=
  if _size (_writable_buffer d) =? headerSize d then
    let* body := GetPacketBodySize (contents (_writable_buffer d)) (headerSize d) in
    let fs := u32 (headerSize d + body) in
    let* w := reserve (_writable_buffer d) fs in
    Some (mkD w (_buffer d) (headerSize d) fs (fatal_logs d))
  else Some (if frameSize d =? 0 then log_fatal d else d).

(** Take body bytes, as many as there are and the frame still needs. *)
Definition fill_body (d : FrameDecoder) (data : list Z) : option (FrameDecoder * list Z) :=
  if _size (_writable_buffer d) <? frameSize d then
    let bytes := frameSize d - _size (_writable_buffer d) in
    let bytes := if zlen data <? bytes then zlen data else bytes in
    let d := if frameSize d <? bytes then log_fatal d else d in
    take_bytes d data bytes
  else Some (log_fatal d, data).

(** The frame is complete: pass it on and prepare for the next one. *)
Definition finish_frame (d : FrameDecoder) (s : Env) : option (FrameDecoder * Env) :=
  match onPacket with
  | None => let* d := Restart d (sole s) in Some (d, s)
  | Some f =>
      let r := to_readable (_writable_buffer d) in
      let* st := r in
      let '(s, ft) := f s (st_data st) (headerSize d) in
      let r := match ft with Taken => None | _ => Some st end in
      let '(w, r) := try_recycle r (match ft with Released => true | _ => false end) in
      let* d := Restart (set_writable d w) (sole s) in
      let d := match _buffer d with
               | None => mkD (_writable_buffer d) r (headerSize d) (frameSize d) (fatal_logs d)
               | Some _ => d
               end in
      Some (d, s)
  end.

(** One iteration of [while (length > 0)]; the boolean is [false] after a [break]. *)
Definition iteration (d : FrameDecoder) (data : list Z) (s : Env)
  : option (FrameDecoder * list Z * Env * bool) :=
  let* (d, data) := start_frame d data in
  let* (d, data) := fill_header d data in
  if _size (_writable_buffer d) <? headerSize d then
    let d := if zlen data =? 0 then d else log_fatal d in
    Some (d, data, s, false)
  else
    let* d := read_header d in
    let* (d, data) := fill_body d data in
    if _size (_writable_buffer d) =? frameSize d then
      let* (d, s) := finish_frame d s in
      Some (d, data, s, true)
    else if frameSize d <? _size (_writable_buffer d) then None
    else Some (d, data, s, false).

Fixpoint push_loop (fuel : nat) (d : FrameDecoder) (data : list Z) (s : Env)
  : option (FrameDecoder * Env) :=
  match fuel with
  | O => None
  | S fuel =>
      if 0 <? zlen data then
        let* (d, data, s, continue) := iteration d data s in
        if (continue : bool) then push_loop fuel d data s else Some (d, s)
      else Some (d, s)
  end.

(** A complete frame consumes a byte: one round per byte and a last test are enough. *)
Definition push_positive (d : FrameDecoder) (data : list Z) (s : Env) : option (FrameDecoder * Env) :=
  push_loop (S (length data)) d data s.

Definition TMP_LEN : Z := Z.shiftl 1 20.

(** [PushData]: a length of [2^31] or more is negative as an [int]; it is worked off in
    pieces of [TMP_LEN] until it is not. *)
Fixpoint push_big (fuel : nat) (d : FrameDecoder) (data : list Z) (s : Env)
  : option (FrameDecoder * Env) :=
  match fuel with
  | O => None
  | S fuel =>
      if i32 (zlen data) <? 0 then
        assert* TMP_LEN <? zlen data in
        let* (d, s) := push_positive d (take (Z.to_nat TMP_LEN) data) s in
        push_big fuel d (drop (Z.to_nat TMP_LEN) data) s
      else push_positive d data s
  end.

Definition PushData (d : FrameDecoder) (data : list Z) (s : Env) : option (FrameDecoder * Env) :=
  push_big (S (length data)) d data s.

End Decoder.

(** ** The specification: cutting a byte list into frames *)

(** The first frame of a stream, its header size and the rest of the stream; [None] while
    the frame is incomplete. *)
Definition next_frame (l : list Z) : option (list Z * Z * list Z) :=
  match l with
  | [] => None
  | b :: _ =>
      let hs := GetPacketHeaderSize b in
      if zlen l <? hs then None
      else
        let* body := GetPacketBodySize l hs in
        if zlen l <? hs + body then None
        else Some (take (Z.to_nat (hs + body)) l, hs, drop (Z.to_nat (hs + body)) l)
  end.

Fixpoint parse_ (fuel : nat) (l : list Z) : list (list Z * Z) * list Z :=
  match fuel with
  | O => ([], l)
  | S fuel =>
      match next_frame l with
      | None => ([], l)
      | Some (f, hs, rest) => let '(fs, r) := parse_ fuel rest in ((f, hs) :: fs, r)
      end
  end.

(** All the complete frames of a stream and the bytes that are left. *)
Definition parse (l : list Z) : list (list Z * Z) * list Z := parse_ (length l) l.

(** The callback applied to the frames in order. *)
Definition deliver {Env} (onPacket : option (Env -> list Z -> Z -> Env * fate))
  (s : Env) (fs : list (list Z * Z)) : Env :=
  match onPacket with
  | None => s
  | Some f => fold_left (fun s fh => (f s fh.1 fh.2).1) fs s
  end.

(** ** The decoder's invariant *)

Definition storage_ok (st : Storage) : Prop :=
  sizeof_StorageHeader <= st_offset st <= INITIAL_DATA_OFFSET
  /\ zlen (st_block st) = st_offset st + st_capacity st /\ 64 <= zlen (st_block st) < 2 ^ 32.

Definition spare_ok (r : option Storage) : Prop :=
  match r with Some st => storage_ok st | None => True end.

(** The body size the first [hs] bytes announce. *)
Definition body_of (l : list Z) (hs : Z) : Z := le_load (take (Z.to_nat hs) l) / 16 + 1.

(** The decoder holds the bytes [p] of an incomplete frame. *)
Record decoder_ok (d : FrameDecoder) (p : list Z) : Prop := {
  dk_wf : wf (_writable_buffer d);
  dk_contents : contents (_writable_buffer d) = p;
  dk_spare : spare_ok (_buffer d);
  dk_bytes : Forall is_u8 p;
  dk_header : headerSize d = match p with [] => 0 | b :: _ => GetPacketHeaderSize b end;
  dk_frame : headerSize d < zlen p ->
    frameSize d = headerSize d + body_of p (headerSize d) /\ zlen p < frameSize d
}.

Lemma dk_size d p : decoder_ok d p -> _size (_writable_buffer d) = zlen p.
Proof. intros []. rewrite <- dk_contents0. symmetry. by apply wf_zlen_contents. Qed.

Lemma body_of_app l l' hs : hs <= zlen l -> body_of (l ++ l') hs = body_of l hs.
Proof. intros Hl. unfold body_of, zlen in *. rewrite take_app_le by lia. done. Qed.

Lemma body_of_spec l hs :
  1 <= hs <= 4 -> Forall is_u8 l -> hs <= zlen l ->
  GetPacketBodySize l hs = Some (body_of l hs) /\ 1 <= body_of l hs <= 2 ^ 28.
Proof.
  intros Hhs Hu Hl. destruct (GetPacketBodySize_bytes l hs Hhs Hu Hl) as [E Hb].
  assert (2 ^ (8 * hs - 4) <= 2 ^ 28) by (apply Z.pow_le_mono_r; lia). unfold body_of. split; [ done | lia ].
Qed.

(** The header size a stream starts with. *)
Definition header_of (l : list Z) : Z := match l with [] => 0 | b :: _ => GetPacketHeaderSize b end.

Lemma header_of_app p l : p <> [] -> header_of (p ++ l) = header_of p.
Proof. by destruct p. Qed.

Lemma header_of_range l : l <> [] -> 1 <= header_of l <= 4.
Proof. destruct l; [ done | intros _; apply GetPacketHeaderSize_range ]. Qed.

Lemma next_frame_eq l :
  Forall is_u8 l -> l <> [] ->
  let F := header_of l + body_of l (header_of l) in
  next_frame l =
    if zlen l <? header_of l then None
    else if zlen l <? F then None
    else Some (take (Z.to_nat F) l, header_of l, drop (Z.to_nat F) l).
Proof.
  intros Hu Hne. pose proof (header_of_range l Hne) as Hr. unfold next_frame. cbv zeta.
  destruct l as [|b l]; [ done | ]. fold (header_of (b :: l)).
  change (GetPacketHeaderSize b) with (header_of (b :: l)).
  destruct (Z.ltb_spec (zlen (b :: l)) (header_of (b :: l))); [ done | ].
  by rewrite (proj1 (body_of_spec _ _ Hr Hu H)).
Qed.

(** ** Recycling and restarting *)

Lemma recycle_block_wf st : storage_ok st ->
  wf (SharedBuffer.recycle_block st) /\ contents (SharedBuffer.recycle_block st) = [].
Proof.
  intros (Ho & Hz & Hz'). unfold SharedBuffer.recycle_block, sizeof_StorageHeader, INITIAL_DATA_OFFSET in *.
  rewrite (u32_small (st_offset st + st_capacity st)), u32_small by (unfold is_u32; lia).
  split; [ | done ]. split; simpl; [ lia | unfold sizeof_StorageHeader, INITIAL_DATA_OFFSET; lia ].
Qed.

Lemma try_recycle_ok r b : spare_ok r ->
  wf (try_recycle r b).1 /\ spare_ok (try_recycle r b).2.
Proof.
  intros Hr. destruct r as [st|]; [ | done ]. simpl. destruct b; simpl; [ | done ].
  split; [ by apply recycle_block_wf | done ].
Qed.

Lemma to_readable_ok w : wf w -> spare_ok (to_readable w).
Proof.
  intros [Hs Hw]. unfold to_readable. destruct (buffer w) as [mem|]; [ | done ].
  destruct Hw as (Ho & Hz & Hz' & _). done.
Qed.

Lemma Restart_ok d b :
  wf (_writable_buffer d) -> spare_ok (_buffer d) ->
  exists d', Restart d b = Some d' /\ decoder_ok d' [] /\ fatal_logs d' = fatal_logs d.
Proof.
  intros Hw Hr. unfold Restart.
  assert (exists w r,
    (if (_capacity (_writable_buffer d) =? 0)
        || (_capacity (_writable_buffer d) <? readable_capacity (_buffer d))
     then let '(w', r) := try_recycle (_buffer d) b in
          let* w := move_assign (_writable_buffer d) w' in Some (w, r)
     else Some (_writable_buffer d, _buffer d)) = Some (w, r) /\ wf w /\ spare_ok r)
    as (w & r & -> & Hw' & Hr').
  { destruct (_ || _); [ | eauto ].
    destruct (try_recycle_ok _ b Hr) as [Hw' Hr']. destruct (try_recycle (_buffer d) b) as [w r].
    rewrite move_assign_wf by done. eauto. }
  destruct (clear_spec w Hw') as (w' & -> & Hw'' & Hc & _).
  eexists. split_and!; [ done | | done ].
  split; simpl; try done.
Qed.

(** ** Cutting a stream *)

Lemma next_frame_Some l f hs rest :
  Forall is_u8 l -> next_frame l = Some (f, hs, rest) ->
  l = f ++ rest /\ f <> [] /\ hs = header_of l
  /\ zlen f = header_of l + body_of l (header_of l) /\ header_of l <= zlen l.
Proof.
  intros Hu E. assert (l <> []) as Hne by (by intros ->).
  pose proof (header_of_range l Hne). rewrite next_frame_eq in E by done.
  destruct (Z.ltb_spec (zlen l) (header_of l)); [ done | ].
  destruct (body_of_spec l (header_of l)) as [_ Hb]; [ done | done | done | ].
  destruct (Z.ltb_spec (zlen l) (header_of l + body_of l (header_of l))); [ done | ].
  injection E as <- <- <-. split_and!; try done.
  - by rewrite take_drop.
  - destruct l; [ done | ]. intros E. apply (f_equal zlen) in E. rewrite zlen_take, zlen_nil in E. lia.
  - rewrite zlen_take. lia.
Qed.

Lemma next_frame_rest l f hs rest :
  Forall is_u8 l -> next_frame l = Some (f, hs, rest) ->
  Forall is_u8 rest /\ (length rest < length l)%nat.
Proof.
  intros Hu E. destruct (next_frame_Some _ _ _ _ Hu E) as (-> & Hne & _).
  apply Forall_app in Hu as [_ Hu]. split; [ done | ]. rewrite length_app.
  destruct f; [ done | simpl; lia ].
Qed.

(** A complete frame stays the first one when more bytes arrive. *)
Lemma next_frame_app l l' f hs rest :
  Forall is_u8 l -> Forall is_u8 l' -> next_frame l = Some (f, hs, rest) ->
  next_frame (l ++ l') = Some (f, hs, rest ++ l').
Proof.
  intros Hu Hu' E. destruct (next_frame_Some _ _ _ _ Hu E) as (El & Hne & Ehs & Hz & Hl).
  assert (l <> []) as Hl0 by (intros ->; by destruct f).
  pose proof (zlen_nonneg l'). pose proof (zlen_nonneg rest).
  assert (zlen l = zlen f + zlen rest) as Hzl by (rewrite El; apply zlen_app).
  rewrite next_frame_eq; [ | by apply Forall_app | by destruct l ].
  rewrite header_of_app, body_of_app by done.
  rewrite !(proj2 (Z.ltb_ge (zlen (l ++ l')) _)) by (rewrite zlen_app; lia). rewrite <- Hz.
  rewrite El, <- app_assoc. unfold zlen. rewrite Nat2Z.id, take_app_length, drop_app_length.
  rewrite <- El. by subst hs.
Qed.

Lemma parse_fuel n : forall m l,
  Forall is_u8 l -> (length l <= n)%nat -> (length l <= m)%nat -> parse_ n l = parse_ m l.
Proof.
  induction n as [|n IH]; intros m l Hu Hn Hm.
  - destruct l; [ by destruct m | simpl in Hn; lia ].
  - destruct m as [|m]; [ destruct l; [ done | simpl in Hm; lia ] | ]. simpl.
    destruct (next_frame l) as [[[f hs] rest]|] eqn:E; [ | done ].
    destruct (next_frame_rest _ _ _ _ Hu E) as [Hr Hlt]. by rewrite (IH m rest) by (done || lia).
Qed.

Lemma parse_eq l : Forall is_u8 l ->
  parse l = match next_frame l with
            | None => ([], l)
            | Some (f, hs, rest) => ((f, hs) :: (parse rest).1, (parse rest).2)
            end.
Proof.
  intros Hu. unfold parse at 1. destruct l as [|b l]; [ done | ]. cbn [length parse_].
  destruct (next_frame (b :: l)) as [[[f hs] rest]|] eqn:E; [ | done ].
  destruct (next_frame_rest _ _ _ _ Hu E) as [Hr Hlt]. simpl in Hlt. unfold parse.
  rewrite (parse_fuel _ (length rest) rest) by (done || lia). by destruct (parse_ (length rest) rest).
Qed.

(** Induction along the frames of a stream. *)
Lemma frames_ind (P : list Z -> Prop) :
  (forall l, Forall is_u8 l ->
     (forall f hs rest, next_frame l = Some (f, hs, rest) -> P rest) -> P l) ->
  forall l, Forall is_u8 l -> P l.
Proof.
  intros Hstep l. remember (length l) as n eqn:En. revert l En.
  induction (lt_wf n) as [n _ IH]. intros l -> Hu. apply Hstep; [ done | ].
  intros f hs rest E. destruct (next_frame_rest _ _ _ _ Hu E). by eapply IH.
Qed.

(** Cutting a stream in two pieces: the bytes left over from the first are put in front of
    the second. *)
Lemma parse_app l l' : Forall is_u8 l -> Forall is_u8 l' ->
  parse (l ++ l') =
    ((parse l).1 ++ (parse ((parse l).2 ++ l')).1, (parse ((parse l).2 ++ l')).2).
Proof.
  intros Hu Hu'. revert l Hu. refine (frames_ind _ _). intros l Hu IH.
  rewrite (parse_eq l Hu). destruct (next_frame l) as [[[f hs] rest]|] eqn:E.
  - rewrite (parse_eq (l ++ l')) by (by apply Forall_app).
    rewrite (next_frame_app _ _ _ _ _ Hu Hu' E). simpl. rewrite (IH _ _ _ eq_refl). done.
  - simpl. by destruct (parse (l ++ l')).
Qed.

Lemma parse_rest_u8 l : Forall is_u8 l -> Forall is_u8 (parse l).2.
Proof.
  revert l. refine (frames_ind _ _). intros l Hu IH. rewrite parse_eq by done.
  destruct (next_frame l) as [[[f hs] rest]|] eqn:E; [ | done ]. by eapply IH.
Qed.

(** ** The steps of an iteration *)

Section Steps.
Context `{Allocator}.

(** The longest frame: four header bytes and [2^28] body bytes. *)
Definition MAX_FRAME : Z := 4 + 2 ^ 28.

(** The first [n] bytes of the data move into the buffer and nothing else changes. *)
Lemma take_bytes_spec d data n :
  wf (_writable_buffer d) -> 0 <= n <= zlen data ->
  _size (_writable_buffer d) + n <= MAX_FRAME ->
  exists w, take_bytes d data n = Some (set_writable d w, drop (Z.to_nat n) data) /\ wf w
    /\ contents w = contents (_writable_buffer d) ++ take (Z.to_nat n) data.
Proof.
  intros Hw Hn Hm. unfold take_bytes.
  destruct (append_spec (_writable_buffer d) (take (Z.to_nat n) data)) as (w & -> & []).
  - done.
  - rewrite zlen_take. unfold MAX_FRAME, MAX_RESERVE, INITIAL_DATA_OFFSET in *. lia.
  - exists w. done.
Qed.

Lemma start_frame_spec d p data :
  decoder_ok d p -> Forall is_u8 data -> data <> [] ->
  exists d1 p1 data1, start_frame d data = Some (d1, data1) /\ decoder_ok d1 p1 /\ p1 <> []
    /\ p1 ++ data1 = p ++ data /\ fatal_logs d1 = fatal_logs d /\ Forall is_u8 data1
    /\ (length data1 <= length data)%nat.
Proof.
  intros Hd Hu Hne. pose proof (dk_size d p Hd) as Hsz. pose proof (dk_header d p Hd) as Hh.
  unfold start_frame. rewrite Hsz. destruct p as [|c p].
  - rewrite Hh. change (0 =? 0) with true. change (zlen [] =? 0) with true. cbv iota.
    destruct data as [|b data]; [ done | ]. change (vget (b :: data) 0) with (Some b). cbv iota beta.
    destruct (take_bytes_spec (mkD (_writable_buffer d) (_buffer d) (GetPacketHeaderSize b) (frameSize d)
      (fatal_logs d)) (b :: data) 1) as (w & -> & Hw & Hc).
    + apply Hd.
    + rewrite zlen_cons. pose proof (zlen_nonneg data). lia.
    + simpl. rewrite Hsz, zlen_nil. unfold MAX_FRAME. lia.
    + cbn [_writable_buffer] in Hc. rewrite (dk_contents d [] Hd) in Hc. apply Forall_cons in Hu as [Hb Hu].
      change (take (Z.to_nat 1) (b :: data)) with [b] in Hc.
      change (drop (Z.to_nat 1) (b :: data)) with data.
      eexists _, [b], data. split_and!; try done; [ | simpl; lia ].
      pose proof (GetPacketHeaderSize_range b). split; simpl; try done.
      * apply Hd.
      * by apply Forall_singleton.
      * rewrite zlen_cons, zlen_nil. lia.
  - pose proof (GetPacketHeaderSize_range c). pose proof (zlen_nonneg p).
    rewrite (proj2 (Z.eqb_neq (headerSize d) 0)), (proj2 (Z.eqb_neq (zlen (c :: p)) 0)) by (rewrite ?zlen_cons; lia).
    simpl. eexists _, (c :: p), data. split_and!; done.
Qed.

Lemma fill_header_spec d p data :
  decoder_ok d p -> p <> [] -> Forall is_u8 data ->
  exists d1 p1 data1, fill_header d data = Some (d1, data1) /\ decoder_ok d1 p1 /\ p1 <> []
    /\ p1 ++ data1 = p ++ data /\ fatal_logs d1 = fatal_logs d /\ Forall is_u8 data1
    /\ (zlen p1 < header_of p1 -> data1 = []) /\ (length data1 <= length data)%nat.
Proof.
  intros Hd Hne Hu. pose proof (dk_size d p Hd) as Hsz. pose proof (dk_header d p Hd) as Hh.
  fold (header_of p) in Hh. pose proof (header_of_range p Hne) as Hr.
  unfold fill_header. rewrite Hsz, Hh. destruct (Z.ltb_spec (zlen p) (header_of p)) as [Hlt | Hge].
  2: { eexists _, p, data. split_and!; try done. lia. }
  pose proof (zlen_nonneg data). pose proof (zlen_nonneg p).
  set (n := Z.min (zlen data) (header_of p - zlen p)).
  destruct (take_bytes_spec d data n) as (w & -> & Hw & Hc).
  - apply Hd.
  - lia.
  - rewrite Hsz. unfold MAX_FRAME. lia.
  - rewrite (dk_contents d p Hd) in Hc.
    assert (zlen (p ++ take (Z.to_nat n) data) = zlen p + n) as Hz.
    { rewrite zlen_app, zlen_take. lia. }
    eexists _, (p ++ take (Z.to_nat n) data), (drop (Z.to_nat n) data). split_and!; try done.
    + split; simpl; try done.
      * apply Hd.
      * apply Forall_app. split; [ apply Hd | by apply Forall_take ].
      * fold (header_of (p ++ take (Z.to_nat n) data)). by rewrite header_of_app.
      * intros Hlt'. rewrite Hz, Hh in Hlt'. lia.
    + by destruct p.
    + by rewrite <- app_assoc, take_drop.
    + by apply Forall_drop.
    + rewrite header_of_app, Hz by done. intros Hlt'. apply drop_ge. unfold zlen in *. lia.
    + rewrite length_drop. lia.
Qed.

(** With a complete header the frame size is known. *)
Lemma read_header_spec d p :
  decoder_ok d p -> p <> [] -> header_of p <= zlen p ->
  exists d1, read_header d = Some d1 /\ decoder_ok d1 p /\ fatal_logs d1 = fatal_logs d
    /\ frameSize d1 = header_of p + body_of p (header_of p) /\ zlen p < frameSize d1
    /\ headerSize d1 = header_of p.
Proof.
  intros Hd Hne Hl. pose proof (dk_size d p Hd) as Hsz. pose proof (dk_header d p Hd) as Hh.
  fold (header_of p) in Hh. pose proof (header_of_range p Hne) as Hr.
  destruct (body_of_spec p (header_of p) Hr (dk_bytes d p Hd) Hl) as [Eb Hb].
  unfold read_header. rewrite Hsz, Hh. destruct (Z.eqb_spec (zlen p) (header_of p)) as [E | Hneq].
  - rewrite (dk_contents d p Hd), Eb. rewrite u32_small by (unfold is_u32; lia).
    destruct (reserve_spec 0 (_writable_buffer d) (header_of p + body_of p (header_of p)))
      as (w & Er & Hw & Hc & _); [ apply Hd | unfold MAX_RESERVE, INITIAL_DATA_OFFSET; lia | ].
    unfold reserve. rewrite Er. eexists. split_and!; try done; simpl; try lia.
    split; simpl; try done.
    + rewrite Hc. apply Hd.
    + apply Hd.
    + apply Hd.
    + lia.
  - destruct (dk_frame d p Hd) as [Ef Hf]; [ lia | ]. rewrite Hh in Ef.
    rewrite (proj2 (Z.eqb_neq (frameSize d) 0)) by lia. exists d. split_and!; (done || lia).
Qed.

Lemma fill_body_spec d p data :
  decoder_ok d p -> p <> [] -> Forall is_u8 data -> headerSize d <= zlen p ->
  frameSize d = headerSize d + body_of p (headerSize d) -> zlen p < frameSize d ->
  exists d1 w, fill_body d data = Some (d1, drop (Z.to_nat (frameSize d - zlen p)) data)
    /\ d1 = set_writable d w /\ wf w
    /\ contents w = p ++ take (Z.to_nat (frameSize d - zlen p)) data.
Proof.
  intros Hd Hne Hu Hl Hf Hlt. pose proof (dk_size d p Hd) as Hsz.
  pose proof (header_of_range p Hne) as Hr. pose proof (dk_header d p Hd) as Hh. fold (header_of p) in Hh.
  destruct (body_of_spec p (headerSize d)) as [Eb Hb]; [ lia | apply Hd | done | ].
  pose proof (zlen_nonneg data). pose proof (zlen_nonneg p).
  unfold fill_body. rewrite Hsz, (proj2 (Z.ltb_lt (zlen p) _)) by done.
  set (n := if zlen data <? frameSize d - zlen p then zlen data else frameSize d - zlen p).
  assert (n <= frameSize d) by (unfold n; cmp). rewrite (proj2 (Z.ltb_ge _ n)) by done.
  destruct (take_bytes_spec d data n) as (w & -> & Hw & Hc).
  - apply Hd.
  - unfold n. cmp.
  - rewrite Hsz. unfold MAX_FRAME, n. cmp.
  - rewrite (dk_contents d p Hd) in Hc. exists (set_writable d w), w.
    assert (take (Z.to_nat n) data = take (Z.to_nat (frameSize d - zlen p)) data
      /\ drop (Z.to_nat n) data = drop (Z.to_nat (frameSize d - zlen p)) data) as [E1 E2].
    { unfold n. destruct (Z.ltb_spec (zlen data) (frameSize d - zlen p)); [ | done ].
      unfold zlen in *. rewrite !take_ge, !drop_ge by lia. done. }
    rewrite E1 in Hc. rewrite E2. done.
Qed.

End Steps.

Section Loop.
Context `{Allocator}.
Context {Env : Type} (sole : Env -> bool) (onPacket : option (Env -> list Z -> Z -> Env * fate)).

Lemma finish_frame_spec d s f :
  wf (_writable_buffer d) -> contents (_writable_buffer d) = f -> f <> [] -> spare_ok (_buffer d) ->
  exists d', finish_frame sole onPacket d s = Some (d', deliver onPacket s [(f, headerSize d)])
    /\ decoder_ok d' [] /\ fatal_logs d' = fatal_logs d.
Proof.
  intros Hw Hc Hne Hr. unfold finish_frame, deliver. destruct onPacket as [cb|].
  2: { destruct (Restart_ok d (sole s) Hw Hr) as (d' & -> & Hd & Hl). eauto. }
  pose proof (to_readable_ok _ Hw) as Hst. unfold to_readable, contents in *.
  destruct (buffer (_writable_buffer d)) as [mem|]; [ | by subst ].
  cbv iota beta. unfold st_data. cbn [st_offset st_size st_block fold_left fst snd]. rewrite Hc.
  destruct (cb s f (headerSize d)) as [s' ft]. cbn [fst].
  set (st := mkStorage _ _ _ _ _ _) in *.
  set (r := match ft with Taken => None | _ => Some st end).
  set (b := match ft with Released => true | _ => false end).
  assert (spare_ok r) as Hrr by (by destruct ft).
  destruct (try_recycle_ok r b Hrr) as [Hw1 Hr1]. destruct (try_recycle r b) as [w1 r1].
  destruct (Restart_ok (set_writable d w1) (sole s')) as (d' & -> & Hd & Hl); [ done | done | ].
  eexists. split; [ done | ]. destruct (_buffer d') eqn:Eb; [ done | ].
  split; [ | done ]. destruct Hd. split; simpl; done.
Qed.

(** An iteration either hands on the first frame or keeps all the bytes. *)
Lemma iteration_spec d p data s :
  decoder_ok d p -> Forall is_u8 data -> data <> [] ->
  match next_frame (p ++ data) with
  | None =>
      exists d', iteration sole onPacket d data s = Some (d', [], s, false)
        /\ decoder_ok d' (p ++ data) /\ fatal_logs d' = fatal_logs d
  | Some (f, hs, rest) =>
      exists d', iteration sole onPacket d data s = Some (d', rest, deliver onPacket s [(f, hs)], true)
        /\ decoder_ok d' [] /\ fatal_logs d' = fatal_logs d /\ (length rest < length data)%nat
        /\ Forall is_u8 rest
  end.
Proof.
  intros Hd Hu Hne. unfold iteration.
  destruct (start_frame_spec d p data Hd Hu Hne) as (d1 & p1 & data1 & -> & Hd1 & Hne1 & E1 & L1 & U1 & N1).
  destruct (fill_header_spec d1 p1 data1 Hd1 Hne1 U1)
    as (d2 & p2 & data2 & -> & Hd2 & Hne2 & E2 & L2 & U2 & Hshort & N2).
  rewrite <- E1, <- E2 in *. rewrite (dk_size _ _ Hd2), (dk_header _ _ Hd2). fold (header_of p2).
  assert (Forall is_u8 (p2 ++ data2)) as Hall by (apply Forall_app; split; [ apply Hd2 | done ]).
  pose proof (header_of_range p2 Hne2) as Hr.
  rewrite next_frame_eq by (done || by destruct p2). rewrite header_of_app by done.
  destruct (Z.ltb_spec (zlen p2) (header_of p2)) as [Hlt | Hge].
  { rewrite (Hshort Hlt), app_nil_r. rewrite (proj2 (Z.ltb_lt _ _)) by done.
    change (zlen [] =? 0) with true. exists d2. split_and!; [ done | done | congruence ]. }
  pose proof (zlen_nonneg data2). rewrite body_of_app by done.
  rewrite (proj2 (Z.ltb_ge (zlen (p2 ++ data2)) (header_of p2))) by (rewrite zlen_app; lia).
  destruct (read_header_spec d2 p2 Hd2 Hne2 Hge) as (d3 & -> & Hd3 & L3 & F3 & Hlt3 & H3).
  destruct (fill_body_spec d3 p2 data2) as (d4 & w & -> & -> & Hw & Hc); [ done | done | done | lia | congruence | done | ].
  rewrite <- F3. cbn [_writable_buffer frameSize set_writable].
  pose proof (wf_zlen_contents w Hw) as Hz. rewrite Hc, zlen_app, zlen_take in Hz.
  rewrite zlen_app. destruct (Z.ltb_spec (zlen p2 + zlen data2) (frameSize d3)) as [Hinc | Hcomp].
  - rewrite (proj2 (Z.eqb_neq (_size w) _)), (proj2 (Z.ltb_ge (frameSize d3) _)) by lia.
    rewrite drop_ge by (unfold zlen in *; lia). eexists. split_and!; [ done | | simpl; congruence ].
    rewrite take_ge in Hc by (unfold zlen in *; lia).
    assert (header_of p2 <= zlen p2) by done.
    split; simpl; try done; try apply Hd3.
    + rewrite H3. fold (header_of (p2 ++ data2)). by rewrite header_of_app.
    + intros _. rewrite F3, H3, body_of_app by done. rewrite zlen_app. lia.
  - rewrite (proj2 (Z.eqb_eq (_size w) _)) by lia.
    set (f := p2 ++ take (Z.to_nat (frameSize d3 - zlen p2)) data2) in *.
    destruct (finish_frame_spec (set_writable d3 w) s f) as (d' & -> & Hd' & L');
      [ done | done | by destruct p2 | apply Hd3 | ].
    assert (take (Z.to_nat (frameSize d3)) (p2 ++ data2) = f
      /\ drop (Z.to_nat (frameSize d3)) (p2 ++ data2) = drop (Z.to_nat (frameSize d3 - zlen p2)) data2)
      as [-> ->].
    { unfold f, zlen in *. rewrite take_app_ge, drop_app_ge by lia.
      replace (Z.to_nat (frameSize d3) - length p2)%nat
        with (Z.to_nat (frameSize d3 - Z.of_nat (length p2))) by lia. done. }
    cbn [headerSize set_writable]. rewrite H3. eexists. split_and!; [ done | done | | | by apply Forall_drop ].
    + rewrite L'. simpl. congruence.
    + rewrite length_drop. unfold zlen in *. lia.
Qed.

Lemma decoder_ok_incomplete d p : decoder_ok d p -> parse p = ([], p).
Proof.
  intros Hd. rewrite parse_eq by apply Hd. destruct (decide (p = [])) as [-> | Hne]; [ done | ].
  rewrite next_frame_eq by (done || apply Hd). pose proof (header_of_range p Hne).
  pose proof (dk_header _ _ Hd) as Hh. fold (header_of p) in Hh.
  destruct (Z.ltb_spec (zlen p) (header_of p)); [ done | ].
  destruct (body_of_spec p (header_of p)) as [_ Hb]; [ done | apply Hd | done | ].
  rewrite (proj2 (Z.ltb_lt (zlen p) _)); [ done | ].
  destruct (Z.eq_dec (zlen p) (header_of p)); [ lia | ].
  destruct (dk_frame _ _ Hd) as [Ef Hf]; [ lia | ]. rewrite Hh in Ef. lia.
Qed.

Lemma deliver_cons s x fs : deliver onPacket s (x :: fs) = deliver onPacket (deliver onPacket s [x]) fs.
Proof. unfold deliver. by destruct onPacket. Qed.

Lemma deliver_app s fs fs' : deliver onPacket s (fs ++ fs') = deliver onPacket (deliver onPacket s fs) fs'.
Proof. unfold deliver. destruct onPacket; [ apply fold_left_app | done ]. Qed.

(** What pushing bytes has to do to a decoder that holds [p]: deliver the frames of the
    whole stream, keep the rest, and write no "should never happen" entry. *)
Definition pushed (d : FrameDecoder) (p data : list Z) (s : Env) (r : option (FrameDecoder * Env)) : Prop :=
  exists d', r = Some (d', deliver onPacket s (parse (p ++ data)).1)
    /\ decoder_ok d' (parse (p ++ data)).2 /\ fatal_logs d' = fatal_logs d.

Lemma push_loop_spec fuel : forall d p data s,
  (length data < fuel)%nat -> decoder_ok d p -> Forall is_u8 data ->
  pushed d p data s (push_loop sole onPacket fuel d data s).
Proof.
  induction fuel as [|fuel IH]; intros d p data s Hf Hd Hu; [ lia | ]. cbn [push_loop].
  destruct (decide (data = [])) as [-> | Hne].
  { change (0 <? zlen []) with false. unfold pushed. rewrite app_nil_r, (decoder_ok_incomplete _ _ Hd).
    exists d. split_and!; try done. simpl. unfold deliver. by destruct onPacket. }
  assert (0 < zlen data) by (destruct data; [ done | rewrite zlen_cons; pose proof (zlen_nonneg data); lia ]).
  rewrite (proj2 (Z.ltb_lt 0 _)) by done. pose proof (iteration_spec d p data s Hd Hu Hne) as Hit.
  assert (Forall is_u8 (p ++ data)) as Hall by (apply Forall_app; split; [ apply Hd | done ]).
  unfold pushed. rewrite (parse_eq _ Hall).
  destruct (next_frame (p ++ data)) as [[[f hs] rest]|].
  - destruct Hit as (d1 & -> & Hd1 & L1 & Hlt & Hr).
    destruct (IH d1 [] rest (deliver onPacket s [(f, hs)])) as (d' & -> & Hd' & L'); [ lia | done | done | ].
    exists d'. cbn [fst snd app] in *. rewrite (deliver_cons s (f, hs) (parse rest).1). split_and!; (done || congruence).
  - destruct Hit as (d1 & -> & Hd1 & L1). exists d1. simpl.
    split_and!; [ | done | done ]. unfold deliver. by destruct onPacket.
Qed.

Lemma push_positive_spec d p data s :
  decoder_ok d p -> Forall is_u8 data -> pushed d p data s (push_positive sole onPacket d data s).
Proof. intros. apply push_loop_spec; (done || lia). Qed.

Lemma pushed_app d d1 p data data' s r :
  decoder_ok d p -> Forall is_u8 data -> Forall is_u8 data' ->
  fatal_logs d1 = fatal_logs d ->
  pushed d1 (parse (p ++ data)).2 data' (deliver onPacket s (parse (p ++ data)).1) r ->
  pushed d p (data ++ data') s r.
Proof.
  intros Hd Hu Hu' L (d' & -> & Hd' & L'). exists d'.
  assert (Forall is_u8 (p ++ data)) as Hall by (apply Forall_app; split; [ apply Hd | done ]).
  rewrite app_assoc, (parse_app _ _ Hall Hu'). simpl.
  rewrite deliver_app. split_and!; (done || congruence).
Qed.

Lemma i32_neg x : is_u32 x -> (i32 x <? 0) = (2 ^ 31 <=? x).
Proof.
  intros Hx. unfold i32. rewrite u32_small by done. unfold is_u32 in Hx.
  destruct (Z.ltb_spec x (2 ^ 31)), (Z.leb_spec (2 ^ 31) x); try lia.
Qed.

Lemma push_big_spec fuel : forall d p data s,
  (length data < fuel)%nat -> zlen data < 2 ^ 32 -> decoder_ok d p -> Forall is_u8 data ->
  pushed d p data s (push_big sole onPacket fuel d data s).
Proof.
  induction fuel as [|fuel IH]; intros d p data s Hf Hn Hd Hu; [ lia | ]. cbn [push_big].
  pose proof (zlen_nonneg data). rewrite i32_neg by done.
  destruct (Z.leb_spec (2 ^ 31) (zlen data)) as [Hbig | _]; [ | by apply push_positive_spec ].
  change TMP_LEN with (2 ^ 20). rewrite (proj2 (Z.ltb_lt (2 ^ 20) _)) by lia.
  set (n := Z.to_nat (2 ^ 20)).
  assert (n = Z.to_nat (2 ^ 20)) as En by done. clearbody n.
  destruct (push_positive_spec d p (take n data) s) as (d1 & -> & Hd1 & L1);
    [ done | by apply Forall_take | ].
  rewrite <- (take_drop n data) at 1.
  eapply (pushed_app d d1); [ done | by apply Forall_take | by apply Forall_drop | done | ].
  apply IH; [ | rewrite zlen_drop; lia | done | by apply Forall_drop ].
  rewrite length_drop. unfold zlen in *. lia.
Qed.

Lemma PushData_spec d p data s :
  zlen data < 2 ^ 32 -> decoder_ok d p -> Forall is_u8 data ->
  pushed d p data s (PushData sole onPacket d data s).
Proof. intros. apply push_big_spec; (done || lia). Qed.

(** ** A stream in pieces *)

Fixpoint push_chunks (d : FrameDecoder) (chunks : list (list Z)) (s : Env)
  : option (FrameDecoder * Env) :=
  match chunks with
  | [] => Some (d, s)
  | c :: chunks => let* (d, s) := PushData sole onPacket d c s in push_chunks d chunks s
  end.

Lemma push_chunks_spec chunks : forall d p s,
  Forall (fun c => zlen c < 2 ^ 32 /\ Forall is_u8 c) chunks -> decoder_ok d p ->
  pushed d p (concat chunks) s (push_chunks d chunks s).
Proof.
  induction chunks as [|c chunks IH]; intros d p s Hc Hd; cbn [push_chunks concat].
  - unfold pushed. rewrite app_nil_r, (decoder_ok_incomplete _ _ Hd). exists d. split_and!; try done.
    simpl. unfold deliver. by destruct onPacket.
  - apply Forall_cons in Hc as [[Hn Hu] Hc].
    destruct (PushData_spec d p c s Hn Hd Hu) as (d1 & -> & Hd1 & L1).
    eapply (pushed_app d d1); [ done | done | | done | by apply IH ].
    apply Forall_concat. eapply Forall_impl; [ exact Hc | naive_solver ].
Qed.

Lemma FrameDecoder_init_ok : exists d, FrameDecoder_init = Some d /\ decoder_ok d [] /\ fatal_logs d = 0.
Proof. by apply Restart_ok. Qed.

(** ** Frames written by [FramingProtocol] *)

(** A message: a body and its flags. *)
Definition message : Type := list Z * Z.
Definition message_ok (m : message) : Prop := 1 <= zlen m.1 <= 2 ^ 28 /\ Forall is_u8 m.1.
Definition frame_of (m : message) : list Z := default [] (frame m.1 m.2).
Definition frame_header_size (m : message) : Z := GetHeaderSize (zlen m.1).

Lemma frame_of_spec m : message_ok m ->
  exists header, frame_of m = header ++ m.1 /\ zlen header = frame_header_size m
    /\ Forall is_u8 (frame_of m) /\ header_of (frame_of m) = frame_header_size m
    /\ GetPacketBodySize (frame_of m) (frame_header_size m) = Some (zlen m.1)
    /\ GetPacketFlags (frame_of m) 0 = Some (Z.land m.2 6)
    /\ 1 <= frame_header_size m <= 4.
Proof.
  intros [Hn Hu]. unfold frame_of, frame, frame_header_size.
  destruct (header_fields (zlen m.1) m.2 Hn) as (header & h0 & -> & Hz & Hu' & H0 & Hs & Hf & Hb).
  destruct (GetHeaderSize_spec _ Hn) as (Hhs & _ & _).
  exists header. cbn [default id]. split_and!; [ done | done | | | apply Hb | | lia | lia ].
  - by apply Forall_app.
  - destruct header as [|b header]; [ done | ]. simpl. unfold vget in H0. simpl in H0. congruence.
  - rewrite Hf. by rewrite Z.lor_0_l.
Qed.

Lemma parse_frames msgs : Forall message_ok msgs ->
  parse (concat (frame_of <$> msgs)) = ((fun m => (frame_of m, frame_header_size m)) <$> msgs, []).
Proof.
  induction 1 as [|m msgs Hm Hms IH]; [ done | ]. cbn [fmap list_fmap concat].
  destruct (frame_of_spec m Hm) as (header & Ef & Hz & Hu & Hh & Hb & _ & Hhs).
  assert (Forall is_u8 (concat (frame_of <$> msgs))) as Hur.
  { apply Forall_concat, Forall_fmap. eapply Forall_impl; [ exact Hms | ]. intros x Hx.
    by destruct (frame_of_spec x Hx) as (? & ? & ? & ? & _). }
  assert (Forall is_u8 (frame_of m ++ concat (frame_of <$> msgs))) as Hall by (by apply Forall_app).
  pose proof (zlen_nonneg m.1). destruct Hm as [Hn Hu1].
  assert (frame_of m <> []) as Hne by (rewrite Ef; intros E; apply (f_equal zlen) in E;
    rewrite zlen_app, zlen_nil in E; lia).
  assert (zlen (frame_of m) = frame_header_size m + zlen m.1) as Hzf by (rewrite Ef, zlen_app; lia).
  assert (body_of (frame_of m) (frame_header_size m) = zlen m.1) as Ebody.
  { destruct (body_of_spec (frame_of m) (frame_header_size m)) as [E _]; [ done | done | lia | congruence ]. }
  rewrite parse_eq, next_frame_eq; [ | done | by destruct (frame_of m) | done ].
  rewrite header_of_app, Hh, body_of_app, Ebody by (done || lia).
  pose proof (zlen_nonneg (concat (frame_of <$> msgs))).
  rewrite !(proj2 (Z.ltb_ge (zlen (_ ++ _)) _)) by (rewrite zlen_app; lia).
  rewrite <- Hzf. unfold zlen. rewrite !Nat2Z.id, take_app_length, drop_app_length. by rewrite IH.
Qed.

(** Frames in pieces of any sizes. *)
Lemma push_frames_spec msgs chunks s :
  Forall message_ok msgs -> concat chunks = concat (frame_of <$> msgs) ->
  Forall (fun c => zlen c < 2 ^ 32) chunks ->
  exists d d', FrameDecoder_init = Some d
    /\ push_chunks d chunks s =
         Some (d', deliver onPacket s ((fun m => (frame_of m, frame_header_size m)) <$> msgs))
    /\ contents (_writable_buffer d') = [] /\ fatal_logs d' = 0
    /\ Forall (fun m => drop (Z.to_nat (frame_header_size m)) (frame_of m) = m.1
                        /\ GetPacketFlags (frame_of m) 0 = Some (Z.land m.2 6)) msgs.
Proof.
  intros Hm Ec Hn. destruct FrameDecoder_init_ok as (d & E & Hd & L).
  assert (Forall is_u8 (concat chunks)) as Hu.
  { rewrite Ec. apply Forall_concat, Forall_fmap. eapply Forall_impl; [ exact Hm | ]. intros x Hx.
    by destruct (frame_of_spec x Hx) as (? & ? & ? & ? & _). }
  destruct (push_chunks_spec chunks d [] s) as (d' & E' & Hd' & L'); [ | done | ].
  - apply Forall_and. split; [ done | ]. by apply Forall_concat.
  - simpl in E', Hd'. rewrite Ec, parse_frames in E', Hd' by done.
    exists d, d'. split_and!; [ done | done | apply Hd' | congruence | ].
    eapply Forall_impl; [ exact Hm | ]. intros x Hx.
    destruct (frame_of_spec x Hx) as (header & Ef & Hz & _ & _ & _ & Hf & _). split; [ | done ].
    rewrite Ef, <- Hz. unfold zlen. by rewrite Nat2Z.id, drop_app_length.
Qed.

(** ** Properties *)

(** C4: whatever pieces a byte stream arrives in (each shorter than [2^32] bytes), whatever
    the callback does with the frames and whoever still holds the spare buffer, a new decoder
    never fails an assertion, never throws, never writes a "should never happen" entry, calls
    the callback with exactly the complete frames of the stream in order, and keeps the
    remaining bytes. *)
Theorem decoder_delivers_the_frames_of_the_stream chunks s :
  Forall (fun c => zlen c < 2 ^ 32 /\ Forall is_u8 c) chunks ->
  exists d d', FrameDecoder_init = Some d
    /\ push_chunks d chunks s = Some (d', deliver onPacket s (parse (concat chunks)).1)
    /\ contents (_writable_buffer d') = (parse (concat chunks)).2 /\ fatal_logs d' = 0.
Proof.
  intros Hc. destruct FrameDecoder_init_ok as (d & E & Hd & L).
  destruct (push_chunks_spec chunks d [] s Hc Hd) as (d' & E' & Hd' & L').
  exists d, d'. split_and!; [ done | done | apply Hd' | congruence ].
Qed.

(** Frames written by [FramingProtocol] for bodies of 1 to [2^28] bytes, sent one after
    the other and received in pieces of any sizes, come out one by one, with the body, the
    header size and the frame type they were written with, and nothing is left over. *)
Theorem frames_round_trip msgs chunks s :
  Forall message_ok msgs -> concat chunks = concat (frame_of <$> msgs) ->
  Forall (fun c => zlen c < 2 ^ 32) chunks ->
  exists d d', FrameDecoder_init = Some d
    /\ push_chunks d chunks s =
         Some (d', deliver onPacket s ((fun m => (frame_of m, frame_header_size m)) <$> msgs))
    /\ contents (_writable_buffer d') = [] /\ fatal_logs d' = 0
    /\ Forall (fun m => drop (Z.to_nat (frame_header_size m)) (frame_of m) = m.1
                        /\ GetPacketFlags (frame_of m) 0 = Some (Z.land m.2 6)) msgs.
Proof.
  apply push_frames_spec.
Qed.

End Loop.

(** ** Witnesses *)

(** A callback that records the frames it gets and keeps every second one. *)
Definition record_frames (s : list (list Z)) (f : list Z) (hs : Z) : list (list Z) * fate :=
  (s ++ [f], if Nat.even (length s) then Retained else Released).

Lemma decoder_delivers_the_frames_of_the_stream_witness :
  exists d d', FrameDecoder_init = Some d
    /\ push_chunks (fun _ => true) (Some record_frames) d [[0x14; 7]; [8; 0x04]; [9; 0x10]] [] =
         Some (d', deliver (Some record_frames) [] (parse (concat [[0x14; 7]; [8; 0x04]; [9; 0x10]])).1)
    /\ contents (_writable_buffer d') = (parse (concat [[0x14; 7]; [8; 0x04]; [9; 0x10]])).2
    /\ fatal_logs d' = 0.
Proof.
  apply (decoder_delivers_the_frames_of_the_stream (fun _ => true) (Some record_frames)
    [[0x14; 7]; [8; 0x04]; [9; 0x10]] []).
  repeat constructor; vm_compute; congruence.
Defined.

(** The recorded frames and the pending byte of that stream. *)
Lemma parse_sample : parse [0x14; 7; 8; 0x04; 9; 0x10] = ([([0x14; 7; 8], 1); ([0x04; 9], 1)], [0x10]).
Proof. reflexivity. Qed.

Lemma frames_round_trip_witness :
  exists d d', FrameDecoder_init = Some d
    /\ push_chunks (fun _ => false) (Some record_frames) d [[0x14; 7]; [8; 0x00; 9]] [] =
         Some (d', deliver (Some record_frames) []
           ((fun m => (frame_of m, frame_header_size m)) <$> [([7; 8], 2); ([9], 0)]))
    /\ contents (_writable_buffer d') = [] /\ fatal_logs d' = 0
    /\ Forall (fun m => drop (Z.to_nat (frame_header_size m)) (frame_of m) = m.1
                        /\ GetPacketFlags (frame_of m) 0 = Some (Z.land m.2 6)) [([7; 8], 2); ([9], 0)].
Proof.
  apply (frames_round_trip (fun _ => false) (Some record_frames) [([7; 8], 2); ([9], 0)]
    [[0x14; 7]; [8; 0x00; 9]] []).
  - repeat constructor; vm_compute; congruence.
  - reflexivity.
  - repeat constructor; vm_compute; congruence.
Defined.

End FrameDecoder.
