(* ===== verification/PeersToFlush.v ===== *)
(** * The set of peers to flush (src/PeersToFlush.cpp)

    A sparse set of peer ids: [peers] is the dense list of members, [offsets[id]] the
    position of [id] in it or -1. The theorems show that it implements a finite set. *)

From S2P Require Import Prelude.

Module PeersToFlush.

Record PeersToFlush := mkPTF { peers : list Z; offsets : list Z }.

Definition PeersToFlush_init : PeersToFlush := mkPTF [] [].

Definition InsertPeerToFlush (t : PeersToFlush) (peer : Z) : option PeersToFlush :=
  let offs := if zlen (offsets t) <=? peer then vresize (offsets t) (u32 (peer + 1)) (-1)
              else offsets t in
  let* o := vget offs peer in
  if 0 <=? o then Some (mkPTF (peers t) offs)
  else
    let* offs := vset offs peer (i32 (zlen (peers t))) in
    Some (mkPTF (peers t ++ [peer]) offs).

Definition RemovePeerToFlush (t : PeersToFlush) (peer : Z) : option PeersToFlush :=
  if zlen (offsets t) <=? peer then Some t
  else
    let* o := vget (offsets t) peer in
    if o <? 0 then Some t
    else
      assert* 0 <? zlen (peers t) in
      let off := o in
      let* offs := vset (offsets t) peer (-1) in
      if off + 1 =? zlen (peers t) then
        Some (mkPTF (take (length (peers t) - 1) (peers t)) offs)
      else
        let* back := vget (peers t) (zlen (peers t) - 1) in
        let* ps := vset (peers t) off back in
        let* moved := vget ps off in
        let* offs := vset offs moved off in
        Some (mkPTF (take (length ps - 1) ps) offs).

(** Position and membership agree; ids stay below [2^31]. *)
Record inv (t : PeersToFlush) : Prop := {
  inv_pos : forall i p, vget (peers t) i = Some p -> vget (offsets t) p = Some i;
  inv_off : forall p i, vget (offsets t) p = Some i -> 0 <= i -> vget (peers t) i = Some p;
  inv_neg : forall p i, vget (offsets t) p = Some i -> -1 <= i;
  inv_small : zlen (offsets t) <= 2 ^ 31
}.

(** The set a table stands for. *)
Definition to_set (t : PeersToFlush) : gset Z := list_to_set (peers t).

Lemma inv_NoDup t : inv t -> NoDup (peers t).
Proof.
  intros [Hp _ _ _]. apply NoDup_alt. intros i j p Hi Hj. rewrite <- vget_lookup in Hi, Hj.
  apply Hp in Hi, Hj. simplify_eq. lia.
Qed.

Lemma elem_to_set t p : p ∈ to_set t <-> exists i, vget (peers t) i = Some p.
Proof.
  unfold to_set. rewrite elem_of_list_to_set. split; [ apply elem_vget | intros [i Hi]; by eapply vget_elem ].
Qed.

Lemma inv_peers_bound t : inv t -> zlen (peers t) <= zlen (offsets t).
Proof.
  intros Ht. pose proof (inv_NoDup t Ht) as Hnd.
  assert (peers t ⊆+ (Z.of_nat <$> seq 0 (length (offsets t)))) as Hsub.
  { apply NoDup_submseteq; [ done | ]. intros p [i Hi]%elem_vget.
    apply (inv_pos _ Ht), vget_Some_range in Hi. unfold zlen in Hi.
    apply list_elem_of_fmap. exists (Z.to_nat p). split; [ lia | ]. apply elem_of_seq. lia. }
  apply submseteq_length in Hsub. rewrite length_fmap, length_seq in Hsub. unfold zlen. lia.
Qed.

Lemma inv_not_member t p : inv t -> (forall o, vget (offsets t) p = Some o -> o < 0) -> p ∉ to_set t.
Proof.
  intros Ht Hn [i Hi]%elem_to_set. pose proof (inv_pos _ Ht _ _ Hi) as Ho.
  apply Hn in Ho. apply vget_Some_range in Hi. lia.
Qed.

Lemma PeersToFlush_init_inv : inv PeersToFlush_init.
Proof.
  split; simpl; try (intros ? ? [? Hr]%vget_Some_range; rewrite zlen_nil in Hr; lia). done.
Qed.

(** Growing the offsets with -1 does not change the set. *)
Lemma grow_inv t n : inv t -> zlen (offsets t) <= n <= 2 ^ 31 -> inv (mkPTF (peers t) (vresize (offsets t) n (-1))).
Proof.
  intros Ht Hn. pose proof (zlen_nonneg (offsets t)). destruct Ht as [Hp Ho Hneg Hs]. split; simpl.
  - intros i p Hi. rewrite vget_vresize by lia. pose proof (vget_Some_range _ _ _ (Hp _ _ Hi)).
    rewrite (proj2 (Z.leb_gt _ p)) by lia. by apply Hp.
  - intros p i. rewrite vget_vresize by lia. destruct (_ && _); [ intros [= <-]; lia | apply Ho ].
  - intros p i. rewrite vget_vresize by lia. destruct (_ && _); [ intros [= <-]; lia | apply Hneg ].
  - rewrite zlen_vresize; lia.
Qed.

Lemma InsertPeerToFlush_spec t p :
  inv t -> 0 <= p < 2 ^ 31 ->
  exists t', InsertPeerToFlush t p = Some t' /\ inv t' /\ to_set t' = {[p]} ∪ to_set t.
Proof.
  intros Ht Hp. unfold InsertPeerToFlush. pose proof (zlen_nonneg (offsets t)).
  rewrite (u32_small (p + 1)) by (unfold is_u32; lia).
  set (offs := if _ <=? p then _ else _).
  assert (inv (mkPTF (peers t) offs) /\ p < zlen offs) as [Ht' Hlt].
  { unfold offs. destruct (Z.leb_spec (zlen (offsets t)) p).
    - split; [ apply grow_inv; [ done | lia ] | rewrite zlen_vresize; lia ].
    - split; [ by destruct t | lia ]. }
  clearbody offs. destruct (vget_is_Some offs p) as [o Ho]; [ lia | ]. rewrite Ho.
  pose proof (inv_peers_bound _ Ht') as Hb. pose proof (inv_small _ Ht') as Hs. simpl in Hb, Hs.
  pose proof (zlen_nonneg (peers t)).
  destruct (Z.leb_spec 0 o) as [Hge | Hneg].
  { eexists. split_and!; [ done | done | ].
    assert (p ∈ to_set t); [ | set_solver ]. apply elem_to_set. exists o. by apply (inv_off _ Ht'). }
  destruct (vset_is_Some offs p (i32 (zlen (peers t)))) as [offs' E]; [ lia | ]. rewrite E.
  assert (p ∉ to_set t) as Hnin.
  { assert (p ∉ to_set (mkPTF (peers t) offs)) as Hn; [ | done ].
    apply inv_not_member; [ done | ]. simpl. intros o'. rewrite Ho. by intros [= <-]. }
  assert (zlen (peers t) < 2 ^ 31) as Hlt31.
  { destruct (Z.eq_dec (zlen (peers t)) (2 ^ 31)) as [E31|]; [ | lia ]. exfalso.
    pose proof (inv_NoDup _ Ht') as Hnd. simpl in Hnd.
    assert (NoDup (p :: peers t)) as Hnd'.
    { constructor; [ | done ]. unfold to_set in Hnin. by rewrite elem_of_list_to_set in Hnin. }
    assert (p :: peers t ⊆+ (Z.of_nat <$> seq 0 (length offs))) as Hsub.
    { apply NoDup_submseteq; [ done | ]. intros q [-> | [i Hi]%elem_vget]%elem_of_cons.
      - apply list_elem_of_fmap. exists (Z.to_nat p). split; [ lia | ]. apply elem_of_seq. unfold zlen in *. lia.
      - apply (inv_pos _ Ht'), vget_Some_range in Hi. simpl in Hi. unfold zlen in *.
        apply list_elem_of_fmap. exists (Z.to_nat q). split; [ lia | ]. apply elem_of_seq. lia. }
    apply submseteq_length in Hsub. rewrite length_fmap, length_seq in Hsub. simpl in Hsub. unfold zlen in *. lia. }
  rewrite i32_small in E by lia.
  eexists. split_and!; [ done | | ].
  - destruct Ht' as [Hpos Hoff Hn' Hs']. simpl in *. split; simpl.
    + intros i q. rewrite vget_snoc, (vget_vset _ _ _ _ _ E).
      destruct (Z.eqb_spec i (zlen (peers t))) as [-> | Hi].
      * intros [= <-]. by rewrite Z.eqb_refl.
      * intros Hq. destruct (Z.eqb_spec q p) as [-> | _]; [ | by apply Hpos ].
        exfalso. apply Hnin. apply elem_to_set. eauto.
    + intros q i. rewrite vget_snoc, (vget_vset _ _ _ _ _ E).
      destruct (Z.eqb_spec q p) as [-> | Hq].
      * intros [= <-] _. by rewrite Z.eqb_refl.
      * intros Hq' Hi. pose proof (Hoff _ _ Hq' Hi) as Hv.
        destruct (Z.eqb_spec i (zlen (peers t))) as [-> | _]; [ | done ].
        apply vget_Some_range in Hv. lia.
    + intros q i. rewrite (vget_vset _ _ _ _ _ E). destruct (q =? p); [ intros [= <-]; lia | apply Hn' ].
    + by rewrite (vset_zlen _ _ _ _ E).
  - unfold to_set. simpl. rewrite list_to_set_app_L. set_solver.
Qed.

(** Dropping an element, up to order. *)
Lemma to_set_perm t t' p :
  NoDup (peers t) -> p :: peers t' ≡ₚ peers t -> to_set t' = to_set t ∖ {[p]}.
Proof.
  intros Hnd Hperm. unfold to_set. rewrite <- Hperm in Hnd. apply NoDup_cons in Hnd as [Hn _].
  apply (list_to_set_perm_L (C := gset Z)) in Hperm. rewrite <- Hperm. simpl. apply set_eq. intros q.
  rewrite elem_of_difference, elem_of_union, elem_of_singleton, elem_of_list_to_set.
  split; [ | naive_solver ]. intros Hq. split; [ by right | ]. by intros ->.
Qed.

(** Without its last member. *)
Lemma pop_inv t p offs :
  inv t -> vget (offsets t) p = Some (zlen (peers t) - 1) -> 0 < zlen (peers t) ->
  vset (offsets t) p (-1) = Some offs ->
  let t' := mkPTF (take (length (peers t) - 1) (peers t)) offs in
  inv t' /\ p :: peers t' ≡ₚ peers t.
Proof.
  intros Ht Ho Hpos E. pose proof (inv_off _ Ht _ _ Ho ltac:(lia)) as Hp. destruct Ht as [Hps Hoff Hneg Hs].
  assert (Z.of_nat (length (peers t) - 1) = zlen (peers t) - 1) as El by (unfold zlen in *; lia).
  split.
  - split; cbn [peers offsets].
    + intros i q. rewrite vget_take, El, (vget_vset _ _ _ _ _ E).
      destruct (Z.ltb_spec i (zlen (peers t) - 1)); [ | done ]. intros Hi.
      destruct (Z.eqb_spec q p) as [-> | _]; [ | by apply Hps ].
      apply Hps in Hi. rewrite Ho in Hi. injection Hi as Hi. lia.
    + intros q i. rewrite vget_take, El, (vget_vset _ _ _ _ _ E).
      destruct (Z.eqb_spec q p) as [-> | Hne]; [ intros [= <-]; lia | ]. intros Hq Hi.
      pose proof (Hoff _ _ Hq Hi) as Hv. destruct (Z.ltb_spec i (zlen (peers t) - 1)); [ done | ].
      pose proof (vget_Some_range _ _ _ Hv). assert (i = zlen (peers t) - 1) as -> by lia.
      rewrite Hp in Hv. congruence.
    + intros q i. rewrite (vget_vset _ _ _ _ _ E). destruct (q =? p); [ intros [= <-]; lia | apply Hneg ].
    + by rewrite (vset_zlen _ _ _ _ E).
  - cbn [peers]. unfold vget in Hp. cmp. replace (Z.to_nat (zlen (peers t) - 1)) with (length (peers t) - 1)%nat in Hp
      by (unfold zlen; lia).
    rewrite Permutation_cons_append. rewrite <- (take_S_r _ _ _ Hp).
    rewrite take_ge; [ done | unfold zlen in *; lia ].
Qed.

(** The last member moves to the freed position. *)
Lemma swap_inv t p off back ps offs offs' :
  inv t -> vget (offsets t) p = Some off -> 0 <= off < zlen (peers t) - 1 ->
  vget (peers t) (zlen (peers t) - 1) = Some back ->
  vset (offsets t) p (-1) = Some offs -> vset (peers t) off back = Some ps ->
  vset offs back off = Some offs' ->
  let t' := mkPTF (take (length ps - 1) ps) offs' in
  inv t' /\ p :: peers t' ≡ₚ peers t.
Proof.
  intros Ht Ho Hr Hb Eo Ep Eo'. pose proof (inv_off _ Ht _ _ Ho ltac:(lia)) as Hp.
  pose proof (inv_pos _ Ht _ _ Hb) as Hbo. destruct Ht as [Hps Hoff Hneg Hs].
  assert (back <> p) as Hne by (intros ->; rewrite Ho in Hbo; injection Hbo; lia).
  assert (length ps = length (peers t)) as Hlen.
  { pose proof (vset_zlen _ _ _ _ Ep) as H'. unfold zlen in H'. lia. }
  assert (Z.of_nat (length ps - 1) = zlen (peers t) - 1) as El by (unfold zlen in *; lia).
  split.
  - split; cbn [peers offsets].
    + intros i q. rewrite vget_take, El, (vget_vset _ _ _ _ _ Ep), (vget_vset _ _ _ _ _ Eo'),
        (vget_vset _ _ _ _ _ Eo).
      destruct (Z.ltb_spec i (zlen (peers t) - 1)); [ | done ].
      destruct (Z.eqb_spec i off) as [-> | Hi]; [ intros [= <-]; by rewrite Z.eqb_refl | ]. intros Hq.
      apply Hps in Hq. destruct (Z.eqb_spec q back) as [-> | _]; [ rewrite Hbo in Hq; injection Hq; lia | ].
      destruct (Z.eqb_spec q p) as [-> | _]; [ rewrite Ho in Hq; injection Hq; lia | done ].
    + intros q i. rewrite vget_take, El, (vget_vset _ _ _ _ _ Ep), (vget_vset _ _ _ _ _ Eo'),
        (vget_vset _ _ _ _ _ Eo).
      destruct (Z.eqb_spec q back) as [-> | Hqb].
      { intros [= <-] _. rewrite (proj2 (Z.ltb_lt _ _)), Z.eqb_refl by lia. done. }
      destruct (Z.eqb_spec q p) as [-> | Hqp]; [ intros [= <-]; lia | ]. intros Hq Hi.
      pose proof (Hoff _ _ Hq Hi) as Hv. destruct (Z.eqb_spec i off) as [-> | _]; [ congruence | ].
      destruct (Z.ltb_spec i (zlen (peers t) - 1)); [ done | ].
      pose proof (vget_Some_range _ _ _ Hv). assert (i = zlen (peers t) - 1) as -> by lia. congruence.
    + intros q i. rewrite (vget_vset _ _ _ _ _ Eo'), (vget_vset _ _ _ _ _ Eo).
      destruct (q =? back); [ intros [= <-]; lia | ].
      destruct (q =? p); [ intros [= <-]; lia | apply Hneg ].
    + by rewrite (vset_zlen _ _ _ _ Eo'), (vset_zlen _ _ _ _ Eo).
  - cbn [peers]. apply vset_Some in Ep as [_ ->]. rewrite length_insert. unfold vget in Hp, Hb. cmp.
    apply move_last_perm; [ done | | unfold zlen in *; lia ].
    replace (length (peers t) - 1)%nat with (Z.to_nat (zlen (peers t) - 1)) by (unfold zlen; lia). done.
Qed.

Lemma RemovePeerToFlush_spec t p :
  inv t -> 0 <= p ->
  exists t', RemovePeerToFlush t p = Some t' /\ inv t' /\ to_set t' = to_set t ∖ {[p]}.
Proof.
  intros Ht Hp. unfold RemovePeerToFlush. pose proof (inv_NoDup t Ht) as Hnd.
  destruct (Z.leb_spec (zlen (offsets t)) p) as [Hge | Hlt].
  { exists t. split_and!; [ done | done | ]. assert (p ∉ to_set t); [ | set_solver ].
    apply inv_not_member; [ done | ]. intros o Ho%vget_Some_range. lia. }
  destruct (vget_is_Some (offsets t) p) as [off Ho]; [ lia | ]. rewrite Ho.
  destruct (Z.ltb_spec off 0) as [Hneg | Hoff].
  { exists t. split_and!; [ done | done | ]. assert (p ∉ to_set t); [ | set_solver ].
    apply inv_not_member; [ done | ]. intros o. rewrite Ho. by intros [= <-]. }
  pose proof (vget_Some_range _ _ _ (inv_off _ Ht _ _ Ho Hoff)) as Hr.
  rewrite (proj2 (Z.ltb_lt 0 _)) by lia.
  destruct (vset_is_Some (offsets t) p (-1)) as [offs Eo]; [ lia | ]. rewrite Eo.
  destruct (Z.eqb_spec (off + 1) (zlen (peers t))) as [E1 | E1].
  { destruct (pop_inv t p offs) as [Ht' Hperm]; [ done | rewrite Ho; f_equal; lia | lia | done | ].
    eexists. split_and!; [ done | done | by apply to_set_perm ]. }
  destruct (vget_is_Some (peers t) (zlen (peers t) - 1)) as [back Hb]; [ lia | ]. rewrite Hb.
  destruct (vset_is_Some (peers t) off back) as [ps Ep]; [ lia | ]. rewrite Ep.
  rewrite (vget_vset _ _ _ _ _ Ep), Z.eqb_refl.
  destruct (vset_is_Some offs back off) as [offs' Eo'].
  { rewrite (vset_zlen _ _ _ _ Eo). by eapply vget_Some_range, inv_pos. }
  rewrite Eo'. destruct (swap_inv t p off back ps offs offs') as [Ht' Hperm]; try done; [ lia | ].
  eexists. split_and!; [ done | done | by apply to_set_perm ].
Qed.

(** ** The sparse set as a set *)

Inductive flush_op := FInsert (peer : Z) | FRemove (peer : Z).

Definition flush_step (t : PeersToFlush) (o : flush_op) : option PeersToFlush :=
  match o with
  | FInsert p => InsertPeerToFlush t p
  | FRemove p => RemovePeerToFlush t p
  end.

Fixpoint flush_run (t : PeersToFlush) (os : list flush_op) : option PeersToFlush :=
  match os with
  | [] => Some t
  | o :: os => let* t := flush_step t o in flush_run t os
  end.

Definition flush_spec (s : gset Z) (o : flush_op) : gset Z :=
  match o with
  | FInsert p => {[p]} ∪ s
  | FRemove p => s ∖ {[p]}
  end.

Definition op_peer (o : flush_op) : Z := match o with FInsert p => p | FRemove p => p end.

(** C38: from the empty table, any sequence of insertions and removals of ids below [2^31]
    runs without an out-of-range access and leaves in [peers] exactly the members of the set
    the same operations build, each once. *)
Theorem peers_to_flush_refines_set os :
  Forall (fun o => 0 <= op_peer o < 2 ^ 31) os ->
  exists t, flush_run PeersToFlush_init os = Some t /\ NoDup (peers t)
    /\ list_to_set (peers t) = fold_left flush_spec os (∅ : gset Z).
Proof.
  intros Hos. cut (forall t, inv t -> exists t', flush_run t os = Some t' /\ inv t'
    /\ to_set t' = fold_left flush_spec os (to_set t)).
  { intros Hall. destruct (Hall _ PeersToFlush_init_inv) as (t & E & Ht & Es).
    exists t. split_and!; [ done | by apply inv_NoDup | done ]. }
  induction Hos as [|o os Ho _ IH]; intros t Ht; cbn [flush_run fold_left]; [ eauto | ].
  assert (exists t1, flush_step t o = Some t1 /\ inv t1 /\ to_set t1 = flush_spec (to_set t) o)
    as (t1 & -> & Ht1 & <-).
  { destruct o as [p|p]; simpl in *.
    - by apply InsertPeerToFlush_spec.
    - apply RemovePeerToFlush_spec; [ done | lia ]. }
  by apply IH.
Qed.

Lemma peers_to_flush_refines_set_witness :
  exists t, flush_run PeersToFlush_init [FInsert 3; FInsert 1; FInsert 3; FRemove 3] = Some t
    /\ NoDup (peers t)
    /\ list_to_set (peers t) =
         fold_left flush_spec [FInsert 3; FInsert 1; FInsert 3; FRemove 3] (∅ : gset Z).
Proof.
  apply (peers_to_flush_refines_set [FInsert 3; FInsert 1; FInsert 3; FRemove 3]).
  repeat constructor; vm_compute; congruence.
Defined.

End PeersToFlush.
