(* ===== verification/PeerManager.v ===== *)
(** * Peer handles (src/PeerManager.cpp, include/icon7/PeerHandle.hpp)

    A [PeerHandle] names a slot of a loop's [PeerManager] and the version the slot had when
    the peer was stored. Releasing a slot increments its version (skipping 0), so that old
    handles stop resolving. Every host of the loop keeps the list of its own peers in a
    [PeerReferences]; the manager records each peer's position in that list. The peer data
    objects are shared: the model keeps them in a store, because [Alloc] writes the handle
    into the object and [Release] reads the moved peer's handle back from it. *)

From S2P Require Import Prelude PeersToFlush.

Module PeerManager.
Import PeersToFlush.

Record PeerId := mkId { id : Z; version : Z }.

(** [loop] is the loop's address, 0 the null pointer. *)
Record PeerHandle := mkHandle { hid : PeerId; loop : Z }.

#[export] Instance PeerId_eq_dec : EqDecision PeerId.
Proof. solve_decision. Defined.
#[export] Instance PeerHandle_eq_dec : EqDecision PeerHandle.
Proof. solve_decision. Defined.

Definition PeerHandle_default : PeerHandle := mkHandle (mkId 0 0) 0.

(** [PeerHandle::operator bool]. *)
Definition handle_valid (h : PeerHandle) : bool :=
  negb (version (hid h) =? 0) && negb (loop h =? 0).

(** The fields of [PeerData] and of its [Peer] that the managers use. *)
Record PeerData := mkData { host : Z; peerHandle : PeerHandle; sharedPeerHandle : PeerHandle }.

Abbreviation store := (gmap nat PeerData).

Record PeerManager := mkPM {
  perHostOffset : list Z;
  peersToFlush : PeersToFlush;
  peers : list (option nat);
  versions : list Z;
  freeIds : list Z;
  pm_loop : Z
}.

Definition PeerManager_init (l : Z) : PeerManager := mkPM [] PeersToFlush_init [] [] [] l.

Definition Clear (m : PeerManager) : PeerManager :=
  mkPM (perHostOffset m) (peersToFlush m) [] [] [] (pm_loop m).

(** The slot [Alloc] takes: a free one, or a new one at the end. *)
Definition take_slot (m : PeerManager) (d : nat) : option (PeerManager * PeerHandle) :=
  if 0 <? zlen (freeIds m) then
    let* i := vget (freeIds m) (zlen (freeIds m) - 1) in
    let free := take (length (freeIds m) - 1) (freeIds m) in
    let* v := vget (versions m) i in
    let* old := vget (peers m) i in
    assert* bool_decide (old = None) in
    let* ps := vset (peers m) i (Some d) in
    Some (mkPM (perHostOffset m) (peersToFlush m) ps (versions m) free (pm_loop m),
          mkHandle (mkId i v) (pm_loop m))
  else
    Some (mkPM (perHostOffset m ++ [-1]) (peersToFlush m) (peers m ++ [Some d])
            (versions m ++ [1]) (freeIds m) (pm_loop m),
          mkHandle (mkId (u32 (zlen (peers m))) 1) (pm_loop m)).

Definition Alloc (m : PeerManager) (st : store) (d : nat)
  : option (PeerManager * store * PeerHandle) :=
  let* data := st !! d in
  assert* negb (handle_valid (peerHandle data)) in
  let* (m, handle) := take_slot m d in
  let st := <[d := mkData (host data) handle handle]> st in
  assert* negb (version (hid handle) =? 0) in
  Some (m, st, handle).

Definition ExistsLocal (m : PeerManager) (h : PeerHandle) : option bool :=
  assert* zlen (peers m) =? zlen (versions m) in
  assert* loop h =? pm_loop m in
  if zlen (versions m) <=? id (hid h) then Some false
  else
    let* p := vget (peers m) (id (hid h)) in
    if bool_decide (p = None) then Some false
    else
      let* v := vget (versions m) (id (hid h)) in
      Some (version (hid h) =? v).

Definition GetCurrentVersionLocal (m : PeerManager) (h : PeerHandle) : option PeerHandle :=
  assert* zlen (peers m) =? zlen (versions m) in
  assert* loop h =? pm_loop m in
  if zlen (versions m) <=? id (hid h) then Some PeerHandle_default
  else
    let* p := vget (peers m) (id (hid h)) in
    if bool_decide (p = None) then Some PeerHandle_default
    else
      let* v := vget (versions m) (id (hid h)) in
      Some (mkHandle (mkId (id (hid h)) v) (pm_loop m)).

Definition GetLocalPeerData (m : PeerManager) (h : PeerHandle) : option (option nat) :=
  let* e := ExistsLocal m h in
  if (e : bool) then vget (peers m) (id (hid h)) else Some None.

Definition GetLocalHost (m : PeerManager) (st : store) (h : PeerHandle) : option (option Z) :=
  let* r := GetLocalPeerData m h in
  match r with
  | None => Some None
  | Some d => let* data := st !! d in Some (Some (host data))
  end.

(** [versions[i]++], once more when it became 0. *)
Definition next_version (v : Z) : Z :=
  let v := u32 (v + 1) in
  if v =? 0 then u32 (v + 1) else v.

Definition Release (m : PeerManager) (h : PeerHandle) : option (PeerManager * option nat) :=
  let* e := ExistsLocal m h in
  if negb e then Some (m, None)
  else
    let i := id (hid h) in
    let free := freeIds m ++ [i] in
    let* data := vget (peers m) i in
    let* ps := vset (peers m) i None in
    let* v := vget (versions m) i in
    let* vs := vset (versions m) i (next_version v) in
    let* flush := RemovePeerToFlush (peersToFlush m) i in
    Some (mkPM (perHostOffset m) flush ps vs free (pm_loop m), data).

Definition set_offset (m : PeerManager) (i off : Z) : option PeerManager :=
  let* offs := vset (perHostOffset m) i off in
  Some (mkPM offs (peersToFlush m) (peers m) (versions m) (freeIds m) (pm_loop m)).

(** ** PeerReferences: the peers of one host *)

Definition PeerReferences_Alloc (m : PeerManager) (st : store) (refs : list nat) (d : nat)
  : option (PeerManager * store * list nat * PeerHandle) :=
  let* (m, st, handle) := Alloc m st d in
  let* m := set_offset m (id (hid handle)) (i32 (zlen refs)) in
  Some (m, st, refs ++ [d], handle).

(** The swap with the last element, whose slot is then dropped. *)
Definition PeerReferences_Release (m : PeerManager) (st : store) (this : Z) (refs : list nat)
  (h : PeerHandle) : option (PeerManager * list nat * option nat) :=
  let* (m, data) := Release m h in
  match data with
  | None => Some (m, refs, None)
  | Some d =>
      let* pd := st !! d in
      assert* host pd =? this in
      let* off := vget (perHostOffset m) (id (hid h)) in
      let* m := set_offset m (id (hid h)) (-1) in
      let* (m, refs) :=
        if off + 1 =? zlen refs then Some (m, refs)
        else
          let* back := vget refs (zlen refs - 1) in
          let* refs := vset refs off back in
          let* moved := st !! back in
          let* m := set_offset m (id (hid (peerHandle moved))) off in
          Some (m, refs) in
      Some (m, take (length refs - 1) refs, Some d)
  end.

(** ** Programs: the peers of several hosts on one loop *)

Record World := mkWorld { wm : PeerManager; wst : store; wrefs : gmap Z (list nat) }.

Definition refs_of (w : World) (h : Z) : list nat := default [] (wrefs w !! h).

(** [WOpen d h]: a new data object [d] of host [h] is stored; [WClose]: a handle is
    released by the host of its peer. *)
Inductive world_op := WOpen (d : nat) (h : Z) | WClose (h : PeerHandle).

Definition world_open (w : World) (d : nat) (h : Z) : option (World * PeerHandle) :=
  let st := <[d := mkData h PeerHandle_default PeerHandle_default]> (wst w) in
  let* (m, st, refs, handle) := PeerReferences_Alloc (wm w) st (refs_of w h) d in
  Some (mkWorld m st (<[h := refs]> (wrefs w)), handle).

Definition world_close (w : World) (h : PeerHandle) : option (World * option nat) :=
  let* o := GetLocalHost (wm w) (wst w) h in
  let this := default 0 o in
  let* (m, refs, d) := PeerReferences_Release (wm w) (wst w) this (refs_of w this) h in
  Some (mkWorld m (wst w) (<[this := refs]> (wrefs w)), d).

(** A data object is created once; a handle belongs to the loop. *)
Definition world_step (w : World) (o : world_op) : option World :=
  match o with
  | WOpen d h =>
      if bool_decide (is_Some (wst w !! d)) then Some w
      else let* (w, _) := world_open w d h in Some w
  | WClose h =>
      if loop h =? pm_loop (wm w) then let* (w, _) := world_close w h in Some w else Some w
  end.

Fixpoint world_run (w : World) (os : list world_op) : option World :=
  match os with
  | [] => Some w
  | o :: os => let* w := world_step w o in world_run w os
  end.

Definition World_init (l : Z) : World := mkWorld (PeerManager_init l) ∅ ∅.

(** ** The invariant *)

(** The handle of slot [i]. *)
Definition slot_handle (m : PeerManager) (i v : Z) : PeerHandle := mkHandle (mkId i v) (pm_loop m).

Record inv (w : World) : Prop := {
  inv_versions_len : zlen (versions (wm w)) = zlen (peers (wm w));
  inv_offsets_len : zlen (perHostOffset (wm w)) = zlen (peers (wm w));
  inv_loop : pm_loop (wm w) <> 0;
  inv_version : forall i v, vget (versions (wm w)) i = Some v -> 1 <= v < 2 ^ 32;
  inv_free : forall i, i ∈ freeIds (wm w) <-> vget (peers (wm w)) i = Some None;
  inv_free_nodup : NoDup (freeIds (wm w));
  inv_live : forall i v d, vget (peers (wm w)) i = Some (Some d) -> vget (versions (wm w)) i = Some v ->
    exists h, wst w !! d = Some (mkData h (slot_handle (wm w) i v) (slot_handle (wm w) i v));
  inv_flush : PeersToFlush.inv (peersToFlush (wm w));
  inv_count : zlen (peers (wm w)) <= Z.of_nat (size (wst w));
  inv_refs : forall h k d, vget (refs_of w h) k = Some d ->
    exists i pd, vget (peers (wm w)) i = Some (Some d) /\ vget (perHostOffset (wm w)) i = Some k
      /\ wst w !! d = Some pd /\ host pd = h;
  inv_offs : forall i d pd, vget (peers (wm w)) i = Some (Some d) -> wst w !! d = Some pd ->
    exists k, vget (perHostOffset (wm w)) i = Some k /\ vget (refs_of w (host pd)) k = Some d
}.

Lemma live_version w i d :
  inv w -> vget (peers (wm w)) i = Some (Some d) -> exists v, vget (versions (wm w)) i = Some v.
Proof.
  intros Hw Hi. apply vget_is_Some. rewrite (inv_versions_len _ Hw). by eapply vget_Some_range.
Qed.

(** A data object is in one slot. *)
Lemma slot_inj w i j d :
  inv w -> vget (peers (wm w)) i = Some (Some d) -> vget (peers (wm w)) j = Some (Some d) -> i = j.
Proof.
  intros Hw Hi Hj. destruct (live_version _ _ _ Hw Hi) as [vi Ei].
  destruct (live_version _ _ _ Hw Hj) as [vj Ej].
  destruct (inv_live _ Hw _ _ _ Hi Ei) as [h1 E1]. destruct (inv_live _ Hw _ _ _ Hj Ej) as [h2 E2].
  rewrite E1 in E2. by injection E2.
Qed.

(** A host lists a peer once. *)
Lemma refs_NoDup w h : inv w -> NoDup (refs_of w h).
Proof.
  intros Hw. apply NoDup_alt. intros a b d Ha Hb. rewrite <- vget_lookup in Ha, Hb.
  destruct (inv_refs _ Hw _ _ _ Ha) as (i & ? & Hi & Hio & _).
  destruct (inv_refs _ Hw _ _ _ Hb) as (j & ? & Hj & Hjo & _).
  assert (i = j) as -> by (by eapply slot_inj). rewrite Hio in Hjo. injection Hjo. lia.
Qed.

(** A host has no more peers than there are slots. *)
Lemma refs_bound w h : inv w -> zlen (refs_of w h) <= zlen (peers (wm w)).
Proof.
  intros Hw. rewrite <- (inv_offsets_len _ Hw).
  assert ((Z.of_nat <$> seq 0 (length (refs_of w h))) ⊆+ perHostOffset (wm w)) as Hsub.
  { apply NoDup_submseteq.
    - apply (NoDup_fmap_2 Z.of_nat), NoDup_seq.
    - intros k (n & -> & Hn%elem_of_seq)%list_elem_of_fmap.
      destruct (vget_is_Some (refs_of w h) (Z.of_nat n)) as [d Hd]; [ unfold zlen; lia | ].
      destruct (inv_refs _ Hw _ _ _ Hd) as (i & pd & _ & Hk & _). by eapply vget_elem. }
  apply submseteq_length in Hsub. rewrite length_fmap, length_seq in Hsub. unfold zlen. lia.
Qed.

(** Whether a handle resolves, and to what. *)
Lemma ExistsLocal_spec w h :
  inv w -> loop h = pm_loop (wm w) -> 0 <= id (hid h) ->
  exists b, ExistsLocal (wm w) h = Some b
    /\ (b = true <-> exists d, vget (peers (wm w)) (id (hid h)) = Some (Some d)
                            /\ vget (versions (wm w)) (id (hid h)) = Some (version (hid h))).
Proof.
  intros Hw Hl Hid. unfold ExistsLocal.
  rewrite (proj2 (Z.eqb_eq (zlen (peers _)) _)), (proj2 (Z.eqb_eq (loop h) _)) by (done || by rewrite (inv_versions_len _ Hw)).
  destruct (Z.leb_spec (zlen (versions (wm w))) (id (hid h))) as [Hge | Hlt].
  { exists false. split; [ done | ]. split; [ done | ]. intros (d & Hd & Hv).
    apply vget_Some_range in Hv. lia. }
  destruct (vget_is_Some (peers (wm w)) (id (hid h))) as [p Hp]; [ rewrite <- (inv_versions_len _ Hw); lia | ].
  destruct (vget_is_Some (versions (wm w)) (id (hid h))) as [v Hv]; [ lia | ].
  rewrite Hp, Hv. destruct p as [d|].
  - rewrite bool_decide_eq_false_2 by done. eexists. split; [ done | ]. rewrite Z.eqb_eq.
    split; [ intros ->; eauto | intros (? & _ & [= ->]); done ].
  - rewrite bool_decide_eq_true_2 by done. exists false. split; [ done | ]. split; [ done | ]. naive_solver.
Qed.

Lemma GetLocalPeerData_spec w h :
  inv w -> loop h = pm_loop (wm w) -> 0 <= id (hid h) ->
  exists r, GetLocalPeerData (wm w) h = Some r
    /\ forall d, r = Some d <-> vget (peers (wm w)) (id (hid h)) = Some (Some d)
                              /\ vget (versions (wm w)) (id (hid h)) = Some (version (hid h)).
Proof.
  intros Hw Hl Hid. unfold GetLocalPeerData. destruct (ExistsLocal_spec w h Hw Hl Hid) as (b & -> & Hb).
  destruct b.
  - destruct (proj1 Hb eq_refl) as (d & Hd & Hv). exists (Some d). split; [ done | ]. naive_solver.
  - exists None. split; [ done | ]. intros d. split; [ done | ]. intros [Hd Hv].
    assert (false = true); [ | done ]. apply Hb. eauto.
Qed.

(** ** Storing a peer *)

Lemma take_slot_spec w d :
  inv w -> zlen (peers (wm w)) < 2 ^ 32 ->
  exists m i v, take_slot (wm w) d = Some (m, slot_handle (wm w) i v) /\ 1 <= v < 2 ^ 32
    /\ (forall d', vget (peers (wm w)) i <> Some (Some d'))
    /\ (forall j, vget (peers m) j = if j =? i then Some (Some d) else vget (peers (wm w)) j)
    /\ (forall j, vget (versions m) j = if j =? i then Some v else vget (versions (wm w)) j)
    /\ (vget (versions (wm w)) i = Some v \/ vget (versions (wm w)) i = None /\ v = 1)
    /\ (forall j, j <> i -> vget (perHostOffset m) j = vget (perHostOffset (wm w)) j)
    /\ zlen (versions m) = zlen (peers m) /\ zlen (perHostOffset m) = zlen (peers m)
    /\ (forall j, j ∈ freeIds m <-> vget (peers m) j = Some None) /\ NoDup (freeIds m)
    /\ peersToFlush m = peersToFlush (wm w) /\ pm_loop m = pm_loop (wm w)
    /\ zlen (peers m) <= zlen (peers (wm w)) + 1.
Proof.
  intros Hw Hn. pose proof (zlen_nonneg (freeIds (wm w))). pose proof (zlen_nonneg (peers (wm w))).
  unfold take_slot. destruct (Z.ltb_spec 0 (zlen (freeIds (wm w)))) as [Hpos | Hzero].
  - destruct (vget_is_Some (freeIds (wm w)) (zlen (freeIds (wm w)) - 1)) as [i Hi]; [ lia | ]. rewrite Hi.
    assert (i ∈ freeIds (wm w)) as Hin by (by eapply vget_elem).
    apply (inv_free _ Hw) in Hin as Hnull. pose proof (vget_Some_range _ _ _ Hnull) as Hr.
    destruct (vget_is_Some (versions (wm w)) i) as [v Hv]; [ by rewrite (inv_versions_len _ Hw) | ].
    rewrite Hv, Hnull, bool_decide_eq_true_2 by done.
    destruct (vset_is_Some (peers (wm w)) i (Some d) Hr) as [ps Eps]. rewrite Eps.
    assert (freeIds (wm w) = take (length (freeIds (wm w)) - 1) (freeIds (wm w)) ++ [i]) as Efree.
    { unfold vget in Hi. cmp. rewrite <- (take_ge (freeIds (wm w)) (S (length (freeIds (wm w)) - 1))) at 1 by lia.
      apply take_S_r. rewrite <- Hi. f_equal. unfold zlen. lia. }
    pose proof (inv_free_nodup _ Hw) as Hnd. rewrite Efree in Hnd. apply NoDup_app in Hnd as (Hnd & Hdis & _).
    eexists _, i, v. split_and!; try done.
    + by eapply inv_version.
    + by eapply inv_version.
    + intros d'. by rewrite Hnull.
    + intros j. simpl. by rewrite (vget_vset _ _ _ _ _ Eps).
    + intros j. simpl. destruct (Z.eqb_spec j i); [ by subst | done ].
    + by left.
    + simpl. by rewrite (vset_zlen _ _ _ _ Eps), (inv_versions_len _ Hw).
    + simpl. by rewrite (vset_zlen _ _ _ _ Eps), (inv_offsets_len _ Hw).
    + intros j. simpl. rewrite (vget_vset _ _ _ _ _ Eps). destruct (Z.eqb_spec j i) as [-> | Hne].
      * split; [ | done ]. intros Hj. exfalso. apply (Hdis i Hj). by apply list_elem_of_singleton.
      * rewrite <- (inv_free _ Hw). rewrite Efree at 3. rewrite elem_of_app, list_elem_of_singleton. naive_solver.
    + simpl. rewrite (vset_zlen _ _ _ _ Eps). lia.
  - assert (freeIds (wm w) = []) as Ef by (apply zlen_0_nil; lia).
    rewrite (u32_small (zlen (peers (wm w)))) by (unfold is_u32; lia).
    eexists _, (zlen (peers (wm w))), 1. split_and!; try done.
    + intros d' Hd%vget_Some_range. lia.
    + intros j. simpl. by rewrite vget_snoc.
    + intros j. simpl. by rewrite vget_snoc, (inv_versions_len _ Hw).
    + right. split; [ | done ]. destruct (vget _ _) eqn:Ev; [ | done ]. apply vget_Some_range in Ev. rewrite (inv_versions_len _ Hw) in Ev. lia.
    + intros j Hj. simpl. rewrite vget_snoc, (inv_offsets_len _ Hw). by rewrite (proj2 (Z.eqb_neq _ _)).
    + simpl. by rewrite !zlen_app, (inv_versions_len _ Hw).
    + simpl. by rewrite !zlen_app, (inv_offsets_len _ Hw).
    + intros j. simpl. rewrite vget_snoc, Ef. split; [ by intros ?%elem_of_nil | ].
      destruct (j =? _); [ done | ]. rewrite <- (inv_free _ Hw), Ef. done.
    + simpl. apply Hw.
    + simpl. rewrite zlen_app, zlen_cons, zlen_nil. lia.
Qed.

Lemma refs_of_insert w m st h refs h' :
  refs_of (mkWorld m st (<[h := refs]> (wrefs w))) h' = if decide (h = h') then refs else refs_of w h'.
Proof.
  unfold refs_of. simpl. case_decide as E; [ subst; by rewrite lookup_insert_eq | by rewrite lookup_insert_ne ].
Qed.

Lemma set_offset_spec m i off : 0 <= i < zlen (perHostOffset m) ->
  exists offs, vset (perHostOffset m) i off = Some offs
    /\ set_offset m i off = Some (mkPM offs (peersToFlush m) (peers m) (versions m) (freeIds m) (pm_loop m)).
Proof. intros Hr. unfold set_offset. destruct (vset_is_Some _ _ off Hr) as [offs ->]. eauto. Qed.

Lemma world_open_spec w d h :
  inv w -> wst w !! d = None -> Z.of_nat (size (wst w)) < 2 ^ 31 - 1 ->
  exists w' i v, world_open w d h = Some (w', slot_handle (wm w) i v) /\ inv w'
    /\ (forall d', vget (peers (wm w)) i <> Some (Some d'))
    /\ (forall j, vget (peers (wm w')) j = if j =? i then Some (Some d) else vget (peers (wm w)) j)
    /\ (forall j, vget (versions (wm w')) j = if j =? i then Some v else vget (versions (wm w)) j)
    /\ (vget (versions (wm w)) i = Some v \/ vget (versions (wm w)) i = None /\ v = 1)
    /\ wst w' = <[d := mkData h (slot_handle (wm w) i v) (slot_handle (wm w) i v)]> (wst w)
    /\ (forall h', refs_of w' h' = if decide (h = h') then refs_of w h ++ [d] else refs_of w h')
    /\ pm_loop (wm w') = pm_loop (wm w)
    /\ peersToFlush (wm w') = peersToFlush (wm w).
Proof.
  intros Hw Hd Hn. pose proof (inv_count _ Hw) as Hcount. pose proof (refs_bound w h Hw) as Hrb.
  destruct (take_slot_spec w d Hw) as (m & i & v & E & Hv & Hnl & Hp & Hvs & Hsame & Ho & L1 & L2 & Hf & Hnd & Hfl & Hl & Hz);
    [ lia | ].
  assert (vget (peers m) i = Some (Some d)) as Hi by (by rewrite Hp, Z.eqb_refl).
  destruct (set_offset_spec m i (zlen (refs_of w h))) as (offs & Eoffs & Eset).
  { rewrite L2. by eapply vget_Some_range. }
  pose proof (zlen_nonneg (refs_of w h)).
  eexists _, i, v. split.
  { unfold world_open, PeerReferences_Alloc, Alloc. rewrite lookup_insert_eq. cbn [peerHandle].
    change (handle_valid PeerHandle_default) with false. cbn [negb]. rewrite E.
    cbn [slot_handle hid version id]. rewrite (proj2 (Z.eqb_neq v 0)) by lia. cbn [negb].
    rewrite i32_small by lia. change (id (hid (slot_handle (wm w) i v))) with i. rewrite Eset. reflexivity. }
  cbn [host]. rewrite insert_insert_eq.
  assert (Hlive : forall j d', vget (peers m) j = Some (Some d') ->
    (j = i /\ d' = d) \/ (j <> i /\ d' <> d /\ vget (peers (wm w)) j = Some (Some d'))).
  { intros j d'. rewrite Hp. destruct (Z.eqb_spec j i) as [-> | Hj]; [ intros [= <-]; by left | ].
    intros Hj'. right. split_and!; [ done | | done ]. intros ->.
    destruct (live_version _ _ _ Hw Hj') as [vj Ej]. destruct (inv_live _ Hw _ _ _ Hj' Ej). congruence. }
  split; [ | split_and!; simpl; try done; intros h'; by rewrite refs_of_insert ].
  split; cbn [wm wst peers versions perHostOffset freeIds peersToFlush pm_loop]; try done.
  - rewrite (vset_zlen _ _ _ _ Eoffs). done.
  - rewrite Hl. apply Hw.
  - intros j vj. rewrite Hvs. destruct (j =? i); [ intros [= <-]; done | by apply Hw ].
  - intros j vj d' Hj Hvj. unfold slot_handle. cbn [pm_loop]. rewrite Hl.
    destruct (Hlive _ _ Hj) as [[-> ->] | (Hji & Hdd & Hj')]; rewrite Hvs in Hvj.
    + rewrite Z.eqb_refl in Hvj. injection Hvj as <-. rewrite lookup_insert_eq. eauto.
    + rewrite (proj2 (Z.eqb_neq j i)) in Hvj by done. rewrite lookup_insert_ne by done.
      by eapply (inv_live _ Hw).
  - rewrite Hfl. apply Hw.
  - rewrite map_size_insert_None by done. lia.
  - intros h' k d'. rewrite refs_of_insert. destruct (decide (h = h')) as [<- | Hh].
    + rewrite vget_snoc. destruct (Z.eqb_spec k (zlen (refs_of w h))) as [-> | Hk].
      * intros [= <-]. eexists i, _. rewrite (vget_vset _ _ _ _ _ Eoffs), Z.eqb_refl, lookup_insert_eq. done.
      * intros Hk'. destruct (inv_refs _ Hw _ _ _ Hk') as (j & pd & Hj & Hjo & Hpd & Hph).
        assert (j <> i) by (intros ->; by apply (Hnl d')).
        assert (d' <> d) by (intros ->; congruence).
        exists j, pd. rewrite Hp, (vget_vset _ _ _ _ _ Eoffs), !(proj2 (Z.eqb_neq j i)) by done.
        rewrite Ho, lookup_insert_ne by done. done.
    + intros Hk'. destruct (inv_refs _ Hw _ _ _ Hk') as (j & pd & Hj & Hjo & Hpd & Hph).
      assert (j <> i) by (intros ->; by apply (Hnl d')).
      assert (d' <> d) by (intros ->; congruence).
      exists j, pd. rewrite Hp, (vget_vset _ _ _ _ _ Eoffs), !(proj2 (Z.eqb_neq j i)) by done.
      rewrite Ho, lookup_insert_ne by done. done.
  - intros j d' pd Hj. destruct (Hlive _ _ Hj) as [[-> ->] | (Hji & Hdd & Hj')].
    + rewrite lookup_insert_eq. intros [= <-]. exists (zlen (refs_of w h)).
      rewrite (vget_vset _ _ _ _ _ Eoffs), Z.eqb_refl, refs_of_insert. cbn [host].
      rewrite decide_True, vget_snoc, Z.eqb_refl by done. done.
    + rewrite lookup_insert_ne by done. intros Hpd. destruct (inv_offs _ Hw _ _ _ Hj' Hpd) as (k & Hk & Hk').
      exists k. rewrite (vget_vset _ _ _ _ _ Eoffs), (proj2 (Z.eqb_neq j i)), Ho by done. split; [ done | ].
      rewrite refs_of_insert. destruct (decide (h = host pd)) as [-> | ]; [ | done ].
      rewrite vget_snoc. pose proof (vget_Some_range _ _ _ Hk').
      by rewrite (proj2 (Z.eqb_neq k _)) by lia.
Qed.

(** ** Releasing a peer *)

Lemma next_version_spec v : 1 <= v < 2 ^ 32 ->
  1 <= next_version v < 2 ^ 32 /\ next_version v = if v =? 2 ^ 32 - 1 then 1 else v + 1.
Proof.
  intros Hv. unfold next_version. destruct (Z.eqb_spec v (2 ^ 32 - 1)) as [-> | Hne]; [ done | ].
  rewrite u32_small by (unfold is_u32; lia). by cmp.
Qed.

(** A handle that does not resolve: nothing is released. *)
Lemma world_close_stale w h :
  inv w -> loop h = pm_loop (wm w) -> 0 <= id (hid h) ->
  GetLocalPeerData (wm w) h = Some None ->
  world_close w h = Some (mkWorld (wm w) (wst w) (<[0 := refs_of w 0]> (wrefs w)), None).
Proof.
  intros Hw Hl Hid Hg. unfold world_close, GetLocalHost. rewrite Hg. cbn [default].
  unfold GetLocalPeerData in Hg. unfold PeerReferences_Release, Release.
  destruct (ExistsLocal_spec w h Hw Hl Hid) as (b & E & Hb). rewrite E in *.
  destruct b; [ | done ]. destruct (proj1 Hb eq_refl) as (d & Hd & _). by rewrite Hd in Hg.
Qed.

Lemma stale_inv w : inv w -> inv (mkWorld (wm w) (wst w) (<[0 := refs_of w 0]> (wrefs w))).
Proof.
  intros Hw. assert (forall h, refs_of (mkWorld (wm w) (wst w) (<[0 := refs_of w 0]> (wrefs w))) h = refs_of w h) as E.
  { intros h. rewrite refs_of_insert. case_decide; by subst. }
  destruct Hw. split; cbn [wm wst]; try done.
  - intros h k d. rewrite E. apply inv_refs0.
  - intros i d pd. rewrite E. apply inv_offs0.
Qed.

(** The peer at the end of a host's list, and its slot. *)
Lemma last_ref w h k d :
  inv w -> vget (refs_of w h) k = Some d ->
  exists back ib vb hb, vget (refs_of w h) (zlen (refs_of w h) - 1) = Some back
    /\ vget (peers (wm w)) ib = Some (Some back)
    /\ vget (perHostOffset (wm w)) ib = Some (zlen (refs_of w h) - 1)
    /\ wst w !! back = Some (mkData hb (slot_handle (wm w) ib vb) (slot_handle (wm w) ib vb)) /\ hb = h.
Proof.
  intros Hw Hk%vget_Some_range.
  destruct (vget_is_Some (refs_of w h) (zlen (refs_of w h) - 1)) as [back Hb]; [ lia | ].
  destruct (inv_refs _ Hw _ _ _ Hb) as (ib & pd & Hib & Hob & Hpd & Hh).
  destruct (live_version _ _ _ Hw Hib) as [vb Hvb]. destruct (inv_live _ Hw _ _ _ Hib Hvb) as [hb Est].
  rewrite Est in Hpd. injection Hpd as <-. exists back, ib, vb, hb. split_and!; done.
Qed.

(** The end of [PeerReferences::Release]: slot [i] loses its position, the last peer (slot
    [ib]) takes the position [k], the list loses its last entry. *)
Lemma drop_ref_code w h i d pd k :
  inv w -> vget (peers (wm w)) i = Some (Some d) -> wst w !! d = Some pd -> host pd = h ->
  vget (perHostOffset (wm w)) i = Some k -> vget (refs_of w h) k = Some d ->
  exists back ib, vget (refs_of w h) (zlen (refs_of w h) - 1) = Some back
    /\ vget (peers (wm w)) ib = Some (Some back)
    /\ vget (perHostOffset (wm w)) ib = Some (zlen (refs_of w h) - 1)
    /\ forall m, perHostOffset m = perHostOffset (wm w) ->
       exists offs' refs',
       (let* m := set_offset m i (-1) in
        let* (m, refs) :=
          if k + 1 =? zlen (refs_of w h) then Some (m, refs_of w h)
          else
            let* back := vget (refs_of w h) (zlen (refs_of w h) - 1) in
            let* refs := vset (refs_of w h) k back in
            let* moved := wst w !! back in
            let* m := set_offset m (id (hid (peerHandle moved))) k in
            Some (m, refs) in
        Some (m, take (length refs - 1) refs, Some d)) =
         Some (mkPM offs' (peersToFlush m) (peers m) (versions m) (freeIds m) (pm_loop m), refs', Some d)
       /\ zlen offs' = zlen (perHostOffset (wm w))
       /\ (forall j, vget offs' j = if j =? i then Some (-1) else if j =? ib then Some k
                                    else vget (perHostOffset (wm w)) j)
       /\ (forall k', vget refs' k' = if k' <? zlen (refs_of w h) - 1 then
                                       (if k' =? k then Some back else vget (refs_of w h) k') else None)
       /\ d :: refs' ≡ₚ refs_of w h.
Proof.
  intros Hw Hi Hpd Hh Hk Hkd. pose proof (vget_Some_range _ _ _ Hkd) as Hkr.
  destruct (last_ref w h k d Hw Hkd) as (back & ib & vb & hb & Hb & Hib & Hob & Est & ->).
  exists back, ib. split_and!; [ done | done | done | ]. intros m Em.
  pose proof (vget_Some_range _ _ _ Hk) as Hir. pose proof (vget_Some_range _ _ _ Hob) as Hibr.
  destruct (set_offset_spec m i (-1)) as (offs & Eo & ->); [ by rewrite Em | ]. rewrite Em in Eo.
  destruct (Z.eqb_spec (k + 1) (zlen (refs_of w h))) as [El | El].
  - assert (k = zlen (refs_of w h) - 1) as -> by lia. rewrite Hb in Hkd. injection Hkd as ->.
    assert (ib = i) as -> by (by eapply slot_inj). eexists _, _. split_and!; [ done | by eapply vset_zlen | | | ].
    + intros j. rewrite (vget_vset _ _ _ _ _ Eo). by destruct (j =? i).
    + intros k'. rewrite vget_take. replace (Z.of_nat (length (refs_of w h) - 1)) with (zlen (refs_of w h) - 1)
        by (unfold zlen in *; lia).
      destruct (Z.ltb_spec k' (zlen (refs_of w h) - 1)); [ | done ].
      by rewrite (proj2 (Z.eqb_neq k' _)) by lia.
    + unfold vget in Hb. cmp. rewrite Permutation_cons_append.
      replace (Z.to_nat (zlen (refs_of w h) - 1)) with (length (refs_of w h) - 1)%nat in Hb by (unfold zlen; lia).
      rewrite <- (take_S_r _ _ _ Hb), take_ge by (unfold zlen in *; lia). done.
  - rewrite Hb. destruct (vset_is_Some (refs_of w h) k back Hkr) as [refs' Er]. rewrite Er, Est.
    cbn [peerHandle slot_handle hid id].
    match goal with |- context [set_offset ?mm ?ii k] =>
      destruct (set_offset_spec mm ii k) as (offs' & Eo' & ->) end.
    { simpl. by rewrite (vset_zlen _ _ _ _ Eo). }
    cbn [perHostOffset] in Eo'. eexists _, _. split_and!; [ done | | | | ].
    + by rewrite (vset_zlen _ _ _ _ Eo'), (vset_zlen _ _ _ _ Eo).
    + assert (ib <> i) by (intros ->; rewrite Hk in Hob; injection Hob; lia).
      intros j. rewrite (vget_vset _ _ _ _ _ Eo'), (vget_vset _ _ _ _ _ Eo). cbn [slot_handle hid id].
      destruct (Z.eqb_spec j ib) as [-> | ]; [ | done ]. by rewrite (proj2 (Z.eqb_neq ib i)).
    + intros k'. rewrite vget_take, (vget_vset _ _ _ _ _ Er).
      replace (Z.of_nat (length refs' - 1)) with (zlen (refs_of w h) - 1); [ done | ].
      pose proof (vset_zlen _ _ _ _ Er). unfold zlen in *. lia.
    + apply vset_Some in Er as [_ ->]. rewrite length_insert. unfold vget in Hkd, Hb. cmp.
      apply move_last_perm; [ done | | unfold zlen in *; lia ].
      replace (length (refs_of w h) - 1)%nat with (Z.to_nat (zlen (refs_of w h) - 1)) by (unfold zlen; lia). done.
Qed.

(** The release of a live handle, written out. *)
Lemma world_close_live w h d :
  inv w -> loop h = pm_loop (wm w) -> 0 <= id (hid h) ->
  vget (peers (wm w)) (id (hid h)) = Some (Some d) ->
  vget (versions (wm w)) (id (hid h)) = Some (version (hid h)) ->
  exists w', world_close w h = Some (w', Some d) /\ inv w' /\ wst w' = wst w
    /\ pm_loop (wm w') = pm_loop (wm w)
    /\ (forall j, vget (peers (wm w')) j = if j =? id (hid h) then Some None else vget (peers (wm w)) j)
    /\ (forall j, vget (versions (wm w')) j =
          if j =? id (hid h) then Some (next_version (version (hid h))) else vget (versions (wm w)) j)
    /\ (exists pd, wst w !! d = Some pd
          /\ (forall h', h' <> host pd -> refs_of w' h' = refs_of w h')
          /\ d :: refs_of w' (host pd) ≡ₚ refs_of w (host pd))
    /\ to_set (peersToFlush (wm w')) = to_set (peersToFlush (wm w)) ∖ {[id (hid h)]}.
Proof.
  intros Hw Hl Hid Hi Hv. set (i := id (hid h)) in *.
  destruct (inv_live _ Hw _ _ _ Hi Hv) as [hh Est].
  set (pd := mkData hh (slot_handle (wm w) i (version (hid h))) (slot_handle (wm w) i (version (hid h)))) in *.
  destruct (inv_offs _ Hw _ _ _ Hi Est) as (k & Hk & Hkd). change (host pd) with hh in Hkd.
  destruct (drop_ref_code w hh i d pd k Hw Hi Est eq_refl Hk Hkd) as (back & ib & Hb & Hib & Hob & Hcode).
  pose proof (vget_Some_range _ _ _ Hi) as Hir.
  destruct (vset_is_Some (peers (wm w)) i None Hir) as [ps Eps].
  destruct (vset_is_Some (versions (wm w)) i (next_version (version (hid h)))) as [vs Evs];
    [ by rewrite (inv_versions_len _ Hw) | ].
  destruct (RemovePeerToFlush_spec (peersToFlush (wm w)) i) as (fl & Efl & Hfl & Hset); [ apply Hw | done | ].
  set (m1 := mkPM (perHostOffset (wm w)) fl ps vs (freeIds (wm w) ++ [i]) (pm_loop (wm w))).
  destruct (Hcode m1 eq_refl) as (offs' & refs' & Ecode & Hzo & Go & Gr & Hperm).
  assert (Gp : forall j, vget ps j = if j =? i then Some None else vget (peers (wm w)) j)
    by (intros j; apply (vget_vset _ _ _ _ _ Eps)).
  assert (Gv : forall j, vget vs j = if j =? i then Some (next_version (version (hid h)))
    else vget (versions (wm w)) j) by (intros j; apply (vget_vset _ _ _ _ _ Evs)).
  eexists. split.
  { unfold world_close, GetLocalHost. destruct (GetLocalPeerData_spec w h Hw Hl Hid) as (r & -> & Hr).
    rewrite (proj2 (Hr d) (conj Hi Hv)), Est. cbn [default host pd Datatypes.id].
    unfold PeerReferences_Release, Release. destruct (ExistsLocal_spec w h Hw Hl Hid) as (b & -> & Hbb).
    rewrite (proj2 Hbb) by eauto. cbn [negb]. fold i. rewrite Hi, Eps, Hv, Evs, Efl, Est.
    change (host pd) with hh. rewrite Z.eqb_refl. cbn [perHostOffset]. rewrite Hk. fold m1.
    rewrite Ecode. reflexivity. }
  assert (Hne : forall j d', vget ps j = Some (Some d') -> j <> i /\ vget (peers (wm w)) j = Some (Some d')).
  { intros j d'. rewrite Gp. destruct (Z.eqb_spec j i); [ done | eauto ]. }
  assert (Erefs : forall h', h' <> hh -> forall m st, refs_of (mkWorld m st (<[hh := refs']> (wrefs w))) h' = refs_of w h').
  { intros h' Hh' m st. rewrite refs_of_insert, decide_False by congruence. done. }
  assert (Erefs' : forall m st, refs_of (mkWorld m st (<[hh := refs']> (wrefs w))) hh = refs').
  { intros m st. by rewrite refs_of_insert, decide_True. }
  split_and!; try done.
  - (* the invariant *)
    split; cbn [wm wst peers versions perHostOffset freeIds peersToFlush pm_loop m1].
    + by rewrite (vset_zlen _ _ _ _ Eps), (vset_zlen _ _ _ _ Evs), (inv_versions_len _ Hw).
    + by rewrite (vset_zlen _ _ _ _ Eps), Hzo, (inv_offsets_len _ Hw).
    + apply Hw.
    + intros j v. rewrite Gv. destruct (j =? i); [ | by apply Hw ]. intros [= <-].
      apply next_version_spec. by eapply (inv_version _ Hw).
    + intros j. rewrite Gp, elem_of_app, list_elem_of_singleton, (inv_free _ Hw).
      destruct (Z.eqb_spec j i) as [-> | Hj]; [ | naive_solver ]. split; [ done | by right ].
    + apply NoDup_app. split_and!; [ apply Hw | | apply NoDup_singleton ].
      intros j Hj%(inv_free _ Hw) ->%list_elem_of_singleton. rewrite Hi in Hj. done.
    + intros j v d' [Hj Hj']%Hne. rewrite Gv, (proj2 (Z.eqb_neq j i)) by done.
      by apply (inv_live _ Hw).
    + done.
    + rewrite (vset_zlen _ _ _ _ Eps). apply Hw.
    + intros h' k' d'. destruct (decide (h' = hh)) as [-> | Hh'].
      * rewrite Erefs', Gr. destruct (Z.ltb_spec k' (zlen (refs_of w hh) - 1)) as [Hlt | ]; [ | done ].
        destruct (Z.eqb_spec k' k) as [-> | Hk'].
        -- intros [= <-]. destruct (inv_refs _ Hw _ _ _ Hb) as (ib' & pdb & Hib' & _ & Hpdb & Hhb).
           exists ib, pdb. rewrite Gp, Go. destruct (Z.eqb_spec ib i) as [-> | _].
           { rewrite Hk in Hob. injection Hob. lia. }
           by rewrite Z.eqb_refl.
        -- intros Hd'. destruct (inv_refs _ Hw _ _ _ Hd') as (j & pd' & Hj & Hjo & Hpd' & Hh').
           exists j, pd'. rewrite Gp, Go.
           destruct (Z.eqb_spec j i) as [-> | _]; [ rewrite Hk in Hjo; injection Hjo; lia | ].
           destruct (Z.eqb_spec j ib) as [-> | _]; [ rewrite Hob in Hjo; injection Hjo; lia | done ].
      * rewrite Erefs by done. intros Hd'. destruct (inv_refs _ Hw _ _ _ Hd') as (j & pd' & Hj & Hjo & Hpd' & Hh'').
        exists j, pd'. rewrite Gp, Go. destruct (Z.eqb_spec j i) as [-> | _].
        { assert (d' = d) as -> by congruence. rewrite Est in Hpd'. injection Hpd' as <-. simpl in Hh''. congruence. }
        destruct (Z.eqb_spec j ib) as [-> | _]; [ | done ].
        destruct (inv_refs _ Hw _ _ _ Hb) as (_ & pdb & _ & _ & Hpdb & Hhb).
        assert (d' = back) as -> by congruence. congruence.
    + intros j d' pd' [Hj Hj']%Hne Hpd'. destruct (inv_offs _ Hw _ _ _ Hj' Hpd') as (k' & Hk' & Hd').
      rewrite Go, (proj2 (Z.eqb_neq j i)) by done. destruct (Z.eqb_spec j ib) as [-> | Hjb].
      * destruct (inv_refs _ Hw _ _ _ Hb) as (_ & pdb & _ & _ & Hpdb & Hhb).
        assert (d' = back) as -> by congruence. assert (host pd' = hh) as -> by congruence.
        exists k. split; [ done | ]. rewrite Erefs', Gr, Z.eqb_refl.
        pose proof (vget_Some_range _ _ _ Hkd). rewrite (proj2 (Z.ltb_lt k _)); [ done | ].
        destruct (Z.eq_dec k (zlen (refs_of w hh) - 1)) as [E | ]; [ | lia ]. exfalso. apply Hj.
        rewrite <- E, Hkd in Hb. injection Hb as <-. by eapply (slot_inj w).
      * exists k'. split; [ done | ]. destruct (decide (host pd' = hh)) as [Eh | Hh'].
        2: { by rewrite Erefs. }
        rewrite Eh in Hd' |- *. rewrite Erefs', Gr. pose proof (vget_Some_range _ _ _ Hd').
        destruct (Z.eqb_spec k' k) as [-> | _].
        { exfalso. apply Hj. assert (d' = d) as -> by congruence. by eapply (slot_inj w). }
        rewrite (proj2 (Z.ltb_lt k' _)); [ done | ].
        destruct (Z.eq_dec k' (zlen (refs_of w hh) - 1)) as [-> | ]; [ | lia ]. exfalso. apply Hjb.
        assert (d' = back) as -> by congruence. by eapply (slot_inj w).
  - exists pd. split_and!; [ done | | ].
    + intros h' Hh'. by apply Erefs.
    + change (host pd) with hh. by rewrite Erefs'.
Qed.

(** ** Handles as keys of a map *)

(** The data a handle resolves to. *)
Definition resolve (w : World) (h : PeerHandle) : option nat :=
  default None (GetLocalPeerData (wm w) h).

(** A handle of the loop, with an unsigned id. *)
Definition of_loop (l : Z) (h : PeerHandle) : Prop := loop h = l /\ 0 <= id (hid h).

Definition op_ok (l : Z) (o : world_op) : Prop :=
  match o with WOpen _ _ => True | WClose h => loop h = l -> 0 <= id (hid h) end.

Lemma resolve_spec w h d : inv w -> of_loop (pm_loop (wm w)) h ->
  resolve w h = Some d <-> vget (peers (wm w)) (id (hid h)) = Some (Some d)
                          /\ vget (versions (wm w)) (id (hid h)) = Some (version (hid h)).
Proof.
  intros Hw [Hl Hid]. unfold resolve. destruct (GetLocalPeerData_spec w h Hw Hl Hid) as (r & -> & Hr).
  apply Hr.
Qed.

Lemma World_init_inv l : l <> 0 -> inv (World_init l).
Proof.
  intros Hl. split; cbn [World_init wm wst PeerManager_init peers versions perHostOffset freeIds pm_loop
    peersToFlush]; try done.
  - intros i v. by rewrite vget_nil.
  - intros i. rewrite vget_nil. split; [ by intros ?%elem_of_nil | done ].
  - constructor.
  - intros i v d. by rewrite vget_nil.
  - apply PeersToFlush_init_inv.
  - intros h k d. change (refs_of (World_init l) h) with (default [] ((∅ : gmap Z (list nat)) !! h)).
    rewrite lookup_empty. change (default [] None) with (@nil nat). by rewrite vget_nil.
Qed.

(** One step keeps the invariant; a slot's version moves on by at most one release. *)
Lemma world_step_inv w o :
  inv w -> op_ok (pm_loop (wm w)) o -> Z.of_nat (size (wst w)) < 2 ^ 31 - 1 ->
  exists w', world_step w o = Some w' /\ inv w' /\ pm_loop (wm w') = pm_loop (wm w)
    /\ (size (wst w') <= size (wst w) + 1)%nat
    /\ (forall i v, vget (versions (wm w)) i = Some v ->
          vget (versions (wm w')) i = Some v \/ vget (versions (wm w')) i = Some (next_version v)).
Proof.
  intros Hw Hop Hn. destruct o as [d h | h]; cbn [world_step].
  - case_bool_decide as Hd; [ exists w; split_and!; try done; [ lia | by left ] | ].
    apply eq_None_not_Some in Hd.
    destruct (world_open_spec w d h Hw Hd Hn) as (w' & i & v & -> & Hw' & Hnl & Hp & Hvs & Hsame & Est & _ & Hl & _).
    exists w'. split_and!; [ done | done | done | | ].
    + rewrite Est, map_size_insert_None by done. lia.
    + intros j vj Hj. rewrite Hvs. destruct (Z.eqb_spec j i) as [-> | _]; [ | by left ]. left.
      destruct Hsame as [Hsame | [Hsame _]]; congruence.
  - destruct (Z.eqb_spec (loop h) (pm_loop (wm w))) as [Hl | _].
    2: { exists w. split_and!; try done; [ lia | by left ]. }
    destruct (GetLocalPeerData_spec w h Hw Hl (Hop Hl)) as (r & E & Hr). destruct r as [d|].
    + destruct (proj1 (Hr d) eq_refl) as [Hi Hv].
      destruct (world_close_live w h d Hw Hl (Hop Hl) Hi Hv) as (w' & -> & Hw' & Est & Hl' & _ & Hvs & _).
      exists w'. split_and!; [ done | done | done | rewrite Est; lia | ].
      intros j vj Hj. rewrite Hvs. destruct (Z.eqb_spec j (id (hid h))) as [-> | _]; [ right | by left ].
      congruence.
    + rewrite (world_close_stale w h Hw Hl (Hop Hl) E). eexists.
      split_and!; [ done | by apply stale_inv | done | simpl; lia | by left ].
Qed.


(** The versions a slot goes through form a cycle of length [2^32 - 1]. *)
Definition version_cycle : Z := 2 ^ 32 - 1.

Lemma next_version_iter n v : 1 <= v < 2 ^ 32 ->
  Nat.iter n next_version v = (v - 1 + Z.of_nat n) mod version_cycle + 1.
Proof.
  intros Hv. induction n as [|n IH].
  - simpl. rewrite Z.add_0_r, Z.mod_small; [ lia | unfold version_cycle; lia ].
  - rewrite Nat.iter_succ, IH. unfold version_cycle in *.
    pose proof (Z.mod_pos_bound (v - 1 + Z.of_nat n) (2 ^ 32 - 1) ltac:(lia)) as Hb.
    destruct (next_version_spec ((v - 1 + Z.of_nat n) mod (2 ^ 32 - 1) + 1)) as [_ ->]; [ lia | ].
    replace (v - 1 + Z.of_nat (S n)) with (v - 1 + Z.of_nat n + 1) by lia.
    rewrite <- (Z.add_mod_idemp_l (v - 1 + Z.of_nat n) 1) by lia.
    destruct (Z.eqb_spec ((v - 1 + Z.of_nat n) mod (2 ^ 32 - 1) + 1) (2 ^ 32 - 1)) as [E | E].
    + rewrite E, Z_mod_same_full. done.
    + rewrite (Z.mod_small (_ + 1)) by lia. done.
Qed.

Lemma world_run_inv os : forall w,
  inv w -> Forall (op_ok (pm_loop (wm w))) os -> Z.of_nat (size (wst w)) + zlen os < 2 ^ 31 ->
  exists w', world_run w os = Some w' /\ inv w' /\ pm_loop (wm w') = pm_loop (wm w)
    /\ (size (wst w') <= size (wst w) + length os)%nat
    /\ (forall i v, vget (versions (wm w)) i = Some v ->
          exists n, (n <= length os)%nat /\ vget (versions (wm w')) i = Some (Nat.iter n next_version v)).
Proof.
  induction os as [|o os IH]; intros w Hw Hos Hn; cbn [world_run].
  { exists w. split_and!; try done; [ lia | ]. intros i v Hv. exists 0%nat. split; [ lia | done ]. }
  apply Forall_cons in Hos as [Ho Hos]. rewrite zlen_cons in Hn. pose proof (zlen_nonneg os).
  destruct (world_step_inv w o Hw Ho) as (w1 & -> & Hw1 & Hl1 & Hs1 & Hv1); [ lia | ].
  destruct (IH w1 Hw1) as (w' & -> & Hw' & Hl' & Hs' & Hv'); [ by rewrite Hl1 | lia | ].
  exists w'. split_and!; [ done | done | congruence | simpl; lia | ]. intros i v Hi. simpl.
  destruct (Hv1 i v Hi) as [E | E]; destruct (Hv' _ _ E) as (n & Hle & En).
  - exists n. split; [ lia | done ].
  - exists (S n). split; [ lia | ]. by rewrite Nat.iter_succ_r.
Qed.

(** ** Properties *)

(** C7: from an empty manager, any sequence of fewer than [2^31] openings and closings of
    peers of any hosts (also with stale handles) fails no assertion and accesses no vector
    out of range, and afterwards each host's list holds, once each, exactly the peers of
    that host whose handle still resolves, and the handle stored in the peer is that
    handle. *)
Theorem host_peer_lists_stay_exact l os :
  l <> 0 -> Forall (op_ok l) os -> zlen os < 2 ^ 31 ->
  exists w, world_run (World_init l) os = Some w /\
    forall h, NoDup (refs_of w h) /\
      forall d, d ∈ refs_of w h <->
        exists pd, wst w !! d = Some pd /\ host pd = h /\ of_loop l (peerHandle pd)
          /\ resolve w (peerHandle pd) = Some d.
Proof.
  intros Hl Hos Hn.
  destruct (world_run_inv os (World_init l) (World_init_inv l Hl) Hos Hn) as (w & E & Hw & Hlw & _).
  change (pm_loop (wm (World_init l))) with l in Hlw.
  exists w. split; [ done | ]. intros h. split.
  - by apply refs_NoDup.
  - intros d. split.
    + intros [k Hk]%elem_vget. destruct (inv_refs _ Hw _ _ _ Hk) as (i & pd & Hi & Hio & Hpd & Hh).
      destruct (live_version _ _ _ Hw Hi) as [v Hv]. destruct (inv_live _ Hw _ _ _ Hi Hv) as [h' Est].
      rewrite Hpd in Est. injection Est as ->. pose proof (vget_Some_range _ _ _ Hi).
      eexists. split_and!; [ done | done | split; [ exact Hlw | simpl; lia ] | ].
      apply resolve_spec; [ done | | done ]. split; [ done | simpl; lia ].
    + intros (pd & Hpd & Hh & Hof & Hr). apply resolve_spec in Hr as [Hi Hv]; [ | done | by rewrite Hlw ].
      destruct (inv_offs _ Hw _ _ _ Hi Hpd) as (k & _ & Hk). rewrite Hh in Hk. by eapply vget_elem.
Qed.

(** Storing a new peer gives a handle that resolved to nothing before, resolves to the
    peer now, and leaves every other handle of the loop as it was. *)
Theorem alloc_adds_one_handle l os w d h :
  l <> 0 -> Forall (op_ok l) os -> zlen os < 2 ^ 31 - 1 ->
  world_run (World_init l) os = Some w -> wst w !! d = None ->
  exists w' hd, world_open w d h = Some (w', hd) /\ of_loop l hd /\ handle_valid hd = true
    /\ resolve w hd = None
    /\ forall hd', of_loop l hd' -> resolve w' hd' = if decide (hd' = hd) then Some d else resolve w hd'.
Proof.
  intros Hl Hos Hn Hrun Hd.
  destruct (world_run_inv os (World_init l) (World_init_inv l Hl) Hos) as (w0 & E & Hw & Hlw & Hsz & _);
    [ change (size (wst (World_init l))) with 0%nat; lia | ].
  rewrite Hrun in E. injection E as <-. change (pm_loop (wm (World_init l))) with l in Hlw.
  change (size (wst (World_init l))) with 0%nat in Hsz.
  destruct (world_open_spec w d h Hw Hd) as (w' & i & v & E & Hw' & Hnl & Hp & Hvs & Hsame & Est & _ & Hl' & _);
    [ unfold zlen in *; lia | ].
  assert (vget (peers (wm w')) i = Some (Some d)) as Hi by (by rewrite Hp, Z.eqb_refl).
  pose proof (vget_Some_range _ _ _ Hi) as Hir.
  assert (1 <= v < 2 ^ 32) as Hv.
  { eapply (inv_version _ Hw' i). by rewrite Hvs, Z.eqb_refl. }
  assert (of_loop l (slot_handle (wm w) i v)) as Hof by (split; [ exact Hlw | simpl; lia ]).
  exists w', (slot_handle (wm w) i v). split_and!; [ done | done | | | ].
  - unfold handle_valid. simpl. rewrite Hlw. by rewrite !(proj2 (Z.eqb_neq _ 0)) by lia.
  - destruct (resolve w (slot_handle (wm w) i v)) as [d'|] eqn:Er; [ | done ].
    apply resolve_spec in Er as [Hi' _]; [ | done | by rewrite Hlw ]. by destruct (Hnl d').
  - intros hd' [Hl2 Hid2]. apply option_eq. intros d'.
    assert (Hof' : of_loop l hd') by done.
    rewrite resolve_spec by (done || by rewrite Hl', Hlw). rewrite Hp, Hvs.
    destruct (decide (hd' = slot_handle (wm w) i v)) as [-> | Hne].
    + simpl. rewrite Z.eqb_refl. naive_solver.
    + rewrite resolve_spec by (done || by rewrite Hlw).
      destruct (Z.eqb_spec (id (hid hd')) i) as [Ei | _]; [ | done ]. split; [ | rewrite Ei; intros [? _]; by destruct (Hnl d') ].
      intros [_ [= Ev]]. exfalso. apply Hne. destruct hd' as [[a b] c]. simpl in *. unfold slot_handle. congruence.
Qed.

(** Releasing a handle that resolves returns its peer, takes its id out of the flush set
    and leaves every other handle as it was; releasing a stale handle changes nothing that a
    handle resolves to. Afterwards the handle resolves to nothing, and it stays so through
    every further sequence of operations, up to [2^31] in all: only a full cycle of the
    slot's [2^32 - 1] versions could bring it back. *)
Theorem released_handle_stays_dead l os w h w1 r os2 w2 :
  l <> 0 -> Forall (op_ok l) os -> Forall (op_ok l) os2 -> zlen os + zlen os2 < 2 ^ 31 ->
  world_run (World_init l) os = Some w -> of_loop l h ->
  world_close w h = Some (w1, r) -> world_run w1 os2 = Some w2 ->
  r = resolve w h
  /\ (forall h', of_loop l h' -> resolve w1 h' = if decide (h' = h) then None else resolve w h')
  /\ (is_Some r -> resolve w2 h = None /\ id (hid h) ∉ to_set (peersToFlush (wm w1))).
Proof.
  intros Hl Hos Hos2 Hn Hrun [Hlh Hid] Hclose Hrun2. pose proof (zlen_nonneg os2).
  destruct (world_run_inv os (World_init l) (World_init_inv l Hl) Hos) as (w0 & E & Hw & Hlw & Hsz & _);
    [ change (size (wst (World_init l))) with 0%nat; lia | ].
  rewrite Hrun in E. injection E as <-. change (pm_loop (wm (World_init l))) with l in Hlw.
  change (size (wst (World_init l))) with 0%nat in Hsz.
  destruct (resolve w h) as [d|] eqn:Er.
  - apply resolve_spec in Er as [Hi Hv]; [ | done | by split; [ rewrite Hlw | ] ].
    destruct (world_close_live w h d Hw) as (w1' & E & Hw1 & Est & Hl1 & Hp & Hvs & _ & Hset);
      [ by rewrite Hlw | done | done | done | ].
    rewrite Hclose in E. injection E as <- <-. split_and!; [ done | | ].
    + intros h' [Hl' Hid']. apply option_eq. intros d'.
      rewrite resolve_spec by (done || by split; [ rewrite Hl1, Hlw | ]). rewrite Hp, Hvs.
      destruct (decide (h' = h)) as [-> | Hne]; [ rewrite Z.eqb_refl; naive_solver | ].
      rewrite resolve_spec by (done || by split; [ rewrite Hlw | ]).
      destruct (Z.eqb_spec (id (hid h')) (id (hid h))) as [Ei | _]; [ | done ].
      split; [ naive_solver | ]. intros [Hi' Hv']. exfalso. apply Hne. rewrite Ei, Hv in Hv'.
      destruct h as [[a b] c], h' as [[a' b'] c']. simpl in *. congruence.
    + intros _. split; [ | rewrite Hset; set_solver ].
      destruct (world_run_inv os2 w1 Hw1) as (w2' & E2 & Hw2 & Hl2 & _ & Hvers);
        [ by rewrite Hl1, Hlw | rewrite Est; unfold zlen in *; lia | ].
      rewrite Hrun2 in E2. injection E2 as <-.
      destruct (resolve w2 h) as [d'|] eqn:Er2; [ | done ]. exfalso.
      apply resolve_spec in Er2 as [_ Hv2]; [ | done | by split; [ rewrite Hl2, Hl1, Hlw | ] ].
      destruct (Hvers (id (hid h)) (next_version (version (hid h)))) as (n & Hle & En);
        [ by rewrite Hvs, Z.eqb_refl | ].
      assert (version (hid h) = Nat.iter (S n) next_version (version (hid h))) as En'
        by (rewrite Nat.iter_succ_r; congruence).
      pose proof (inv_version _ Hw _ _ Hv) as Hvr.
      rewrite (next_version_iter (S n) (version (hid h)) Hvr) in En'. clear En. rename En' into En. unfold version_cycle, zlen in *.
      destruct (Z.le_gt_cases (2 ^ 32 - 1) (version (hid h) - 1 + Z.of_nat (S n))).
      * assert ((version (hid h) - 1 + Z.of_nat (S n)) mod (2 ^ 32 - 1)
          = version (hid h) - 1 + Z.of_nat (S n) - (2 ^ 32 - 1)) as Em; [ | lia ].
        symmetry. apply Z.mod_unique with 1; lia.
      * rewrite Z.mod_small in En; lia.
  - assert (GetLocalPeerData (wm w) h = Some None) as Hg.
    { unfold resolve in Er. destruct (GetLocalPeerData_spec w h Hw) as (r' & E & _); [ by rewrite Hlw | done | ].
      rewrite E in *. simpl in Er. unfold Datatypes.id in Er. by subst. }
    rewrite (world_close_stale w h) in Hclose by (done || by rewrite Hlw). injection Hclose as <- <-.
    split_and!; [ done | | by intros [? ?] ]. intros h' _. case_decide; [ by subst | done ].
Qed.

(** ** Witnesses *)

Definition sample_ops : list world_op :=
  [WOpen 0 5; WOpen 1 5; WOpen 2 6; WClose (mkHandle (mkId 0 1) 1)].

Lemma sample_ops_ok : Forall (op_ok 1) sample_ops.
Proof. repeat constructor; simpl; intros; lia. Qed.

Definition sample_world : World := default (World_init 1) (world_run (World_init 1) sample_ops).

Lemma host_peer_lists_stay_exact_witness :
  exists w, world_run (World_init 1) sample_ops = Some w /\
    forall h, NoDup (refs_of w h) /\
      forall d, d ∈ refs_of w h <->
        exists pd, wst w !! d = Some pd /\ host pd = h /\ of_loop 1 (peerHandle pd)
          /\ resolve w (peerHandle pd) = Some d.
Proof. apply (host_peer_lists_stay_exact 1 sample_ops); [ lia | apply sample_ops_ok | reflexivity ]. Defined.

Lemma alloc_adds_one_handle_witness :
  exists w' hd, world_open sample_world 3 5 = Some (w', hd) /\ of_loop 1 hd /\ handle_valid hd = true
    /\ resolve sample_world hd = None
    /\ forall hd', of_loop 1 hd' -> resolve w' hd' = if decide (hd' = hd) then Some 3%nat else resolve sample_world hd'.
Proof.
  apply (alloc_adds_one_handle 1 sample_ops sample_world 3 5).
  - lia.
  - apply sample_ops_ok.
  - reflexivity.
  - vm_compute. reflexivity.
  - vm_compute. reflexivity.
Defined.

Definition closed_world : World :=
  default sample_world (fst <$> world_close sample_world (mkHandle (mkId 1 1) 1)).
Definition reopened_world : World := default sample_world (world_run closed_world [WOpen 4 6]).

Lemma released_handle_stays_dead_witness :
  Some 1%nat = resolve sample_world (mkHandle (mkId 1 1) 1)
  /\ (forall h', of_loop 1 h' -> resolve closed_world h' =
        if decide (h' = mkHandle (mkId 1 1) 1) then None else resolve sample_world h')
  /\ (is_Some (Some 1%nat) -> resolve reopened_world (mkHandle (mkId 1 1) 1) = None
        /\ id (hid (mkHandle (mkId 1 1) 1)) ∉ to_set (peersToFlush (wm closed_world))).
Proof.
  apply (released_handle_stays_dead 1 sample_ops sample_world (mkHandle (mkId 1 1) 1) closed_world
    (Some 1%nat) [WOpen 4 6] reopened_world).
  - lia.
  - apply sample_ops_ok.
  - repeat constructor.
  - reflexivity.
  - vm_compute. reflexivity.
  - split; [ reflexivity | simpl; lia ].
  - vm_compute. reflexivity.
  - vm_compute. reflexivity.
Defined.

End PeerManager.
