(* ===== verification/HostLifecycle.v ===== *)
(** * Connections of a host (Host.cpp, HostUStcp.cpp, PeerUStcp.cpp)

    The callbacks that uSockets makes on a socket, and the operations that create and close
    connections. uSockets is not part of the repository: its events are the inputs of the
    model, a socket is a number, and the model keeps the pointer the host stores in the
    socket's extension area. One host of the loop is modelled, with the loop's
    [PeerManager]. *)

From S2P Require Import Prelude PeersToFlush PeerManager.

Module HostLifecycle.
Import PeerManager.

Definition BIT_READY : Z := 1.
Definition BIT_DISCONNECTING : Z := 2.
Definition BIT_CLOSED : Z := 4.

(** [sockets]: the extension area of each socket, [None] for the null pointer;
    [peer_socket]: the field [socket] of the peers; [peerFlags]: of their [Peer] objects.
    [connected] and [disconnected] record the calls of the user's callbacks, [results] the
    finished connect commands, [fatal] the fatal log entries. *)
Record HostState := mkHost {
  world : World;
  this : Z;
  sockets : gmap nat (option nat);
  peer_socket : gmap nat nat;
  peerFlags : gmap nat Z;
  connected : list PeerHandle;
  disconnected : list nat;
  results : list (option PeerHandle);
  disconnectedTotal : Z;
  disconnectedLocal : Z;
  disconnectedRemote : Z;
  connectionsFailed : Z;
  timeouts : Z;
  fatal : Z
}.

Definition Host_init (loop this : Z) : HostState :=
  mkHost (World_init loop) this ∅ ∅ ∅ [] [] [] 0 0 0 0 0 0.

Definition or_flags (s : HostState) (d : nat) (bits : Z) : HostState :=
  mkHost (world s) (this s) (sockets s) (peer_socket s) (alter (fun f => Z.lor f bits) d (peerFlags s))
    (connected s) (disconnected s) (results s) (disconnectedTotal s) (disconnectedLocal s)
    (disconnectedRemote s) (connectionsFailed s) (timeouts s) (fatal s).

Definition log_fatal (s : HostState) : HostState :=
  mkHost (world s) (this s) (sockets s) (peer_socket s) (peerFlags s) (connected s) (disconnected s)
    (results s) (disconnectedTotal s) (disconnectedLocal s) (disconnectedRemote s) (connectionsFailed s)
    (timeouts s) (fatal s + 1).

Definition count_disconnect (s : HostState) (local : bool) : HostState :=
  mkHost (world s) (this s) (sockets s) (peer_socket s) (peerFlags s) (connected s) (disconnected s)
    (results s) (disconnectedTotal s + 1)
    (if local then disconnectedLocal s + 1 else disconnectedLocal s)
    (if local then disconnectedRemote s else disconnectedRemote s + 1)
    (connectionsFailed s) (timeouts s) (fatal s).

(** [MakePeer] and the store into the socket's extension area: the peer and its handle. *)
Definition MakePeer (s : HostState) (socket : nat) : option (HostState * nat * PeerHandle) :=
  let d := fresh (dom (wst (world s))) in
  let* (w, handle) := world_open (world s) d (this s) in
  Some (mkHost w (this s) (<[socket := Some d]> (sockets s)) (<[d := socket]> (peer_socket s))
          (<[d := 0]> (peerFlags s)) (connected s) (disconnected s) (results s) (disconnectedTotal s)
          (disconnectedLocal s) (disconnectedRemote s) (connectionsFailed s) (timeouts s) (fatal s),
        d, handle).

(** [_Internal_on_open_Finish]. *)
Definition on_open_Finish (s : HostState) (peer : PeerHandle) : option HostState :=
  let s := mkHost (world s) (this s) (sockets s) (peer_socket s) (peerFlags s) (connected s ++ [peer])
             (disconnected s) (results s) (disconnectedTotal s) (disconnectedLocal s)
             (disconnectedRemote s) (connectionsFailed s) (timeouts s) (fatal s) in
  let* p := GetLocalPeerData (wm (world s)) peer in
  match p with
  | None => Some (log_fatal s)
  | Some d => Some (or_flags s d BIT_READY)
  end.

(** [_Internal_on_open]; the counters of opened connections are not modelled. *)
Definition on_open (s : HostState) (socket : nat) (isClient : bool) : option HostState :=
  if isClient then
    let* ext := sockets s !! socket in
    let* d := ext in
    let* pd := wst (world s) !! d in
    on_open_Finish s (peerHandle pd)
  else
    let* (s, d, handle) := MakePeer s socket in
    on_open_Finish s handle.

(** [_InternalConnect]: [socket] is what [us_socket_context_connect] returned, [onConnected]
    whether the command handle is set; [results] gets the peer the command finishes with. *)
Definition _InternalConnect (s : HostState) (socket : option nat) (onConnected : bool)
  : option HostState :=
  let* (s, peer) :=
    match socket with
    | Some k => let* (s, d, handle) := MakePeer s k in Some (s, Some handle)
    | None => Some (s, None)
    end in
  assert* onConnected in
  Some (mkHost (world s) (this s) (sockets s) (peer_socket s) (peerFlags s) (connected s) (disconnected s)
          (results s ++ [peer]) (disconnectedTotal s) (disconnectedLocal s) (disconnectedRemote s)
          (connectionsFailed s) (timeouts s) (fatal s)).

(** [PeerReferences::Release] of this host. *)
Definition release (s : HostState) (peer : PeerHandle) : option HostState :=
  let w := world s in
  let* (m, refs, d) := PeerReferences_Release (wm w) (wst w) (this s) (refs_of w (this s)) peer in
  Some (mkHost (mkWorld m (wst w) (<[this s := refs]> (wrefs w))) (this s) (sockets s) (peer_socket s)
          (peerFlags s) (connected s) (disconnected s) (results s) (disconnectedTotal s)
          (disconnectedLocal s) (disconnectedRemote s) (connectionsFailed s) (timeouts s) (fatal s)).

(** [_InternalClearInternalDataOnClose]: the pointers of the peer and of its socket. *)
Definition clear_on_close (s : HostState) (d : nat) : option HostState :=
  let s := or_flags s d BIT_CLOSED in
  let* pd := wst (world s) !! d in
  let w := mkWorld (wm (world s))
             (<[d := mkData (host pd) PeerHandle_default (sharedPeerHandle pd)]> (wst (world s)))
             (wrefs (world s)) in
  let* socket := peer_socket s !! d in
  Some (mkHost w (this s) (<[socket := None]> (sockets s)) (delete d (peer_socket s)) (peerFlags s)
          (connected s) (disconnected s) (results s) (disconnectedTotal s) (disconnectedLocal s)
          (disconnectedRemote s) (connectionsFailed s) (timeouts s) (fatal s)).

(** [_Internal_on_close_Finish]. *)
Definition on_close_Finish (s : HostState) (peer : PeerHandle) : option HostState :=
  let* p := GetLocalPeerData (wm (world s)) peer in
  match p with
  | None => Some (log_fatal s)
  | Some d =>
      let s := or_flags s d BIT_DISCONNECTING in
      let s := mkHost (world s) (this s) (sockets s) (peer_socket s) (peerFlags s) (connected s)
                 (disconnected s ++ [d]) (results s) (disconnectedTotal s) (disconnectedLocal s)
                 (disconnectedRemote s) (connectionsFailed s) (timeouts s) (fatal s) in
      let* s := release s peer in
      clear_on_close s d
  end.

(** The peer of a socket is finished, if there is one. *)
Definition close_peer_of (s : HostState) (socket : nat) : option HostState :=
  let* ext := sockets s !! socket in
  match ext with
  | None => Some s
  | Some d => let* pd := wst (world s) !! d in on_close_Finish s (peerHandle pd)
  end.

Definition on_close (s : HostState) (socket : nat) : option HostState :=
  close_peer_of (count_disconnect s true) socket.

(** [_Internal_on_end]: after this uSockets closes the socket and calls [on_close]. *)
Definition on_end (s : HostState) (socket : nat) : option HostState :=
  close_peer_of (count_disconnect s false) socket.

(** [Peer::_InternalDisconnect] marks the peer; closing the socket leads to [on_close]. *)
Definition _InternalDisconnect (s : HostState) (d : nat) : HostState :=
  let s := or_flags s d BIT_DISCONNECTING in
  match peer_socket s !! d with
  | Some _ => s
  | None => or_flags s d BIT_CLOSED
  end.

Definition on_timeout (s : HostState) (socket : nat) : option HostState :=
  let s := mkHost (world s) (this s) (sockets s) (peer_socket s) (peerFlags s) (connected s)
             (disconnected s) (results s) (disconnectedTotal s) (disconnectedLocal s)
             (disconnectedRemote s) (connectionsFailed s) (timeouts s + 1) (fatal s) in
  let* ext := sockets s !! socket in
  match ext with
  | None => Some s
  | Some d => Some (_InternalDisconnect s d)
  end.

(** [_Internal_on_connect_error]; [asserts]: whether the build checks assertions. *)
Definition on_connect_error_with (asserts : bool) (s : HostState) (socket : nat) : option HostState :=
  let s := mkHost (world s) (this s) (sockets s) (peer_socket s) (peerFlags s) (connected s)
             (disconnected s) (results s) (disconnectedTotal s) (disconnectedLocal s)
             (disconnectedRemote s) (connectionsFailed s + 1) (timeouts s) (fatal s) in
  let* ext := sockets s !! socket in
  match ext with
  | None => Some s
  | Some d =>
      let* pd := wst (world s) !! d in
      assert* negb asserts || negb (handle_valid (peerHandle pd)) in
      let* s := release s (peerHandle pd) in
      clear_on_close s d
  end.

Definition on_connect_error : HostState -> nat -> option HostState := on_connect_error_with true.

(** [DisconnectAll]: all peers of the host. *)
Definition DisconnectAll (s : HostState) : HostState :=
  fold_left _InternalDisconnect (refs_of (world s) (this s)) s.

(** ** Events *)

Inductive event :=
| EAccept (socket : nat)
| EConnect (socket : option nat)
| EConnected (socket : nat)
| EClose (socket : nat)
| EEnd (socket : nat)
| ETimeout (socket : nat)
| EConnectError (socket : nat)
| EDisconnectAll.

(** uSockets reports a new socket once, [on_open] for a connecting socket while its peer
    exists, and the other events, the connect error among them, on sockets it created. The
    connect commands of these runs carry a completion; [failed_connect_stops] treats those
    without one. *)
Definition event_ok (s : HostState) (e : event) : bool :=
  match e with
  | EAccept k => bool_decide (sockets s !! k = None)
  | EConnect (Some k) => bool_decide (sockets s !! k = None)
  | EConnect None => true
  | EConnected k => bool_decide (is_Some (mjoin (sockets s !! k)))
  | EClose k | EEnd k | ETimeout k | EConnectError k => bool_decide (is_Some (sockets s !! k))
  | EDisconnectAll => true
  end.

Definition host_step (s : HostState) (e : event) : option HostState :=
  if event_ok s e then
    match e with
    | EAccept k => on_open s k false
    | EConnect k => _InternalConnect s k true
    | EConnected k => on_open s k true
    | EClose k => on_close s k
    | EEnd k => on_end s k
    | ETimeout k => on_timeout s k
    | EConnectError k => on_connect_error s k
    | EDisconnectAll => Some (DisconnectAll s)
    end
  else Some s.

(** A connect error stops the program if a peer was made for its socket. *)
Definition stops (s : HostState) (e : event) : bool :=
  match e with EConnectError k => bool_decide (is_Some (mjoin (sockets s !! k))) | _ => false end.

Fixpoint host_run (s : HostState) (es : list event) : option HostState :=
  match es with
  | [] => Some s
  | e :: es => let* s := host_step s e in host_run s es
  end.

(** ** The invariant *)

Definition live (s : HostState) (d : nat) : Prop := exists i, vget (peers (wm (world s))) i = Some (Some d).

Record host_ok (s : HostState) : Prop := {
  ho_inv : inv (world s);
  ho_host : forall d pd, wst (world s) !! d = Some pd -> host pd = this s;
  ho_sock : forall k d, sockets s !! k = Some (Some d) -> live s d /\ peer_socket s !! d = Some k;
  ho_live : forall d, live s d -> exists k, sockets s !! k = Some (Some d);
  ho_hist : forall d, is_Some (wst (world s) !! d) <-> d ∈ disconnected s \/ live s d;
  ho_once : NoDup (disconnected s);
  ho_dead : forall d, d ∈ disconnected s -> ~ live s d;
  ho_flags : forall d, d ∈ disconnected s -> exists f, peerFlags s !! d = Some f /\ Z.testbit f 2 = true;
  ho_known : forall d, is_Some (wst (world s) !! d) -> is_Some (peerFlags s !! d);
  ho_fatal : fatal s = 0
}.

Lemma live_handle s d : host_ok s -> live s d ->
  exists i v, let h := slot_handle (wm (world s)) i v in
    wst (world s) !! d = Some (mkData (this s) h h) /\ 0 <= i
    /\ vget (peers (wm (world s))) i = Some (Some d) /\ vget (versions (wm (world s))) i = Some v
    /\ GetLocalPeerData (wm (world s)) h = Some (Some d) /\ handle_valid h = true.
Proof.
  intros Hs [i Hi]. pose proof (ho_inv _ Hs) as Hw. destruct (live_version _ _ _ Hw Hi) as [v Hv].
  destruct (inv_live _ Hw _ _ _ Hi Hv) as [h Est]. assert (h = this s) as -> by (by apply (ho_host _ Hs _ _ Est)).
  pose proof (vget_Some_range _ _ _ Hi). pose proof (inv_version _ Hw _ _ Hv).
  exists i, v. split_and!; [ done | lia | done | done | | ].
  - destruct (GetLocalPeerData_spec (world s) (slot_handle (wm (world s)) i v) Hw eq_refl) as (r & -> & Hr); [ simpl; lia | ].
    f_equal. by apply Hr.
  - unfold handle_valid. simpl. pose proof (inv_loop _ Hw). by rewrite !(proj2 (Z.eqb_neq _ 0)) by lia.
Qed.

(** The store entry of a peer that is in no slot can change freely. *)
Lemma inv_dead_store w d x : inv w -> is_Some (wst w !! d) -> (forall i, vget (peers (wm w)) i <> Some (Some d)) ->
  inv (mkWorld (wm w) (<[d := x]> (wst w)) (wrefs w)).
Proof.
  intros Hw Hd Hdead.
  assert (forall i d', vget (peers (wm w)) i = Some (Some d') -> <[d := x]> (wst w) !! d' = wst w !! d') as Hk.
  { intros i d' Hi. apply lookup_insert_ne. intros <-. by destruct (Hdead i). }
  split; cbn [wm wst wrefs]; try apply Hw.
  - intros i v d' Hi Hv. rewrite (Hk i d' Hi). by apply Hw.
  - rewrite map_size_insert_Some by done. apply Hw.
  - intros h k d' Hk'. destruct (inv_refs _ Hw h k d' Hk') as (i & pd & Hi & Ho & Hpd & Hh).
    exists i, pd. by rewrite (Hk i d' Hi).
  - intros i d' pd Hi. rewrite (Hk i d' Hi). by apply Hw.
Qed.

Lemma or_flags_ok s d bits : host_ok s -> host_ok (or_flags s d bits).
Proof.
  intros [H1 H2 H3 H4 H5 H6 H7 H8 H9 H10]. split; cbn [or_flags world this sockets peer_socket peerFlags disconnected fatal]; try done.
  - intros d' Hd'. destruct (H8 d' Hd') as (f & Ef & Hf). destruct (decide (d = d')) as [-> | Hne].
    + exists (Z.lor f bits). rewrite lookup_alter_eq, Ef. split; [ done | ]. by rewrite Z.lor_spec, Hf.
    + exists f. by rewrite lookup_alter_ne.
  - intros d' Hd'. destruct (H9 d' Hd') as [f Ef]. destruct (decide (d = d')) as [-> | Hne].
    + rewrite lookup_alter_eq, Ef. by eexists.
    + rewrite lookup_alter_ne by done. by eexists.
Qed.

Lemma MakePeer_spec s k : host_ok s -> sockets s !! k = None -> Z.of_nat (size (wst (world s))) < 2 ^ 31 - 1 ->
  exists s' d h, MakePeer s k = Some (s', d, h) /\ host_ok s' /\ live s' d
    /\ wst (world s') !! d = Some (mkData (this s) h h) /\ sockets s' = <[k := Some d]> (sockets s)
    /\ disconnected s' = disconnected s /\ this s' = this s
    /\ size (wst (world s')) = S (size (wst (world s)))
    /\ GetLocalPeerData (wm (world s')) h = Some (Some d).
Proof.
  intros Hs Hk Hn. unfold MakePeer. set (d := fresh (dom (wst (world s)))).
  assert (wst (world s) !! d = None) as Hd by (apply not_elem_of_dom, is_fresh).
  destruct (world_open_spec (world s) d (this s) (ho_inv _ Hs) Hd Hn)
    as (w & i & v & -> & Hw & Hnl & Hp & Hvs & Hsame & Est & _ & Hl & _).
  assert (vget (peers (wm w)) i = Some (Some d)) as Hi by (by rewrite Hp, Z.eqb_refl).
  assert (forall d', (exists j, vget (peers (wm w)) j = Some (Some d')) <-> d' = d \/ live s d') as Hlive.
  { intros d'. split.
    - intros [j Hj]. rewrite Hp in Hj. destruct (j =? i); [ left; congruence | right; by exists j ].
    - intros [-> | [j Hj]]; [ by exists i | ]. exists j. rewrite Hp.
      destruct (Z.eqb_spec j i) as [-> | _]; [ by destruct (Hnl d') | done ]. }
  assert (~ live s d) as Hdl.
  { intros Hl'. destruct (live_handle s d Hs Hl') as (? & ? & E & _). cbv zeta in E. congruence. }
  eexists _, d, _. split; [ done | ].
  assert (host_ok (mkHost w (this s) (<[k := Some d]> (sockets s)) (<[d := k]> (peer_socket s)) (<[d := 0]> (peerFlags s))
    (connected s) (disconnected s) (results s) (disconnectedTotal s) (disconnectedLocal s) (disconnectedRemote s)
    (connectionsFailed s) (timeouts s) (fatal s))) as Hok.
  { destruct Hs as [H1 H2 H3 H4 H5 H6 H7 H8 H9 H10].
    split; unfold live in *; cbn [world this sockets peer_socket peerFlags disconnected fatal]; try done.
    - intros d' pd. rewrite Est. destruct (decide (d = d')) as [<- | Hne];
        [ rewrite lookup_insert_eq; by intros [= <-] | rewrite lookup_insert_ne by done; apply H2 ].
    - intros k' d'. destruct (decide (k = k')) as [<- | Hne].
      + rewrite lookup_insert_eq. intros [= <-]. rewrite lookup_insert_eq. split; [ by exists i | done ].
      + rewrite lookup_insert_ne by done. intros Hk'. destruct (H3 k' d' Hk') as [Hl' Hps].
        split; [ apply Hlive; by right | ]. rewrite lookup_insert_ne; [ done | ]. by intros <-.
    - intros d' [-> | Hl']%Hlive; [ exists k; by rewrite lookup_insert_eq | ]. destruct (H4 d' Hl') as [k' Hk'].
      exists k'. rewrite lookup_insert_ne; [ done | ]. intros <-. congruence.
    - intros d'. rewrite Est, Hlive. destruct (decide (d = d')) as [<- | Hne].
      + rewrite lookup_insert_eq. split; [ by auto | by eexists ].
      + rewrite lookup_insert_ne by done. rewrite H5. naive_solver.
    - intros d' Hd'. rewrite Hlive. intros [-> | Hl']; [ | by apply (H7 d' Hd') ].
      assert (is_Some (wst (world s) !! d)) as [? ?] by (apply H5; by left). congruence.
    - intros d' Hd'. rewrite lookup_insert_ne; [ by apply H8 | ]. intros <-.
      assert (is_Some (wst (world s) !! d)) as [? ?] by (apply H5; by left). congruence.
    - intros d'. rewrite Est. destruct (decide (d = d')) as [<- | Hne]; [ rewrite !lookup_insert_eq; by eexists | ].
      rewrite !lookup_insert_ne by done. apply H9. }
  split_and!; [ exact Hok | by exists i | by cbn [world]; rewrite Est, lookup_insert_eq | done | done | done | | ].
  - cbn [world]. by rewrite Est, map_size_insert_None.
  - destruct (live_handle _ d Hok) as (i' & v' & E & _ & _ & _ & Eg & _); [ by exists i | ]. cbn [world this] in *.
    cbv zeta in E. rewrite Est, lookup_insert_eq in E. by assert (slot_handle (wm (world s)) i v = slot_handle (wm w) i' v') as -> by congruence.
Qed.

Ltac host_fields :=
  cbn [world this sockets peer_socket peerFlags connected disconnected results disconnectedTotal
       disconnectedLocal disconnectedRemote connectionsFailed timeouts fatal].

(** Releasing a live peer of this host is [world_close]. *)
Lemma release_spec s d h i v : host_ok s -> h = slot_handle (wm (world s)) i v ->
  wst (world s) !! d = Some (mkData (this s) h h) -> vget (peers (wm (world s))) i = Some (Some d) ->
  vget (versions (wm (world s))) i = Some v -> 0 <= i -> GetLocalPeerData (wm (world s)) h = Some (Some d) ->
  exists w, release s h = Some (mkHost w (this s) (sockets s) (peer_socket s) (peerFlags s) (connected s)
      (disconnected s) (results s) (disconnectedTotal s) (disconnectedLocal s) (disconnectedRemote s)
      (connectionsFailed s) (timeouts s) (fatal s))
    /\ inv w /\ wst w = wst (world s)
    /\ (forall d', (exists j, vget (peers (wm w)) j = Some (Some d')) <-> d' <> d /\ live s d')
    /\ pm_loop (wm w) = pm_loop (wm (world s))
    /\ forall j, vget (versions (wm w)) j = if j =? i then Some (next_version v) else vget (versions (wm (world s))) j.
Proof.
  intros Hs -> Hd Hi Hv H0 Hg. pose proof (ho_inv _ Hs) as Hw.
  destruct (world_close_live (world s) (slot_handle (wm (world s)) i v) d Hw eq_refl H0 Hi Hv)
    as (w & Ec & Hw' & Est & Hlw & Hp & Hvs & _). exists w. split_and!; try done.
  - unfold world_close, GetLocalHost in Ec. rewrite Hg, Hd in Ec. cbn [host default] in Ec. unfold release.
    destruct (PeerReferences_Release _ _ _ _ _) as [[[m refs] d']|]; [ | done ]. by injection Ec as <- _.
  - intros d'. split.
    + intros [j Hj]. rewrite Hp in Hj. cbn [slot_handle hid id] in Hj. destruct (Z.eqb_spec j i) as [_ | Hne]; [ done | ].
      split; [ | by exists j ]. intros ->. apply Hne. by apply (slot_inj (world s) j i d).
    + intros [Hne [j Hj]]. exists j. rewrite Hp. cbn [slot_handle hid id]. destruct (Z.eqb_spec j i) as [-> | _]; [ congruence | done ].
Qed.

Definition same_stats (s s' : HostState) : Prop :=
  disconnectedTotal s' = disconnectedTotal s /\ disconnectedLocal s' = disconnectedLocal s
  /\ disconnectedRemote s' = disconnectedRemote s /\ this s' = this s
  /\ size (wst (world s')) = size (wst (world s)).

(** The state after a peer was closed. *)
Lemma closed_ok s k d w x F : host_ok s -> sockets s !! k = Some (Some d) -> inv w -> wst w = wst (world s) ->
  host x = this s ->
  (forall d', (exists j, vget (peers (wm w)) j = Some (Some d')) <-> d' <> d /\ live s d') ->
  (forall d', d' <> d -> F !! d' = peerFlags s !! d') -> (exists f, F !! d = Some f /\ Z.testbit f 2 = true) ->
  host_ok (mkHost (mkWorld (wm w) (<[d := x]> (wst (world s))) (wrefs w)) (this s) (<[k := None]> (sockets s))
    (delete d (peer_socket s)) F (connected s) (disconnected s ++ [d]) (results s) (disconnectedTotal s)
    (disconnectedLocal s) (disconnectedRemote s) (connectionsFailed s) (timeouts s) (fatal s)).
Proof.
  intros Hs Hk Hw Ew Hx Hl HF HFd. destruct (ho_sock _ Hs k d Hk) as [Hlive Hps].
  destruct (live_handle s d Hs Hlive) as (i & v & Est & _). cbv zeta in Est.
  destruct Hs as [H1 H2 H3 H4 H5 H6 H7 H8 H9 H10].
  assert (~ exists j, vget (peers (wm w)) j = Some (Some d)) as Hdead by (rewrite Hl; naive_solver).
  split; unfold live in *; host_fields; cbn [wm wst wrefs]; try done.
  - rewrite <- Ew. apply inv_dead_store; [ done | rewrite Ew; by eexists | ]. intros j Hj. apply Hdead. by exists j.
  - intros d' pd. destruct (decide (d = d')) as [<- | Hne]; [ rewrite lookup_insert_eq; by intros [= <-] | ].
    rewrite lookup_insert_ne by done. apply H2.
  - intros k' d'. destruct (decide (k = k')) as [<- | Hne]; [ by rewrite lookup_insert_eq | ].
    rewrite lookup_insert_ne by done. intros Hk'. destruct (H3 k' d' Hk') as [Hl' Hps'].
    assert (d' <> d) by (intros ->; congruence). split; [ by apply Hl | ]. by rewrite lookup_delete_ne by congruence.
  - intros d' [Hne Hl']%Hl. destruct (H4 d' Hl') as [k' Hk']. exists k'. rewrite lookup_insert_ne; [ done | congruence ].
  - intros d'. rewrite Hl, elem_of_app, list_elem_of_singleton. destruct (decide (d = d')) as [<- | Hne].
    + rewrite lookup_insert_eq. naive_solver.
    + rewrite lookup_insert_ne by done. rewrite H5. naive_solver.
  - apply NoDup_app. split_and!; [ done | | apply NoDup_singleton ]. intros d' Hd' ->%list_elem_of_singleton. by apply (H7 d Hd').
  - intros d' [Hd' | ->%list_elem_of_singleton]%elem_of_app; [ rewrite Hl; intros [_ ?]; by apply (H7 d' Hd') | done ].
  - intros d' [Hd' | ->%list_elem_of_singleton]%elem_of_app; [ | done ].
    destruct (decide (d' = d)) as [-> | Hne]; [ by destruct (H7 d Hd') | ]. rewrite HF by done. by apply H8.
  - intros d' Hd'. destruct (decide (d = d')) as [<- | Hne]; [ destruct HFd as (f & -> & _); by eexists | ].
    rewrite lookup_insert_ne in Hd' by done. rewrite HF by congruence. by apply H9.
Qed.

(** What closing the peer [d] leaves alone, and what it leaves of the peer. *)
Record close_frame (s s' : HostState) (d : nat) : Prop := {
  cf_live : forall d', d' <> d -> live s d' -> live s' d' /\ wst (world s') !! d' = wst (world s) !! d';
  cf_loop : pm_loop (wm (world s')) = pm_loop (wm (world s));
  cf_store : exists i v, let h := slot_handle (wm (world s)) i v in
    0 <= i /\ vget (versions (wm (world s))) i = Some v
    /\ wst (world s) !! d = Some (mkData (this s) h h)
    /\ wst (world s') = <[d := mkData (this s) PeerHandle_default h]> (wst (world s))
    /\ forall j, vget (versions (wm (world s'))) j = if j =? i then Some (next_version v) else vget (versions (wm (world s))) j
}.

(** Closing the peer of a socket. *)
Lemma close_spec s k d : host_ok s -> sockets s !! k = Some (Some d) ->
  exists s', close_peer_of s k = Some s' /\ host_ok s' /\ sockets s' = <[k := None]> (sockets s)
    /\ disconnected s' = disconnected s ++ [d]
    /\ close_frame s s' d /\ same_stats s s'.
Proof.
  intros Hs Hk. destruct (ho_sock _ Hs k d Hk) as [Hlive Hps].
  destruct (live_handle s d Hs Hlive) as (i & v & Est & H0 & Hi & Hv & Hg & _). cbv zeta in *.
  set (h := slot_handle (wm (world s)) i v) in *.
  unfold close_peer_of. rewrite Hk, Est. cbn [peerHandle]. unfold on_close_Finish. rewrite Hg.
  match goal with |- context [release ?x h] => set (s1 := x) end.
  destruct (release_spec s d h i v Hs eq_refl Est Hi Hv H0 Hg) as (w & Er & Hw & Ew & Hl & Hlw & Hvs).
  assert (release s1 h = Some (mkHost w (this s) (sockets s) (peer_socket s)
      (alter (fun f => Z.lor f BIT_DISCONNECTING) d (peerFlags s)) (connected s)
      (disconnected s ++ [d]) (results s) (disconnectedTotal s) (disconnectedLocal s) (disconnectedRemote s)
      (connectionsFailed s) (timeouts s) (fatal s))) as ->.
  { unfold release in *. cbn [or_flags world this s1] in *.
    destruct (PeerReferences_Release _ _ _ _ _) as [[[m refs] d']|]; [ | done ]. by injection Er as <-. }
  unfold clear_on_close, or_flags. host_fields. rewrite Ew, Est, Hps. eexists. split; [ done | ]. split_and!; try done.
  - apply closed_ok; try done.
    + intros d' Hne. by rewrite !lookup_alter_ne by done.
    + destruct (ho_known _ Hs d) as [f Hfl]; [ by eexists | ]. rewrite !lookup_alter_eq, Hfl. eexists. split; [ done | ].
      rewrite Z.lor_spec. apply orb_true_r.
  - split; [ | done | ].
    + intros d' Hne Hl'. split; [ by apply Hl | ]. cbn [world wst]. by rewrite lookup_insert_ne by congruence.
    + by exists i, v.
  - unfold same_stats. split_and!; try done. cbn [world wst]. apply map_size_insert_Some. by rewrite Est.
Qed.

(** ** Runs *)

Lemma count_disconnect_ok s b : host_ok s -> host_ok (count_disconnect s b).
Proof. intros [H1 H2 H3 H4 H5 H6 H7 H8 H9 H10]. by split. Qed.

Lemma host_disconnect_ok s d : host_ok s -> host_ok (_InternalDisconnect s d).
Proof.
  intros Hs. unfold _InternalDisconnect. destruct (peer_socket _ !! d); repeat apply or_flags_ok; done.
Qed.

Lemma disconnect_world s d : world (_InternalDisconnect s d) = world s.
Proof. unfold _InternalDisconnect. by destruct (peer_socket _ !! d). Qed.

Lemma disconnect_all_ok ds : forall s, host_ok s ->
  host_ok (fold_left _InternalDisconnect ds s) /\ world (fold_left _InternalDisconnect ds s) = world s.
Proof.
  induction ds as [|d ds IH]; intros s Hs; [ done | ]. cbn [fold_left].
  destruct (IH _ (host_disconnect_ok s d Hs)) as [H1 H2]. split; [ done | ]. by rewrite H2, disconnect_world.
Qed.

Lemma open_finish_ok s h d : host_ok s -> GetLocalPeerData (wm (world s)) h = Some (Some d) ->
  exists s', on_open_Finish s h = Some s' /\ host_ok s' /\ world s' = world s.
Proof.
  intros Hs Hg. unfold on_open_Finish. host_fields. rewrite Hg. eexists. split; [ done | ]. split; [ | done ].
  apply or_flags_ok. destruct Hs as [H1 H2 H3 H4 H5 H6 H7 H8 H9 H10]. by split.
Qed.

(** Closing the peer of any known socket. *)
Lemma close_any_ok s k : host_ok s -> is_Some (sockets s !! k) ->
  exists s', close_peer_of s k = Some s' /\ host_ok s' /\ size (wst (world s')) = size (wst (world s)).
Proof.
  intros Hs [[d|] Hk].
  - destruct (close_spec s k d Hs Hk) as (s' & E & Hs' & _ & _ & _ & (_ & _ & _ & _ & Hz)). by exists s'.
  - exists s. unfold close_peer_of. by rewrite Hk.
Qed.

(** The assertion of [on_connect_error] fails for every socket that leads to a peer. *)
Lemma connect_error_stops s k d : host_ok s -> sockets s !! k = Some (Some d) -> on_connect_error s k = None.
Proof.
  intros Hs Hk. destruct (live_handle s d Hs (proj1 (ho_sock _ Hs k d Hk))) as (i & v & Est & _ & _ & _ & _ & Hv).
  cbv zeta in *. unfold on_connect_error, on_connect_error_with. host_fields. rewrite Hk, Est. cbn [peerHandle]. by rewrite Hv.
Qed.

(** Without assertions the peer is released and marked as closed, and nothing else: it is not
    disconnecting, and no callback is called. *)
Lemma connect_error_unchecked s k d f : host_ok s -> sockets s !! k = Some (Some d) -> peerFlags s !! d = Some f ->
  exists s', on_connect_error_with false s k = Some s' /\ peerFlags s' = <[d := Z.lor f BIT_CLOSED]> (peerFlags s)
    /\ sockets s' = <[k := None]> (sockets s) /\ disconnected s' = disconnected s /\ connected s' = connected s /\ ~ live s' d.
Proof.
  intros Hs Hk Hfl. destruct (ho_sock _ Hs k d Hk) as [Hlive Hps].
  destruct (live_handle s d Hs Hlive) as (i & v & Est & H0 & Hi & Hv & Hg & _). cbv zeta in *.
  destruct (release_spec s d _ i v Hs eq_refl Est Hi Hv H0 Hg) as (w & Er & Hw & Ew & Hl & _).
  unfold on_connect_error_with. host_fields. rewrite Hk, Est. cbn [peerHandle mbind option_bind negb orb].
  match goal with |- context [release ?x ?h] => set (s1 := x) end.
  assert (exists c t, release s1 (slot_handle (wm (world s)) i v) = Some (mkHost w (this s) (sockets s) (peer_socket s) (peerFlags s) (connected s)
      (disconnected s) (results s) (disconnectedTotal s) (disconnectedLocal s) (disconnectedRemote s) c t (fatal s))) as (c & t & ->).
  { exists (connectionsFailed s1), (timeouts s1). unfold release in *. host_fields. cbn [s1 world this] in *.
    destruct (PeerReferences_Release _ _ _ _ _) as [[[m refs] d']|]; [ | done ]. by injection Er as <-. }
  unfold clear_on_close, or_flags. host_fields. cbn [mbind option_bind]. rewrite Ew, Est, Hps. eexists. split; [ done | ].
  host_fields. split_and!; try done.
  - apply map_eq. intros d'. destruct (decide (d = d')) as [<- | Hne]; [ by rewrite lookup_alter_eq, Hfl, lookup_insert_eq | by rewrite lookup_alter_ne, lookup_insert_ne ].
  - intros [j Hj]. cbn in Hj. destruct (proj1 (Hl d)) as [Hne _]; [ by exists j | done ].
Qed.

Lemma host_step_stops s e : host_ok s -> stops s e = true -> host_step s e = None.
Proof.
  intros Hs He. destruct e as [k | k | k | k | k | k | k | ]; try done. cbn [stops] in He. apply bool_decide_eq_true in He.
  unfold host_step. cbn [event_ok]. destruct (sockets s !! k) as [[d|]|] eqn:Ek; try by destruct He.
  by apply (connect_error_stops s k d).
Qed.

Lemma host_step_ok s e : host_ok s -> Z.of_nat (size (wst (world s))) < 2 ^ 31 - 1 -> stops s e = false ->
  exists s', host_step s e = Some s' /\ host_ok s' /\ (size (wst (world s')) <= S (size (wst (world s))))%nat.
Proof.
  intros Hs Hn Hst. unfold host_step. destruct (event_ok s e) eqn:Ee; [ | exists s; split_and!; (done || lia) ].
  destruct e as [k | [k|] | k | k | k | k | k | ]; cbn [event_ok] in Ee; try apply bool_decide_eq_true in Ee.
  - unfold on_open. destruct (MakePeer_spec s k Hs Ee Hn) as (s1 & d & h & -> & Hs1 & _ & _ & _ & _ & _ & Hz & Hg).
    destruct (open_finish_ok s1 h d Hs1 Hg) as (s' & -> & Hs' & Ew). exists s'. rewrite Ew. split_and!; (done || lia).
  - unfold _InternalConnect. destruct (MakePeer_spec s k Hs Ee Hn) as (s1 & d & h & -> & Hs1 & _ & _ & _ & _ & _ & Hz & _).
    eexists. split_and!; [ done | | host_fields; lia ]. destruct Hs1 as [H1 H2 H3 H4 H5 H6 H7 H8 H9 H10]. by split.
  - unfold _InternalConnect. eexists. split_and!; [ done | | host_fields; lia ].
    destruct Hs as [H1 H2 H3 H4 H5 H6 H7 H8 H9 H10]. by split.
  - unfold on_open. destruct (sockets s !! k) as [[d|]|] eqn:Ek; try by destruct Ee.
    destruct (ho_sock _ Hs k d Ek) as [Hl _]. destruct (live_handle s d Hs Hl) as (i & v & Est & _ & _ & _ & Hg & _).
    cbv zeta in *. rewrite Est. destruct (open_finish_ok s _ d Hs Hg) as (s' & E & Hs' & Ew). exists s'. cbn [peerHandle].
    rewrite E, Ew. split_and!; (done || lia).
  - destruct (close_any_ok (count_disconnect s true) k (count_disconnect_ok s true Hs) Ee) as (s' & E & Hs' & Hz).
    exists s'. unfold on_close. rewrite E, Hz. cbn [count_disconnect world]. split_and!; (done || lia).
  - destruct (close_any_ok (count_disconnect s false) k (count_disconnect_ok s false Hs) Ee) as (s' & E & Hs' & Hz).
    exists s'. unfold on_end. rewrite E, Hz. cbn [count_disconnect world]. split_and!; (done || lia).
  - unfold on_timeout. host_fields. destruct Ee as [[d|] Ek]; rewrite Ek; eexists; (split; [ done | ]).
    + rewrite disconnect_world. split; [ | host_fields; lia ]. apply host_disconnect_ok.
      destruct Hs as [H1 H2 H3 H4 H5 H6 H7 H8 H9 H10]. by split.
    + split; [ | host_fields; lia ]. destruct Hs as [H1 H2 H3 H4 H5 H6 H7 H8 H9 H10]. by split.
  - cbn [stops] in Hst. apply bool_decide_eq_false in Hst. destruct Ee as [[d|] Ek].
    { destruct Hst. rewrite Ek. by eexists. }
    unfold on_connect_error, on_connect_error_with. host_fields. rewrite Ek. eexists. split; [ done | ].
    split; [ | host_fields; lia ]. destruct Hs as [H1 H2 H3 H4 H5 H6 H7 H8 H9 H10]. by split.
  - destruct (disconnect_all_ok (refs_of (world s) (this s)) s Hs) as [H1 H2]. eexists. split; [ done | ].
    unfold DisconnectAll. rewrite H2. split; [ done | lia ].
Qed.

(** ** What an event leaves alone *)

(** The peer an event closes. *)
Definition closes (s : HostState) (e : event) : option nat :=
  match e with EClose k | EEnd k => mjoin (sockets s !! k) | _ => None end.

Lemma MakePeer_frame s k s' d h : host_ok s -> Z.of_nat (size (wst (world s))) < 2 ^ 31 - 1 -> MakePeer s k = Some (s', d, h) ->
  this s' = this s /\ forall d', live s d' -> live s' d' /\ wst (world s') !! d' = wst (world s) !! d'.
Proof.
  intros Hs Hn E. unfold MakePeer in E. set (d0 := fresh (dom (wst (world s)))) in *.
  assert (wst (world s) !! d0 = None) as Hd by (apply not_elem_of_dom, is_fresh).
  destruct (world_open_spec (world s) d0 (this s) (ho_inv _ Hs) Hd Hn) as (w & i & v & Eo & _ & Hnl & Hp & _ & _ & Est & _).
  rewrite Eo in E. injection E as <- <- <-. split; [ done | ]. unfold live. host_fields. intros d' [j Hj]. split.
  - exists j. rewrite Hp. destruct (Z.eqb_spec j i) as [-> | _]; [ by destruct (Hnl d') | done ].
  - rewrite Est, lookup_insert_ne; [ done | ]. intros <-. destruct (live_handle s d0 Hs) as (? & ? & E & _); [ by exists j | ]. cbv zeta in E. congruence.
Qed.

Lemma host_step_frame s e s' : host_ok s -> Z.of_nat (size (wst (world s))) < 2 ^ 31 - 1 -> host_step s e = Some s' ->
  this s' = this s /\ forall d, live s d -> closes s e <> Some d -> live s' d /\ wst (world s') !! d = wst (world s) !! d.
Proof.
  intros Hs Hn E. assert (forall s1, world s1 = world s -> this s1 = this s -> this s1 = this s
    /\ forall d, live s d -> closes s e <> Some d -> live s1 d /\ wst (world s1) !! d = wst (world s) !! d) as Hsame.
  { intros s1 Ew Et. split; [ done | ]. intros d Hd _. unfold live in *. by rewrite Ew. }
  assert (forall b k, closes s e = mjoin (sockets s !! k) -> close_peer_of (count_disconnect s b) k = Some s' -> this s' = this s
    /\ forall d, live s d -> closes s e <> Some d -> live s' d /\ wst (world s') !! d = wst (world s) !! d) as Hclose.
  { intros b k Ec Ecl. destruct (sockets s !! k) as [[d0|]|] eqn:Ek.
    - destruct (close_spec (count_disconnect s b) k d0 (count_disconnect_ok s b Hs) Ek) as (s1 & E1 & _ & _ & _ & Hf & (_ & _ & _ & Et & _)).
      rewrite Ecl in E1. injection E1 as <-. split; [ done | ]. intros d Hd Hne. apply (cf_live _ _ _ Hf); [ | done ]. rewrite Ec in Hne. cbn in Hne. congruence.
    - unfold close_peer_of in Ecl. cbn [count_disconnect sockets] in Ecl. rewrite Ek in Ecl. injection Ecl as <-. by apply Hsame.
    - unfold close_peer_of in Ecl. cbn [count_disconnect sockets] in Ecl. by rewrite Ek in Ecl. }
  destruct (stops s e) eqn:Hst; [ by rewrite (host_step_stops s e Hs Hst) in E | ].
  unfold host_step in E. destruct (event_ok s e) eqn:Ee; [ | injection E as <-; by apply Hsame ].
  destruct e as [k | [k|] | k | k | k | k | k | ]; cbn [event_ok] in Ee; try apply bool_decide_eq_true in Ee.
  - unfold on_open in E. destruct (MakePeer s k) as [[[s1 d1] h1]|] eqn:Em; [ | done ]. destruct (MakePeer_frame s k s1 d1 h1 Hs Hn Em) as [Et Hf].
    destruct (MakePeer_spec s k Hs Ee Hn) as (s2 & d2 & h2 & Em2 & Hs1 & _ & _ & _ & _ & _ & _ & Hg). rewrite Em in Em2. injection Em2 as <- <- <-.
    destruct (open_finish_ok s1 h1 d1 Hs1 Hg) as (s3 & E3 & _ & Ew). assert (this s' = this s1) as Et'.
    { unfold on_open_Finish in E. host_fields. inv_bind E. destruct o; by injection E as <-. }
    rewrite E in E3. injection E3 as <-. split; [ congruence | ]. intros d Hd _. unfold live in *. rewrite Ew. by apply Hf.
  - unfold _InternalConnect in E. destruct (MakePeer s k) as [[[s1 d1] h1]|] eqn:Em; [ | done ]. destruct (MakePeer_frame s k s1 d1 h1 Hs Hn Em) as [Et Hf].
    injection E as <-. split; [ done | ]. intros d Hd _. by apply Hf.
  - injection E as <-. by apply Hsame.
  - unfold on_open, on_open_Finish in E. inv_bind E. destruct o0; injection E as <-; by apply Hsame.
  - by apply (Hclose true k).
  - by apply (Hclose false k).
  - unfold on_timeout in E. host_fields. inv_bind E. destruct o as [d|]; injection E as <-; apply Hsame; try done.
    + by rewrite disconnect_world.
    + unfold _InternalDisconnect. by destruct (peer_socket _ !! d).
  - cbn [stops] in Hst. apply bool_decide_eq_false in Hst. destruct Ee as [[d|] Ek].
    { destruct Hst. rewrite Ek. by eexists. }
    unfold on_connect_error, on_connect_error_with in E. cbn [sockets] in E. rewrite Ek in E. injection E as <-. by apply Hsame.
  - injection E as <-. destruct (disconnect_all_ok (refs_of (world s) (this s)) s Hs) as [_ Ew]. apply Hsame; [ done | ].
    unfold DisconnectAll. generalize (refs_of (world s) (this s)). intros ds. clear. revert s. induction ds as [|d ds IH]; intros s; [ done | ].
    cbn [fold_left]. rewrite IH. unfold _InternalDisconnect. by destruct (peer_socket _ !! d).
Qed.

Lemma host_run_app s es1 es2 : host_run s (es1 ++ es2) = (let* s := host_run s es1 in host_run s es2).
Proof.
  revert s. induction es1 as [|e es1 IH]; intros s; [ done | ]. cbn [host_run app].
  destruct (host_step s e); [ apply IH | done ].
Qed.

(** A run that does not stop leads to a good state. *)
Lemma host_run_ok es : forall s s', host_ok s -> Z.of_nat (size (wst (world s))) + zlen es < 2 ^ 31 -> host_run s es = Some s' ->
  host_ok s' /\ (size (wst (world s')) <= size (wst (world s)) + length es)%nat.
Proof.
  induction es as [|e es IH]; intros s s' Hs Hn E; cbn [host_run] in E; [ injection E as <-; split; (done || simpl; lia) | ].
  rewrite zlen_cons in Hn. pose proof (zlen_nonneg es). destruct (stops s e) eqn:Hst; [ by rewrite (host_step_stops s e Hs Hst) in E | ].
  destruct (host_step_ok s e Hs) as (s1 & E1 & Hs1 & Hz); [ lia | done | ]. rewrite E1 in E.
  destruct (IH s1 s' Hs1) as (Hs' & Hz'); [ lia | done | ]. split; [ done | simpl; lia ].
Qed.

(** The events stop the program at a connect error, one after a run that did not stop. *)
Definition stops_at (s : HostState) (es : list event) : Prop :=
  exists es1 k es2 s1 d, es = es1 ++ EConnectError k :: es2 /\ host_run s es1 = Some s1 /\ sockets s1 !! k = Some (Some d).

(** A run ends, unless a connect error is reported for the socket of a peer. *)
Lemma host_run_total es : forall s, host_ok s -> Z.of_nat (size (wst (world s))) + zlen es < 2 ^ 31 ->
  (exists s', host_run s es = Some s') \/ (host_run s es = None /\ stops_at s es).
Proof.
  induction es as [|e es IH]; intros s Hs Hn; cbn [host_run]; [ left; by eexists | ].
  rewrite zlen_cons in Hn. pose proof (zlen_nonneg es). destruct (stops s e) eqn:Hst.
  - right. split; [ by rewrite (host_step_stops s e Hs Hst) | ]. destruct e as [k | k | k | k | k | k | k | ]; try done.
    cbn [stops] in Hst. apply bool_decide_eq_true in Hst. destruct (sockets s !! k) as [[d|]|] eqn:Ek; try by destruct Hst.
    by exists [], k, es, s, d.
  - destruct (host_step_ok s e Hs) as (s1 & E1 & Hs1 & Hz); [ lia | done | ]. rewrite E1.
    destruct (IH s1 Hs1) as [[s' E'] | [E' (es1 & k & es2 & s2 & d & -> & Er & Ek)]]; [ lia | left; by exists s' | right ].
    split; [ done | ]. exists (e :: es1), k, es2, s2, d. split; [ done | ]. cbn [host_run]. by rewrite E1.
Qed.

Lemma Host_init_ok loop this : loop <> 0 -> host_ok (Host_init loop this).
Proof.
  intros Hl. assert (forall d, ~ live (Host_init loop this) d) as Hno.
  { intros d [i Hi]. cbn in Hi. by rewrite vget_nil in Hi. }
  split; host_fields; try done.
  - by apply World_init_inv.
  - intros d Hd. by destruct (Hno d).
  - intros d. split; [ by intros [? ?] | ]. intros [Hd%elem_of_nil | Hd]; [ done | by destruct (Hno d) ].
  - constructor.
  - intros d Hd%elem_of_nil. done.
  - by intros d [? ?].
Qed.

(** A run that reports such a connect error stops. *)
Lemma stops_at_stops s es : host_ok s -> Z.of_nat (size (wst (world s))) + zlen es < 2 ^ 31 -> stops_at s es -> host_run s es = None.
Proof.
  intros Hs Hn (es1 & k & es2 & s1 & d & -> & E & Hk). rewrite zlen_app in Hn. pose proof (zlen_nonneg (EConnectError k :: es2)).
  destruct (host_run_ok es1 s s1 Hs) as [Hs1 _]; [ lia | done | ]. rewrite host_run_app, E. cbn [host_run mbind option_bind].
  rewrite host_step_stops; [ done | done | ]. cbn [stops]. rewrite Hk. apply bool_decide_eq_true. by eexists.
Qed.

(** Every peer is either closed, and told so, or reachable. *)
Lemma peer_states s d pd : host_ok s -> wst (world s) !! d = Some pd ->
  (d ∈ disconnected s /\ (forall k, sockets s !! k <> Some (Some d))
    /\ exists f, peerFlags s !! d = Some f /\ Z.testbit f 2 = true)
  \/ (d ∉ disconnected s /\ (exists k, sockets s !! k = Some (Some d)) /\ resolve (world s) (peerHandle pd) = Some d).
Proof.
  intros Hs Hd. destruct (proj1 (ho_hist _ Hs d)) as [Hdis | Hlive]; [ by eexists | left | right ].
  - split_and!; [ done | | by apply (ho_flags _ Hs) ]. intros k Hk. destruct (ho_sock _ Hs k d Hk) as [Hl' _].
    by apply (ho_dead _ Hs d Hdis).
  - split_and!; [ intros Hdis; by apply (ho_dead _ Hs d Hdis) | by apply (ho_live _ Hs) | ].
    destruct (live_handle s d Hs Hlive) as (i & v & Est & _ & _ & _ & Hg & _). cbv zeta in *. rewrite Hd in Est.
    injection Est as ->. unfold resolve. cbn [peerHandle]. by rewrite Hg.
Qed.

(** ** Claims *)

(** C8: after any sequence of fewer than [2^31] events on a host's sockets (accepted and
    connecting sockets, the connects with a completion; opened, closed, ended and timed out
    sockets; connect errors; [DisconnectAll]) one of two things holds. Either no assertion
    failed and nothing fatal was logged, and every peer the host ever created is in one of two
    states: it is closed, its disconnect callback was called exactly once, it is marked closed
    and no socket leads to it; or its callback was not called, a socket leads to it and its
    handle resolves to it. Or the program stopped, which happens exactly when uSockets reports
    a connect error for a socket that leads to a peer. *)
Theorem every_connection_disconnects_once loop this es :
  loop <> 0 -> zlen es < 2 ^ 31 ->
  (host_run (Host_init loop this) es = None <-> stops_at (Host_init loop this) es)
  /\ forall s, host_run (Host_init loop this) es = Some s -> fatal s = 0 /\ NoDup (disconnected s)
    /\ forall d pd, wst (world s) !! d = Some pd ->
        (d ∈ disconnected s /\ (forall k, sockets s !! k <> Some (Some d))
          /\ exists f, peerFlags s !! d = Some f /\ Z.testbit f 2 = true)
        \/ (d ∉ disconnected s /\ (exists k, sockets s !! k = Some (Some d))
          /\ resolve (world s) (peerHandle pd) = Some d).
Proof.
  intros Hl Hn. pose proof (Host_init_ok loop this Hl) as H0. split.
  - split; [ | by apply stops_at_stops ]. intros E. destruct (host_run_total es _ H0 Hn) as [[s' E'] | [_ H]]; [ congruence | done ].
  - intros s E. destruct (host_run_ok es _ s H0 Hn E) as [Hs _]. split_and!; [ apply Hs | apply Hs | ]. intros d pd Hd.
    by apply (peer_states s).
Qed.

(** When the other side ends a connection, uSockets calls [on_end] and then, because the
    socket is closed, [on_close]: the user's callback is called once, but the connection is
    counted twice in [disconnectedTotal], once as remote and once as local. *)
Theorem remote_close_is_counted_twice loop this es s k d :
  loop <> 0 -> zlen es < 2 ^ 31 -> host_run (Host_init loop this) es = Some s ->
  sockets s !! k = Some (Some d) ->
  exists s', host_run s [EEnd k; EClose k] = Some s' /\ disconnected s' = disconnected s ++ [d]
    /\ disconnectedTotal s' = disconnectedTotal s + 2
    /\ disconnectedRemote s' = disconnectedRemote s + 1 /\ disconnectedLocal s' = disconnectedLocal s + 1.
Proof.
  intros Hl Hn E Hk. destruct (host_run_ok es (Host_init loop this) s (Host_init_ok loop this Hl)) as (Hs & _); [ exact Hn | done | ].
  destruct (close_spec (count_disconnect s false) k d (count_disconnect_ok s false Hs) Hk)
    as (s1 & E1 & _ & Hso & Hdi & _ & (Ht & Hlo & Hre & _)).
  unfold host_run, host_step. cbn [event_ok]. rewrite bool_decide_true by (rewrite Hk; by eexists). unfold on_end. rewrite E1.
  rewrite bool_decide_true by (rewrite Hso, lookup_insert_eq; by eexists).
  unfold on_close, close_peer_of. cbn [count_disconnect sockets]. rewrite Hso, lookup_insert_eq. eexists. split; [ done | ].
  cbn [count_disconnect disconnected disconnectedTotal disconnectedLocal disconnectedRemote] in *. split_and!; (done || lia).
Qed.

(** A connection attempt that fails later stops the program: [on_connect_error] asserts
    that the peer has no handle, but [_InternalConnect] has stored the peer and its handle. A
    connect command without a callback, which [Connect(address, port)] sends, also stops. *)
Theorem failed_connect_stops loop this es s k :
  loop <> 0 -> zlen es < 2 ^ 31 - 1 -> host_run (Host_init loop this) es = Some s -> sockets s !! k = None ->
  (exists s', _InternalConnect s (Some k) true = Some s' /\ on_connect_error s' k = None)
  /\ _InternalConnect s (Some k) false = None /\ _InternalConnect s None false = None.
Proof.
  intros Hl Hn E Hk. destruct (host_run_ok es (Host_init loop this) s (Host_init_ok loop this Hl)) as (Hs & Hz0);
    [ change (size (wst (world (Host_init loop this)))) with 0%nat; lia | done | ].
  assert (Z.of_nat (size (wst (world s))) < 2 ^ 31 - 1) as Hz.
  { change (size (wst (world (Host_init loop this)))) with 0%nat in Hz0. unfold zlen in Hn. lia. }
  destruct (MakePeer_spec s k Hs Hk Hz) as (s1 & d & h & E1 & Hs1 & Hl1 & Est & Hso & _).
  unfold _InternalConnect. rewrite E1. split_and!; [ | done | done ]. eexists. split; [ done | ].
  apply (connect_error_stops _ k d); [ | host_fields; by rewrite Hso, lookup_insert_eq ].
  destruct Hs1 as [H1 H2 H3 H4 H5 H6 H7 H8 H9 H10]. by split.
Qed.

(** ** Witnesses *)

Definition sample_events : list event :=
  [EAccept 1; EAccept 2; EConnect (Some 3%nat); EConnected 3; EEnd 1; EClose 1; ETimeout 2; EDisconnectAll; EClose 3; EConnectError 3].

Lemma every_connection_disconnects_once_witness :
  (exists s, host_run (Host_init 1 5) sample_events = Some s /\ fatal s = 0 /\ NoDup (disconnected s))
  /\ stops_at (Host_init 1 5) [EAccept 1; EConnect (Some 3%nat); EConnectError 3; EClose 1].
Proof.
  split.
  - destruct (host_run (Host_init 1 5) sample_events) as [s|] eqn:E; [ | vm_compute in E; discriminate E ].
    exists s. split; [ reflexivity | ]. destruct (every_connection_disconnects_once 1 5 sample_events) as [_ H]; [ lia | reflexivity | ].
    destruct (H s E) as (Hf & Hd & _). exact (conj Hf Hd).
  - apply (every_connection_disconnects_once 1 5); [ lia | reflexivity | vm_compute; reflexivity ].
Defined.

Definition sample_host : HostState := default (Host_init 1 5) (host_run (Host_init 1 5) sample_events).

Lemma remote_close_is_counted_twice_witness :
  exists s' d, host_run sample_host [EEnd 2; EClose 2] = Some s' /\ disconnected s' = disconnected sample_host ++ [d]
    /\ disconnectedTotal s' = disconnectedTotal sample_host + 2
    /\ disconnectedRemote s' = disconnectedRemote sample_host + 1
    /\ disconnectedLocal s' = disconnectedLocal sample_host + 1.
Proof.
  destruct (sockets sample_host !! 2%nat) as [[d|]|] eqn:Ek; [ | vm_compute in Ek; discriminate Ek .. ].
  destruct (remote_close_is_counted_twice 1 5 sample_events sample_host 2 d) as [s' H].
  - lia.
  - reflexivity.
  - vm_compute. reflexivity.
  - exact Ek.
  - exists s', d. exact H.
Defined.

Lemma failed_connect_stops_witness :
  (exists s', _InternalConnect sample_host (Some 9%nat) true = Some s' /\ on_connect_error s' 9 = None)
  /\ _InternalConnect sample_host (Some 9%nat) false = None /\ _InternalConnect sample_host None false = None.
Proof.
  apply (failed_connect_stops 1 5 sample_events sample_host 9).
  - lia.
  - reflexivity.
  - vm_compute. reflexivity.
  - vm_compute. reflexivity.
Defined.

End HostLifecycle.
