(* ===== verification/PeerSend.v ===== *)
(** * The sending side of a peer (src/Peer.cpp, src/PeerUStcp.cpp, SendFrameStruct)

    [PeerData::Send] queues frames; [_InternalOnWritable] moves them to the socket through
    [_InternalFlushQueuedSends], [_InternalSend] and the 4 KiB [writeBuffer]. The socket is
    uSockets, which is not part of the repository: [us_socket_write] is a parameter that may
    accept any number of the offered bytes, none, or fail. The model keeps both queues with
    their offset, the real write buffer, the statistics and the flags; [wire] records the
    bytes the socket accepted. *)

From S2P Require Import Prelude MemoryPool ByteBuffer.

(** What the library relies on: a write accepts at most what it was offered. *)
Class Socket (Sock : Type) := {
  us_socket_write : Sock -> Z -> bool -> Sock * Z;
  us_socket_write_le : forall s n more, 0 <= n -> (us_socket_write s n more).2 <= n
}.

Module PeerSend.

Definition BIT_READY : Z := 1.
Definition BIT_DISCONNECTING : Z := 2.
Definition BIT_CLOSED : Z := 4.
Definition BIT_ERROR_CONNECT : Z := 8.

(** A queued frame; [None] after its handle was released. *)
Record SendFrameStruct := mkFrame { data : option (list Z); bytesSent : Z }.

Record PeerStats := mkStats { st_bytesSent : Z; st_packetsSent : Z; st_framesSent : Z; st_errorsCount : Z }.

Section Peer.
Context `{Allocator} {Sock : Type} `{Socket Sock}.

Record Peer := mkPeer {
  peerFlags : Z;
  socket : bool;                       (* [socket != nullptr] *)
  writeBuffer : ByteBufferWritable;
  writeBufferOffset : Z;
  globalQueue : list SendFrameStruct;
  localQueue : list SendFrameStruct;
  localQueueOffset : Z;
  stats : PeerStats;
  sock : Sock;
  wire : list Z;
  to_flush : bool                      (* the loop was asked to flush this peer *)
}.

Definition set_stats (p : Peer) (s : PeerStats) : Peer :=
  mkPeer (peerFlags p) (socket p) (writeBuffer p) (writeBufferOffset p) (globalQueue p)
    (localQueue p) (localQueueOffset p) s (sock p) (wire p) (to_flush p).
Definition set_buffer (p : Peer) (w : ByteBufferWritable) (off : Z) : Peer :=
  mkPeer (peerFlags p) (socket p) w off (globalQueue p)
    (localQueue p) (localQueueOffset p) (stats p) (sock p) (wire p) (to_flush p).
Definition set_queues (p : Peer) (g l : list SendFrameStruct) (off : Z) : Peer :=
  mkPeer (peerFlags p) (socket p) (writeBuffer p) (writeBufferOffset p) g l off
    (stats p) (sock p) (wire p) (to_flush p).

Definition error (p : Peer) : Peer :=
  set_stats p (mkStats (st_bytesSent (stats p)) (st_packetsSent (stats p)) (st_framesSent (stats p))
    (st_errorsCount (stats p) + 1)).

(** The constructor of [uS::tcp::Peer]. *)
Definition Peer_init (s : Sock) : option Peer :=
  let* w := reserve ByteBufferWritable_default (4096 - 32) in
  Some (mkPeer 0 true w 0 [] [] 0 (mkStats 0 0 0 0) s [] false).

(** [us_socket_write(SSL, socket, bytes, size, hasMore)] on a live socket. *)
Definition sock_write (p : Peer) (bytes : list Z) (hasMore : bool) : option (Peer * Z) :=
  assert* socket p in
  let '(s, b) := us_socket_write (sock p) (zlen bytes) hasMore in
  Some (mkPeer (peerFlags p) (socket p) (writeBuffer p) (writeBufferOffset p) (globalQueue p)
          (localQueue p) (localQueueOffset p) (stats p) s (wire p ++ take (Z.to_nat b) bytes) (to_flush p), b).

Definition _InternalHasBufferedSends (p : Peer) : bool :=
  writeBufferOffset p <? _size (writeBuffer p).

Definition _InternalHasQueuedSends (p : Peer) : bool :=
  negb (localQueueOffset p =? zlen (localQueue p)) || negb (zlen (globalQueue p) =? 0).

Definition _InternalFlushBufferedSends (p : Peer) (hasMore : bool) : option (Peer * bool) :=
  let bytesToSend := i32 (_size (writeBuffer p) - writeBufferOffset p) in
  if 0 <? bytesToSend then
    let bytes := take (Z.to_nat bytesToSend) (drop (Z.to_nat (writeBufferOffset p)) (contents (writeBuffer p))) in
    let* (p, b) := sock_write p bytes hasMore in
    if b <? 0 then Some (error p, false)
    else if 0 <? b then
      let p := set_stats p (mkStats (st_bytesSent (stats p) + b) (st_packetsSent (stats p) + 1)
                              (st_framesSent (stats p)) (st_errorsCount (stats p))) in
      let off := u32 (writeBufferOffset p + b) in
      if _size (writeBuffer p) =? off then
        let* w := clear (writeBuffer p) in
        Some (set_buffer p w 0, true)
      else Some (set_buffer p (writeBuffer p) off, false)
    else Some (p, false)
  else Some (p, false).

(** [_InternalSend] on a frame whose bytes are [d]; it calls itself once at most. *)
Fixpoint send_ (fuel : nat) (p : Peer) (d : list Z) (sent : Z) (hasMore : bool)
  : option (Peer * Z * bool) :=
  match fuel with
  | O => None
  | S fuel =>
      if negb (socket p) then Some (p, sent, false)
      else
        let* (p, ok) :=
          if _size (writeBuffer p) =? _capacity (writeBuffer p)
          then _InternalFlushBufferedSends p true else Some (p, true) in
        if negb ok then Some (p, sent, false)
        else if sent <? zlen d then
          let bytesToWrite := zlen d - sent in
          let ptr := drop (Z.to_nat sent) d in
          if (_size (writeBuffer p) =? writeBufferOffset p)
             && ((1200 <? bytesToWrite) || negb hasMore) then
            let* (p, b) := sock_write p ptr hasMore in
            if b <? 0 then
              let p := error p in
              Some (p, sent, negb (sent <? zlen d))
            else if 0 <? b then
              let sent := u32 (sent + b) in
              Some (p, sent, negb (sent <? zlen d))
            else Some (p, sent, false)
          else if u32 (_size (writeBuffer p) + bytesToWrite) <=? _capacity (writeBuffer p) then
            let* w := append (writeBuffer p) (take (Z.to_nat bytesToWrite) ptr) in
            let p := set_buffer p w (writeBufferOffset p) in
            let sent := u32 (sent + bytesToWrite) in
            if negb hasMore || (_size (writeBuffer p) =? _capacity (writeBuffer p)) then
              let* (p, r) := _InternalFlushBufferedSends p hasMore in
              Some (p, sent, r)
            else Some (p, sent, true)
          else
            let bytesToWrite := Z.min bytesToWrite (_capacity (writeBuffer p) - _size (writeBuffer p)) in
            let* w := append (writeBuffer p) (take (Z.to_nat bytesToWrite) ptr) in
            let p := set_buffer p w (writeBufferOffset p) in
            let sent := u32 (sent + bytesToWrite) in
            let* (p, canWriteMore) := _InternalFlushBufferedSends p true in
            if negb canWriteMore then Some (p, sent, false)
            else send_ fuel p d sent hasMore
        else Some (p, sent, true)
  end.

Definition _InternalSend (p : Peer) (f : SendFrameStruct) (hasMore : bool)
  : option (Peer * SendFrameStruct * bool) :=
  let* d := data f in
  let* (p, sent, r) := send_ 2 p d (bytesSent f) hasMore in
  Some (p, mkFrame (Some d) sent, r).

Definition DequeueToLocalQueue (p : Peer) : Peer :=
  if negb (zlen (localQueue p) =? localQueueOffset p) then p
  else
    let p := if negb (localQueueOffset p =? 0) then set_queues p (globalQueue p) [] 0 else p in
    if zlen (globalQueue p) =? 0 then p
    else set_queues p (localQueue p) (globalQueue p) (localQueueOffset p).

(** How the inner loop of [_InternalFlushQueuedSends] ended. *)
Inductive loop_end := Drained | Corked | Exhausted.

(** The inner loop; [n] is [maxPacketsToSend - i]. *)
Fixpoint flush_loop (n : nat) (p : Peer) (queuedFrames sentFrames : Z)
  : option (Peer * Z * nat * loop_end) :=
  match n with
  | O => Some (p, sentFrames, O, Exhausted)
  | S n' =>
      if zlen (localQueue p) =? localQueueOffset p then Some (p, sentFrames, S n', Drained)
      else
        let hasAnyMore := 1 <? u32 (queuedFrames - sentFrames) in
        let* f := vget (localQueue p) (localQueueOffset p) in
        let* (p, f, ok) := _InternalSend p f hasAnyMore in
        if (ok : bool) then
          let* l := vset (localQueue p) (localQueueOffset p) (mkFrame None (bytesSent f)) in
          flush_loop n' (set_queues p (globalQueue p) l (localQueueOffset p + 1)) queuedFrames (sentFrames + 1)
        else
          let* l := vset (localQueue p) (localQueueOffset p) f in
          Some (set_queues p (globalQueue p) l (localQueueOffset p), sentFrames, S n', Corked)
  end.

Definition _InternalFlushQueuedSends (p : Peer) (maxPacketsToSend : nat) : option (Peer * bool) :=
  let queuedFrames := u32 (zlen (globalQueue p) + zlen (localQueue p) - localQueueOffset p) in
  let* (p, sent, n, e) := flush_loop maxPacketsToSend (DequeueToLocalQueue p) queuedFrames 0 in
  let* (p, sent, ret) :=
    match e with
    | Corked => Some (p, sent, false)
    | _ =>
        let* (p, sent, _, e) := flush_loop n (DequeueToLocalQueue p) queuedFrames sent in
        Some (p, sent, match e with Corked => false | _ => true end)
    end in
  Some (set_stats p (mkStats (st_bytesSent (stats p)) (st_packetsSent (stats p))
                       (st_framesSent (stats p) + sent) (st_errorsCount (stats p))), ret).

Definition has_flag (p : Peer) (bit : Z) : bool := negb (Z.land (peerFlags p) bit =? 0).

Definition _InternalOnWritable (p : Peer) : option (Peer * bool) :=
  if negb (has_flag p BIT_READY) || has_flag p BIT_DISCONNECTING || has_flag p BIT_CLOSED
  then Some (p, false)
  else
    let* (p, ret) :=
      if _InternalHasQueuedSends p then _InternalFlushQueuedSends p 384 else Some (p, true) in
    if _InternalHasBufferedSends p then
      let* (p, r) := _InternalFlushBufferedSends p false in
      Some (p, ret && r)
    else Some (p, ret).

(** [PeerData::Send]; an empty handle has no data pointer. *)
Definition Send (p : Peer) (frame : option (list Z)) : option Peer :=
  let* d := frame in
  if has_flag p BIT_DISCONNECTING then Some (error p)
  else
    let fl := negb (_InternalHasQueuedSends p) && negb (_InternalHasBufferedSends p) in
    Some (mkPeer (peerFlags p) (socket p) (writeBuffer p) (writeBufferOffset p)
            (globalQueue p ++ [mkFrame (Some d) 0]) (localQueue p) (localQueueOffset p)
            (stats p) (sock p) (wire p) (fl || to_flush p)).

Definition SetReadyToUse (p : Peer) : Peer :=
  mkPeer (Z.lor (peerFlags p) BIT_READY) (socket p) (writeBuffer p) (writeBufferOffset p) (globalQueue p)
    (localQueue p) (localQueueOffset p) (stats p) (sock p) (wire p) (to_flush p).

(** [us_socket_close] only starts the closing; its callbacks follow. *)
Definition _InternalDisconnect (p : Peer) : Peer :=
  let flags := Z.lor (peerFlags p) BIT_DISCONNECTING in
  mkPeer (if socket p then flags else Z.lor flags BIT_CLOSED)
    (socket p) (writeBuffer p) (writeBufferOffset p) (globalQueue p)
    (localQueue p) (localQueueOffset p) (stats p) (sock p) (wire p) (to_flush p).

(** ** What is still to be sent *)

Definition rest (f : SendFrameStruct) : list Z := drop (Z.to_nat (bytesSent f)) (default [] (data f)).

Definition buffered (p : Peer) : list Z :=
  drop (Z.to_nat (writeBufferOffset p)) (contents (writeBuffer p)).
Definition queued_local (p : Peer) : list SendFrameStruct :=
  drop (Z.to_nat (localQueueOffset p)) (localQueue p).
Definition pending (p : Peer) : list Z :=
  buffered p ++ concat (rest <$> queued_local p) ++ concat (rest <$> globalQueue p).

(** Everything the peer was given to send so far, in order. *)
Definition stream (p : Peer) : list Z := wire p ++ pending p.

Definition frame_ok (f : SendFrameStruct) : Prop :=
  exists d, data f = Some d /\ zlen d < 2 ^ 31 /\ 0 <= bytesSent f <= zlen d.

Record buffer_ok (w : ByteBufferWritable) (off : Z) : Prop := {
  bo_wf : wf w;
  bo_cap : 4064 <= _capacity w < 2 ^ 30;
  bo_head : _offset w = 32;
  bo_off : 0 <= off <= _size w;
  bo_empty : off = _size w -> off = 0
}.

Record peer_ok (p : Peer) : Prop := {
  po_buffer : buffer_ok (writeBuffer p) (writeBufferOffset p);
  po_offset : 0 <= localQueueOffset p <= zlen (localQueue p);
  po_local : Forall frame_ok (queued_local p);
  po_global : Forall frame_ok (globalQueue p);
  po_count : zlen (localQueue p) + zlen (globalQueue p) < 2 ^ 31;
  po_socket : socket p = true
}.

(** ** Lemmas *)

(** Only the write buffer, the socket and the statistics may differ. *)
Record same_queues (p p' : Peer) : Prop := {
  sq_flags : peerFlags p' = peerFlags p;
  sq_socket : socket p' = socket p;
  sq_global : globalQueue p' = globalQueue p;
  sq_local : localQueue p' = localQueue p;
  sq_offset : localQueueOffset p' = localQueueOffset p;
  sq_flush : to_flush p' = to_flush p
}.

#[local] Instance same_queues_PreOrder : PreOrder same_queues.
Proof. split; [ by split | ]. intros p q r [] []. split; congruence. Qed.

(** A socket that accepts everything it is offered. *)
Definition eager : Prop :=
  forall s n more, 0 <= n -> (us_socket_write (s : Sock) n more).2 = n.

Lemma buffer_ok_valid w off : buffer_ok w off -> valid w = true.
Proof.
  intros Hb. destruct (wf_valid w (bo_wf _ _ Hb)) as [-> _]. pose proof (bo_cap _ _ Hb).
  by rewrite (proj2 (Z.eqb_neq _ 0)) by lia.
Qed.

Lemma buffered_set_buffer p w off : buffered (set_buffer p w off) = drop (Z.to_nat off) (contents w).
Proof. done. Qed.

Lemma buffered_zlen p : buffer_ok (writeBuffer p) (writeBufferOffset p) ->
  zlen (buffered p) = _size (writeBuffer p) - writeBufferOffset p.
Proof.
  intros Hb. unfold buffered. rewrite zlen_drop, wf_zlen_contents by apply Hb.
  pose proof (bo_off _ _ Hb). lia.
Qed.

(** An emptied write buffer. *)
Lemma clear_buffer_ok w off : buffer_ok w off ->
  exists w', clear w = Some w' /\ buffer_ok w' 0 /\ _size w' = 0 /\ contents w' = [].
Proof.
  intros Hb. destruct (clear_spec w (bo_wf _ _ Hb)) as (w' & E & Hw & Hc & Hs & _ & _ & Ho & Hcap).
  specialize (Ho (buffer_ok_valid _ _ Hb)). pose proof (bo_cap _ _ Hb). pose proof (bo_head _ _ Hb).
  exists w'. split_and!; try done. split; (done || lia).
Qed.

Lemma append_buffer_ok w off l : buffer_ok w off -> _size w + zlen l <= _capacity w ->
  0 < zlen l ->
  exists w', append w l = Some w' /\ buffer_ok w' off /\ _size w' = _size w + zlen l
    /\ contents w' = contents w ++ l /\ _capacity w' = _capacity w.
Proof.
  intros Hb Hl Hpos. pose proof (bo_cap _ _ Hb). pose proof (bo_off _ _ Hb). pose proof (bo_head _ _ Hb).
  destruct (append_fits 3 w l) as (w' & E & [] & Hc & Ho & _); [ apply Hb | done | lia | ].
  exists w'. split_and!; try done. split; try done; lia.
Qed.

Lemma _InternalFlushBufferedSends_spec p hasMore :
  buffer_ok (writeBuffer p) (writeBufferOffset p) -> socket p = true ->
  exists p' r, _InternalFlushBufferedSends p hasMore = Some (p', r) /\ same_queues p p'
    /\ buffer_ok (writeBuffer p') (writeBufferOffset p') /\ _capacity (writeBuffer p') = _capacity (writeBuffer p)
    /\ wire p' ++ buffered p' = wire p ++ buffered p
    /\ (r = true -> _size (writeBuffer p') = 0)
    /\ (eager -> writeBufferOffset p < _size (writeBuffer p) -> r = true).
Proof.
  intros Hb Hs. pose proof (bo_off _ _ Hb) as Ho. pose proof (bo_cap _ _ Hb) as Hc.
  pose proof (wf_size _ (bo_wf _ _ Hb)) as Hsz. pose proof (buffered_zlen p Hb) as Hz.
  unfold _InternalFlushBufferedSends. rewrite i32_small by lia.
  set (n := _size (writeBuffer p) - writeBufferOffset p) in *.
  destruct (Z.ltb_spec 0 n) as [Hpos | Hn]; [ | exists p, false; split_and!; (done || lia) ].
  fold (buffered p). rewrite (take_ge (buffered p)) by (unfold zlen in Hz; lia).
  unfold sock_write. rewrite Hs, Hz.
  pose proof (us_socket_write_le (sock p) n hasMore ltac:(lia)) as Hle.
  assert (eager -> (us_socket_write (sock p) n hasMore).2 = n) as Heag by (intros He; apply He; lia).
  destruct (us_socket_write (sock p) n hasMore) as [s b]. cbn [snd] in Hle, Heag.
  destruct (Z.ltb_spec b 0).
  { eexists _, false. split_and!; [ done | by split | done | done | | done | intros He%Heag; lia ].
    simpl. replace (Z.to_nat b) with 0%nat by lia. simpl. by rewrite app_nil_r. }
  destruct (Z.ltb_spec 0 b) as [Hb0 | ].
  2: { eexists _, false. split_and!; [ done | by split | done | done | | done | intros He%Heag; lia ].
       simpl. replace (Z.to_nat b) with 0%nat by lia. simpl. by rewrite app_nil_r. }
  cbn [writeBuffer writeBufferOffset set_stats]. rewrite u32_small by (unfold is_u32; lia).
  destruct (Z.eqb_spec (_size (writeBuffer p)) (writeBufferOffset p + b)) as [E | E].
  - destruct (clear_buffer_ok _ _ Hb) as (w & Ew & Hw & Hs0 & Hcw). rewrite Ew.
    eexists _, true. split_and!; [ done | by split | done | | | done | done ].
    + destruct (clear_spec _ (bo_wf _ _ Hb)) as (w' & Ew' & _ & _ & _ & _ & _ & Ho' & Hcap').
      rewrite Ew in Ew'. injection Ew' as <-. specialize (Ho' (buffer_ok_valid _ _ Hb)).
      pose proof (bo_head _ _ Hb). simpl. lia.
    + rewrite buffered_set_buffer, Hcw. simpl. rewrite app_nil_r.
      rewrite (take_ge (buffered p)) by (unfold zlen in Hz; lia). done.
  - eexists _, false. split_and!; [ done | by split | | done | | done | intros He%Heag; lia ].
    + simpl. destruct Hb. split; (done || lia).
    + rewrite buffered_set_buffer. simpl. rewrite <- app_assoc. f_equal. unfold buffered.
      replace (Z.to_nat (writeBufferOffset p + b)) with (Z.to_nat (writeBufferOffset p) + Z.to_nat b)%nat by lia.
      by rewrite <- drop_drop, take_drop.
Qed.

(** What sending (a part of) a frame has to achieve: bytes move from the frame to the
    buffer and from the buffer to the wire, in order, and the answer [true] means that the
    whole frame left the frame. *)
Definition sent_ok (p : Peer) (d : list Z) (sent : Z) (r : option (Peer * Z * bool)) : Prop :=
  exists p' sent' ok, r = Some (p', sent', ok) /\ same_queues p p'
    /\ buffer_ok (writeBuffer p') (writeBufferOffset p') /\ sent <= sent' <= zlen d
    /\ wire p' ++ buffered p' ++ drop (Z.to_nat sent') d = wire p ++ buffered p ++ drop (Z.to_nat sent) d
    /\ (ok = true -> sent' = zlen d) /\ (eager -> ok = true).

Lemma sent_ok_trans p p1 d sent sent1 r :
  same_queues p p1 -> sent <= sent1 ->
  wire p1 ++ buffered p1 ++ drop (Z.to_nat sent1) d = wire p ++ buffered p ++ drop (Z.to_nat sent) d ->
  sent_ok p1 d sent1 r -> sent_ok p d sent r.
Proof.
  intros Hq Hs He (p' & sent' & ok & -> & Hq' & Hb & Hle & He' & Hok & Hea).
  exists p', sent', ok. split_and!; try done; [ by etrans | lia | lia | congruence ].
Qed.

(** The direct write, taken when nothing is buffered. *)
Lemma direct_write_ok p d sent hasMore :
  buffer_ok (writeBuffer p) (writeBufferOffset p) -> socket p = true ->
  _size (writeBuffer p) = writeBufferOffset p -> 0 <= sent < zlen d -> zlen d < 2 ^ 31 ->
  sent_ok p d sent
    (let* (p, b) := sock_write p (drop (Z.to_nat sent) d) hasMore in
     if b <? 0 then let p := error p in Some (p, sent, false)
     else if 0 <? b then let sent := u32 (sent + b) in Some (p, sent, negb (sent <? zlen d))
     else Some (p, sent, false)).
Proof.
  intros Hb Hs Hempty Hr Hd. unfold sock_write. rewrite Hs.
  assert (zlen (drop (Z.to_nat sent) d) = zlen d - sent) as Hz by (rewrite zlen_drop; lia).
  pose proof (us_socket_write_le (sock p) (zlen d - sent) hasMore ltac:(lia)) as Hle. rewrite Hz.
  assert (eager -> (us_socket_write (sock p) (zlen d - sent) hasMore).2 = zlen d - sent) as Heag
    by (intros He; apply He; lia).
  destruct (us_socket_write (sock p) (zlen d - sent) hasMore) as [s b]. cbn [snd] in Hle, Heag.
  assert (buffered p = []) as Hbuf.
  { apply zlen_0_nil. rewrite buffered_zlen by done. lia. }
  destruct (Z.ltb_spec b 0); [ | destruct (Z.ltb_spec 0 b) ].
  - eexists _, sent, false. split_and!; [ done | by split | done | lia | lia | | done | intros He%Heag; lia ].
    simpl. replace (Z.to_nat b) with 0%nat by lia. simpl. by rewrite app_nil_r.
  - rewrite u32_small by (unfold is_u32; lia).
    eexists _, (sent + b), _. split_and!; [ done | by split | done | lia | lia | | | ].
    + simpl. change (buffered _) with (buffered p) at 1. rewrite Hbuf. simpl.
      rewrite <- app_assoc. f_equal.
      replace (Z.to_nat (sent + b)) with (Z.to_nat sent + Z.to_nat b)%nat by lia.
      by rewrite <- drop_drop, take_drop.
    + intros E%negb_true_iff%Z.ltb_ge. lia.
    + intros He%Heag. apply negb_true_iff, Z.ltb_ge. lia.
  - eexists _, sent, false. split_and!; [ done | by split | done | lia | lia | | done | intros He%Heag; lia ].
    simpl. replace (Z.to_nat b) with 0%nat by lia. simpl. by rewrite app_nil_r.
Qed.

(** Moving [n] bytes of the frame into the write buffer. *)
Lemma buffer_bytes_ok p d sent n w :
  buffer_ok (writeBuffer p) (writeBufferOffset p) -> 0 <= sent -> 0 < n <= zlen d - sent ->
  contents w = contents (writeBuffer p) ++ take (Z.to_nat n) (drop (Z.to_nat sent) d) ->
  let p1 := set_buffer p w (writeBufferOffset p) in
  same_queues p p1 /\
  wire p1 ++ buffered p1 ++ drop (Z.to_nat (sent + n)) d = wire p ++ buffered p ++ drop (Z.to_nat sent) d.
Proof.
  intros Hb Hs Hn Hc p1. split; [ by split | ]. unfold p1. rewrite buffered_set_buffer. cbn [wire set_buffer].
  rewrite Hc. pose proof (bo_off _ _ Hb). pose proof (wf_zlen_contents _ (bo_wf _ _ Hb)) as Hz.
  rewrite drop_app_le by (unfold zlen in Hz; lia). fold (buffered p). rewrite <- !app_assoc. do 2 f_equal.
  replace (Z.to_nat (sent + n)) with (Z.to_nat sent + Z.to_nat n)%nat by lia.
  by rewrite <- drop_drop, take_drop.
Qed.

(** The flush that makes room when the write buffer is full. *)
Lemma make_room_ok p :
  buffer_ok (writeBuffer p) (writeBufferOffset p) -> socket p = true ->
  exists p1 ok, (if _size (writeBuffer p) =? _capacity (writeBuffer p)
      then _InternalFlushBufferedSends p true else Some (p, true)) = Some (p1, ok)
    /\ same_queues p p1 /\ buffer_ok (writeBuffer p1) (writeBufferOffset p1)
    /\ wire p1 ++ buffered p1 = wire p ++ buffered p
    /\ (ok = true -> _size (writeBuffer p1) < _capacity (writeBuffer p1))
    /\ (_size (writeBuffer p) = 0 -> p1 = p) /\ (eager -> ok = true).
Proof.
  intros Hb Hs. pose proof (bo_cap _ _ Hb). pose proof (wf_size _ (bo_wf _ _ Hb)).
  destruct (Z.eqb_spec (_size (writeBuffer p)) (_capacity (writeBuffer p))) as [E | E].
  - destruct (_InternalFlushBufferedSends_spec p true Hb Hs) as (p1 & ok & -> & Hq & Hb1 & Hc1 & He & Hok & Hea).
    pose proof (bo_off _ _ Hb). pose proof (bo_empty _ _ Hb).
    exists p1, ok. split_and!; try done; [ intros E'; rewrite (Hok E'); lia | lia | intros He'; apply Hea; [ done | lia ] ].
  - exists p, true. split_and!; (done || lia).
Qed.

(** The frame's bytes fit behind the buffered ones. *)
Lemma buffer_rest_ok p d sent hasMore :
  buffer_ok (writeBuffer p) (writeBufferOffset p) -> socket p = true ->
  0 <= sent < zlen d -> zlen d < 2 ^ 31 ->
  _size (writeBuffer p) + (zlen d - sent) <= _capacity (writeBuffer p) ->
  sent_ok p d sent
    (let* w := append (writeBuffer p) (take (Z.to_nat (zlen d - sent)) (drop (Z.to_nat sent) d)) in
     let p := set_buffer p w (writeBufferOffset p) in
     let sent := u32 (sent + (zlen d - sent)) in
     if negb hasMore || (_size (writeBuffer p) =? _capacity (writeBuffer p)) then
       let* (p, r) := _InternalFlushBufferedSends p hasMore in
       Some (p, sent, r)
     else Some (p, sent, true)).
Proof.
  intros Hb Hs Hr Hd Hfit.
  assert (zlen (drop (Z.to_nat sent) d) = zlen d - sent) as Hzd by (rewrite zlen_drop; lia).
  rewrite take_ge by (unfold zlen in *; lia).
  destruct (append_buffer_ok (writeBuffer p) (writeBufferOffset p) (drop (Z.to_nat sent) d))
    as (w & -> & Hw & Hsw & Hcw & Hcapw); [ done | lia | lia | ].
  rewrite u32_small by (unfold is_u32; lia).
  destruct (buffer_bytes_ok p d sent (zlen d - sent) w) as [Hq2 He2];
    [ done | lia | lia | rewrite take_ge by (unfold zlen in *; lia); done | ].
  cbv zeta. destruct (negb hasMore || _).
  - destruct (_InternalFlushBufferedSends_spec (set_buffer p w (writeBufferOffset p)) hasMore Hw Hs)
      as (p2 & r & -> & Hq3 & Hb3 & _ & He3 & _ & Hea). pose proof (bo_off _ _ Hb).
    exists p2, (sent + (zlen d - sent)), r.
    split_and!; [ done | by etrans | done | lia | lia | rewrite app_assoc, He3, <- app_assoc; exact He2 | lia | ].
    intros He. apply Hea; [ done | simpl; lia ].
  - eexists _, (sent + (zlen d - sent)), true.
    split_and!; [ done | done | done | lia | lia | exact He2 | lia | done ].
Qed.

(** Fill the buffer, flush it and go on with the rest of the frame. *)
Lemma fill_and_flush_ok p d sent (again : Peer -> Z -> option (Peer * Z * bool)) :
  buffer_ok (writeBuffer p) (writeBufferOffset p) -> socket p = true ->
  0 <= sent < zlen d -> zlen d < 2 ^ 31 -> _size (writeBuffer p) < _capacity (writeBuffer p) ->
  _capacity (writeBuffer p) < _size (writeBuffer p) + (zlen d - sent) ->
  (forall p1 sent1, buffer_ok (writeBuffer p1) (writeBufferOffset p1) -> socket p1 = true ->
     0 <= sent1 <= zlen d -> _size (writeBuffer p1) = 0 -> sent_ok p1 d sent1 (again p1 sent1)) ->
  sent_ok p d sent
    (let bytesToWrite := Z.min (zlen d - sent) (_capacity (writeBuffer p) - _size (writeBuffer p)) in
     let* w := append (writeBuffer p) (take (Z.to_nat bytesToWrite) (drop (Z.to_nat sent) d)) in
     let p := set_buffer p w (writeBufferOffset p) in
     let sent := u32 (sent + bytesToWrite) in
     let* (p, canWriteMore) := _InternalFlushBufferedSends p true in
     if negb canWriteMore then Some (p, sent, false) else again p sent).
Proof.
  intros Hb Hs Hr Hd Hroom Hnofit IH. cbv zeta. rewrite Z.min_r by lia.
  set (n := _capacity (writeBuffer p) - _size (writeBuffer p)) in *.
  assert (zlen (take (Z.to_nat n) (drop (Z.to_nat sent) d)) = n) as Hzt by (rewrite zlen_take, zlen_drop; lia).
  destruct (append_buffer_ok (writeBuffer p) (writeBufferOffset p) (take (Z.to_nat n) (drop (Z.to_nat sent) d)))
    as (w & -> & Hw & Hsw & Hcw & Hcapw); [ done | lia | lia | ].
  rewrite u32_small by (unfold is_u32; lia).
  destruct (buffer_bytes_ok p d sent n w) as [Hq2 He2]; [ done | lia | lia | done | ].
  destruct (_InternalFlushBufferedSends_spec (set_buffer p w (writeBufferOffset p)) true Hw Hs)
    as (p2 & r & -> & Hq3 & Hb3 & _ & He3 & Hr3 & Hea).
  assert (wire p2 ++ buffered p2 ++ drop (Z.to_nat (sent + n)) d
    = wire p ++ buffered p ++ drop (Z.to_nat sent) d) as He4
    by (rewrite app_assoc, He3, <- app_assoc; exact He2).
  destruct r; cbn [negb].
  - eapply (sent_ok_trans p p2); [ by etrans | | exact He4 | ]; [ lia | ].
    apply IH; [ done | by rewrite (sq_socket _ _ Hq3) | lia | by apply Hr3 ].
  - exists p2, (sent + n), false. split_and!; [ done | by etrans | done | lia | lia | done | done | ].
    intros He. pose proof (bo_off _ _ Hb). apply Hea; [ done | simpl; lia ].
Qed.

(** One level of [_InternalSend]: the nested call gets an empty buffer, and with an empty
    buffer there is no nested call. *)
Lemma send_level fuel p d sent hasMore :
  buffer_ok (writeBuffer p) (writeBufferOffset p) -> socket p = true ->
  0 <= sent <= zlen d -> zlen d < 2 ^ 31 ->
  (_size (writeBuffer p) <> 0 -> forall p1 sent1,
     buffer_ok (writeBuffer p1) (writeBufferOffset p1) -> socket p1 = true ->
     0 <= sent1 <= zlen d -> _size (writeBuffer p1) = 0 ->
     sent_ok p1 d sent1 (send_ fuel p1 d sent1 hasMore)) ->
  sent_ok p d sent (send_ (S fuel) p d sent hasMore).
Proof.
  intros Hb Hs Hr Hd IH. cbn [send_]. rewrite Hs. cbn [negb].
  destruct (make_room_ok p Hb Hs) as (p1 & ok & -> & Hq1 & Hb1 & He1 & Hroom & Hzero & Hea).
  assert (socket p1 = true) as Hs1 by (by rewrite (sq_socket _ _ Hq1)).
  eapply (sent_ok_trans p p1); [ done | reflexivity | by rewrite !app_assoc, He1 | ].
  destruct ok; cbn [negb]; [ | exists p1, sent, false; split_and!; (done || lia || intros He; by apply Hea) ].
  destruct (Z.ltb_spec sent (zlen d)) as [Hlt | Hge]; [ | exists p1, sent, true; split_and!; (done || lia) ].
  specialize (Hroom eq_refl). pose proof (wf_size _ (bo_wf _ _ Hb1)) as Hsz1.
  pose proof (bo_cap _ _ Hb1) as Hcap1. pose proof (bo_off _ _ Hb1).
  destruct (_ && _) eqn:Edirect.
  { apply andb_true_iff in Edirect as [Ee%Z.eqb_eq _]. apply direct_write_ok; (done || lia). }
  rewrite (u32_small (_size (writeBuffer p1) + _)) by (unfold is_u32; lia).
  destruct (Z.leb_spec (_size (writeBuffer p1) + (zlen d - sent)) (_capacity (writeBuffer p1))) as [Hfit | Hnofit].
  { apply buffer_rest_ok; (done || lia). }
  apply (fill_and_flush_ok p1 d sent (fun p sent => send_ fuel p d sent hasMore)); try (done || lia).
  apply IH. intros Hz. rewrite (Hzero Hz) in *. rewrite Hz in *.
  assert (writeBufferOffset p = 0) as E0 by lia. rewrite E0, Z.eqb_refl in Edirect. cbn [andb] in Edirect.
  apply orb_false_iff in Edirect as [E1%Z.ltb_ge _]. lia.
Qed.

Lemma _InternalSend_spec p f d hasMore :
  buffer_ok (writeBuffer p) (writeBufferOffset p) -> socket p = true ->
  data f = Some d -> zlen d < 2 ^ 31 -> 0 <= bytesSent f <= zlen d ->
  exists p' f' ok, _InternalSend p f hasMore = Some (p', f', ok) /\ same_queues p p'
    /\ buffer_ok (writeBuffer p') (writeBufferOffset p') /\ frame_ok f'
    /\ wire p' ++ buffered p' ++ rest f' = wire p ++ buffered p ++ rest f
    /\ (ok = true -> rest f' = []) /\ (eager -> ok = true).
Proof.
  intros Hb Hs Ed Hd Hr. unfold _InternalSend. rewrite Ed.
  destruct (send_level 1 p d (bytesSent f) hasMore) as (p' & sent' & ok & -> & Hq & Hb' & Hs' & He & Hok & Hea); try done.
  { intros _ p1 sent1 ? ? ? ?. apply send_level; done. }
  exists p', (mkFrame (Some d) sent'), ok. unfold rest. rewrite Ed. simpl.
  split_and!; try done.
  - exists d. simpl. split_and!; (done || lia).
  - intros E. rewrite (Hok E). apply drop_ge. unfold zlen. lia.
Qed.

(** ** The queues *)

(** The stream, the flags and the queue sizes stay. *)
Record keeps (p p' : Peer) : Prop := {
  kp_ok : peer_ok p';
  kp_stream : stream p' = stream p;
  kp_flags : peerFlags p' = peerFlags p;
  kp_count : zlen (localQueue p') + zlen (globalQueue p') <= zlen (localQueue p) + zlen (globalQueue p)
}.

Lemma keeps_refl p : peer_ok p -> keeps p p.
Proof. intros. by split. Qed.

Lemma keeps_trans p p1 p2 : keeps p p1 -> keeps p1 p2 -> keeps p p2.
Proof. intros [] []. split; (done || congruence || lia). Qed.

Lemma keeps_stats p s : peer_ok p -> keeps p (set_stats p s).
Proof. intros []. by split. Qed.

Lemma DequeueToLocalQueue_spec p : peer_ok p ->
  keeps p (DequeueToLocalQueue p)
  /\ (queued_local (DequeueToLocalQueue p) = [] -> globalQueue (DequeueToLocalQueue p) = [] )
  /\ (queued_local p = [] -> queued_local (DequeueToLocalQueue p) = globalQueue p
        /\ globalQueue (DequeueToLocalQueue p) = []).
Proof.
  intros Hp. pose proof (po_offset _ Hp) as Ho. unfold DequeueToLocalQueue.
  destruct (Z.eqb_spec (zlen (localQueue p)) (localQueueOffset p)) as [E | E]; cbn [negb].
  2: { split_and!; [ by apply keeps_refl | | ].
       - intros Hq. exfalso. apply (f_equal length) in Hq. unfold queued_local in Hq. rewrite length_drop in Hq.
         unfold zlen in *. simpl in Hq. lia.
       - intros Hq. exfalso. apply (f_equal length) in Hq. unfold queued_local in Hq. rewrite length_drop in Hq.
         unfold zlen in *. simpl in Hq. lia. }
  assert (queued_local p = []) as Eq.
  { unfold queued_local. apply drop_ge. unfold zlen in *. lia. }
  set (p1 := if negb (localQueueOffset p =? 0) then _ else _).
  assert (localQueue p1 = [] /\ localQueueOffset p1 = 0 /\ globalQueue p1 = globalQueue p /\ keeps p p1)
    as (El & Eo & Eg & Hk).
  { unfold p1. destruct (Z.eqb_spec (localQueueOffset p) 0) as [E0 | E0]; cbn [negb].
    - split_and!; [ apply zlen_0_nil; lia | done | done | by apply keeps_refl ].
    - split_and!; [ done | done | done | ].
      split; [ | unfold stream, pending; rewrite Eq; done | done | simpl; rewrite zlen_nil; pose proof (zlen_nonneg (localQueue p)); lia ].
      pose proof (po_count _ Hp). destruct Hp. split; simpl; try done.
      pose proof (zlen_nonneg (localQueue p)). rewrite zlen_nil. lia. }
  clearbody p1. destruct (Z.eqb_spec (zlen (globalQueue p1)) 0) as [E0%zlen_0_nil | E0].
  { split_and!; [ done | done | ]. intros _. unfold queued_local. rewrite El, Eo, Eg in *. rewrite E0. done. }
  assert (keeps p1 (set_queues p1 (localQueue p1) (globalQueue p1) (localQueueOffset p1))) as Hk1.
  { destruct Hk as [Hok _ _ _]. rewrite El, Eo. split; simpl.
    - pose proof (po_count _ Hok) as Hc. rewrite El in Hc. pose proof (zlen_nonneg (globalQueue p1)).
      destruct Hok. split; simpl; try done; rewrite ?zlen_nil in *; lia.
    - unfold stream, pending, queued_local. simpl. rewrite El, Eo. simpl. by rewrite app_nil_r.
    - done.
    - rewrite El, zlen_nil. lia. }
  split_and!; [ by eapply keeps_trans | | ].
  - unfold queued_local. simpl. rewrite Eo. simpl. intros E1. change (globalQueue p1 = []) in E1. by rewrite E1 in E0.
  - intros _. unfold queued_local. simpl. rewrite Eo, El, Eg. done.
Qed.

Lemma queued_local_cons p : peer_ok p -> localQueueOffset p <> zlen (localQueue p) ->
  exists f, vget (localQueue p) (localQueueOffset p) = Some f
    /\ queued_local p = f :: drop (Z.to_nat (localQueueOffset p + 1)) (localQueue p).
Proof.
  intros Hp Hne. pose proof (po_offset _ Hp) as Ho.
  destruct (vget_is_Some (localQueue p) (localQueueOffset p)) as [f Hf]; [ lia | ].
  exists f. split; [ done | ]. unfold queued_local, vget in *. cmp.
  replace (Z.to_nat (localQueueOffset p + 1)) with (S (Z.to_nat (localQueueOffset p))) by lia.
  by apply drop_S.
Qed.

(** Replacing the frame at the offset does not touch the ones behind it. *)
Lemma vset_drop (l l' : list SendFrameStruct) i f :
  vset l i f = Some l' -> drop (Z.to_nat (i + 1)) l' = drop (Z.to_nat (i + 1)) l
    /\ drop (Z.to_nat i) l' = f :: drop (Z.to_nat (i + 1)) l.
Proof.
  intros [Hr ->]%vset_Some. unfold zlen in Hr.
  assert (drop (Z.to_nat (i + 1)) (<[Z.to_nat i := f]> l) = drop (Z.to_nat (i + 1)) l) as E
    by (apply drop_insert_lt; lia).
  split; [ done | ]. rewrite <- E. replace (Z.to_nat (i + 1)) with (S (Z.to_nat i)) by lia.
  apply drop_S. apply list_lookup_insert_eq. lia.
Qed.

(** Sending the frame at the head of the local queue. *)
Lemma send_head_spec p f l more :
  peer_ok p -> queued_local p = f :: l ->
  exists p' f' ok, _InternalSend p f more = Some (p', f', ok) /\ same_queues p p'
    /\ buffer_ok (writeBuffer p') (writeBufferOffset p') /\ frame_ok f'
    /\ wire p' ++ buffered p' ++ rest f' = wire p ++ buffered p ++ rest f
    /\ (ok = true -> rest f' = []) /\ (eager -> ok = true).
Proof.
  intros Hp Eq. pose proof (po_local _ Hp) as Hl. rewrite Eq in Hl.
  apply Forall_cons in Hl as [(d & Ed & Hd & Hr) _].
  apply (_InternalSend_spec p f d); try done; apply Hp.
Qed.

Lemma flush_loop_spec n : forall p q s,
  peer_ok p ->
  exists p' s' n' e, flush_loop n p q s = Some (p', s', n', e) /\ keeps p p'
    /\ globalQueue p' = globalQueue p
    /\ (eager -> (length (queued_local p) <= n)%nat ->
          e <> Corked /\ queued_local p' = [] /\ n' = (n - length (queued_local p))%nat).
Proof.
  induction n as [|n IH]; intros p q s Hp; cbn [flush_loop].
  { exists p, s, 0%nat, Exhausted. split_and!; [ done | by apply keeps_refl | done | ]. intros _ Hn.
    split_and!; [ done | by apply length_zero_iff_nil; lia | done ]. }
  destruct (Z.eqb_spec (zlen (localQueue p)) (localQueueOffset p)) as [E | E].
  { assert (queued_local p = []) as Eq by (apply drop_ge; unfold zlen in E; lia).
    exists p, s, (S n), Drained. split_and!; [ done | by apply keeps_refl | done | ]. by rewrite Eq. }
  destruct (queued_local_cons p Hp) as (f & Hf & Eq); [ lia | ]. rewrite Hf.
  destruct (send_head_spec p f _ (1 <? u32 (q - s)) Hp Eq) as (p1 & f' & ok & -> & Hq & Hb & Hfok & He & Hok & Hea).
  destruct Hq as [Qf Qs Qg Ql Qo Qt]. pose proof (po_offset _ Hp) as Ho.
  pose proof (po_local _ Hp) as Hfl. rewrite Eq in Hfl. apply Forall_cons in Hfl as [_ Hfl].
  assert (stream p = wire p1 ++ buffered p1 ++ rest f'
    ++ concat (rest <$> drop (Z.to_nat (localQueueOffset p + 1)) (localQueue p)) ++ concat (rest <$> globalQueue p)) as Est.
  { unfold stream, pending. rewrite Eq. cbn [fmap list_fmap concat]. rewrite <- !app_assoc.
    rewrite (app_assoc (wire p1)), (app_assoc (wire p1 ++ _)), <- (app_assoc (wire p1)), He.
    by rewrite <- !app_assoc. }
  destruct ok.
  - destruct (vset_is_Some (localQueue p1) (localQueueOffset p1) (mkFrame None (bytesSent f'))) as [l El];
      [ rewrite Ql, Qo; lia | ].
    rewrite El. destruct (vset_drop _ _ _ _ El) as [Ed _]. rewrite Ql, Qo in El, Ed.
    set (p2 := set_queues p1 (globalQueue p1) l (localQueueOffset p1 + 1)).
    assert (keeps p p2) as Hk.
    { split; cbn [p2 set_queues peerFlags localQueue globalQueue].
      - pose proof (po_count _ Hp). destruct Hp. split; cbn [p2 set_queues writeBuffer writeBufferOffset
          localQueueOffset localQueue globalQueue socket]; try done; try congruence.
        + rewrite (vset_zlen _ _ _ _ El). lia.
        + unfold queued_local. simpl. rewrite Qo, Ed. done.
        + rewrite (vset_zlen _ _ _ _ El), Qg. done.
      - rewrite Est, (Hok eq_refl). unfold stream, pending, queued_local. simpl. rewrite Qo, Ed, Qg. done.
      - done.
      - rewrite (vset_zlen _ _ _ _ El), Qg. lia. }
    destruct (IH p2 q (s + 1) (kp_ok _ _ Hk)) as (p' & s' & n' & e & -> & Hk' & Hg' & Hn').
    exists p', s', n', e. split_and!; [ done | by eapply keeps_trans | rewrite Hg'; simpl; done | ].
    intros He' Hn. rewrite Eq in Hn |- *. cbn [length] in *.
    assert (queued_local p2 = drop (Z.to_nat (localQueueOffset p + 1)) (localQueue p)) as Eq2
      by (unfold queued_local; simpl; by rewrite Qo, Ed).
    rewrite Eq2 in Hn'. destruct (Hn' He') as (? & ? & ->); [ lia | ]. split_and!; (done || lia).
  - destruct (vset_is_Some (localQueue p1) (localQueueOffset p1) f') as [l El]; [ rewrite Ql, Qo; lia | ].
    rewrite El. destruct (vset_drop _ _ _ _ El) as [_ Ed]. rewrite Ql, Qo in El, Ed.
    eexists _, _, _, _. split_and!; [ done | | done | intros He'; by specialize (Hea He') ].
    split; cbn [set_queues peerFlags localQueue globalQueue].
    + pose proof (po_count _ Hp). destruct Hp. split; cbn [set_queues writeBuffer writeBufferOffset
          localQueueOffset localQueue globalQueue socket]; try done; try congruence.
      * rewrite (vset_zlen _ _ _ _ El). lia.
      * unfold queued_local. simpl. rewrite Qo, Ed. by apply Forall_cons.
      * rewrite (vset_zlen _ _ _ _ El), Qg. done.
    + rewrite Est. unfold stream, pending, queued_local. simpl. rewrite Qo, Ed, Qg. cbn [fmap list_fmap concat].
      by rewrite <- !app_assoc.
    + done.
    + rewrite (vset_zlen _ _ _ _ El), Qg. lia.
Qed.

Lemma _InternalFlushQueuedSends_spec p max : peer_ok p ->
  exists p' r, _InternalFlushQueuedSends p max = Some (p', r) /\ keeps p p'
    /\ (eager -> (length (queued_local p) + length (globalQueue p) <= max)%nat ->
          r = true /\ queued_local p' = [] /\ globalQueue p' = []).
Proof.
  intros Hp. unfold _InternalFlushQueuedSends.
  set (q := u32 _). destruct (DequeueToLocalQueue_spec p Hp) as (Hk0 & Hd0 & Hd0').
  destruct (flush_loop_spec max (DequeueToLocalQueue p) q 0 (kp_ok _ _ Hk0))
    as (p1 & s1 & n1 & e1 & -> & Hk1 & Hg1 & He1).
  destruct (DequeueToLocalQueue_spec p1 (kp_ok _ _ Hk1)) as (Hk2 & Hd2 & Hd2').
  destruct (flush_loop_spec n1 (DequeueToLocalQueue p1) q s1 (kp_ok _ _ Hk2))
    as (p2 & s2 & n2 & e2 & E2 & Hk3 & Hg3 & He3).
  pose proof (keeps_trans _ _ _ Hk0 Hk1) as Hk01.
  pose proof (keeps_trans _ _ _ (keeps_trans _ _ _ Hk01 Hk2) Hk3) as Hk23.
  assert (eager -> (length (queued_local p) + length (globalQueue p) <= max)%nat ->
    e1 <> Corked /\ e2 <> Corked /\ queued_local p2 = [] /\ globalQueue p2 = []) as Hall.
  { intros Hea Hn. destruct (decide (queued_local p = [])) as [E0 | E0].
    - destruct (Hd0' E0) as [Eq Eg]. rewrite Eq, E0 in *. simpl in Hn.
      destruct (He1 Hea) as (? & Eq1 & ->); [ lia | ]. destruct (Hd2' Eq1) as [Eq2 Eg2].
      rewrite Eq2, Hg1, Eg in *. destruct (He3 Hea) as (? & ? & _); [ simpl; lia | ]. by rewrite Hg3.
    - assert (DequeueToLocalQueue p = p) as Ed.
      { unfold DequeueToLocalQueue. destruct (Z.eqb_spec (zlen (localQueue p)) (localQueueOffset p)) as [E | ]; [ | done ].
        exfalso. apply E0. apply drop_ge. unfold zlen in E. lia. }
      rewrite Ed in *. destruct (He1 Hea) as (? & Eq1 & ->); [ lia | ]. destruct (Hd2' Eq1) as [Eq2 Eg2].
      rewrite Eq2, Hg1 in *. destruct (He3 Hea) as (? & ? & _); [ lia | ]. by rewrite Hg3. }
  assert (Hst : forall p0 p1 s, keeps p0 p1 -> keeps p0 (set_stats p1 s)).
  { intros p0 p3 s Hk. eapply keeps_trans; [ exact Hk | apply keeps_stats, Hk ]. }
  destruct e1; rewrite ?E2.
  - eexists _, _. split_and!; [ done | by apply Hst | ]. intros Hea Hn.
    destruct (Hall Hea Hn) as (_ & ? & ? & ?). split_and!; try done. by destruct e2.
  - eexists _, _. split_and!; [ done | by apply Hst | ]. intros Hea Hn.
    by destruct (Hall Hea Hn) as (? & _).
  - eexists _, _. split_and!; [ done | by apply Hst | ]. intros Hea Hn.
    destruct (Hall Hea Hn) as (_ & ? & ? & ?). split_and!; try done. by destruct e2.
Qed.

Lemma has_queued_false p : peer_ok p -> _InternalHasQueuedSends p = false ->
  queued_local p = [] /\ globalQueue p = [].
Proof.
  intros Hp Hq. unfold _InternalHasQueuedSends in Hq.
  apply orb_false_iff in Hq as [E1%negb_false_iff%Z.eqb_eq E2%negb_false_iff%Z.eqb_eq].
  split; [ apply drop_ge; unfold zlen in E1; lia | by apply zlen_0_nil ].
Qed.

Lemma flush_buffered_keeps p more : peer_ok p ->
  exists p' r, _InternalFlushBufferedSends p more = Some (p', r) /\ keeps p p' /\ same_queues p p'
    /\ (eager -> writeBufferOffset p < _size (writeBuffer p) -> r = true /\ buffered p' = []).
Proof.
  intros Hp. destruct (_InternalFlushBufferedSends_spec p more (po_buffer _ Hp) (po_socket _ Hp))
    as (p' & r & -> & Hq & Hb & _ & He & Hz & Hea). exists p', r. destruct Hq as [Qf Qs Qg Ql Qo Qt].
  split_and!; [ done | | by split | ].
  - split; [ | | done | ].
    + destruct Hp. split; unfold queued_local; rewrite ?Ql, ?Qo, ?Qg, ?Qs; done.
    + unfold stream, pending, queued_local. rewrite Ql, Qo, Qg. by rewrite !(app_assoc (wire _)), He.
    + rewrite Ql, Qg. lia.
  - intros H1 H2. split; [ by apply Hea | ]. apply zlen_0_nil. rewrite buffered_zlen by done.
    pose proof (bo_off _ _ Hb). rewrite (Hz (Hea H1 H2)) in *. lia.
Qed.

Lemma _InternalOnWritable_spec p : peer_ok p ->
  exists p' r, _InternalOnWritable p = Some (p', r) /\ keeps p p'
    /\ (eager -> (length (queued_local p) + length (globalQueue p) <= 384)%nat ->
         has_flag p BIT_READY = true -> has_flag p BIT_DISCONNECTING = false -> has_flag p BIT_CLOSED = false ->
         r = true /\ pending p' = []).
Proof.
  intros Hp. unfold _InternalOnWritable.
  destruct (negb (has_flag p BIT_READY) || _ || _) eqn:Eflags.
  { exists p, false. split_and!; [ done | by apply keeps_refl | ]. intros _ _ E1 E2 E3.
    by rewrite E1, E2, E3 in Eflags. }
  assert (exists p1 r1, (if _InternalHasQueuedSends p then _InternalFlushQueuedSends p 384 else Some (p, true))
      = Some (p1, r1) /\ keeps p p1 /\
      (eager -> (length (queued_local p) + length (globalQueue p) <= 384)%nat ->
       r1 = true /\ queued_local p1 = [] /\ globalQueue p1 = [])) as (p1 & r1 & -> & Hk1 & He1).
  { destruct (_InternalHasQueuedSends p) eqn:Eq; [ by apply _InternalFlushQueuedSends_spec | ].
    exists p, true. destruct (has_queued_false p Hp Eq). split_and!; (done || by apply keeps_refl). }
  unfold _InternalHasBufferedSends. pose proof (kp_ok _ _ Hk1) as Hp1.
  destruct (Z.ltb_spec (writeBufferOffset p1) (_size (writeBuffer p1))) as [Hlt | Hge].
  - destruct (flush_buffered_keeps p1 false Hp1) as (p2 & r2 & -> & Hk2 & Hq2 & He2).
    exists p2, (r1 && r2). split_and!; [ done | by eapply keeps_trans | ]. intros Hea Hn _ _ _.
    destruct (He1 Hea Hn) as (-> & E1 & E2). destruct (He2 Hea Hlt) as [-> E3]. split; [ done | ].
    destruct Hq2. unfold pending, queued_local in *. by rewrite E3, sq_local0, sq_offset0, sq_global0, E1, E2.
  - exists p1, r1. split_and!; [ done | done | ]. intros Hea Hn _ _ _. destruct (He1 Hea Hn) as (-> & E1 & E2).
    split; [ done | ]. unfold pending. rewrite E1, E2. simpl. rewrite app_nil_r.
    apply zlen_0_nil. rewrite buffered_zlen by apply Hp1. pose proof (bo_off _ _ (po_buffer _ Hp1)). lia.
Qed.

Lemma Send_spec p d : peer_ok p -> zlen d < 2 ^ 31 ->
  zlen (localQueue p) + zlen (globalQueue p) < 2 ^ 31 - 1 ->
  exists p', Send p (Some d) = Some p' /\ peer_ok p' /\ peerFlags p' = peerFlags p
    /\ stream p' = stream p ++ (if has_flag p BIT_DISCONNECTING then [] else d)
    /\ zlen (localQueue p') + zlen (globalQueue p') <= zlen (localQueue p) + zlen (globalQueue p) + 1.
Proof.
  intros Hp Hd Hn. unfold Send. destruct (has_flag p BIT_DISCONNECTING).
  { eexists. split_and!; [ done | by apply keeps_stats | done | by rewrite app_nil_r | simpl; lia ]. }
  eexists. split_and!; [ done | | done | | simpl; rewrite zlen_app, zlen_cons, zlen_nil; lia ].
  - destruct Hp. split; simpl; try done.
    + apply Forall_app. split; [ done | ]. apply Forall_singleton. exists d. simpl. split_and!; try done.
      apply zlen_nonneg.
    + rewrite zlen_app, zlen_cons, zlen_nil. lia.
  - unfold stream, pending. simpl. rewrite fmap_app, concat_app. unfold rest at 3. simpl.
    rewrite app_nil_r, <- !app_assoc. done.
Qed.

(** ** Programs of one peer *)

Inductive peer_op := PSend (d : list Z) | PWritable | PFlush (max : nat) | PDisconnect | PReady.

Definition peer_step (p : Peer) (o : peer_op) : option Peer :=
  match o with
  | PSend d => Send p (Some d)
  | PWritable => let* (p, _) := _InternalOnWritable p in Some p
  | PFlush max => let* (p, _) := _InternalFlushQueuedSends p max in Some p
  | PDisconnect => Some (_InternalDisconnect p)
  | PReady => Some (SetReadyToUse p)
  end.

Fixpoint peer_run (p : Peer) (os : list peer_op) : option Peer :=
  match os with
  | [] => Some p
  | o :: os => let* p := peer_step p o in peer_run p os
  end.

(** The bytes a program hands over: every frame sent before the disconnection. *)
Fixpoint accepted (os : list peer_op) : list Z :=
  match os with
  | [] => []
  | PSend d :: os => d ++ accepted os
  | PDisconnect :: _ => []
  | _ :: os => accepted os
  end.

Definition op_small (o : peer_op) : Prop := match o with PSend d => zlen d < 2 ^ 31 | _ => True end.

Lemma disconnect_ok p : peer_ok p ->
  peer_ok (_InternalDisconnect p) /\ stream (_InternalDisconnect p) = stream p
  /\ has_flag (_InternalDisconnect p) BIT_DISCONNECTING = true.
Proof.
  intros Hp. split_and!; [ by destruct Hp | done | ].
  unfold has_flag, _InternalDisconnect. cbn [peerFlags]. rewrite (po_socket _ Hp).
  apply negb_true_iff, Z.eqb_neq. intros E. apply (f_equal (fun x => Z.testbit x 1)) in E.
  rewrite Z.land_spec, Z.lor_spec, Z.bits_0 in E. change (Z.testbit BIT_DISCONNECTING 1) with true in E.
  by rewrite orb_true_r in E.
Qed.

Lemma ready_ok p : peer_ok p -> peer_ok (SetReadyToUse p) /\ stream (SetReadyToUse p) = stream p
  /\ has_flag (SetReadyToUse p) BIT_DISCONNECTING = has_flag p BIT_DISCONNECTING.
Proof.
  intros Hp. split_and!; [ by destruct Hp | done | ]. unfold has_flag. do 2 f_equal. cbn [SetReadyToUse peerFlags].
  rewrite Z.land_lor_distr_l. change (Z.land BIT_READY BIT_DISCONNECTING) with 0. apply Z.lor_0_r.
Qed.

Lemma keeps_flag p p' b : keeps p p' -> has_flag p' b = has_flag p b.
Proof. intros []. unfold has_flag. congruence. Qed.

Lemma peer_run_spec os : forall p,
  peer_ok p -> Forall op_small os -> zlen (localQueue p) + zlen (globalQueue p) + zlen os < 2 ^ 31 ->
  exists p', peer_run p os = Some p' /\ peer_ok p'
    /\ stream p' = stream p ++ (if has_flag p BIT_DISCONNECTING then [] else accepted os).
Proof.
  induction os as [|o os IH]; intros p Hp Hos Hn; cbn [peer_run].
  { exists p. split_and!; try done. simpl. by destruct (has_flag p _); rewrite app_nil_r. }
  apply Forall_cons in Hos as [Ho Hos]. rewrite zlen_cons in Hn. pose proof (zlen_nonneg os).
  destruct o as [d | | max | | ]; cbn [peer_step accepted].
  - destruct (Send_spec p d Hp Ho) as (p1 & -> & Hp1 & Hf & Est & Hc); [ lia | ].
    destruct (IH p1) as (p' & -> & Hp' & Est'); [ done | done | lia | ]. exists p'. split_and!; try done.
    rewrite Est', Est. unfold has_flag in *. rewrite Hf. destruct (negb _); by rewrite <- !app_assoc.
  - destruct (_InternalOnWritable_spec p Hp) as (p1 & r & -> & Hk & _). pose proof Hk as [Hp1 Est Hf Hc].
    destruct (IH p1) as (p' & -> & Hp' & Est'); [ done | done | lia | ]. exists p'. split_and!; try done.
    by rewrite Est', Est, (keeps_flag _ _ _ Hk).
  - destruct (_InternalFlushQueuedSends_spec p max Hp) as (p1 & r & -> & Hk & _). pose proof Hk as [Hp1 Est Hf Hc].
    destruct (IH p1) as (p' & -> & Hp' & Est'); [ done | done | lia | ]. exists p'. split_and!; try done.
    by rewrite Est', Est, (keeps_flag _ _ _ Hk).
  - destruct (disconnect_ok p Hp) as (Hp1 & Est & Ef).
    destruct (IH (_InternalDisconnect p)) as (p' & -> & Hp' & Est'); [ done | done | simpl; lia | ].
    exists p'. split_and!; try done. rewrite Est', Est, Ef. by destruct (has_flag p _).
  - destruct (ready_ok p Hp) as (Hp1 & Est & Ef).
    destruct (IH (SetReadyToUse p)) as (p' & -> & Hp' & Est'); [ done | done | simpl; lia | ].
    exists p'. split_and!; try done. by rewrite Est', Est, Ef.
Qed.

Lemma Peer_init_ok s : usable 4096 < 2 ^ 30 ->
  exists p, Peer_init s = Some p /\ peer_ok p /\ stream p = [] /\ has_flag p BIT_DISCONNECTING = false
    /\ localQueue p = [] /\ globalQueue p = [].
Proof.
  intros Hu. unfold Peer_init.
  rewrite (reserve_default (4096 - 32) 4064) by (lia || reflexivity). change (4064 + 32) with 4096.
  pose proof (usable_ge 4096 ltac:(lia)). eexists. split; [ done | ].
  split_and!; try done.
  split; simpl; try done.
  split; simpl; try lia. split; simpl; [ lia | ].
  rewrite fresh_zlen. unfold sizeof_StorageHeader, INITIAL_DATA_OFFSET. lia.
Qed.

(** ** Properties *)

(** C6: whatever the socket does, any program of sends, writable events, flushes, readiness
    and disconnection keeps the byte stream: the bytes the socket accepted, followed by the
    bytes still buffered and queued, are the concatenation of the frames sent before the
    disconnection, in order, each once. No step fails. *)
Theorem send_path_keeps_the_stream s os :
  usable 4096 < 2 ^ 30 -> Forall op_small os -> zlen os < 2 ^ 31 ->
  exists p0 p, Peer_init s = Some p0 /\ peer_run p0 os = Some p
    /\ wire p ++ pending p = accepted os.
Proof.
  intros Hu Hos Hn. destruct (Peer_init_ok s Hu) as (p0 & E0 & Hp0 & Est & Ef & El & Eg).
  destruct (peer_run_spec os p0 Hp0 Hos) as (p & E & Hp & Es); [ rewrite El, Eg; exact Hn | ].
  exists p0, p. split_and!; [ done | done | ]. by rewrite Est, Ef in Es.
Qed.

(** With a socket that accepts everything it is offered, a writable event of a peer that
    is ready and has at most 384 frames queued sends everything: nothing stays pending, and
    the event reports that it is done. *)
Theorem writable_event_drains_the_peer s os p :
  usable 4096 < 2 ^ 30 -> Forall op_small os -> zlen os < 2 ^ 31 -> eager ->
  (let* p0 := Peer_init s in peer_run p0 os) = Some p ->
  (length (queued_local p) + length (globalQueue p) <= 384)%nat ->
  has_flag p BIT_READY = true -> has_flag p BIT_DISCONNECTING = false -> has_flag p BIT_CLOSED = false ->
  exists p', _InternalOnWritable p = Some (p', true) /\ pending p' = [] /\ wire p' = accepted os.
Proof.
  intros Hu Hos Hn Hea Hrun Hq H1 H2 H3.
  destruct (Peer_init_ok s Hu) as (p0 & E0 & Hp0 & Est & Ef & El & Eg). rewrite E0 in Hrun.
  destruct (peer_run_spec os p0 Hp0 Hos) as (p1 & E & Hp & Es); [ rewrite El, Eg; exact Hn | ].
  rewrite E in Hrun. injection Hrun as ->.
  destruct (_InternalOnWritable_spec p Hp) as (p' & r & E' & Hk & Hd).
  destruct (Hd Hea Hq H1 H2 H3) as [-> Hpend]. exists p'. split_and!; [ done | done | ].
  destruct Hk as [_ Hs _ _]. rewrite Es, Est, Ef in Hs. unfold stream in Hs. by rewrite Hpend, app_nil_r in Hs.
Qed.

(** A frame written straight to the socket, the path taken when nothing is buffered and
    the frame is the last one, reaches the wire but is not counted: [bytesSent] and
    [packetsSent] stay as they were. *)
Theorem direct_write_is_not_counted p d s' :
  buffer_ok (writeBuffer p) (writeBufferOffset p) -> socket p = true ->
  _size (writeBuffer p) = 0 -> 0 < zlen d < 2 ^ 31 ->
  us_socket_write (sock p) (zlen d) false = (s', zlen d) ->
  exists p', _InternalSend p (mkFrame (Some d) 0) false = Some (p', mkFrame (Some d) (zlen d), true)
    /\ wire p' = wire p ++ d /\ st_bytesSent (stats p') = st_bytesSent (stats p)
    /\ st_packetsSent (stats p') = st_packetsSent (stats p).
Proof.
  intros Hb Hs Hz Hd Hw. pose proof (bo_cap _ _ Hb). pose proof (bo_off _ _ Hb).
  unfold _InternalSend. cbn [data bytesSent send_]. rewrite Hs, Hz. cbn [negb].
  rewrite (proj2 (Z.eqb_neq 0 _)) by lia. cbn [negb]. rewrite (proj2 (Z.ltb_lt 0 (zlen d))) by lia.
  rewrite Hz, (proj2 (Z.eqb_eq 0 _)) by lia. rewrite orb_true_r. cbn [andb].
  unfold sock_write. rewrite Hs. change (drop (Z.to_nat 0) d) with d. rewrite Hw.
  rewrite (proj2 (Z.ltb_ge (zlen d) 0)), (proj2 (Z.ltb_lt 0 (zlen d))) by lia.
  rewrite Z.add_0_l, u32_small by (unfold is_u32; lia). rewrite Z.ltb_irrefl.
  eexists. split_and!; [ done | | done | done ]. simpl. by rewrite take_ge by (unfold zlen; lia).
Qed.

End Peer.
Arguments Peer : clear implicits.

(** ** Witnesses *)

(** A socket that accepts everything, and one that accepts half of what it is offered. *)
#[export] Instance eager_socket : Socket unit :=
  {| us_socket_write s n more := (s, n); us_socket_write_le s n more Hn := Z.le_refl n |}.

#[refine, export] Instance half_socket : Socket bool :=
  {| us_socket_write s n more := (negb s, if s then n / 2 else n) |}.
Proof.
  intros s n more Hn. destruct s; simpl; [ | lia ]. apply Z.div_le_upper_bound; lia.
Defined.

Lemma send_path_keeps_the_stream_witness :
  exists p0 p, Peer_init true = Some p0
    /\ peer_run p0 [PReady; PSend [1; 2; 3; 4]; PSend [5; 6]; PWritable; PSend [7]] = Some p
    /\ wire p ++ pending p = accepted [PReady; PSend [1; 2; 3; 4]; PSend [5; 6]; PWritable; PSend [7]].
Proof.
  apply (send_path_keeps_the_stream true [PReady; PSend [1; 2; 3; 4]; PSend [5; 6]; PWritable; PSend [7]]).
  - reflexivity.
  - repeat constructor; vm_compute; congruence.
  - reflexivity.
Defined.

Definition sample_peer : option (Peer unit) :=
  let* p := Peer_init tt in peer_run p [PReady; PSend [1; 2; 3]; PSend [4; 5]].

Lemma writable_event_drains_the_peer_witness :
  exists p p', sample_peer = Some p /\ _InternalOnWritable p = Some (p', true) /\ pending p' = []
    /\ wire p' = accepted [PReady; PSend [1; 2; 3]; PSend [4; 5]].
Proof.
  destruct sample_peer as [p|] eqn:E; [ | vm_compute in E; discriminate E ].
  exists p. assert (exists p', _InternalOnWritable p = Some (p', true) /\ pending p' = []
    /\ wire p' = accepted [PReady; PSend [1; 2; 3]; PSend [4; 5]]) as [p' Hp'].
  - apply (writable_event_drains_the_peer tt [PReady; PSend [1; 2; 3]; PSend [4; 5]] p).
    + reflexivity.
    + repeat constructor; vm_compute; congruence.
    + reflexivity.
    + intros s n more _. reflexivity.
    + exact E.
    + vm_compute in E. injection E as <-. vm_compute. lia.
    + vm_compute in E. injection E as <-. reflexivity.
    + vm_compute in E. injection E as <-. reflexivity.
    + vm_compute in E. injection E as <-. reflexivity.
  - exists p'. split; [ reflexivity | exact Hp' ].
Defined.

Definition fresh_peer : option (Peer unit) := Peer_init tt.

Lemma direct_write_is_not_counted_witness :
  exists p, fresh_peer = Some p /\
  exists p', _InternalSend p (mkFrame (Some [1; 2]) 0) false
      = Some (p', mkFrame (Some [1; 2]) (zlen [1; 2]), true)
    /\ wire p' = wire p ++ [1; 2] /\ st_bytesSent (stats p') = st_bytesSent (stats p)
    /\ st_packetsSent (stats p') = st_packetsSent (stats p).
Proof.
  destruct (Peer_init_ok tt) as (p & E & Hp & _ & _ & _ & _); [ reflexivity | ].
  exists p. split; [ exact E | ].
  apply (direct_write_is_not_counted p [1; 2] (sock p)).
  - apply Hp.
  - apply Hp.
  - vm_compute in E. injection E as <-. reflexivity.
  - vm_compute. split; reflexivity.
  - reflexivity.
Defined.

End PeerSend.
