(* ===== verification/LoopFlush.v ===== *)
(** * A loop and the sending of its peers (src/Loop.cpp, src/Command.cpp, src/Peer.cpp)

    The peers of one loop: the handles and slots of PeerManager.v together with the send state
    of PeerSend.v, one per peer object. Commands hand frames to peers by their handles; a peer
    that gets something to send is put into the loop's set of peers to flush, and
    [FlushPendingPeers], called in every iteration of the loop, goes through that set. The
    theorems show that no peer with unsent bytes is missing from the set, what one pass does,
    and that batches of frames are appended to the streams of their peers in order. *)

From S2P Require Import Prelude MemoryPool ByteBuffer PeersToFlush PeerManager PeerSend.

Module LoopFlush.
Import PeerManager PeerSend.

Section Loop.
Context `{Allocator} {Sock : Type} `{Socket Sock}.

Record LoopState := mkLoop { world : World; sends : gmap nat (PeerSend.Peer Sock) }.

Definition Loop_init (l : Z) : LoopState := mkLoop (World_init l) ∅.

Definition flush_set (s : LoopState) : PeersToFlush.PeersToFlush := peersToFlush (wm (world s)).

Definition set_flush (s : LoopState) (t : PeersToFlush.PeersToFlush) : LoopState :=
  let m := wm (world s) in
  mkLoop (mkWorld (mkPM (perHostOffset m) t (peers m) (versions m) (freeIds m) (pm_loop m))
            (wst (world s)) (wrefs (world s))) (sends s).

Definition set_send (s : LoopState) (d : nat) (p : PeerSend.Peer Sock) : LoopState :=
  mkLoop (world s) (<[d := p]> (sends s)).

Definition idle (p : PeerSend.Peer Sock) : bool :=
  negb (_InternalHasBufferedSends p) && negb (_InternalHasQueuedSends p).

Definition GetLocalPeerDataValid (m : PeerManager) (peerId : Z) : option (option nat) :=
  assert* peerId <? zlen (peers m) in vget (peers m) peerId.

Definition remove_flush (s : LoopState) (peerId : Z) : option LoopState :=
  let* t := PeersToFlush.RemovePeerToFlush (flush_set s) peerId in Some (set_flush s t).

(** The body of the loop of [FlushPendingPeers]. *)
Definition flush_peer (s : LoopState) (peerId : Z) : option LoopState :=
  let* r := GetLocalPeerDataValid (wm (world s)) peerId in
  match r with
  | Some d =>
      let* p := sends s !! d in
      let* p := if _InternalHasBufferedSends p || _InternalHasQueuedSends p
                then let* (p, _) := _InternalOnWritable p in Some p else Some p in
      let s := set_send s d p in
      if negb (_InternalHasBufferedSends p) && negb (_InternalHasQueuedSends p)
      then remove_flush s peerId else Some s
  | None => remove_flush s peerId
  end.

(** The positions [n - 1], ..., 0 of the set. *)
Fixpoint flush_from (n : nat) (s : LoopState) : option LoopState :=
  match n with
  | O => Some s
  | S i =>
      let* peerId := vget (PeersToFlush.peers (flush_set s)) (Z.of_nat i) in
      let* s := flush_peer s peerId in
      flush_from i s
  end.

Definition FlushPendingPeers (s : LoopState) : option LoopState :=
  flush_from (length (PeersToFlush.peers (flush_set s))) s.

Definition _InternalInsertPeerToFlush (s : LoopState) (peer : PeerHandle) : option LoopState :=
  let* r := GetLocalPeerData (wm (world s)) peer in
  let* d := r in
  let* p := sends s !! d in
  if negb (_InternalHasQueuedSends p) && negb (_InternalHasBufferedSends p) then
    let* t := PeersToFlush.InsertPeerToFlush (flush_set s) (id (hid peer)) in Some (set_flush s t)
  else Some s.

(** [PeerData::Send] on the object [d]; the queue is PeerSend.v's. *)
Definition PeerData_Send (s : LoopState) (d : nat) (frame : option (list Z)) : option LoopState :=
  let* p := sends s !! d in
  let* s :=
    if negb (has_flag p BIT_DISCONNECTING)
       && (negb (_InternalHasQueuedSends p) && negb (_InternalHasBufferedSends p))
    then let* pd := wst (world s) !! d in _InternalInsertPeerToFlush s (peerHandle pd)
    else Some s in
  let* p := Send p frame in
  Some (set_send s d p).

(** [ExecutePeerSendFrame::Execute]. *)
Definition ExecutePeerSendFrame (s : LoopState) (peer : PeerHandle) (frame : option (list Z))
  : option LoopState :=
  if handle_valid peer then
    let* r := GetLocalPeerData (wm (world s)) peer in
    match r with
    | Some d => PeerData_Send s d frame
    | None => Some s
    end
  else Some s.

(** [CommandBatchSend::Execute] of SendBatch::Flush. *)
Fixpoint CommandBatchSend (s : LoopState) (l : Z) (data : list (list Z * PeerId)) : option LoopState :=
  match data with
  | [] => Some s
  | (frame, peerId) :: data =>
      let handle := mkHandle peerId l in
      let* r := GetLocalPeerData (wm (world s)) handle in
      let* s := match r with Some d => PeerData_Send s d (Some frame) | None => Some s end in
      CommandBatchSend s l data
  end.

(** [ExecuteDisconnect::Execute]. *)
Definition ExecuteDisconnect (s : LoopState) (peer : PeerHandle) : option LoopState :=
  if handle_valid peer then
    let* r := GetLocalPeerData (wm (world s)) peer in
    match r with
    | Some d => let* p := sends s !! d in Some (set_send s d (_InternalDisconnect p))
    | None => Some s
    end
  else Some s.

(** A connection of host [h] opens: its object, its slot, its send state. *)
Definition open_peer (s : LoopState) (d : nat) (h : Z) (sock : Sock) : option LoopState :=
  let* p := Peer_init sock in
  let* (w, _) := world_open (world s) d h in
  Some (mkLoop w (<[d := p]> (sends s))).

(** A connection closes: the slot of its handle is released. *)
Definition close_peer (s : LoopState) (peer : PeerHandle) : option LoopState :=
  let* (w, _) := world_close (world s) peer in
  Some (mkLoop w (sends s)).

(** A writable event of the socket of [d], and the end of its handshake. *)
Definition on_writable (s : LoopState) (d : nat) : option LoopState :=
  let* p := sends s !! d in
  let* (p, _) := _InternalOnWritable p in
  Some (set_send s d p).

Definition on_ready (s : LoopState) (d : nat) : option LoopState :=
  let* p := sends s !! d in Some (set_send s d (SetReadyToUse p)).

(** ** Programs *)

Inductive loop_op :=
| LOpen (d : nat) (h : Z) (sock : Sock)
| LClose (peer : PeerHandle)
| LReady (d : nat)
| LWritable (d : nat)
| LSend (peer : PeerHandle) (frame : list Z)
| LBatch (data : list (list Z * PeerId))
| LDisconnect (peer : PeerHandle)
| LFlush.

(** Objects are new when they are opened and known afterwards; handles are of this loop. *)
Definition loop_step (s : LoopState) (o : loop_op) : option LoopState :=
  let l := pm_loop (wm (world s)) in
  match o with
  | LOpen d h k => if bool_decide (is_Some (wst (world s) !! d)) then Some s else open_peer s d h k
  | LClose peer => if loop peer =? l then close_peer s peer else Some s
  | LReady d => if bool_decide (is_Some (sends s !! d)) then on_ready s d else Some s
  | LWritable d => if bool_decide (is_Some (sends s !! d)) then on_writable s d else Some s
  | LSend peer f => if loop peer =? l then ExecutePeerSendFrame s peer (Some f) else Some s
  | LBatch data => CommandBatchSend s l data
  | LDisconnect peer => if loop peer =? l then ExecuteDisconnect s peer else Some s
  | LFlush => FlushPendingPeers s
  end.

Fixpoint loop_run (s : LoopState) (os : list loop_op) : option LoopState :=
  match os with
  | [] => Some s
  | o :: os => let* s := loop_step s o in loop_run s os
  end.

(** ** The invariant *)

(** Slot [i] holds the object [d] whose send state is [p]. *)
Definition at_slot (s : LoopState) (i : Z) (d : nat) (p : PeerSend.Peer Sock) : Prop :=
  vget (peers (wm (world s))) i = Some (Some d) /\ sends s !! d = Some p.

Definition queue_length (p : PeerSend.Peer Sock) : Z := zlen (localQueue p) + zlen (globalQueue p).

Record loop_ok (n : Z) (s : LoopState) : Prop := {
  lo_world : inv (world s);
  lo_peers : map_Forall (fun _ p => peer_ok p /\ queue_length p <= n) (sends s);
  lo_count : Z.of_nat (size (wst (world s))) <= n;
  lo_known : forall d, is_Some (wst (world s) !! d) <-> is_Some (sends s !! d);
  lo_ids : forall i, i ∈ PeersToFlush.to_set (flush_set s) -> 0 <= i < zlen (peers (wm (world s)));
  lo_busy : forall i d p, at_slot s i d p -> idle p = false -> i ∈ PeersToFlush.to_set (flush_set s)
}.

(** Everything but the set and the send states is the same. *)
Record same_slots (s s' : LoopState) : Prop := {
  ss_peers : peers (wm (world s')) = peers (wm (world s));
  ss_versions : versions (wm (world s')) = versions (wm (world s));
  ss_store : wst (world s') = wst (world s);
  ss_loop : pm_loop (wm (world s')) = pm_loop (wm (world s))
}.

#[export] Instance same_slots_PreOrder : PreOrder same_slots.
Proof. split; [ by split | ]. intros p q r [] []. split; congruence. Qed.

Lemma set_flush_inv s t : inv (world s) -> PeersToFlush.inv t -> inv (world (set_flush s t)).
Proof.
  intros Hw Ht. split; try apply Hw. apply Ht.
Qed.

Lemma at_slot_inj s i j d p q : inv (world s) -> at_slot s i d p -> at_slot s j d q -> i = j /\ p = q.
Proof.
  intros Hw [Hi Hp] [Hj Hq]. split; [ by eapply slot_inj | congruence ].
Qed.

(** The object of a slot has a send state. *)
Lemma slot_sends n s i d : loop_ok n s -> vget (peers (wm (world s))) i = Some (Some d) ->
  exists p, at_slot s i d p /\ peer_ok p /\ queue_length p <= n.
Proof.
  intros Hs Hi. destruct (live_version _ _ _ (lo_world _ _ Hs) Hi) as [v Hv].
  destruct (inv_live _ (lo_world _ _ Hs) _ _ _ Hi Hv) as [h Hd].
  destruct (proj1 (lo_known _ _ Hs d)) as [p Hp]; [ by eexists | ].
  exists p. split; [ by split | ]. apply (lo_peers _ _ Hs _ _ Hp).
Qed.

Lemma loop_ok_mono n n' s : n <= n' -> loop_ok n s -> loop_ok n' s.
Proof.
  intros Hn [H1 H2 Hc H3 H4 H5]. split; try done; [ | lia ]. intros d p Hp. destruct (H2 d p Hp). split; (done || lia).
Qed.

(** A new send state for an object. *)
Lemma set_send_ok n s d p0 p : loop_ok n s -> sends s !! d = Some p0 -> peer_ok p -> queue_length p <= n ->
  (idle p = false -> forall i, vget (peers (wm (world s))) i = Some (Some d) ->
     i ∈ PeersToFlush.to_set (flush_set s)) ->
  loop_ok n (set_send s d p) /\ same_slots s (set_send s d p).
Proof.
  intros [H1 H2 Hc H3 H4 H5] Hd Hp Hn Hidle. split; [ | by split ].
  split; cbn [set_send world sends flush_set]; try done.
  - by apply map_Forall_insert_2.
  - intros d'. rewrite H3. destruct (decide (d = d')) as [<- | Hne].
    + rewrite lookup_insert_eq, Hd. split; by eexists.
    + by rewrite lookup_insert_ne.
  - intros i d' p' [Hi Hp'] E. cbn [set_send world sends] in *. destruct (decide (d = d')) as [<- | Hne].
    + rewrite lookup_insert_eq in Hp'. injection Hp' as ->. by apply Hidle.
    + rewrite lookup_insert_ne in Hp' by done. by apply (H5 i d' p').
Qed.

(** Removing the entry at position [k] does not move the entries before it. *)
Lemma remove_prefix t t' k p : PeersToFlush.inv t -> PeersToFlush.peers t !! k = Some p ->
  PeersToFlush.RemovePeerToFlush t p = Some t' -> take k (PeersToFlush.peers t') = take k (PeersToFlush.peers t).
Proof.
  intros Ht Hk. pose proof (lookup_lt_Some _ _ _ Hk). rewrite <- vget_lookup in Hk.
  pose proof (PeersToFlush.inv_pos _ Ht _ _ Hk) as Ho. apply vget_Some_range in Ho as Hr.
  unfold PeersToFlush.RemovePeerToFlush. rewrite (proj2 (Z.leb_gt _ _)), Ho by lia.
  rewrite (proj2 (Z.ltb_ge _ _)) by lia. intros E. inv_bind E. destruct (_ + 1 =? _) eqn:El.
  - injection E as <-. cbn [PeersToFlush.peers]. rewrite take_take. f_equal. unfold zlen in El. lia.
  - inv_bind E. injection E as <-. cbn [PeersToFlush.peers]. apply vset_Some in E2 as [_ ->].
    rewrite length_insert, take_take. unfold zlen in El. replace (_ `min` _)%nat with k by lia.
    apply take_insert_ge. lia.
Qed.

Lemma remove_flush_ok n s i k : loop_ok n s -> PeersToFlush.peers (flush_set s) !! k = Some i ->
  (forall d p, at_slot s i d p -> idle p = true) ->
  exists s', remove_flush s i = Some s' /\ loop_ok n s' /\ same_slots s s' /\ sends s' = sends s
    /\ PeersToFlush.to_set (flush_set s') = PeersToFlush.to_set (flush_set s) ∖ {[i]}
    /\ take k (PeersToFlush.peers (flush_set s')) = take k (PeersToFlush.peers (flush_set s)).
Proof.
  intros Hs Hk Hidle. pose proof (inv_flush _ (lo_world _ _ Hs)) as Hf. fold (flush_set s) in Hf.
  assert (i ∈ PeersToFlush.to_set (flush_set s)) as Hi
    by (apply PeersToFlush.elem_to_set; exists (Z.of_nat k); by rewrite vget_lookup).
  destruct (lo_ids _ _ Hs i Hi) as [Hi0 _]. unfold remove_flush.
  destruct (PeersToFlush.RemovePeerToFlush_spec _ i Hf Hi0) as (t & E & Ht & Hset). rewrite E.
  exists (set_flush s t). split; [ done | ].
  split_and!; [ | by split | done | done | by apply (remove_prefix (flush_set s) t k i) ].
  destruct Hs as [H1 H2 Hc H3 H4 H5]. split; try done.
  - by apply set_flush_inv.
  - intros j. change (flush_set (set_flush s t)) with t. rewrite Hset. intros Hj. apply H4. set_solver.
  - intros j d p Hj Ej. change (flush_set (set_flush s t)) with t. rewrite Hset.
    apply elem_of_difference. split; [ by apply (H5 j d p) | ]. intros ->%elem_of_singleton.
    rewrite (Hidle d p) in Ej; done.
Qed.

(** What one visit makes of a peer. *)
Definition visited (p : PeerSend.Peer Sock) : PeerSend.Peer Sock :=
  if idle p then p else match _InternalOnWritable p with Some (p', _) => p' | None => p end.

Lemma visited_spec p : peer_ok p -> keeps p (visited p) /\
  (if _InternalHasBufferedSends p || _InternalHasQueuedSends p
   then let* (p, _) := _InternalOnWritable p in Some p else Some p) = Some (visited p).
Proof.
  intros Hp. unfold visited, idle. destruct (_InternalOnWritable_spec p Hp) as (p' & r & -> & Hk & _).
  destruct (_InternalHasBufferedSends p), (_InternalHasQueuedSends p); cbn [negb andb orb]; by split.
Qed.

(** A peer that has something to send. *)
Definition busy (s : LoopState) (i : Z) : Prop := exists d p, at_slot s i d p /\ idle p = false.

Lemma flush_peer_spec n s k i : loop_ok n s -> PeersToFlush.peers (flush_set s) !! k = Some i ->
  exists s', flush_peer s i = Some s' /\ loop_ok n s' /\ same_slots s s'
    /\ take k (PeersToFlush.peers (flush_set s')) = take k (PeersToFlush.peers (flush_set s))
    /\ PeersToFlush.to_set (flush_set s') ⊆ PeersToFlush.to_set (flush_set s)
    /\ (i ∈ PeersToFlush.to_set (flush_set s') -> busy s' i)
    /\ (forall d p, at_slot s i d p -> sends s' !! d = Some (visited p))
    /\ (forall d, vget (peers (wm (world s))) i <> Some (Some d) -> sends s' !! d = sends s !! d).
Proof.
  intros Hs Hk. assert (i ∈ PeersToFlush.to_set (flush_set s)) as Hi
    by (apply PeersToFlush.elem_to_set; exists (Z.of_nat k); by rewrite vget_lookup).
  pose proof (lo_ids _ _ Hs i Hi) as Hr. unfold flush_peer, GetLocalPeerDataValid.
  rewrite (proj2 (Z.ltb_lt _ _)) by lia. destruct (vget_is_Some _ _ Hr) as [r Er]. rewrite Er. destruct r as [d|].
  - destruct (slot_sends n s i d Hs Er) as (p & [_ Hp] & Hok & Hq). rewrite Hp.
    destruct (visited_spec p Hok) as [Hkeep ->]. pose proof (kp_count _ _ Hkeep) as Hc.
    destruct (set_send_ok n s d p (visited p) Hs Hp (kp_ok _ _ Hkeep)) as [Hs1 Hss1].
    { unfold queue_length in *. lia. }
    { intros _ j Hj. by rewrite (slot_inj _ _ _ _ (lo_world _ _ Hs) Hj Er). }
    fold (idle (visited p)). set (s1 := set_send s d (visited p)) in *.
    assert (at_slot s1 i d (visited p)) as Hat1 by (split; [ done | apply lookup_insert_eq ]).
    assert (forall d', Some (Some d) <> Some (Some d') -> sends s1 !! d' = sends s !! d') as Hother.
    { intros d' Hd'. apply lookup_insert_ne. congruence. }
    destruct (idle (visited p)) eqn:Ei.
    + destruct (remove_flush_ok n s1 i k Hs1 Hk) as (s' & E & Hs' & Hss & Hsend & Hset & Hpre).
      { intros d' p' Hat. assert (d' = d) as -> by (destruct Hat, Hat1; congruence).
        destruct (at_slot_inj s1 i i d p' _ (lo_world _ _ Hs1) Hat Hat1) as [_ ->]. done. }
      exists s'. rewrite E, Hsend, Hset. split_and!; try done.
      * by etrans.
      * change (flush_set s1) with (flush_set s). set_solver.
      * set_solver.
      * intros d' p' [Hd' Hp']. assert (d' = d) as -> by congruence. destruct Hat1 as [_ ->]. congruence.
    + exists s1. split_and!; try done.
      * intros _. by exists d, (visited p).
      * intros d' p' [Hd' Hp']. assert (d' = d) as -> by congruence. destruct Hat1 as [_ ->]. congruence.
  - destruct (remove_flush_ok n s i k Hs Hk) as (s' & E & Hs' & Hss & Hsend & Hset & Hpre).
    { intros d p [Hd _]. congruence. }
    exists s'. rewrite E, Hsend, Hset. split_and!; try done; [ set_solver | set_solver | ].
    intros d p [Hd _]. congruence.
Qed.

(** An entry that stands before position [n] of a list without duplicates is not the one at [n]. *)
Lemma take_elem_of_NoDup (l : list Z) n i : NoDup l -> l !! n = Some i -> i ∉ take n l.
Proof.
  intros Hnd Hi Hin. apply list_elem_of_lookup in Hin as [j Hj]. apply lookup_take_Some in Hj as [Hj Hlt].
  pose proof (NoDup_lookup _ _ _ _ Hnd Hi Hj). lia.
Qed.

(** After the visit of position [n], the entries at and behind it were behind it before. *)
Lemma later_entry (l l' : list Z) n i j x : NoDup l -> NoDup l' -> take n l' = take n l -> l !! n = Some i ->
  (n <= j)%nat -> l' !! j = Some x -> x ∈ l -> x <> i -> exists j', (n < j')%nat /\ l !! j' = Some x.
Proof.
  intros Hnd Hnd' Hpre Hi Hj Hx Hin Hne. apply list_elem_of_lookup in Hin as [j' Hj'].
  exists j'. split; [ | done ]. destruct (decide (j' = n)) as [-> | Hn]; [ congruence | ].
  destruct (decide (n < j')%nat); [ done | ]. exfalso.
  assert (l' !! j' = Some x) as Hx'.
  { rewrite <- (lookup_take_lt l' n) by lia. rewrite Hpre, lookup_take_lt by lia. done. }
  pose proof (NoDup_lookup _ _ _ _ Hnd' Hx Hx'). lia.
Qed.

(** The loop: the entries at and behind [n] were visited and are busy. *)
Lemma flush_from_spec c n : forall s, loop_ok c s ->
  (n <= length (PeersToFlush.peers (flush_set s)))%nat ->
  (forall j i, (n <= j)%nat -> PeersToFlush.peers (flush_set s) !! j = Some i -> busy s i) ->
  exists s', flush_from n s = Some s' /\ loop_ok c s' /\ same_slots s s'
    /\ (forall i, i ∈ PeersToFlush.to_set (flush_set s') -> busy s' i)
    /\ (forall i d p, i ∈ take n (PeersToFlush.peers (flush_set s)) -> at_slot s i d p ->
          sends s' !! d = Some (visited p))
    /\ (forall d, (forall i, i ∈ take n (PeersToFlush.peers (flush_set s)) ->
                      vget (peers (wm (world s))) i <> Some (Some d)) -> sends s' !! d = sends s !! d).
Proof.
  induction n as [|n IH]; intros s Hs Hn Hb; cbn [flush_from].
  { exists s. split_and!; try done.
    - intros i (j & Hj)%PeersToFlush.elem_to_set. apply vget_Some_range in Hj as Hr.
      apply (Hb (Z.to_nat j)); [ lia | ]. by rewrite <- vget_lookup, Z2Nat.id by lia.
    - intros i d p Hi%elem_of_nil. done. }
  destruct (lookup_lt_is_Some_2 (PeersToFlush.peers (flush_set s)) n) as [i Hi]; [ lia | ].
  rewrite vget_lookup, Hi.
  pose proof (PeersToFlush.inv_NoDup _ (inv_flush _ (lo_world _ _ Hs))) as Hnd. fold (flush_set s) in Hnd.
  destruct (flush_peer_spec c s n i Hs Hi) as (s1 & -> & Hs1 & Hss & Hpre & Hsub & Hbi & Hv & Ho).
  assert (take (S n) (PeersToFlush.peers (flush_set s)) = take n (PeersToFlush.peers (flush_set s)) ++ [i]) as Et
    by (by apply take_S_r).
  assert (i ∉ take n (PeersToFlush.peers (flush_set s))) as Hin.
  { intros Hin. by apply (take_elem_of_NoDup _ _ _ Hnd Hi). }
  assert (forall x d p, x <> i -> at_slot s x d p -> at_slot s1 x d p) as Hkeep.
  { intros x d p Hx [Hd Hp]. split; [ by rewrite (ss_peers _ _ Hss) | ]. rewrite Ho; [ done | ].
    intros Hd'. apply Hx. by eapply (slot_inj (world s)); [ apply Hs | .. ]. }
  destruct (IH s1 Hs1) as (s' & -> & Hs' & Hss' & Hbusy & Hv' & Ho').
  { apply (f_equal length) in Hpre. rewrite !length_take in Hpre. lia. }
  { intros j x Hj Hx. destruct (decide (x = i)) as [-> | Hne].
    { apply Hbi, PeersToFlush.elem_to_set. exists (Z.of_nat j). by rewrite vget_lookup. }
    destruct (later_entry _ _ n i j x Hnd
      (PeersToFlush.inv_NoDup _ (inv_flush _ (lo_world _ _ Hs1))) Hpre Hi Hj Hx) as (j' & Hj' & Hx'); [ | done | ].
    { assert (x ∈ PeersToFlush.to_set (flush_set s)) as Hxs.
      { apply Hsub, PeersToFlush.elem_to_set. exists (Z.of_nat j). by rewrite vget_lookup. }
      by apply PeersToFlush.elem_to_set in Hxs as [? ?%vget_elem]. }
    destruct (Hb j' x) as (d & p & Hat & Hid); [ lia | done | ]. exists d, p. split; [ by apply Hkeep | done ]. }
  exists s'. rewrite Et. split_and!; try done.
  - by etrans.
  - intros x d p [Hx | ->%list_elem_of_singleton]%elem_of_app Hat.
    + rewrite <- Hpre in Hx. apply (Hv' x d p Hx), Hkeep; [ | done ]. intros ->. by rewrite Hpre in Hx.
    + rewrite Ho'; [ by apply Hv | ]. intros x Hx Hd. rewrite Hpre in Hx. rewrite (ss_peers _ _ Hss) in Hd.
      destruct Hat as [Hd' _]. by rewrite (slot_inj _ _ _ _ (lo_world _ _ Hs) Hd Hd') in Hx.
  - intros d Hd. rewrite Ho', Ho; [ done | | ].
    + apply Hd, elem_of_app. right. by apply list_elem_of_singleton.
    + intros x Hx. rewrite Hpre in Hx. rewrite (ss_peers _ _ Hss). apply Hd, elem_of_app. by left.
Qed.

Lemma FlushPendingPeers_spec c s : loop_ok c s ->
  exists s', FlushPendingPeers s = Some s' /\ loop_ok c s' /\ same_slots s s'
    /\ (forall i, i ∈ PeersToFlush.to_set (flush_set s') <-> busy s' i)
    /\ (forall i d p, at_slot s i d p -> sends s' !! d = Some (visited p)).
Proof.
  intros Hs. unfold FlushPendingPeers. set (l := PeersToFlush.peers (flush_set s)).
  destruct (flush_from_spec c (length l) s Hs) as (s' & E & Hs' & Hss & Hb & Hv & Ho); [ done | | ].
  { intros j i Hj Hi%lookup_lt_Some. unfold l in *. lia. }
  rewrite take_ge in Hv, Ho by done. exists s'. split_and!; try done.
  - intros i. split; [ apply Hb | ]. intros (d & p & Hat & Hid). by apply (lo_busy _ _ Hs' i d p).
  - intros i d p Hat. destruct (decide (i ∈ l)) as [Hi | Hi]; [ by apply (Hv i d p) | ].
    assert (idle p = true) as Hid.
    { destruct (idle p) eqn:E'; [ done | ]. destruct Hi. unfold l.
      pose proof (lo_busy _ _ Hs i d p Hat E') as Hin. by apply PeersToFlush.elem_to_set in Hin as [? ?%vget_elem]. }
    unfold visited. rewrite Hid, Ho; [ by destruct Hat | ]. intros j Hj Hd.
    apply Hi. destruct Hat as [Hd' _]. by rewrite <- (slot_inj _ _ _ _ (lo_world _ _ Hs) Hd Hd').
Qed.

(** ** Sending *)

(** The handle an object stores resolves to the object. *)
Lemma own_handle c s i d p : loop_ok c s -> at_slot s i d p ->
  exists pd, wst (world s) !! d = Some pd /\ id (hid (peerHandle pd)) = i
    /\ GetLocalPeerData (wm (world s)) (peerHandle pd) = Some (Some d).
Proof.
  intros Hs [Hi _]. pose proof (lo_world _ _ Hs) as Hw. destruct (live_version _ _ _ Hw Hi) as [v Hv].
  destruct (inv_live _ Hw _ _ _ Hi Hv) as [h Hd]. eexists. split_and!; [ done | done | ]. cbn [peerHandle].
  destruct (GetLocalPeerData_spec (world s) (slot_handle (wm (world s)) i v) Hw eq_refl) as (r & -> & Hr).
  { apply vget_Some_range in Hi. cbn. lia. }
  f_equal. by apply Hr.
Qed.

Lemma insert_flush_spec c s i d p : loop_ok c s -> c < 2 ^ 31 -> at_slot s i d p -> idle p = true ->
  exists s' pd, wst (world s) !! d = Some pd /\ _InternalInsertPeerToFlush s (peerHandle pd) = Some s'
    /\ loop_ok c s' /\ same_slots s s' /\ sends s' = sends s
    /\ i ∈ PeersToFlush.to_set (flush_set s').
Proof.
  intros Hs Hc Hat Hid. destruct (own_handle c s i d p Hs Hat) as (pd & Hpd & Ei & Eg).
  pose proof (inv_flush _ (lo_world _ _ Hs)) as Hf. fold (flush_set s) in Hf. destruct Hat as [Hi Hp].
  apply vget_Some_range in Hi as Hr. pose proof (inv_count _ (lo_world _ _ Hs)). pose proof (lo_count _ _ Hs).
  destruct (PeersToFlush.InsertPeerToFlush_spec (flush_set s) i Hf) as (t & E & Ht & Hset); [ lia | ].
  exists (set_flush s t), pd. split; [ done | ]. split.
  { unfold _InternalInsertPeerToFlush. rewrite Eg, Hp, Ei, E. unfold idle in Hid. by rewrite andb_comm, Hid. }
  split_and!; [ | by split | done | change (flush_set (set_flush s t)) with t; set_solver ].
  destruct Hs as [J1 J2 Jc J3 J4 J5]. split; try done.
  - by apply set_flush_inv.
  - intros j. change (flush_set (set_flush s t)) with t. rewrite Hset.
    intros [->%elem_of_singleton | Hj]%elem_of_union; [ done | by apply J4 ].
  - intros j d' p' Hj Ej. change (flush_set (set_flush s t)) with t. rewrite Hset.
    apply elem_of_union. right. by apply (J5 j d' p').
Qed.

(** A frame for the object of slot [i]: its stream gets the bytes, unless it disconnects. *)
Record sent (s s' : LoopState) (d : nat) (f : list Z) : Prop := {
  sn_slots : same_slots s s';
  sn_peer : forall p, sends s !! d = Some p -> exists p', sends s' !! d = Some p' /\ peerFlags p' = peerFlags p
    /\ stream p' = stream p ++ (if has_flag p BIT_DISCONNECTING then [] else f);
  sn_other : forall d', d' <> d -> sends s' !! d' = sends s !! d';
  sn_count : forall p p', sends s !! d = Some p -> sends s' !! d = Some p' -> queue_length p' <= queue_length p + 1
}.

Lemma PeerData_Send_spec c s i d p f : loop_ok c s -> c + 1 < 2 ^ 31 -> at_slot s i d p -> zlen f < 2 ^ 31 ->
  exists s', PeerData_Send s d (Some f) = Some s' /\ loop_ok (c + 1) s' /\ sent s s' d f.
Proof.
  intros Hs Hc Hat Hf. pose proof Hat as [Hi Hp]. unfold PeerData_Send. rewrite Hp.
  destruct (lo_peers _ _ Hs d p Hp) as [Hok Hq]. unfold queue_length in Hq.
  destruct (Send_spec p f Hok Hf) as (p' & Esend & Hok' & Hfl & Hst & Hq'); [ lia | ].
  assert (exists s1, (if negb (has_flag p BIT_DISCONNECTING)
       && (negb (_InternalHasQueuedSends p) && negb (_InternalHasBufferedSends p))
    then let* pd := wst (world s) !! d in _InternalInsertPeerToFlush s (peerHandle pd)
    else Some s) = Some s1 /\ loop_ok c s1 /\ same_slots s s1 /\ sends s1 = sends s
    /\ (has_flag p BIT_DISCONNECTING = false -> i ∈ PeersToFlush.to_set (flush_set s1)))
    as (s1 & -> & Hs1 & Hss1 & Esends & Hin).
  { destruct (idle p) eqn:Hid.
    - destruct (insert_flush_spec c s i d p Hs ltac:(lia) Hat Hid) as (s1 & pd & Hpd & E & Hs1 & Hss & Es & Hin).
      unfold idle in Hid. rewrite andb_comm in Hid. rewrite Hid, andb_true_r.
      destruct (has_flag p BIT_DISCONNECTING); cbn [negb]; [ by exists s | ].
      rewrite Hpd, E. by exists s1.
    - pose proof (lo_busy _ _ Hs i d p Hat Hid). unfold idle in Hid. rewrite andb_comm in Hid.
      rewrite Hid, andb_false_r. by exists s. }
  rewrite Esend. exists (set_send s1 d p'). split; [ done | ].
  destruct (set_send_ok (c + 1) s1 d p p') as [Hs' Hss']; [ | by rewrite Esends | done | unfold queue_length; lia | | ].
  { apply (loop_ok_mono c); [ lia | done ]. }
  { intros Hid j Hj. rewrite (ss_peers _ _ Hss1) in Hj. rewrite (slot_inj _ _ _ _ (lo_world _ _ Hs) Hj Hi).
    destruct (has_flag p BIT_DISCONNECTING) eqn:Ed; [ | by apply Hin ].
    (* a disconnecting peer keeps its queues *)
    unfold Send in Esend. rewrite Ed in Esend. injection Esend as <-.
    assert (i ∈ PeersToFlush.to_set (flush_set s1)); [ | done ].
    apply (lo_busy _ _ Hs1 i d p); [ | done ]. split; [ by rewrite (ss_peers _ _ Hss1) | by rewrite Esends ]. }
  split; [ done | ]. split.
  - by etrans.
  - intros q Hq0. assert (q = p) as -> by congruence. exists p'. cbn [set_send sends].
    rewrite lookup_insert_eq. done.
  - intros d' Hd'. cbn [set_send sends]. rewrite lookup_insert_ne by done. by rewrite Esends.
  - intros q q' Hq0. assert (q = p) as -> by congruence. cbn [set_send sends]. rewrite lookup_insert_eq.
    intros [= <-]. exact Hq'.
Qed.

Lemma same_slots_resolve s s' h : same_slots s s' ->
  GetLocalPeerData (wm (world s')) h = GetLocalPeerData (wm (world s)) h.
Proof.
  intros [E1 E2 E3 E4]. unfold GetLocalPeerData, ExistsLocal. by rewrite E1, E2, E4.
Qed.

(** A handle of the loop resolves to the object of a slot, or to nothing. *)
Lemma handle_cases c s h : loop_ok c s -> of_loop (pm_loop (wm (world s))) h ->
  GetLocalPeerData (wm (world s)) h = Some None
  \/ exists d p, GetLocalPeerData (wm (world s)) h = Some (Some d) /\ at_slot s (id (hid h)) d p.
Proof.
  intros Hs [Hl Hid]. destruct (GetLocalPeerData_spec (world s) h (lo_world _ _ Hs) Hl Hid) as (r & -> & Hr).
  destruct r as [d|]; [ right | by left ]. destruct (proj1 (Hr d) eq_refl) as [Hi _].
  destruct (slot_sends c s _ d Hs Hi) as (p & Hat & _). by exists d, p.
Qed.

Lemma ExecutePeerSendFrame_spec c s h f :
  loop_ok c s -> c + 1 < 2 ^ 31 -> of_loop (pm_loop (wm (world s))) h -> zlen f < 2 ^ 31 ->
  exists s', ExecutePeerSendFrame s h (Some f) = Some s' /\ loop_ok (c + 1) s'
    /\ (s' = s \/ exists d, sent s s' d f).
Proof.
  intros Hs Hc Hl Hf. unfold ExecutePeerSendFrame.
  assert (loop_ok (c + 1) s) by (apply (loop_ok_mono c); [ lia | done ]).
  destruct (handle_valid h); [ | exists s; by auto ].
  destruct (handle_cases c s h Hs Hl) as [-> | (d & p & -> & Hat)]; [ exists s; by auto | ].
  destruct (PeerData_Send_spec c s _ d p f Hs Hc Hat Hf) as (s' & E & Hs' & Hsent). exists s'. eauto.
Qed.

(** The frames of a batch that are for object [d]. *)
Definition addressed (s : LoopState) (d : nat) (data : list (list Z * PeerId)) : list Z :=
  concat ((fun x : list Z * PeerId =>
    if decide (GetLocalPeerData (wm (world s)) (mkHandle x.2 (pm_loop (wm (world s)))) = Some (Some d))
    then x.1 else []) <$> data).

Definition batch_ok (data : list (list Z * PeerId)) : Prop :=
  Forall (fun x : list Z * PeerId => zlen x.1 < 2 ^ 31 /\ 0 <= id x.2) data.

Lemma addressed_same s s' d data : same_slots s s' -> addressed s' d data = addressed s d data.
Proof.
  intros Hss. unfold addressed. f_equal. apply list_fmap_ext. intros _ x _.
  by rewrite (same_slots_resolve s s' _ Hss), (ss_loop _ _ Hss).
Qed.

Lemma CommandBatchSend_spec data : forall c s,
  loop_ok c s -> c + zlen data < 2 ^ 31 -> batch_ok data ->
  exists s', CommandBatchSend s (pm_loop (wm (world s))) data = Some s' /\ loop_ok (c + zlen data) s'
    /\ same_slots s s'
    /\ forall d p, sends s !! d = Some p -> exists p', sends s' !! d = Some p' /\ peerFlags p' = peerFlags p
         /\ stream p' = stream p ++ (if has_flag p BIT_DISCONNECTING then [] else addressed s d data).
Proof.
  induction data as [|[f pid] data IH]; intros c s Hs Hc Hb; cbn [CommandBatchSend].
  { exists s. rewrite zlen_nil, Z.add_0_r. split_and!; try done. intros d p Hp. exists p.
    split_and!; try done. destruct (has_flag _ _); by rewrite app_nil_r. }
  apply Forall_cons in Hb as [[Hf Hid] Hb]. cbn [fst snd] in *. rewrite zlen_cons in Hc |- *.
  pose proof (zlen_nonneg data). set (l := pm_loop (wm (world s))) in *.
  assert (exists s1, (let* r := GetLocalPeerData (wm (world s)) (mkHandle pid l) in
      match r with Some d => PeerData_Send s d (Some f) | None => Some s end) = Some s1 /\ loop_ok (c + 1) s1
    /\ same_slots s s1 /\ forall d p, sends s !! d = Some p -> exists p', sends s1 !! d = Some p'
      /\ peerFlags p' = peerFlags p
      /\ stream p' = stream p ++ (if has_flag p BIT_DISCONNECTING then [] else addressed s d [(f, pid)])) as (s1 & E1 & Hs1 & Hss & Hst).
  { destruct (handle_cases c s (mkHandle pid l) Hs) as [E | (d & p & E & Hat)]; [ by split | | ].
    - rewrite E. exists s. split_and!; [ done | by apply (loop_ok_mono c); [ lia | ] | done | ]. intros d p Hp. exists p.
      split_and!; try done. unfold addressed. cbn [fmap list_fmap concat fst snd].
      rewrite decide_False by (unfold l in E; rewrite E; congruence). by destruct (has_flag _ _); rewrite !app_nil_r.
    - rewrite E. destruct (PeerData_Send_spec c s _ d p f Hs ltac:(lia) Hat Hf) as (s1 & E1 & Hs1 & [Hss Hpeer Hother _]).
      exists s1. split_and!; try done. intros d' p' Hp'. unfold addressed. cbn [fmap list_fmap concat fst snd].
      destruct (decide (d' = d)) as [-> | Hne].
      + destruct (Hpeer p' Hp') as (q & Hq & Hfl & Hs'). exists q. rewrite decide_True by done. by rewrite app_nil_r.
      + exists p'. rewrite Hother by done. split_and!; try done.
        rewrite decide_False by (unfold l in E; rewrite E; congruence). by destruct (has_flag _ _); rewrite !app_nil_r. }
  destruct (GetLocalPeerData (wm (world s)) (mkHandle pid l)) as [r|]; [ | done ]. rewrite E1.
  destruct (IH (c + 1) s1 Hs1) as (s' & E & Hs' & Hss' & Hst'); [ lia | done | ].
  rewrite (ss_loop _ _ Hss) in E. fold l in E. exists s'. split_and!; [ done | | by etrans | ].
  { by replace (c + (1 + zlen data)) with (c + 1 + zlen data) by lia. }
  intros d p Hp. destruct (Hst d p Hp) as (p1 & Hp1 & Hf1 & Es1). destruct (Hst' d p1 Hp1) as (p' & Hp' & Hf' & Es').
  exists p'. split_and!; [ done | congruence | ]. rewrite Es', Es1. unfold has_flag in *. rewrite Hf1.
  rewrite (addressed_same s s1 d data Hss). unfold addressed. cbn [fmap list_fmap concat fst snd].
  destruct (negb _); by rewrite ?app_nil_r, <- ?app_assoc.
Qed.

(** ** Opening and closing *)

Lemma fresh_peer_idle p : peer_ok p -> stream p = [] -> localQueue p = [] -> globalQueue p = [] -> idle p = true.
Proof.
  intros Hp Hst Hl Hg. unfold idle, _InternalHasBufferedSends, _InternalHasQueuedSends. rewrite Hl, Hg.
  pose proof (po_offset _ Hp) as Ho. rewrite Hl in Ho. change (zlen _) with 0 in Ho.
  unfold stream, pending in Hst. apply app_nil in Hst as [_ [Hb _]%app_nil].
  apply (f_equal zlen) in Hb. rewrite (buffered_zlen p (po_buffer _ Hp)) in Hb. change (zlen []) with 0 in Hb.
  change (zlen _) with 0. by rewrite (proj2 (Z.ltb_ge _ _)), (proj2 (Z.eqb_eq (localQueueOffset p) _)) by lia.
Qed.

(** Slots that stay keep the range of the ids. *)
Lemma ids_grow (l l' : list (option nat)) i :
  (forall j x, vget l j = Some x -> is_Some (vget l' j)) -> 0 <= i < zlen l -> 0 <= i < zlen l'.
Proof.
  intros Hl Hi. destruct (vget_is_Some l i Hi) as [x Hx]. destruct (Hl i x Hx) as [y Hy].
  by eapply vget_Some_range.
Qed.

Lemma open_peer_ok c s d h k : usable 4096 < 2 ^ 30 -> loop_ok c s -> c + 1 < 2 ^ 31 -> 0 <= c ->
  wst (world s) !! d = None ->
  exists s', open_peer s d h k = Some s' /\ loop_ok (c + 1) s' /\ pm_loop (wm (world s')) = pm_loop (wm (world s)).
Proof.
  intros Hu Hs Hc Hc0 Hd. unfold open_peer. destruct (Peer_init_ok k Hu) as (p & -> & Hp & Hst & _ & Hl & Hg).
  pose proof (lo_count _ _ Hs).
  destruct (world_open_spec (world s) d h (lo_world _ _ Hs) Hd ltac:(lia))
    as (w & i & v & -> & Hw & Hnl & Hps & _ & _ & Est & _ & Hloop & Hfl).
  eexists. split; [ done | ]. split; [ | done ]. destruct Hs as [J1 J2 Jc J3 J4 J5].
  split; unfold flush_set, at_slot in *; cbn [world sends] in *; try done.
  - apply map_Forall_insert_2.
    + split; [ done | ]. unfold queue_length. rewrite Hl, Hg. change (0 + 0 <= c + 1). lia.
    + intros d' p' Hp'. destruct (J2 d' p' Hp'). split; (done || lia).
  - rewrite Est, map_size_insert_None by done. lia.
  - intros d'. rewrite Est. destruct (decide (d = d')) as [<- | Hne];
      [ rewrite !lookup_insert_eq; split; by eexists | rewrite !lookup_insert_ne by done; apply J3 ].
  - intros j Hj. rewrite Hfl in Hj. apply J4 in Hj. revert Hj. apply ids_grow. intros m x Hm.
    rewrite Hps. destruct (m =? i); [ by eexists | rewrite Hm; by eexists ].
  - intros j d' p' [Hj Hp'] Hid. rewrite Hps in Hj. rewrite Hfl. destruct (Z.eqb_spec j i) as [-> | Hne].
    + injection Hj as <-. rewrite lookup_insert_eq in Hp'. injection Hp' as <-. by rewrite fresh_peer_idle in Hid.
    + apply (J5 j d' p'); [ | done ]. split; [ done | ]. rewrite lookup_insert_ne in Hp'; [ done | ]. intros <-.
      destruct (live_version _ _ _ J1 Hj) as [v' Hv']. destruct (inv_live _ J1 _ _ _ Hj Hv'). congruence.
Qed.

Lemma close_peer_ok c s h : loop_ok c s -> of_loop (pm_loop (wm (world s))) h ->
  exists s', close_peer s h = Some s' /\ loop_ok c s' /\ pm_loop (wm (world s')) = pm_loop (wm (world s)).
Proof.
  intros Hs Hl. unfold close_peer. pose proof (lo_world _ _ Hs) as Hw. pose proof Hl as [Hloop Hid].
  destruct (GetLocalPeerData_spec (world s) h Hw Hloop Hid) as (r & Hg & Hr). destruct r as [d|].
  - destruct (proj1 (Hr d) eq_refl) as [Hi Hv].
    destruct (world_close_live (world s) h d Hw Hloop Hid Hi Hv) as (w & -> & Hw' & Est & Hpl & Hps & _ & _ & Hset).
    eexists. split; [ done | ]. split; [ | done ]. destruct Hs as [J1 J2 Jc J3 J4 J5].
    split; unfold flush_set, at_slot in *; cbn [world sends] in *; try done.
    + by rewrite Est.
    + by rewrite Est.
    + intros j Hj. rewrite Hset in Hj. apply elem_of_difference in Hj as [Hj _]. apply J4 in Hj. revert Hj.
      apply ids_grow. intros m x Hm. rewrite Hps. destruct (m =? _); [ by eexists | rewrite Hm; by eexists ].
    + intros j d' p' [Hj Hp'] Hid'. rewrite Hps in Hj. destruct (Z.eqb_spec j (id (hid h))) as [_ | Hne]; [ done | ].
      rewrite Hset. apply elem_of_difference. split; [ by apply (J5 j d' p') | by intros ?%elem_of_singleton ].
  - rewrite (world_close_stale (world s) h Hw Hloop Hid Hg). eexists. split; [ done | ]. split; [ | done ].
    destruct Hs as [J1 J2 Jc J3 J4 J5]. split; try done. by apply stale_inv.
Qed.

(** An event of a peer that does not give it anything new to send. *)
Lemma quiet_event_ok c s d p p' : loop_ok c s -> sends s !! d = Some p -> peer_ok p' ->
  queue_length p' <= queue_length p -> (idle p = true -> idle p' = true) -> loop_ok c (set_send s d p').
Proof.
  intros Hs Hp Hp' Hq Hid. destruct (lo_peers _ _ Hs d p Hp) as [_ Hn].
  apply (set_send_ok c s d p p'); try done; [ lia | ]. intros Hid' i Hi.
  apply (lo_busy _ _ Hs i d p); [ by split | ]. destruct (idle p); [ by rewrite Hid in Hid' | done ].
Qed.

Lemma idle_on_writable p : idle p = true -> exists r, _InternalOnWritable p = Some (p, r).
Proof.
  unfold idle, _InternalOnWritable.
  intros [Hb%negb_true_iff Hq%negb_true_iff]%andb_true_iff. rewrite Hq, Hb.
  destruct (_ || _); by eexists.
Qed.

(** What an operation can add: objects or queued frames. *)
Definition op_weight (o : loop_op) : Z :=
  match o with LOpen _ _ _ | LSend _ _ => 1 | LBatch data => zlen data | _ => 0 end.

(** Ids are unsigned, frames are shorter than 2 GiB. *)
Definition op_fits (o : loop_op) : Prop :=
  match o with
  | LClose h | LDisconnect h => 0 <= id (hid h)
  | LSend h f => 0 <= id (hid h) /\ zlen f < 2 ^ 31
  | LBatch data => batch_ok data
  | _ => True
  end.

Lemma loop_step_ok c s o : usable 4096 < 2 ^ 30 -> loop_ok c s -> 0 <= c -> c + op_weight o < 2 ^ 31 -> op_fits o ->
  exists s', loop_step s o = Some s' /\ loop_ok (c + op_weight o) s'
    /\ pm_loop (wm (world s')) = pm_loop (wm (world s)).
Proof.
  intros Hu Hs Hc Hn Ho.
  assert (0 <= op_weight o) as Hw by (destruct o; cbn; try lia; apply zlen_nonneg).
  assert (loop_ok (c + op_weight o) s) as Hsame by (apply (loop_ok_mono c); [ lia | done ]).
  assert (exists s', Some s = Some s' /\ loop_ok (c + op_weight o) s'
    /\ pm_loop (wm (world s')) = pm_loop (wm (world s))) as Hskip by (by exists s).
  destruct o as [d h k | h | d | d | h f | data | h | ]; cbn [loop_step op_weight op_fits] in *; rewrite ?Z.add_0_r in *.
  - case_bool_decide as Hd; [ done | ]. apply open_peer_ok; try done. by apply eq_None_not_Some.
  - destruct (Z.eqb_spec (loop h) (pm_loop (wm (world s)))) as [El | _]; [ | done ]. by apply close_peer_ok.
  - case_bool_decide as Hd; [ | done ]. destruct Hd as [p Hp]. unfold on_ready. rewrite Hp. eexists. split; [ done | ].
    split; [ | done ]. destruct (lo_peers _ _ Hs d p Hp) as [Hok _].
    by apply (quiet_event_ok c s d p); [ | | apply ready_ok | .. ].
  - case_bool_decide as Hd; [ | done ]. destruct Hd as [p Hp]. unfold on_writable. rewrite Hp.
    destruct (lo_peers _ _ Hs d p Hp) as [Hok _].
    destruct (_InternalOnWritable_spec p Hok) as (p' & r & E & Hk & _). rewrite E. eexists. split; [ done | ].
    split; [ | done ]. apply (quiet_event_ok c s d p); try done; [ apply Hk | by destruct Hk | ].
    intros Hid. destruct (idle_on_writable p Hid) as [r' E']. by rewrite E' in E; injection E as <- _.
  - destruct Ho as [Hid Hf]. destruct (Z.eqb_spec (loop h) (pm_loop (wm (world s)))) as [El | _]; [ | done ].
    destruct (ExecutePeerSendFrame_spec c s h f Hs) as (s' & E & Hs' & Hcase); [ lia | done | done | ].
    exists s'. split_and!; [ done | done | ]. destruct Hcase as [-> | (d & [[]])]; done.
  - destruct (CommandBatchSend_spec data c s Hs Hn Ho) as (s' & E & Hs' & [] & _). by exists s'.
  - destruct (Z.eqb_spec (loop h) (pm_loop (wm (world s)))) as [El | _]; [ | done ]. unfold ExecuteDisconnect.
    destruct (handle_valid h); [ | done ].
    destruct (handle_cases c s h Hs (conj El Ho)) as [-> | (d & p & -> & [Hi Hp])]; [ done | ].
    rewrite Hp. eexists. split; [ done | ]. split; [ | done ]. destruct (lo_peers _ _ Hs d p Hp) as [Hok _].
    by apply (quiet_event_ok c s d p); [ | | apply disconnect_ok | .. ].
  - destruct (FlushPendingPeers_spec c s Hs) as (s' & E & Hs' & [] & _). by exists s'.
Qed.

Definition weight (os : list loop_op) : Z := foldr (fun o n => op_weight o + n) 0 os.

Lemma weight_nonneg os : 0 <= weight os.
Proof.
  induction os as [|o os IH]; cbn; [ lia | ]. change (0 <= op_weight o + weight os).
  destruct o as [| | | | | l | |]; cbn [op_weight]; try lia. pose proof (zlen_nonneg l). lia.
Qed.

Lemma loop_run_ok os : forall c s, usable 4096 < 2 ^ 30 -> loop_ok c s -> 0 <= c -> c + weight os < 2 ^ 31 ->
  Forall op_fits os ->
  exists s', loop_run s os = Some s' /\ loop_ok (c + weight os) s' /\ pm_loop (wm (world s')) = pm_loop (wm (world s)).
Proof.
  induction os as [|o os IH]; intros c s Hu Hs Hc Hn Ho; cbn [loop_run].
  { exists s. change (weight []) with 0. by rewrite Z.add_0_r. }
  apply Forall_cons in Ho as [Ho Hos]. change (weight (o :: os)) with (op_weight o + weight os) in *.
  pose proof (weight_nonneg os). assert (0 <= op_weight o) by (destruct o; cbn; try lia; apply zlen_nonneg).
  destruct (loop_step_ok c s o Hu Hs Hc) as (s1 & -> & Hs1 & Hl1); [ lia | done | ].
  destruct (IH (c + op_weight o) s1 Hu Hs1) as (s' & -> & Hs' & Hl); [ lia | lia | done | ].
  exists s'. split_and!; [ done | by rewrite Z.add_assoc | congruence ].
Qed.

Lemma Loop_init_ok l : l <> 0 -> loop_ok 0 (Loop_init l).
Proof.
  intros Hl. split; cbn [Loop_init world sends].
  - by apply World_init_inv.
  - apply map_Forall_empty.
  - done.
  - intros d. split; by intros [? ?].
  - intros i Hi. by apply elem_of_empty in Hi.
  - intros i d p [_ Hp]. done.
Qed.

(** ** Properties *)

(** C10: in every program of opening, closing, sending, disconnecting, writable events and
    flushes on a loop, no operation fails and no peer is forgotten: each stored peer with
    bytes buffered or frames queued is in the loop's set of peers to flush. *)
Theorem busy_peers_are_scheduled l os :
  l <> 0 -> usable 4096 < 2 ^ 30 -> weight os < 2 ^ 31 -> Forall op_fits os ->
  exists s, loop_run (Loop_init l) os = Some s
    /\ forall i d p, at_slot s i d p -> idle p = false -> i ∈ PeersToFlush.to_set (flush_set s).
Proof.
  intros Hl Hu Hn Ho. destruct (loop_run_ok os 0 (Loop_init l) Hu (Loop_init_ok l Hl)) as (s & E & Hs & _); [ done | lia | done | ].
  exists s. split; [ done | apply Hs ].
Qed.

(** C9: one pass of [FlushPendingPeers] over any state a program reaches offers every stored
    peer with something to send exactly one writable event and leaves the others alone,
    although it removes entries from the set while it goes through it; afterwards the set
    holds exactly the peers that still have something to send. *)
Theorem flush_pending_peers_visits_each_once l os s :
  l <> 0 -> usable 4096 < 2 ^ 30 -> weight os < 2 ^ 31 -> Forall op_fits os ->
  loop_run (Loop_init l) os = Some s ->
  exists s', FlushPendingPeers s = Some s' /\ same_slots s s'
    /\ (forall i d p, at_slot s i d p -> at_slot s' i d (visited p) /\ stream (visited p) = stream p)
    /\ forall i, i ∈ PeersToFlush.to_set (flush_set s') <-> busy s' i.
Proof.
  intros Hl Hu Hn Ho Hrun.
  destruct (loop_run_ok os 0 (Loop_init l) Hu (Loop_init_ok l Hl)) as (s0 & E & Hs & _); [ done | lia | done | ].
  rewrite Hrun in E. injection E as <-.
  destruct (FlushPendingPeers_spec _ s Hs) as (s' & E' & Hs' & Hss & Hb & Hv). exists s'. split_and!; try done.
  intros i d p Hat. split.
  - split; [ rewrite (ss_peers _ _ Hss); apply Hat | by apply (Hv i d p) ].
  - destruct Hat as [_ Hp]. destruct (lo_peers _ _ Hs d p Hp) as [Hok _].
    destruct (visited_spec p Hok) as [[] _]. done.
Qed.

(** A batch of frames executed on a loop, in any state a program reaches, appends to the
    stream of every peer the frames whose handles resolve to it, in the order of the batch,
    unless the peer disconnects; frames whose handles do not resolve change nothing. *)
Theorem batch_send_appends_in_order l os s data :
  l <> 0 -> usable 4096 < 2 ^ 30 -> weight os + zlen data < 2 ^ 31 -> Forall op_fits os -> batch_ok data ->
  loop_run (Loop_init l) os = Some s ->
  exists s', CommandBatchSend s l data = Some s' /\ same_slots s s'
    /\ forall d p, sends s !! d = Some p -> exists p', sends s' !! d = Some p'
         /\ stream p' = stream p ++ (if has_flag p BIT_DISCONNECTING then [] else addressed s d data).
Proof.
  intros Hl Hu Hn Ho Hb Hrun. pose proof (zlen_nonneg data).
  destruct (loop_run_ok os 0 (Loop_init l) Hu (Loop_init_ok l Hl)) as (s0 & E & Hs & El); [ done | lia | done | ].
  rewrite Hrun in E. injection E as <-. change (pm_loop (wm (world (Loop_init l)))) with l in El.
  destruct (CommandBatchSend_spec data _ s Hs ltac:(lia) Hb) as (s' & E' & _ & Hss & Hst). rewrite El in E'.
  exists s'. split_and!; try done. intros d p Hp. destruct (Hst d p Hp) as (p' & ? & _ & ?). eauto.
Qed.

End Loop.

(** ** Witnesses *)

(** Two peers with queued frames; the handle of the second is used after its release. *)
Definition sample_handle (i v : Z) : PeerHandle := mkHandle (mkId i v) 1.

Definition sample_loop_ops : list (@loop_op bool) :=
  [ LOpen 0 5 true; LOpen 1 5 false; LReady 0; LReady 1;
    LSend (sample_handle 0 1) [1; 2; 3; 4]; LBatch [([5; 6], mkId 1 1); ([7], mkId 0 1)];
    LFlush; LClose (sample_handle 1 1); LSend (sample_handle 1 1) [8]; LSend (sample_handle 0 1) [9] ].

Lemma sample_loop_ops_fit : Forall op_fits sample_loop_ops.
Proof.
  unfold sample_loop_ops. repeat (apply Forall_cons; split); try apply Forall_nil; try exact I; cbn [op_fits]; unfold batch_ok;
    rewrite ?Forall_cons, ?Forall_nil; split_and?; try exact I; vm_compute; congruence.
Qed.

Lemma busy_peers_are_scheduled_witness :
  exists s, loop_run (Loop_init 1) sample_loop_ops = Some s
    /\ forall i d p, at_slot s i d p -> idle p = false -> i ∈ PeersToFlush.to_set (flush_set s).
Proof.
  apply (busy_peers_are_scheduled 1 sample_loop_ops); [ lia | reflexivity | reflexivity | apply sample_loop_ops_fit ].
Defined.

Lemma flush_pending_peers_visits_each_once_witness :
  exists s s', loop_run (Loop_init 1) sample_loop_ops = Some s /\ FlushPendingPeers s = Some s' /\ same_slots s s'
    /\ (forall i d p, at_slot s i d p -> at_slot s' i d (visited p) /\ stream (visited p) = stream p)
    /\ forall i, i ∈ PeersToFlush.to_set (flush_set s') <-> busy s' i.
Proof.
  destruct (loop_run (Loop_init 1) sample_loop_ops) as [s|] eqn:E; [ | vm_compute in E; discriminate E ].
  exists s. destruct (flush_pending_peers_visits_each_once 1 sample_loop_ops s) as [s' Hs'];
    [ lia | reflexivity | reflexivity | apply sample_loop_ops_fit | exact E | ].
  exists s'. split; [ reflexivity | exact Hs' ].
Defined.

Definition sample_batch : list (list Z * PeerId) := [([1], mkId 0 1); ([2], mkId 1 1); ([3; 4], mkId 0 1)].

Lemma batch_send_appends_in_order_witness :
  exists s s', loop_run (Loop_init 1) sample_loop_ops = Some s /\ CommandBatchSend s 1 sample_batch = Some s'
    /\ addressed s 0 sample_batch = [1; 3; 4]
    /\ forall d p, sends s !! d = Some p -> exists p', sends s' !! d = Some p'
         /\ stream p' = stream p ++ (if has_flag p BIT_DISCONNECTING then [] else addressed s d sample_batch).
Proof.
  destruct (loop_run (Loop_init 1) sample_loop_ops) as [s|] eqn:E; [ | vm_compute in E; discriminate E ].
  exists s. destruct (batch_send_appends_in_order 1 sample_loop_ops s sample_batch) as (s' & Es & _ & Hs');
    [ lia | reflexivity | reflexivity | apply sample_loop_ops_fit
    | unfold batch_ok, sample_batch; rewrite !Forall_cons, Forall_nil; split_and?; try exact I; vm_compute; congruence
    | exact E | ].
  exists s'. split; [ reflexivity | ]. split; [ exact Es | ]. split; [ | exact Hs' ].
  vm_compute in E. injection E as <-. reflexivity.
Defined.

End LoopFlush.
