(* ===== verification/RpcCalls.v ===== *)
(** * Remote calls and their return callbacks (RPCEnvironment, OnReturnCallback, Peer)

    A call draws a fresh return id, stores its callback under the id in the peer's
    [returningCallbacks], writes the id into the first four bytes of the message and sends
    the frame. The answer carries the id back; the callback is removed and executed. A
    periodic check removes a randomly chosen callback when its time is over. The map of
    callbacks is used through the interface [MapImpl]; [FlatHashMap] implements it. The
    serialisation library bitscpp is not part of the repository: the class [U32Codec] holds
    what the library relies on for the untyped 32-bit integers. *)

From S2P Require Import Prelude Hash FlatHashMap MemoryPool ByteBuffer FramingProtocol.

(** [ByteWriter::op_untyped_uint32] and [ByteReader::op_untyped_uint32]; the bytes
    [CommandCallSend] stores with [memcpy] of [HostToNetworkUint(id)] are the same. *)
Class U32Codec := {
  put_u32 : Z -> list Z;
  get_u32 : list Z -> Z * list Z;
  put_u32_zlen : forall x, zlen (put_u32 x) = 4;
  put_u32_bytes : forall x, Forall is_u8 (put_u32 x);
  get_put_u32 : forall x rest, is_u32 x -> get_u32 (put_u32 x ++ rest) = (x, rest)
}.

Module RpcCalls.
Import FramingProtocol.

(** [OnReturnCallback]: [token] stands for the command with the user's functions, [queue]
    for [executionQueue != nullptr]. *)
Record OnReturnCallback := mkCallback { token : nat; queue : bool; timeoutTimePoint : Z }.

(** What happens to a callback's command: it is executed at once or enqueued, for an answer
    (with its flags and its bytes) or for a timeout. *)
Inductive event :=
| Returned (c : OnReturnCallback) (flags : Z) (answer : list Z)
| TimedOut (c : OnReturnCallback).

Definition event_callback (e : event) : OnReturnCallback :=
  match e with Returned c _ _ => c | TimedOut c => c end.

Definition IsExpired (c : OnReturnCallback) (t : Z) : bool := timeoutTimePoint c <? t.

Section Calls.
Context `{Allocator} `{U32Codec}.
Context {T : Type} {MI : MapImpl T Z OnReturnCallback}.

(** The part of [PeerData] that calls use; [events] and [frames] record the executed
    callbacks and the frames passed to [PeerData::Send]. *)
Record PeerCalls := mkCalls {
  returnIdGen : Z;
  returningCallbacks : T;
  events : list event;
  frames : list (list Z)
}.

(** The [do]-loop of [_InternalGetNextValidReturnCallbackId]. *)
Fixpoint next_id (fuel : nat) (m : T) (gen : Z) : option Z :=
  match fuel with
  | O => None
  | S fuel =>
      let id := u32 (gen + 1) in
      let* r := map_get m id in
      if bool_decide (is_Some r) || (id =? 0) then next_id fuel m id else Some id
  end.

(** One round more than there are stored callbacks, and one for the id 0. *)
Definition _InternalGetNextValidReturnCallbackId (p : PeerCalls) : option (Z * PeerCalls) :=
  let* id := next_id (S (S (size (map_abs (returningCallbacks p))))) (returningCallbacks p) (returnIdGen p) in
  Some (id, mkCalls id (returningCallbacks p) (events p) (frames p)).

(** [CommandCallSend::Execute] with the peer found: [buf] holds four bytes for the id, the
    function name and the arguments. *)
Definition CommandCallSend_Execute (p : PeerCalls) (buf : ByteBufferWritable)
  (callback : OnReturnCallback) (flags : Z) : option PeerCalls :=
  assert* valid buf in
  let* (rcbId, p) := _InternalGetNextValidReturnCallbackId p in
  let* buf := store_front buf (put_u32 rcbId) in
  let* m := map_set (returningCallbacks p) rcbId callback in
  let flags := Z.lor flags FLAGS_CALL in
  let* buf := WriteHeaderIntoBuffer buf flags in
  Some (mkCalls (returnIdGen p) m (events p) (frames p ++ [contents buf])).

(** [OnReceiveReturn] on the bytes behind the header. *)
Definition OnReceiveReturn (p : PeerCalls) (flags : Z) (body : list Z) : option PeerCalls :=
  let '(returnId, answer) := get_u32 body in
  let* cb := map_get (returningCallbacks p) returnId in
  match cb with
  | None => Some p
  | Some c =>
      let* m := map_remove (returningCallbacks p) returnId in
      Some (mkCalls (returnIdGen p) m (events p ++ [Returned c flags answer]) (frames p))
  end.

(** [PeerData::CheckForTimeoutFunctionCalls] with [key] the key of the entry that
    [GetRandom] drew ([None] when the map is empty). *)
Definition CheckForTimeoutFunctionCalls (p : PeerCalls) (key : option Z) (now : Z) : option PeerCalls :=
  match key with
  | None => Some p
  | Some k =>
      let* cb := map_get (returningCallbacks p) k in
      let* c := cb in
      if IsExpired c now then
        let* m := map_remove (returningCallbacks p) k in
        Some (mkCalls (returnIdGen p) m (events p ++ [TimedOut c]) (frames p))
      else Some p
  end.

(** ** Fresh ids *)

(** The ids after [gen], in order. *)
Fixpoint ids_after (n : nat) (gen : Z) : list Z :=
  match n with
  | O => []
  | S n => u32 (gen + 1) :: ids_after n (u32 (gen + 1))
  end.

Lemma ids_after_lookup n : forall gen i x,
  ids_after n gen !! i = Some x -> x = u32 (gen + 1 + Z.of_nat i).
Proof.
  induction n as [|n IH]; intros gen [|i] x Hx; simplify_eq/=.
  - f_equal. lia.
  - apply IH in Hx. rewrite Hx. unfold u32. rewrite <- (Z.add_assoc _ 1), Zplus_mod_idemp_l. f_equal. lia.
Qed.

Lemma ids_after_NoDup n gen : Z.of_nat n <= 2 ^ 32 -> NoDup (ids_after n gen).
Proof.
  intros Hn. apply NoDup_alt. intros i j x Hi Hj.
  assert (length (ids_after n gen) = n) as Hl.
  { clear. revert gen. induction n as [|n IH]; intros gen; simpl; [ done | by rewrite IH ]. }
  pose proof (lookup_lt_Some _ _ _ Hi). pose proof (lookup_lt_Some _ _ _ Hj).
  apply ids_after_lookup in Hi, Hj. unfold u32 in *.
  assert ((Z.of_nat i - Z.of_nat j) mod 2 ^ 32 = 0) as Em.
  { replace (Z.of_nat i - Z.of_nat j) with ((gen + 1 + Z.of_nat i) - (gen + 1 + Z.of_nat j)) by lia.
    rewrite Zminus_mod, <- Hi, <- Hj, Z.sub_diag. done. }
  apply Z.mod_divide in Em; [ | lia ]. destruct Em as [q Eq]. nia.
Qed.

(** When the loop gives up, every id it tried is 0 or in use. *)
Lemma next_id_exhausted m n : map_inv m -> forall gen, next_id n m gen = None ->
  forall x, x ∈ ids_after n gen -> x = 0 \/ is_Some (map_abs m !! x).
Proof.
  intros Hm. induction n as [|n IH]; intros gen E x Hx; [ by apply elem_of_nil in Hx | ].
  cbn [next_id ids_after] in *. rewrite map_get_ok in E by done.
  destruct (bool_decide _ || _) eqn:Eb; [ | done ].
  apply elem_of_cons in Hx as [-> | Hx]; [ | by eapply IH ].
  apply orb_true_iff in Eb as [Eb%bool_decide_eq_true | Eb%Z.eqb_eq]; auto.
Qed.

Lemma next_id_found m n : map_inv m -> forall gen id, next_id n m gen = Some id ->
  is_u32 id /\ id <> 0 /\ map_abs m !! id = None.
Proof.
  intros Hm. induction n as [|n IH]; intros gen id E; [ done | ].
  cbn [next_id] in E. rewrite map_get_ok in E by done.
  destruct (bool_decide _ || _) eqn:Eb; [ by eapply IH | ].
  apply orb_false_iff in Eb as [Eb%bool_decide_eq_false Ez%Z.eqb_neq]. injection E as <-.
  split_and!; [ apply u32_range | done | by apply eq_None_not_Some ].
Qed.

Lemma next_id_total m gen : map_inv m -> Z.of_nat (size (map_abs m)) < 2 ^ 32 - 1 ->
  exists id, next_id (S (S (size (map_abs m)))) m gen = Some id.
Proof.
  intros Hm Hs. destruct (next_id _ m gen) as [id|] eqn:E; [ eauto | exfalso ].
  pose proof (next_id_exhausted m _ Hm gen E) as Hall.
  pose proof (ids_after_NoDup (S (S (size (map_abs m)))) gen ltac:(lia)) as Hnd.
  assert (ids_after (S (S (size (map_abs m)))) gen ⊆+ 0 :: elements (dom (map_abs m))) as Hsub.
  { apply NoDup_submseteq; [ done | ]. intros x Hx. apply elem_of_cons.
    destruct (Hall x Hx) as [-> | Hx']; [ by left | right ]. by apply elem_of_elements, elem_of_dom. }
  apply submseteq_length in Hsub. simpl in Hsub.
  assert (length (ids_after (size (map_abs m)) (u32 (u32 (gen + 1) + 1))) = size (map_abs m)) as Hl.
  { generalize (u32 (u32 (gen + 1) + 1)). clear. induction (size (map_abs m)) as [|n IH]; intros g; simpl; [ done | by rewrite IH ]. }
  rewrite Hl in Hsub. change (length (elements (dom (map_abs m)))) with (size (dom (map_abs m))) in Hsub.
  rewrite size_dom in Hsub. lia.
Qed.

(** ** Sending a call *)

(** The buffer [RPCEnvironment::Call] fills: a placeholder for the id, then the function
    name and the arguments. *)
Definition call_buffer (payload : list Z) : option ByteBufferWritable :=
  append ByteBufferWritable_default (put_u32 0 ++ payload).

Definition Call (p : PeerCalls) (payload : list Z) (callback : OnReturnCallback) (flags : Z)
  : option PeerCalls :=
  let* buf := call_buffer payload in
  CommandCallSend_Execute p buf callback flags.

Record calls_ok (p : PeerCalls) : Prop := {
  co_map : map_inv (returningCallbacks p);
  co_gen : is_u32 (returnIdGen p)
}.

(** The callbacks that wait for an answer. *)
Definition waiting (p : PeerCalls) : gmap Z OnReturnCallback := map_abs (returningCallbacks p).

(** Overwriting the first bytes of the data. *)
Lemma store_front_spec w l m :
  wf w -> contents w = m -> zlen l <= _size w -> valid w = true ->
  exists w', store_front w l = Some w' /\ wf w' /\ contents w' = l ++ drop (length l) m
    /\ _size w' = _size w /\ _offset w' = _offset w /\ valid w' = true /\ _capacity w' = _capacity w.
Proof.
  intros [Hs Hw] Hc Hl Hv. unfold store_front, valid, contents in *.
  destruct (buffer w) as [mem|] eqn:Eb.
  2: { destruct (bool_decide_reflect (is_Some (@None (list Z)))) as [[? [=]]|]; done. }
  destruct Hw as (Ho & Hz & Hz' & Hsc). unfold sizeof_StorageHeader, INITIAL_DATA_OFFSET in *.
  destruct (memcpy mem (_offset w) l) as [mem'|] eqn:E.
  2: { rewrite memcpy_in_range in E; [ done | lia | lia ]. }
  pose proof (memcpy_zlen _ _ _ _ E) as Hzm. eexists. split_and!; try done.
  - split; simpl; [ lia | unfold sizeof_StorageHeader, INITIAL_DATA_OFFSET; lia ].
  - simpl. replace (_size w) with (zlen l + (_size w - zlen l)) at 1 by lia.
    rewrite (slice_memcpy_at _ _ (_size w - zlen l) _ _ ltac:(lia) E). f_equal. rewrite <- Hc. unfold slice.
    pose proof (zlen_nonneg l). rewrite skipn_firstn_comm, drop_drop. unfold zlen in *.
    f_equal; [ lia | f_equal; lia ].
Qed.

Lemma call_buffer_spec payload : zlen payload <= 2 ^ 28 - 4 ->
  exists buf, call_buffer payload = Some buf /\ wf buf /\ valid buf = true /\ _offset buf = 32
    /\ contents buf = put_u32 0 ++ payload /\ _size buf = 4 + zlen payload.
Proof.
  intros Hp. unfold call_buffer. pose proof (zlen_nonneg payload).
  assert (zlen (put_u32 0 ++ payload) = 4 + zlen payload) as Hz by (by rewrite zlen_app, put_u32_zlen).
  destruct (append_spec ByteBufferWritable_default (put_u32 0 ++ payload)) as (buf & -> & Hx);
    [ done | simpl; unfold MAX_RESERVE, INITIAL_DATA_OFFSET; lia | ].
  destruct (extends_head_room _ _ _ Hx) as [Hv Ho]; [ by left | rewrite (ext_size _ _ _ Hx); simpl; lia | ].
  exists buf. destruct Hx. split_and!; (done || simpl in *; lia).
Qed.

(** A call: a fresh id, a frame that carries it, and the callback stored under it. *)
Lemma Call_spec p payload callback flags :
  calls_ok p -> zlen payload <= 2 ^ 28 - 4 ->
  Z.of_nat (size (waiting p)) < map_limit -> Z.of_nat (size (waiting p)) < 2 ^ 32 - 1 ->
  exists p' id frm, Call p payload callback flags = Some p' /\ calls_ok p'
    /\ is_u32 id /\ id <> 0 /\ waiting p !! id = None
    /\ waiting p' = <[id := callback]> (waiting p)
    /\ events p' = events p /\ frames p' = frames p ++ [frm]
    /\ frame (put_u32 id ++ payload) (Z.lor flags FLAGS_CALL) = Some frm.
Proof.
  intros Hp Hl Hlim Hs. unfold Call. pose proof (zlen_nonneg payload).
  destruct (call_buffer_spec payload Hl) as (buf & -> & Hw & Hv & Ho & Hc & Hsz).
  unfold CommandCallSend_Execute. rewrite Hv. unfold _InternalGetNextValidReturnCallbackId.
  destruct (next_id_total (returningCallbacks p) (returnIdGen p) (co_map _ Hp) Hs) as [id E]. rewrite E.
  destruct (next_id_found _ _ (co_map _ Hp) _ _ E) as (Hid & Hid0 & Hnone).
  destruct (store_front_spec buf (put_u32 id) _ Hw Hc) as (b1 & -> & Hw1 & Hc1 & Hs1 & Ho1 & Hv1 & _);
    [ rewrite put_u32_zlen; lia | done | ].
  cbn [returningCallbacks returnIdGen events frames].
  destruct (map_set_ok (returningCallbacks p) id callback (co_map _ Hp) Hlim) as (m & -> & Hm & Em).
  rewrite drop_app_ge in Hc1 by (pose proof (put_u32_zlen id); pose proof (put_u32_zlen 0); unfold zlen in *; lia).
  replace (length (put_u32 id) - length (put_u32 0))%nat with 0%nat in Hc1
    by (pose proof (put_u32_zlen id); pose proof (put_u32_zlen 0); unfold zlen in *; lia). rewrite drop_0 in Hc1.
  destruct (WriteHeaderIntoBuffer_in_place b1 (Z.lor flags FLAGS_CALL)) as (b2 & header & -> & Eh & _ & Hc2 & _);
    [ done | done | lia | lia | ].
  eexists _, id, _. split_and!; try done.
  unfold frame. replace (zlen (put_u32 id ++ payload)) with (_size b1) by (rewrite zlen_app, put_u32_zlen; lia).
  rewrite Eh, Hc2, Hc1. done.
Qed.

Lemma OnReceiveReturn_spec p flags body :
  calls_ok p ->
  exists p', OnReceiveReturn p flags body = Some p' /\ calls_ok p' /\ frames p' = frames p
    /\ waiting p' = delete (get_u32 body).1 (waiting p)
    /\ events p' = events p ++ match waiting p !! (get_u32 body).1 with
                               | Some c => [Returned c flags (get_u32 body).2]
                               | None => []
                               end.
Proof.
  intros Hp. unfold OnReceiveReturn, waiting. destruct (get_u32 body) as [id answer]. simpl.
  rewrite map_get_ok by apply Hp. destruct (map_abs (returningCallbacks p) !! id) as [c|] eqn:E.
  - destruct (map_remove_ok (returningCallbacks p) id (co_map _ Hp)) as (m & -> & Hm & Em).
    eexists. split_and!; try done. split; [ done | apply Hp ].
  - exists p. split_and!; try done; [ by rewrite delete_id | by rewrite app_nil_r ].
Qed.

Lemma CheckForTimeout_spec p k c now :
  calls_ok p -> waiting p !! k = Some c ->
  exists p', CheckForTimeoutFunctionCalls p (Some k) now = Some p' /\ calls_ok p' /\ frames p' = frames p
    /\ waiting p' = (if IsExpired c now then delete k (waiting p) else waiting p)
    /\ events p' = events p ++ (if IsExpired c now then [TimedOut c] else []).
Proof.
  intros Hp Hk. unfold CheckForTimeoutFunctionCalls, waiting in *. rewrite map_get_ok by apply Hp. rewrite Hk.
  destruct (IsExpired c now).
  - destruct (map_remove_ok (returningCallbacks p) k (co_map _ Hp)) as (m & -> & Hm & Em).
    eexists. split_and!; try done. split; [ done | apply Hp ].
  - exists p. split_and!; try done. by rewrite app_nil_r.
Qed.

(** ** Programs of calls, answers and timeout checks *)

Inductive call_op :=
| CCall (payload : list Z) (callback : OnReturnCallback) (flags : Z)
| CReturn (flags : Z) (body : list Z)
| CTimeout (r : nat) (now : Z).

(** The key of the entry a random number selects. *)
Definition draw (p : PeerCalls) (r : nat) : option Z :=
  fst <$> (map_to_list (waiting p) !! (r mod (size (waiting p)))%nat).

Definition call_step (p : PeerCalls) (o : call_op) : option PeerCalls :=
  match o with
  | CCall payload cb flags => Call p payload cb flags
  | CReturn flags body => OnReceiveReturn p flags body
  | CTimeout r now => CheckForTimeoutFunctionCalls p (draw p r) now
  end.

Fixpoint call_run (p : PeerCalls) (os : list call_op) : option PeerCalls :=
  match os with
  | [] => Some p
  | o :: os => let* p := call_step p o in call_run p os
  end.

(** The callbacks a program passes to its calls. *)
Definition issued (os : list call_op) : list OnReturnCallback :=
  omap (fun o => match o with CCall _ cb _ => Some cb | _ => None end) os.

Definition call_small (o : call_op) : Prop :=
  match o with CCall payload _ _ => zlen payload <= 2 ^ 28 - 4 | _ => True end.

(** All the callbacks: those waiting and those executed. *)
Definition all_callbacks (p : PeerCalls) : list OnReturnCallback :=
  (map_to_list (waiting p)).*2 ++ (event_callback <$> events p).

Lemma map_to_list_take (m : gmap Z OnReturnCallback) k c :
  m !! k = Some c -> (map_to_list m).*2 ≡ₚ c :: (map_to_list (delete k m)).*2.
Proof.
  intros Hk. rewrite <- (insert_delete_id m k c Hk) at 1.
  rewrite map_to_list_insert by apply lookup_delete_eq. done.
Qed.

Lemma call_step_spec p o :
  calls_ok p -> call_small o -> Z.of_nat (size (waiting p)) < map_limit ->
  Z.of_nat (size (waiting p)) < 2 ^ 32 - 1 ->
  exists p', call_step p o = Some p' /\ calls_ok p'
    /\ all_callbacks p' ≡ₚ issued [o] ++ all_callbacks p
    /\ (size (waiting p') <= S (size (waiting p)))%nat.
Proof.
  intros Hp Ho Hlim Hs. destruct o as [payload cb flags | flags body | r now]; cbn [call_step].
  - destruct (Call_spec p payload cb flags Hp Ho Hlim Hs)
      as (p' & id & frm & -> & Hp' & Hid & Hid0 & Hnone & Hw & He & _).
    exists p'. unfold all_callbacks. rewrite Hw, He, map_size_insert_None by done.
    split_and!; try done. rewrite map_to_list_insert by done. done.
  - destruct (OnReceiveReturn_spec p flags body Hp) as (p' & -> & Hp' & _ & Hw & He).
    exists p'. unfold all_callbacks. rewrite Hw, He. cbn [issued omap list_omap app].
    split_and!; try done; [ | rewrite map_size_delete; case_match; simpl; lia ].
    destruct (waiting p !! (get_u32 body).1) as [c|] eqn:E.
    + rewrite (map_to_list_take _ _ _ E), fmap_app, app_assoc. simpl.
      rewrite <- Permutation_cons_append. done.
    + rewrite delete_id, app_nil_r by done. done.
  - destruct (draw p r) as [k|] eqn:Ed.
    + unfold draw in Ed. destruct (map_to_list (waiting p) !! _) as [[k' c]|] eqn:El; [ | done ].
      simpl in Ed. injection Ed as ->. apply list_elem_of_lookup_2, elem_of_map_to_list in El as Ek.
      destruct (CheckForTimeout_spec p k c now Hp Ek) as (p' & -> & Hp' & _ & Hw & He).
      exists p'. unfold all_callbacks. rewrite Hw, He. cbn [issued omap list_omap app].
      destruct (IsExpired c now).
      * split_and!; try done; [ | rewrite map_size_delete; case_match; simpl; lia ].
        rewrite (map_to_list_take _ _ _ Ek), fmap_app, app_assoc. simpl.
        by rewrite <- Permutation_cons_append.
      * rewrite app_nil_r. split_and!; (done || lia).
    + exists p. split_and!; (done || simpl; lia).
Qed.

Lemma call_run_spec os : forall p,
  calls_ok p -> Forall call_small os -> Z.of_nat (size (waiting p) + length os) <= map_limit ->
  Z.of_nat (size (waiting p) + length os) < 2 ^ 32 - 1 ->
  exists p', call_run p os = Some p' /\ calls_ok p' /\ all_callbacks p' ≡ₚ issued os ++ all_callbacks p.
Proof.
  induction os as [|o os IH]; intros p Hp Hos Hlim Hs; cbn [call_run]; [ eauto | ].
  apply Forall_cons in Hos as [Ho Hos]. cbn [length] in *.
  destruct (call_step_spec p o Hp Ho) as (p1 & -> & Hp1 & Hperm & Hsz); [ lia | lia | ].
  destruct (IH p1 Hp1 Hos) as (p' & -> & Hp' & Hperm'); [ lia | lia | ].
  exists p'. split_and!; try done. rewrite Hperm', Hperm.
  change (issued (o :: os)) with (issued ([o] ++ os)). unfold issued at 3. rewrite omap_app.
  fold (issued os) (issued [o]). rewrite !app_assoc, (Permutation_app_comm (issued os)). done.
Qed.

(** ** Claims *)

(** A call draws an id that is not 0 and that no waiting callback has, stores the
    callback under it and sends the frame of the id, the name and the arguments with the
    type [FLAGS_CALL]. The answer with this id executes exactly this callback, with the
    answer's bytes, and the other callbacks keep waiting; a second answer with the id is
    ignored. *)
Theorem call_then_return p payload callback flags answerFlags answer :
  calls_ok p -> zlen payload <= 2 ^ 28 - 4 ->
  Z.of_nat (size (waiting p)) < map_limit -> Z.of_nat (size (waiting p)) < 2 ^ 32 - 1 ->
  exists p1 id frm p2, Call p payload callback flags = Some p1
    /\ is_u32 id /\ id <> 0 /\ waiting p !! id = None
    /\ waiting p1 = <[id := callback]> (waiting p)
    /\ frames p1 = frames p ++ [frm]
    /\ frame (put_u32 id ++ payload) (Z.lor flags FLAGS_CALL) = Some frm
    /\ OnReceiveReturn p1 answerFlags (put_u32 id ++ answer) = Some p2
    /\ events p2 = events p ++ [Returned callback answerFlags answer]
    /\ waiting p2 = waiting p
    /\ OnReceiveReturn p2 answerFlags (put_u32 id ++ answer) = Some p2.
Proof.
  intros Hp Hl Hlim Hs.
  destruct (Call_spec p payload callback flags Hp Hl Hlim Hs)
    as (p1 & id & frm & E1 & Hp1 & Hid & Hid0 & Hnone & Hw1 & He1 & Hf1 & Hfrm).
  destruct (OnReceiveReturn_spec p1 answerFlags (put_u32 id ++ answer) Hp1)
    as (p2 & E2 & Hp2 & _ & Hw2 & He2).
  rewrite get_put_u32 in Hw2, He2 by done. cbn [fst snd] in Hw2, He2.
  rewrite Hw1, ?lookup_insert_eq in He2. rewrite Hw1, delete_insert_id in Hw2 by done. rewrite He1 in He2.
  exists p1, id, frm, p2. split_and!; try done.
  unfold OnReceiveReturn. rewrite get_put_u32 by done. rewrite map_get_ok by apply Hp2.
  fold (waiting p2). by rewrite Hw2, Hnone.
Qed.

(** C24: in every sequence of calls, answers and timeout checks each callback passed to a
    call is executed at most once: the callbacks of the calls are, up to order, those that
    still wait and those that were executed. No sequence stops the program. *)
Theorem callbacks_executed_at_most_once p os :
  calls_ok p -> waiting p = ∅ -> events p = [] -> Forall call_small os ->
  Z.of_nat (length os) <= map_limit -> Z.of_nat (length os) < 2 ^ 32 - 1 ->
  exists p', call_run p os = Some p'
    /\ issued os ≡ₚ (map_to_list (waiting p')).*2 ++ (event_callback <$> events p').
Proof.
  intros Hp Hw He Hos Hlim Hs.
  destruct (call_run_spec os p Hp Hos) as (p' & E & _ & Hperm); [ rewrite Hw, map_size_empty; lia .. | ].
  exists p'. split; [ done | ]. unfold all_callbacks in Hperm. rewrite Hperm, Hw, He, map_to_list_empty.
  by rewrite app_nil_r.
Qed.

End Calls.

(** ** Witnesses: the callbacks in a [FlatHashMap], the integers in little-endian order *)

Definition le_put (x : Z) : list Z :=
  (fun i : nat => x / 2 ^ (8 * Z.of_nat i) mod 256) <$> seq 0 4.

#[local, refine] Instance le_codec : U32Codec := {
  put_u32 := le_put;
  get_u32 l := (le_load (take 4 l), drop 4 l)
}.
Proof.
  - intros x. done.
  - intros x. unfold le_put. apply Forall_fmap, Forall_forall. intros i _. apply Z.mod_pos_bound. lia.
  - intros x rest Hx. unfold is_u32 in Hx. simpl. f_equal. rewrite Z.div_1_r.
    change (Z.pow_pos 2 8) with 256. change (Z.pow_pos 2 16) with 65536. change (Z.pow_pos 2 24) with 16777216.
    change (2 ^ 32) with 4294967296 in Hx. Z.to_euclidean_division_equations. lia.
Defined.

Definition key_hash (k : Z) : Z := hash_uint32 k 0.

#[local] Instance callbacks_map : MapImpl (FHM.FlatHashMap Z OnReturnCallback) Z OnReturnCallback :=
  FHM.FlatHashMap_MapImpl key_hash.

Definition no_calls : PeerCalls (T := FHM.FlatHashMap Z OnReturnCallback) :=
  mkCalls 0 (default (FHM.mkMap [] []) (FHM.FlatHashMap_init 16)) [] [].

Lemma no_calls_spec : calls_ok no_calls /\ waiting no_calls = ∅.
Proof.
  destruct (FHM.FlatHashMap_init_spec (V := OnReturnCallback) key_hash 4 ltac:(lia)) as (m & Em & Hm & Ea & _).
  unfold no_calls. change (2 ^ 4) with 16 in Em. rewrite Em. split; [ split; [ exact Hm | done ] | exact Ea ].
Qed.

Lemma call_then_return_witness :
  exists p1 id frm p2, Call no_calls [1; 2; 3] (mkCallback 7 false 100) 1 = Some p1
    /\ is_u32 id /\ id <> 0 /\ waiting no_calls !! id = None
    /\ waiting p1 = <[id := mkCallback 7 false 100]> (waiting no_calls)
    /\ frames p1 = frames no_calls ++ [frm]
    /\ frame (put_u32 id ++ [1; 2; 3]) (Z.lor 1 FLAGS_CALL) = Some frm
    /\ OnReceiveReturn p1 5 (put_u32 id ++ [42]) = Some p2
    /\ events p2 = events no_calls ++ [Returned (mkCallback 7 false 100) 5 [42]]
    /\ waiting p2 = waiting no_calls
    /\ OnReceiveReturn p2 5 (put_u32 id ++ [42]) = Some p2.
Proof.
  apply (call_then_return no_calls [1; 2; 3] (mkCallback 7 false 100) 1 5 [42]).
  - apply no_calls_spec.
  - intros E. vm_compute in E. discriminate E.
  - rewrite (proj2 no_calls_spec), map_size_empty. reflexivity.
  - rewrite (proj2 no_calls_spec), map_size_empty. reflexivity.
Defined.

Definition sample_calls : list call_op :=
  [CCall [1] (mkCallback 1 false 10) 1; CCall [2; 3] (mkCallback 2 true 20) 1;
   CReturn 5 (le_put 1 ++ [9]); CTimeout 0 30; CReturn 5 (le_put 2)].

Lemma callbacks_executed_at_most_once_witness :
  exists p', call_run no_calls sample_calls = Some p'
    /\ issued sample_calls ≡ₚ (map_to_list (waiting p')).*2 ++ (event_callback <$> events p').
Proof.
  apply (callbacks_executed_at_most_once no_calls sample_calls).
  - apply no_calls_spec.
  - apply no_calls_spec.
  - reflexivity.
  - repeat constructor; intros E; vm_compute in E; discriminate E.
  - intros E. vm_compute in E. discriminate E.
  - reflexivity.
Defined.

(** The sample answers the first call, times out the second and ignores the late answer. *)
Lemma sample_calls_events :
  (let* p := call_run no_calls sample_calls in Some (events p))
  = Some [Returned (mkCallback 1 false 10) 5 [9]; TimedOut (mkCallback 2 true 20)].
Proof. vm_compute. reflexivity. Qed.

End RpcCalls.
