(* ===== verification/RpcRegistry.v ===== *)
(** * Names and registered functions (RpcName, MessageConverter, RPCEnvironment)

    A remote function is named by a non-empty string or by an integer from 1 to [2^20 - 1].
    [RPCEnvironment] owns the converters of the registered functions: string names in a hash
    map, integer names in a vector of pointers with null entries. The converters live in a
    heap of their own, so that a lost or a deleted converter is visible. *)

From S2P Require Import Prelude.

Module RpcRegistry.

(** ** Names *)

(** [std::string] is its list of characters. *)
Record RpcName := mkName { str : list Z; uint : Z }.

#[export] Instance RpcName_eq_dec : EqDecision RpcName.
Proof. solve_decision. Defined.

Definition has_str (n : RpcName) : bool := negb (bool_decide (str n = [])).
Definition has_uint (n : RpcName) : bool := negb (uint n =? 0).

(** [operator bool]. *)
Definition name_bool (n : RpcName) : bool := xorb (has_str n) (has_uint n).

Definition IsString (n : RpcName) : option bool := assert* name_bool n in Some (has_str n).
Definition IsUint (n : RpcName) : option bool := assert* name_bool n in Some (has_uint n).

(** The constructors with a string and with an integer. *)
Definition RpcName_string (s : list Z) : option RpcName :=
  assert* negb (bool_decide (s = [])) in Some (mkName s 0).

Definition RpcName_uint32 (n : Z) : option RpcName :=
  assert* 0 <? n in
  assert* n <? 1024 * 1024 in
  Some (mkName [] n).

Definition RpcName_int32 (n : Z) : option RpcName :=
  assert* 0 <? n in
  assert* n <? 1024 * 1024 in
  Some (mkName [] (u32 n)).

Section Registry.
(** [C]: what a converter holds besides its name, its queues, its function and how it reads
    its arguments. *)
Context {C : Type}.

Record MessageConverter := mkConverter { name : RpcName; fn : C }.

(** A pointer is a key of [heap]. *)
Record RPCEnvironment := mkEnv {
  registeredMessagesString : gmap (list Z) nat;
  registeredMessagesUint : list (option nat);
  heap : gmap nat MessageConverter
}.

Definition RPCEnvironment_init : RPCEnvironment := mkEnv ∅ [] ∅.

(** [delete p]: [None] for a pointer that is not allocated. *)
Definition delete_converter (h : gmap nat MessageConverter) (p : option nat)
  : option (gmap nat MessageConverter) :=
  match p with
  | None => Some h
  | Some p => if decide (is_Some (h !! p)) then Some (delete p h) else None
  end.

Fixpoint delete_all (h : gmap nat MessageConverter) (ps : list (option nat))
  : option (gmap nat MessageConverter) :=
  match ps with
  | [] => Some h
  | p :: ps => let* h := delete_converter h p in delete_all h ps
  end.

(** The destructor. *)
Definition RPCEnvironment_destroy (e : RPCEnvironment) : option RPCEnvironment :=
  let* h := delete_all (heap e) (Some <$> (map_to_list (registeredMessagesString e)).*2) in
  let* h := delete_all h (registeredMessagesUint e) in
  Some (mkEnv ∅ [] h).

(** The lookup of a call's function; the last branch is the one with the log entry about a
    call without a name. *)
Definition FindConverter (e : RPCEnvironment) (n : RpcName) : option (option nat) :=
  let* s := IsString n in
  if s then Some (registeredMessagesString e !! str n)
  else
    let* u := IsUint n in
    if u then
      if uint n <? zlen (registeredMessagesUint e) then vget (registeredMessagesUint e) (uint n)
      else Some None
    else Some None.

(** The loop that pops null entries from the end. *)
Fixpoint pop_null (fuel : nat) (v : list (option nat)) : option (list (option nat)) :=
  match last v with
  | None => Some v
  | Some (Some _) => Some v
  | Some None =>
      match fuel with
      | O => None
      | S fuel => pop_null fuel (take (length v - 1) v)
      end
  end.

Definition RemoveRegisteredMessage (e : RPCEnvironment) (n : RpcName) : option RPCEnvironment :=
  let* s := IsString n in
  if s then
    match registeredMessagesString e !! str n with
    | Some msgConv =>
        let* h := delete_converter (heap e) (Some msgConv) in
        Some (mkEnv (delete (str n) (registeredMessagesString e)) (registeredMessagesUint e) h)
    | None => Some e
    end
  else
    let* u := IsUint n in
    if u then
      let v := registeredMessagesUint e in
      let* (v, msgConv) :=
        if uint n <? zlen v then
          let* v := vset v (uint n) None in
          let* msgConv := vget v (uint n) in
          Some (v, msgConv)
        else Some (v, None) in
      let* v := pop_null (length v) v in
      let* h := delete_converter (heap e) msgConv in
      Some (mkEnv (registeredMessagesString e) v h)
    else Some e.

Definition RegisterAnyMessage (e : RPCEnvironment) (n : RpcName) (p : nat) : option RPCEnvironment :=
  assert* name_bool n in
  let* c := heap e !! p in
  let h := <[p := mkConverter n (fn c)]> (heap e) in
  let* s := IsString n in
  if s then
    match registeredMessagesString e !! str n with
    | Some _ => Some (mkEnv (registeredMessagesString e) (registeredMessagesUint e) h)
    | None => Some (mkEnv (<[str n := p]> (registeredMessagesString e)) (registeredMessagesUint e) h)
    end
  else
    let* u := IsUint n in
    if u then
      let v := registeredMessagesUint e in
      let v := if zlen v <=? uint n then vresize v (u32 (uint n + 1)) None else v in
      let* v := vset v (uint n) (Some p) in
      Some (mkEnv (registeredMessagesString e) v h)
    else Some (mkEnv (registeredMessagesString e) (registeredMessagesUint e) h).

(** [RegisterMessage]: allocate the converter, then register it. *)
Definition RegisterMessage (e : RPCEnvironment) (n : RpcName) (c : C) : option (nat * RPCEnvironment) :=
  let p := fresh (dom (heap e)) in
  let h := <[p := mkConverter (mkName [] 0) c]> (heap e) in
  let* e := RegisterAnyMessage (mkEnv (registeredMessagesString e) (registeredMessagesUint e) h) n p in
  Some (p, e).

(** ** The specification: a map from names to functions *)

Definition name_key (n : RpcName) : list Z + Z := if has_str n then inl (str n) else inr (uint n).

(** The names the constructors build. *)
Definition name_ok (n : RpcName) : Prop :=
  (str n <> [] /\ uint n = 0) \/ (str n = [] /\ 0 < uint n < 2 ^ 20).

(** The pointer stored for a key. *)
Definition slot (e : RPCEnvironment) (k : list Z + Z) : option nat :=
  match k with
  | inl s => registeredMessagesString e !! s
  | inr u => mjoin (vget (registeredMessagesUint e) u)
  end.

(** The converter a key leads to. *)
Definition registered (e : RPCEnvironment) (k : list Z + Z) : option MessageConverter :=
  let* p := slot e k in heap e !! p.

(** No stored pointer is dangling and no two names share a converter. *)
Record env_ok (e : RPCEnvironment) : Prop := {
  eo_live : forall k p, slot e k = Some p -> is_Some (heap e !! p);
  eo_inj : forall k k' p, slot e k = Some p -> slot e k' = Some p -> k = k'
}.

Inductive reg_op := ORegister (n : RpcName) (c : C) | ORemove (n : RpcName).

Definition op_name (o : reg_op) : RpcName := match o with ORegister n _ => n | ORemove n => n end.

Definition reg_step (e : RPCEnvironment) (o : reg_op) : option RPCEnvironment :=
  match o with
  | ORegister n c => let* (_, e) := RegisterMessage e n c in Some e
  | ORemove n => RemoveRegisteredMessage e n
  end.

Fixpoint reg_run (e : RPCEnvironment) (os : list reg_op) : option RPCEnvironment :=
  match os with
  | [] => Some e
  | o :: os => let* e := reg_step e o in reg_run e os
  end.

(** The first registration of a string and the last one of an integer count. *)
Definition spec_step (m : gmap (list Z + Z) MessageConverter) (o : reg_op)
  : gmap (list Z + Z) MessageConverter :=
  match o with
  | ORegister n c =>
      match name_key n, m !! name_key n with
      | inl _, Some _ => m
      | _, _ => <[name_key n := mkConverter n c]> m
      end
  | ORemove n => delete (name_key n) m
  end.

Definition spec_run (m : gmap (list Z + Z) MessageConverter) (os : list reg_op)
  : gmap (list Z + Z) MessageConverter := fold_left spec_step os m.

Lemma name_ok_cases n : name_ok n ->
  name_bool n = true /\ ((has_str n = true /\ has_uint n = false /\ name_key n = inl (str n))
    \/ (has_str n = false /\ has_uint n = true /\ name_key n = inr (uint n) /\ 0 < uint n < 2 ^ 20)).
Proof.
  unfold name_bool, name_key, has_str, has_uint. intros [[Hs Hu] | [Hs Hu]].
  - rewrite bool_decide_false, Hu by done. split; [ done | by left ].
  - rewrite bool_decide_true by done. rewrite (proj2 (Z.eqb_neq _ _)) by lia. split; [ done | by right ].
Qed.

Lemma FindConverter_spec e n : name_ok n -> FindConverter e n = Some (slot e (name_key n)).
Proof.
  intros Hn. destruct (name_ok_cases n Hn) as [Hb [(Hs & Hu & ->) | (Hs & Hu & -> & Hr)]];
    unfold FindConverter, IsString, IsUint; rewrite Hb, Hs, ?Hu; [ done | simpl ].
  destruct (Z.ltb_spec (uint n) (zlen (registeredMessagesUint e))) as [Hl | Hl].
  - destruct (vget_is_Some (registeredMessagesUint e) (uint n)) as [x Hx]; [ lia | ]. by rewrite Hx.
  - unfold vget. rewrite (proj2 (Z.ltb_ge _ _)) by lia. rewrite lookup_ge_None_2; [ done | unfold zlen in *; lia ].
Qed.

Lemma pop_null_spec fuel : forall v, (length v <= fuel)%nat ->
  exists v', pop_null fuel v = Some v' /\ (forall u, mjoin (vget v' u) = mjoin (vget v u)) /\ last v' <> Some None.
Proof.
  induction fuel as [|fuel IH]; intros v Hl; cbn [pop_null].
  - destruct v; [ by exists [] | simpl in Hl; lia ].
  - destruct (last v) as [[q|]|] eqn:El; [ by exists v; rewrite El | | by exists v; rewrite El ].
    apply last_Some in El as [v' ->]. rewrite length_app. simpl.
    replace (length v' + 1 - 1)%nat with (length v') by lia. rewrite take_app_length.
    destruct (IH v') as (w & -> & Hw & Hlast); [ rewrite length_app in Hl; simpl in Hl; lia | ].
    exists w. split_and!; [ done | | done ]. intros u. rewrite Hw, vget_snoc.
    destruct (Z.eqb_spec u (zlen v')) as [-> |]; [ | done ]. unfold zlen. rewrite vget_lookup.
    by rewrite lookup_ge_None_2.
Qed.

Lemma delete_live h p : is_Some (h !! p) -> delete_converter h (Some p) = Some (delete p h).
Proof. intros Hp. unfold delete_converter. by rewrite decide_True. Qed.

Lemma vget_beyond {A} (v : list A) u : zlen v <= u -> vget v u = None.
Proof.
  intros Hu. pose proof (zlen_nonneg v). unfold vget. rewrite (proj2 (Z.ltb_ge _ _)) by lia.
  apply lookup_ge_None_2. unfold zlen in *. lia.
Qed.

(** Emptying one slot, and deleting its converter when the name is a string. *)
Definition removed (e e' : RPCEnvironment) (k : list Z + Z) : Prop :=
  (forall k', slot e' k' = if decide (k' = k) then None else slot e k')
  /\ heap e' = match k, slot e k with inl _, Some p => delete p (heap e) | _, _ => heap e end.

Lemma removed_ok e e' k : env_ok e -> removed e e' k ->
  env_ok e' /\ forall k', k' <> k -> registered e' k' = registered e k'.
Proof.
  intros He [Hs Hh].
  assert (forall k' p, k' <> k -> slot e k' = Some p -> heap e' !! p = heap e !! p) as Hk.
  { intros k' p Hne Hp. rewrite Hh. destruct k as [s|u]; [ | done ].
    destruct (slot e (inl s)) as [q|] eqn:Eq; [ | done ].
    destruct (decide (p = q)) as [-> | Hpq]; [ | by rewrite lookup_delete_ne ].
    destruct Hne. by eapply eo_inj. }
  split; [ split | ].
  - intros k' p. rewrite Hs. case_decide; [ done | ]. intros Hp. rewrite (Hk k' p) by done. by eapply eo_live.
  - intros k1 k2 p. rewrite !Hs. repeat case_decide; try done. by apply eo_inj.
  - intros k' Hne. unfold registered. rewrite Hs, decide_False by done.
    destruct (slot e k') as [p|] eqn:Ep; [ by eapply Hk | done ].
Qed.

(** The two statements that empty an entry of the vector: the pointer read afterwards is
    always null. *)
Lemma null_entry_spec (v : list (option nat)) u : 0 <= u ->
  exists v', (if u <? zlen v then
                let* v := vset v u None in let* msgConv := vget v u in Some (v, msgConv)
              else Some (v, None)) = Some (v', None)
    /\ forall i, mjoin (vget v' i) = if decide (i = u) then None else mjoin (vget v i).
Proof.
  intros Hu. destruct (Z.ltb_spec u (zlen v)) as [Hl | Hl].
  - destruct (vset_is_Some v u None) as [v' Ev]; [ lia | ]. rewrite Ev.
    rewrite (vget_vset _ _ _ _ u Ev), Z.eqb_refl. exists v'. split; [ done | ]. intros i.
    rewrite (vget_vset _ _ _ _ i Ev). destruct (Z.eqb_spec i u); by case_decide.
  - exists v. split; [ done | ]. intros i. case_decide; [ subst i | done ]. by rewrite vget_beyond.
Qed.

Lemma RemoveRegistered_spec e n : env_ok e -> name_ok n ->
  exists e', RemoveRegisteredMessage e n = Some e' /\ removed e e' (name_key n).
Proof.
  intros He Hn. unfold RemoveRegisteredMessage, IsString, IsUint.
  destruct (name_ok_cases n Hn) as [Hb [(Hs & Hu & ->) | (Hs & Hu & -> & Hr)]]; rewrite Hb, Hs, ?Hu.
  - destruct (registeredMessagesString e !! str n) as [p|] eqn:Ep.
    + rewrite delete_live by (eapply (eo_live e He (inl (str n))); exact Ep).
      eexists. split; [ done | split ]; [ | simpl; by rewrite Ep ].
      intros [s|u]; cbn [slot registeredMessagesString registeredMessagesUint]; [ | by rewrite decide_False ].
      destruct (decide (s = str n)) as [-> | Hne]; [ by rewrite decide_True, lookup_delete_eq | ].
      rewrite decide_False by congruence. by rewrite lookup_delete_ne.
    + exists e. split; [ done | split ]; [ | simpl; by rewrite Ep ].
      intros k. by case_decide; subst.
  - destruct (null_entry_spec (registeredMessagesUint e) (uint n)) as (v & -> & Hv); [ lia | ].
    destruct (pop_null_spec (length v) v) as (w & -> & Hw & _); [ done | ]. simpl.
    eexists. split; [ done | split ]; [ | done ].
    intros [s|u]; cbn [slot registeredMessagesString registeredMessagesUint]; [ by rewrite decide_False | ]. rewrite Hw, Hv.
    destruct (decide (u = uint n)) as [-> | Hne]; [ by rewrite decide_True | by rewrite decide_False by congruence ].
Qed.

(** Registering: the new converter is allocated; its pointer goes to the slot unless the
    name is a string that has one. *)
Definition added (e e' : RPCEnvironment) (n : RpcName) (c : C) : Prop :=
  exists p, heap e !! p = None /\ heap e' = <[p := mkConverter n c]> (heap e)
    /\ forall k, slot e' k =
         if decide (k = name_key n) then
           match k, slot e k with inl _, Some q => Some q | _, _ => Some p end
         else slot e k.

Lemma added_ok e e' n c : env_ok e -> added e e' n c ->
  env_ok e' /\ forall k, registered e' k =
    if decide (k = name_key n) then
      match k, registered e k with inl _, Some q => Some q | _, _ => Some (mkConverter n c) end
    else registered e k.
Proof.
  intros He (p & Hp & Hh & Hs).
  assert (forall k q, slot e k = Some q -> q <> p /\ heap e' !! q = heap e !! q) as Hq.
  { intros k q Hk. destruct (eo_live e He k q Hk) as [x Hx].
    assert (q <> p) by congruence. by rewrite Hh, lookup_insert_ne by done. }
  assert (forall k q, slot e' k = Some q -> (q = p /\ k = name_key n) \/ slot e k = Some q) as Hcase.
  { intros k q. rewrite Hs. case_decide; [ | by right ].
    destruct k as [s|u]; [ destruct (slot e (inl s)) eqn:E | ]; intros [= <-]; auto. }
  split; [ split | ].
  - intros k q [[-> _] | Hk]%Hcase; [ by rewrite Hh, lookup_insert_eq | ].
    rewrite (proj2 (Hq k q Hk)). by eapply eo_live.
  - intros k k' q [[-> ->] | Hk]%Hcase [[Eq ->] | Hk']%Hcase; try done;
      [ by destruct (Hq _ _ Hk') | subst q; by destruct (Hq _ _ Hk) | by eapply eo_inj ].
  - intros k. unfold registered. rewrite Hs. case_decide as Ek.
    + assert (heap e' !! p = Some (mkConverter n c)) as Hp' by (rewrite Hh; apply lookup_insert_eq).
      destruct k as [s|u]; [ | done ]. destruct (slot e (inl s)) as [q|] eqn:E; [ | done ].
      destruct (eo_live e He _ _ E) as [x Hx]. rewrite (proj2 (Hq _ _ E)), Hx. done.
    + destruct (slot e k) as [q|] eqn:E; [ | done ]. by apply (Hq _ _ E).
Qed.

Lemma Register_spec e n c : name_ok n ->
  exists p e', RegisterMessage e n c = Some (p, e') /\ added e e' n c.
Proof.
  intros Hn. unfold RegisterMessage, RegisterAnyMessage, IsString, IsUint. cbn [heap registeredMessagesString registeredMessagesUint].
  set (p := fresh (dom (heap e))).
  assert (heap e !! p = None) as Hp by (apply not_elem_of_dom, is_fresh).
  rewrite lookup_insert_eq, insert_insert_eq. cbn [fn].
  destruct (name_ok_cases n Hn) as [Hb [(Hs & Hu & Ek) | (Hs & Hu & Ek & Hr)]]; rewrite Hb, Hs, ?Hu.
  - destruct (registeredMessagesString e !! str n) as [q|] eqn:Eq; eexists p, _; (split; [ done | ]);
      exists p; rewrite Ek; (split_and!; [ done | done | ]); intros [s|u]; cbn [slot registeredMessagesString registeredMessagesUint]; try by rewrite decide_False.
    + destruct (decide (s = str n)) as [-> | Hne]; [ by rewrite decide_True, Eq | by rewrite decide_False by congruence ].
    + destruct (decide (s = str n)) as [-> | Hne]; [ by rewrite decide_True, lookup_insert_eq, Eq | ].
      by rewrite decide_False, lookup_insert_ne by congruence.
  - set (v := if _ <=? _ then _ else _).
    assert (uint n < zlen v /\ forall u, mjoin (vget v u) = mjoin (vget (registeredMessagesUint e) u)) as [Hl Hv].
    { subst v. pose proof (zlen_nonneg (registeredMessagesUint e)). rewrite u32_small by (unfold is_u32; lia).
      destruct (Z.leb_spec (zlen (registeredMessagesUint e)) (uint n)); [ | done ].
      rewrite zlen_vresize by lia. split; [ lia | ]. intros u. rewrite vget_vresize by lia.
      repeat case_match; try done; by rewrite vget_beyond by lia. }
    destruct (vset_is_Some v (uint n) (Some p)) as [w Ew]; [ lia | ]. rewrite Ew. eexists p, _. split; [ done | ].
    exists p. rewrite Ek. split_and!; [ done | done | ].
    intros [s|u]; cbn [slot registeredMessagesString registeredMessagesUint]; [ by rewrite decide_False | ]. rewrite (vget_vset _ _ _ _ u Ew).
    destruct (Z.eqb_spec u (uint n)) as [-> | Hne]; [ by rewrite decide_True | by rewrite decide_False, Hv by congruence ].
Qed.

Lemma reg_step_spec e m o : env_ok e -> name_ok (op_name o) ->
  (forall k, registered e k = m !! k) ->
  exists e', reg_step e o = Some e' /\ env_ok e' /\ forall k, registered e' k = spec_step m o !! k.
Proof.
  intros He Hn Hm. destruct o as [n c | n]; cbn [op_name reg_step spec_step] in *.
  - destruct (Register_spec e n c Hn) as (p & e' & -> & Ha).
    destruct (added_ok e e' n c He Ha) as [He' Hr]. exists e'. split_and!; try done. intros k.
    rewrite Hr. case_decide as Ek; [ subst k | ].
    + destruct (name_key n) as [s|u]; rewrite ?Hm; [ destruct (m !! _) eqn:Em | ]; rewrite ?lookup_insert_eq; done.
    + rewrite Hm. destruct (name_key n) as [s|u]; [ destruct (m !! inl s) | ]; rewrite ?lookup_insert_ne by congruence; done.
  - destruct (RemoveRegistered_spec e n He Hn) as (e' & -> & Hrm). destruct (removed_ok e e' _ He Hrm) as [He' Hr].
    exists e'. split_and!; try done. intros k. destruct (decide (k = name_key n)) as [-> | Hne].
    + unfold registered. rewrite (proj1 Hrm), decide_True, lookup_delete_eq by done. done.
    + by rewrite Hr, Hm, lookup_delete_ne by congruence.
Qed.

Lemma reg_run_spec os : forall e m, env_ok e -> Forall (fun o => name_ok (op_name o)) os ->
  (forall k, registered e k = m !! k) ->
  exists e', reg_run e os = Some e' /\ env_ok e' /\ forall k, registered e' k = spec_run m os !! k.
Proof.
  induction os as [|o os IH]; intros e m He Hos Hm; cbn [reg_run]; [ by exists e | ].
  apply Forall_cons in Hos as [Ho Hos].
  destruct (reg_step_spec e m o He Ho Hm) as (e1 & -> & He1 & Hm1). by apply IH.
Qed.

Lemma registry_init_ok : env_ok RPCEnvironment_init.
Proof. by split; intros [s|u]; cbn [slot RPCEnvironment_init registeredMessagesString registeredMessagesUint];
         rewrite ?lookup_empty, ?vget_nil. Qed.

Lemma run_from_init os : Forall (fun o => name_ok (op_name o)) os ->
  exists e, reg_run RPCEnvironment_init os = Some e /\ env_ok e /\ forall k, registered e k = spec_run ∅ os !! k.
Proof.
  intros Hos. apply reg_run_spec; [ apply registry_init_ok | done | ]. intros [s|u]; unfold registered;
    cbn [slot RPCEnvironment_init registeredMessagesString registeredMessagesUint]; by rewrite ?lookup_empty, ?vget_nil.
Qed.

(** ** The destructor *)

Lemma delete_all_spec ps : forall h,
  NoDup (omap id ps) -> Forall (fun p => is_Some (h !! p)) (omap id ps) ->
  exists h', delete_all h ps = Some h' /\ forall q, h' !! q = if decide (q ∈ omap id ps) then None else h !! q.
Proof.
  induction ps as [|[p|] ps IH]; intros h Hnd Hl; cbn [delete_all omap list_omap id] in *.
  - exists h. split; [ done | ]. intros q. rewrite decide_False; [ done | apply not_elem_of_nil ].
  - apply NoDup_cons in Hnd as [Hp Hnd]. apply Forall_cons in Hl as [Hp' Hl].
    rewrite delete_live by done. destruct (IH (delete p h)) as (h' & -> & Hh'); [ done | | ].
    { apply Forall_forall. intros q Hq. rewrite lookup_delete_ne; [ | by intros -> ].
      by eapply Forall_forall in Hl. }
    exists h'. split; [ done | ]. intros q. rewrite Hh'.
    destruct (decide (q = p)) as [-> | Hne].
    + rewrite decide_False, decide_True, lookup_delete_eq by (done || by left). done.
    + rewrite lookup_delete_ne by done. repeat case_decide; set_solver.
  - by apply IH.
Qed.

(** All pointers the environment holds. *)
Definition pointers (e : RPCEnvironment) : list (option nat) :=
  (Some <$> (map_to_list (registeredMessagesString e)).*2) ++ registeredMessagesUint e.

Lemma delete_all_app ps ps' h :
  delete_all h (ps ++ ps') = let* h := delete_all h ps in delete_all h ps'.
Proof. revert h. induction ps as [|p ps IH]; intros h; simpl; [ done | ]. by destruct (delete_converter h p). Qed.

Lemma elem_pointers e p : p ∈ omap id (pointers e) <-> exists k, slot e k = Some p.
Proof.
  unfold pointers. rewrite omap_app, elem_of_app, !list_elem_of_omap. split.
  - intros [(x & Hx & Ex) | (x & Hx & Ex)]; simpl in Ex; subst x.
    + apply list_elem_of_fmap in Hx as (q & [= <-] & Hq). apply list_elem_of_fmap in Hq as ([s q] & -> & Hq).
      exists (inl s). by apply elem_of_map_to_list.
    + apply elem_vget in Hx as [u Hu]. exists (inr u). simpl. by rewrite Hu.
  - intros [[s|u] Hk]; [ left | right ]; exists (Some p); (split; [ | done ]).
    + apply list_elem_of_fmap. exists p. split; [ done | ]. apply list_elem_of_fmap. exists (s, p).
      split; [ done | ]. by apply elem_of_map_to_list.
    + simpl in Hk. destruct (vget _ u) as [[q|]|] eqn:E; simpl in Hk; try done. simplify_eq. by eapply vget_elem.
Qed.

Lemma omap_id_NoDup (v : list (option nat)) :
  (forall i j p, v !! i = Some (Some p) -> v !! j = Some (Some p) -> i = j) -> NoDup (omap id v).
Proof.
  induction v as [|[p|] v IH]; intros Hv; cbn [omap list_omap id]; [ constructor | | ].
  - apply NoDup_cons. split.
    + intros (x & Hx & Ex)%list_elem_of_omap. simpl in Ex. subst x. apply list_elem_of_lookup in Hx as [i Hi].
      by pose proof (Hv 0%nat (S i) p eq_refl Hi).
    + apply IH. intros i j q Hi Hj. by pose proof (Hv (S i) (S j) q Hi Hj) as [= ->].
  - apply IH. intros i j q Hi Hj. by pose proof (Hv (S i) (S j) q Hi Hj) as [= ->].
Qed.

Lemma pointers_NoDup e : env_ok e -> NoDup (omap id (pointers e)).
Proof.
  intros He. unfold pointers. rewrite omap_app. apply NoDup_app. split_and!.
  - assert (omap id (Some <$> (map_to_list (registeredMessagesString e)).*2) = (map_to_list (registeredMessagesString e)).*2) as ->.
    { generalize (map_to_list (registeredMessagesString e)).*2. intros l. induction l as [|x l IH]; [ done | ].
      simpl. by f_equal. }
    apply NoDup_fmap_2_strong; [ | apply NoDup_map_to_list ].
    intros [s p] [s' p'] Hs%elem_of_map_to_list Hs'%elem_of_map_to_list Ep. simpl in Ep. subst p'.
    pose proof (eo_inj e He (inl s) (inl s') p Hs Hs'). congruence.
  - intros p (x & Hx & Ex)%list_elem_of_omap (y & Hy & Ey)%list_elem_of_omap. simpl in Ex, Ey. subst x y.
    apply list_elem_of_fmap in Hx as (q & [= <-] & Hq). apply list_elem_of_fmap in Hq as ([s q] & -> & Hq%elem_of_map_to_list).
    apply elem_vget in Hy as [u Hu].
    by pose proof (eo_inj e He (inl s) (inr u) _ Hq ltac:(simpl; by rewrite Hu)).
  - apply omap_id_NoDup. intros i j p Hi Hj. rewrite <- vget_lookup in Hi, Hj.
    pose proof (eo_inj e He (inr (Z.of_nat i)) (inr (Z.of_nat j)) p ltac:(simpl; by rewrite Hi) ltac:(simpl; by rewrite Hj)) as [= ?].
    lia.
Qed.

Lemma destroy_spec e : env_ok e ->
  exists e', RPCEnvironment_destroy e = Some e'
    /\ forall p, heap e' !! p = if decide (p ∈ omap id (pointers e)) then None else heap e !! p.
Proof.
  intros He. destruct (delete_all_spec (pointers e) (heap e)) as (h & Eh & Hh).
  - by apply pointers_NoDup.
  - apply Forall_forall. intros p [k Hk]%elem_pointers. by eapply eo_live.
  - unfold RPCEnvironment_destroy, pointers in *. rewrite delete_all_app in Eh.
    destruct (delete_all (heap e) _) as [h1|]; [ | done ]. rewrite Eh. by eexists.
Qed.

(** ** Claims *)

(** C28: after any registrations and removals, with names that the constructors build, no
    assertion failed and no converter was deleted twice; the lookup of a call finds, for
    every name, the function that was registered under it (of several registrations of a
    string the first, of an integer the last), nothing for a removed or unknown name, and
    never a deleted converter. *)
Theorem registry_refines_map os :
  Forall (fun o => name_ok (op_name o)) os ->
  exists e, reg_run RPCEnvironment_init os = Some e
    /\ forall n, name_ok n -> exists o, FindConverter e n = Some o
         /\ (let* p := o in heap e !! p) = spec_run ∅ os !! name_key n
         /\ (spec_run ∅ os !! name_key n = None -> o = None).
Proof.
  intros Hos. destruct (run_from_init os Hos) as (e & E & He & Hr).
  exists e. split; [ done | ]. intros n Hn. exists (slot e (name_key n)). rewrite FindConverter_spec by done.
  specialize (Hr (name_key n)) as Hk. unfold registered in Hk. split_and!; [ done | done | ].
  rewrite <- Hk. destruct (slot e (name_key n)) as [p|] eqn:Ep; [ | done ].
  destruct (eo_live e He _ _ Ep) as [c Hc]. by rewrite Hc.
Qed.

(** The destructor deletes exactly the converters the environment still points to, each
    once; a converter no name leads to stays allocated. *)
Theorem destructor_deletes_the_registered os e :
  Forall (fun o => name_ok (op_name o)) os -> reg_run RPCEnvironment_init os = Some e ->
  exists e', RPCEnvironment_destroy e = Some e'
    /\ forall p, (heap e' !! p = None <-> heap e !! p = None \/ exists k, slot e k = Some p)
         /\ (heap e' !! p <> None -> heap e' !! p = heap e !! p).
Proof.
  intros Hos E. destruct (run_from_init os Hos) as (e1 & E1 & He & _). simplify_eq.
  destruct (destroy_spec e He) as (e' & Ed & Hh). exists e'. split; [ done | ]. intros p. rewrite Hh.
  pose proof (elem_pointers e p) as Hp. case_decide; naive_solver.
Qed.

(** Removing a function with an integer name empties its entry before it reads the
    pointer to delete: the converter stays allocated although nothing points to it any more,
    while the converter of a string name is deleted. *)
Theorem removed_uint_function_leaks os e n p :
  Forall (fun o => name_ok (op_name o)) os -> reg_run RPCEnvironment_init os = Some e ->
  name_ok n -> slot e (name_key n) = Some p ->
  exists e', RemoveRegisteredMessage e n = Some e' /\ (forall k, slot e' k <> Some p)
    /\ heap e' !! p = if has_str n then None else heap e !! p.
Proof.
  intros Hos E Hn Hp. destruct (run_from_init os Hos) as (e1 & E1 & He & _). simplify_eq.
  destruct (RemoveRegistered_spec e n He Hn) as (e' & Er & Hs & Hh). exists e'. split_and!; [ done | | ].
  - intros k. rewrite Hs. case_decide; [ done | ]. intros Hk. by destruct (eo_inj e He _ _ _ Hk Hp).
  - rewrite Hh. unfold name_key in *. destruct (has_str n); [ rewrite Hp; apply lookup_delete_eq | done ].
Qed.

End Registry.

(** ** Witnesses *)

Definition ping : RpcName := mkName [112; 105; 110; 103] 0.
Definition seven : RpcName := mkName [] 7.

Definition sample_registrations : list (@reg_op nat) :=
  [ORegister ping 1%nat; ORegister seven 2%nat; ORegister ping 3%nat; ORegister seven 4%nat;
   ORegister (mkName [] 9) 5%nat; ORemove (mkName [] 9)].

Definition sample_env : @RPCEnvironment nat :=
  default RPCEnvironment_init (reg_run RPCEnvironment_init sample_registrations).

Lemma sample_names_ok : Forall (fun o => name_ok (op_name o)) sample_registrations.
Proof.
  unfold sample_registrations. repeat (apply Forall_cons; split); [ .. | by apply Forall_nil ];
    unfold name_ok; simpl; first [ left; done | right; split; [ done | lia ] ].
Qed.

Lemma registry_refines_map_witness :
  exists e, reg_run RPCEnvironment_init sample_registrations = Some e
    /\ forall n, name_ok n -> exists o, FindConverter e n = Some o
         /\ (let* p := o in heap e !! p) = spec_run ∅ sample_registrations !! name_key n
         /\ (spec_run ∅ sample_registrations !! name_key n = None -> o = None).
Proof. apply (registry_refines_map sample_registrations), sample_names_ok. Defined.

Lemma destructor_deletes_the_registered_witness :
  exists e', RPCEnvironment_destroy sample_env = Some e'
    /\ forall p, (heap e' !! p = None <-> heap sample_env !! p = None \/ exists k, slot sample_env k = Some p)
         /\ (heap e' !! p <> None -> heap e' !! p = heap sample_env !! p).
Proof.
  apply (destructor_deletes_the_registered sample_registrations sample_env).
  - apply sample_names_ok.
  - vm_compute. reflexivity.
Defined.

Lemma removed_uint_function_leaks_witness :
  exists e' p, RemoveRegisteredMessage sample_env seven = Some e' /\ (forall k, slot e' k <> Some p)
    /\ heap e' !! p = if has_str seven then None else heap sample_env !! p.
Proof.
  destruct (slot sample_env (name_key seven)) as [p|] eqn:Ep; [ | vm_compute in Ep; discriminate Ep ].
  destruct (removed_uint_function_leaks sample_registrations sample_env seven p) as [e' H].
  - apply sample_names_ok.
  - vm_compute. reflexivity.
  - right. split; [ reflexivity | simpl; lia ].
  - exact Ep.
  - exists e', p. exact H.
Defined.

End RpcRegistry.
