(* ===== verification/RpcDispatch.v ===== *)
(** * Receiving calls and answers (RPCEnvironment, MessageConverter, Peer)

    The path of received bytes: [PeerData::_InternalOnData] counts them and feeds the frame
    decoder, whose callback [_InternalOnPacket] passes a frame to [RPCEnvironment::OnReceive].
    A call names its function; its converter reads the arguments and runs the function at
    once or in the queue it selects, and the result goes back in an answer frame. The
    functions of users and the serialisation of values (bitscpp) are parameters. *)

From S2P Require Import Prelude FlatHashMap MemoryPool ByteBuffer FramingProtocol FrameDecoder.
From S2P Require Import RpcCalls RpcRegistry.

(** What [RpcName] and [OnReceiveCall] rely on of the typed values of bitscpp. A reading
    operation gives the value, the remaining bytes and the error bits it sets. *)
Class NameCodec `{U32Codec} := {
  u32_errors : list Z -> Z;
  is_next_integer : list Z -> bool;
  is_next_string : list Z -> bool;
  get_uint : list Z -> Z * list Z * Z;
  get_str : list Z -> list Z * list Z * Z;
  put_uint : Z -> list Z;
  put_str : list Z -> list Z;
  put_object : list Z;
  u32_errors_ok : forall x rest, u32_errors (put_u32 x ++ rest) = 0;
  put_uint_next : forall x rest, is_next_integer (put_uint x ++ rest) = true;
  put_str_next : forall s rest,
    is_next_integer (put_str s ++ rest) = false /\ is_next_string (put_str s ++ rest) = true;
  put_object_next : forall rest,
    is_next_integer (put_object ++ rest) = false /\ is_next_string (put_object ++ rest) = false;
  get_put_uint : forall x rest, is_u32 x -> get_uint (put_uint x ++ rest) = (x, rest, 0);
  get_put_str : forall s rest, zlen s < 2 ^ 28 -> get_str (put_str s ++ rest) = (s, rest, 0);
  put_uint_bytes : forall x, Forall is_u8 (put_uint x);
  put_str_bytes : forall s, Forall is_u8 s -> Forall is_u8 (put_str s)
}.

Module RpcDispatch.
Import FramingProtocol FrameDecoder RpcCalls RpcRegistry.

(** [ByteReader]: the bytes from its offset on and its error bits. *)
Record ByteReader := mkReader { rest : list Z; errors : Z }.

Section Dispatch.
Context `{Allocator} `{NameCodec}.
Context {T : Type} {MI : MapImpl T Z OnReturnCallback}.
(** The values that user-defined arguments deserialise to. *)
Context {V : Type}.

Definition op_untyped_uint32 (r : ByteReader) : Z * ByteReader :=
  let '(x, l) := get_u32 (rest r) in (x, mkReader l (Z.lor (errors r) (u32_errors (rest r)))).

(** [RpcName::serialize] for reading and for writing. *)
Definition RpcName_read (r : ByteReader) : RpcName * ByteReader :=
  if is_next_integer (rest r) then
    let '(x, l, e) := get_uint (rest r) in (mkName [] x, mkReader l (Z.lor (errors r) e))
  else if is_next_string (rest r) then
    let '(s, l, e) := get_str (rest r) in (mkName s 0, mkReader l (Z.lor (errors r) e))
  else
    let '(_, l, e) := get_uint (rest r) in (mkName [] 0, mkReader l (Z.lor (errors r) e)).

Definition RpcName_write (n : RpcName) : option (list Z) :=
  if negb (bool_decide (str n = [])) then
    assert* uint n =? 0 in Some (put_str (str n))
  else if negb (uint n =? 0) then
    assert* bool_decide (str n = []) in Some (put_uint (uint n))
  else Some put_object.

(** The overloads of [PeerFlagsArgumentsReader::ReadType]: what an argument of a remote
    function is filled with. [AReader] is the pointer to the reader of the call. *)
Inductive ArgKind :=
| KFlags | KHost | KPeer | KReader | KQueue
| KValue (deserialize : list Z -> V * list Z * Z).

Inductive ArgValue :=
| AFlags (flags : Z) | AHost (host : nat) | APeer (peer : nat) | AReader | AQueue (queue : nat)
| AValue (x : V).

(** What a converter holds: [onReceive] is the user's function, its result the bytes of the
    serialised return value, [None] for [void]. Queues are numbered. *)
Record Function := mkFunction {
  _executionQueue : option nat;
  getExecutionQueue : option (nat -> ByteReader -> Z -> option nat * ByteReader);
  args : list ArgKind;
  onReceive : list ArgValue -> ByteReader -> option (list Z)
}.

Notation Converter := (@MessageConverter Function).
Notation Environment := (@RPCEnvironment Function).

(** [commands::internal::ExecuteRPC]; [messageConverter] is the pointer. *)
Record ExecuteRPC := mkExecuteRPC {
  reader : ByteReader;
  messageConverter : nat;
  flags : Z;
  returnId : Z;
  queue : nat
}.

(** The counters of received data that peer, host and loop each keep. *)
Record Stats := mkStats {
  bytesReceived : Z;
  packetsReceived : Z;
  framesReceived : Z;
  errorsCount : Z
}.

(** [PeerData] as the receiving side sees it: [calls] is the state of its own calls,
    [peerAlive] tells whether [peerHandle.GetLocalPeerData()] finds the peer, [executed]
    records the executed functions, [queued] the commands put into queues and [warnings]
    counts the log entries. *)
Record Peer := mkPeer {
  calls : PeerCalls (T := T);
  peerHandle : nat;
  host : nat;
  loopQueue : nat;
  peerAlive : bool;
  executed : list (RpcName * list ArgValue);
  queued : list ExecuteRPC;
  peerStats : Stats;
  hostStats : Stats;
  loopStats : Stats;
  warnings : Z
}.

Definition set_calls (p : Peer) (c : PeerCalls (T := T)) : Peer :=
  mkPeer c (peerHandle p) (host p) (loopQueue p) (peerAlive p) (executed p) (queued p)
    (peerStats p) (hostStats p) (loopStats p) (warnings p).

Definition add_executed (p : Peer) (x : RpcName * list ArgValue) : Peer :=
  mkPeer (calls p) (peerHandle p) (host p) (loopQueue p) (peerAlive p) (executed p ++ [x]) (queued p)
    (peerStats p) (hostStats p) (loopStats p) (warnings p).

Definition EnqueueCommand (p : Peer) (c : ExecuteRPC) : Peer :=
  mkPeer (calls p) (peerHandle p) (host p) (loopQueue p) (peerAlive p) (executed p) (queued p ++ [c])
    (peerStats p) (hostStats p) (loopStats p) (warnings p).

Definition log (p : Peer) : Peer :=
  mkPeer (calls p) (peerHandle p) (host p) (loopQueue p) (peerAlive p) (executed p) (queued p)
    (peerStats p) (hostStats p) (loopStats p) (warnings p + 1).

(** The same update of all three statistics. *)
Definition count (p : Peer) (f : Stats -> Stats) : Peer :=
  mkPeer (calls p) (peerHandle p) (host p) (loopQueue p) (peerAlive p) (executed p) (queued p)
    (f (peerStats p)) (f (hostStats p)) (f (loopStats p)) (warnings p).

Definition add_bytes (n : Z) (s : Stats) : Stats :=
  mkStats (bytesReceived s + n) (packetsReceived s + 1) (framesReceived s) (errorsCount s).
Definition add_frame (s : Stats) : Stats :=
  mkStats (bytesReceived s) (packetsReceived s) (framesReceived s + 1) (errorsCount s).
Definition add_error (s : Stats) : Stats :=
  mkStats (bytesReceived s) (packetsReceived s) (framesReceived s) (errorsCount s + 1).

(** [PeerData::Send] of a finished frame. *)
Definition Send (p : Peer) (frame : list Z) : Peer :=
  set_calls p (mkCalls (returnIdGen (calls p)) (returningCallbacks (calls p)) (events (calls p))
                 (frames (calls p) ++ [frame])).

(** ** Executing a function *)

Definition ReadType (p : Peer) (q : nat) (flags : Z) (r : ByteReader) (k : ArgKind)
  : ArgValue * ByteReader :=
  match k with
  | KFlags => (AFlags flags, r)
  | KHost => (AHost (host p), r)
  | KPeer => (APeer (peerHandle p), r)
  | KReader => (AReader, r)
  | KQueue => (AQueue q, r)
  | KValue d => let '(x, l, e) := d (rest r) in (AValue x, mkReader l (Z.lor (errors r) e))
  end.

Fixpoint read_args (p : Peer) (q : nat) (flags : Z) (r : ByteReader) (ks : list ArgKind)
  : list ArgValue * ByteReader :=
  match ks with
  | [] => ([], r)
  | k :: ks =>
      let '(x, r) := ReadType p q flags r k in
      let '(xs, r) := read_args p q flags r ks in
      (x :: xs, r)
  end.

Definition MessageReturnExecutor_Execute (p : Peer) (c : Converter) (xs : list ArgValue)
  (r : ByteReader) (flags returnId : Z) : option Peer :=
  let ret := onReceive (fn c) xs r in
  let p := add_executed p (name c, xs) in
  if negb (returnId =? 0) && (Z.land flags 6 =? FLAGS_CALL) then
    let* buf := ByteBufferWritable_capacity 100 in
    let* buf := append buf (put_u32 returnId) in
    let* buf := match ret with Some l => append buf l | None => Some buf end in
    let* buf := WriteHeaderIntoBuffer buf (Z.lor (Z.lxor (Z.lor flags 6) 6) FLAGS_CALL_RETURN_FEEDBACK) in
    assert* peerAlive p in
    Some (Send p (contents buf))
  else if negb (returnId =? 0) then Some (log p)
  else Some p.

Definition DeserializeAndExecute (p : Peer) (c : Converter) (q : nat) (r : ByteReader)
  (flags returnId : Z) : option Peer :=
  assert* name_bool (name c) in
  let '(xs, r) := read_args p q flags r (args (fn c)) in
  if negb (errors r =? 0) then Some (log p)
  else MessageReturnExecutor_Execute p c xs r flags returnId.

Definition ExecuteGetQueue (p : Peer) (c : Converter) (r : ByteReader) (flags : Z)
  : option (option nat * ByteReader) :=
  assert* name_bool (name c) in
  match _executionQueue (fn c) with
  | Some q => Some (Some q, r)
  | None =>
      match getExecutionQueue (fn c) with
      | Some f => Some (f (peerHandle p) r flags)
      | None => Some (None, r)
      end
  end.

(** [ExecuteRPC::Execute]: the pointer is dereferenced. *)
Definition ExecuteRPC_Execute (e : Environment) (p : Peer) (c : ExecuteRPC) : option Peer :=
  let* conv := heap e !! messageConverter c in
  DeserializeAndExecute p conv (queue c) (reader c) (flags c) (returnId c).

(** ** Dispatch *)

Definition OnReceiveCall (e : Environment) (p : Peer) (r : ByteReader) (flags : Z)
  : option (Peer * fate) :=
  let '(returnId, r) :=
    if Z.land flags 6 =? FLAGS_CALL then op_untyped_uint32 r else (0, r) in
  let '(n, r) := RpcName_read r in
  let* msgConv := FindConverter e n in
  match msgConv with
  | Some ptr =>
      let* conv := heap e !! ptr in
      let* (q, r) := ExecuteGetQueue p conv r flags in
      match q with
      | Some q => Some (EnqueueCommand p (mkExecuteRPC r ptr flags returnId q), Taken)
      | None =>
          let* p := DeserializeAndExecute p conv (loopQueue p) r flags returnId in
          Some (p, Released)
      end
  | None => Some (log p, Released)
  end.

(** [RPCEnvironment::OnReceiveReturn]: the state of the calls is that of [RpcCalls]; a found
    callback takes the reader with it. *)
Definition OnReceiveReturn (p : Peer) (r : ByteReader) (flags : Z) : option (Peer * fate) :=
  let* cb := map_get (returningCallbacks (calls p)) (get_u32 (rest r)).1 in
  let* c := RpcCalls.OnReceiveReturn (calls p) flags (rest r) in
  Some (if cb then (set_calls p c, Taken) else (log (set_calls p c), Released)).

Definition OnReceive_reader (e : Environment) (p : Peer) (r : ByteReader) (flags : Z)
  : option (Peer * fate) :=
  assert* errors r =? 0 in
  let ty := Z.land flags 6 in
  if (ty =? FLAGS_CALL) || (ty =? FLAGS_CALL_NO_FEEDBACK) then OnReceiveCall e p r flags
  else if ty =? FLAGS_CALL_RETURN_FEEDBACK then OnReceiveReturn p r flags
  else Some (log p, Released).

Definition OnReceive (e : Environment) (p : Peer) (frameData : list Z) (headerSize flags : Z)
  : option (Peer * fate) :=
  let* flags := GetPacketFlags frameData flags in
  OnReceive_reader e p (mkReader (drop (Z.to_nat headerSize) frameData) 0) flags.

(** Both functions that handle a control sequence only count an error. *)
Definition _InternalOnPacketWithControllSequenceBackend (p : Peer) (buffer : list Z)
  (headerSize : Z) : option (Peer * fate) :=
  let* vectorCall := vget buffer headerSize in
  Some (log (count p add_error), Released).

Definition _InternalOnPacketWithControllSequence (p : Peer) (buffer : list Z) (headerSize : Z)
  : option (Peer * fate) :=
  let* vectorCall := vget buffer headerSize in
  if vectorCall <=? 0x7F then Some (log (count p add_error), Released)
  else _InternalOnPacketWithControllSequenceBackend p buffer headerSize.

Definition _InternalOnPacket (e : Environment) (p : Peer) (buffer : list Z) (headerSize : Z)
  : option (Peer * fate) :=
  let p := count p add_frame in
  if zlen buffer =? headerSize then Some (log (count p add_error), Released)
  else
    let* f := GetPacketFlags buffer 0 in
    if Z.land f FLAGS_PROTOCOL_CONTROLL_SEQUENCE =? FLAGS_PROTOCOL_CONTROLL_SEQUENCE then
      _InternalOnPacketWithControllSequence p buffer headerSize
    else OnReceive e p buffer headerSize FLAG_RELIABLE.

(** The callback for the decoder; [None] is a program that has stopped. *)
Definition _Internal_static_OnPacket (e : Environment) (p : option Peer) (buffer : list Z)
  (headerSize : Z) : option Peer * fate :=
  match p with
  | None => (None, Released)
  | Some p =>
      match _InternalOnPacket e p buffer headerSize with
      | Some (p, ft) => (Some p, ft)
      | None => (None, Released)
      end
  end.

(** [sole]: whether the decoder's spare buffer has no other handle, at each restart. *)
Context (sole : option Peer -> bool).

Definition _InternalOnData (e : Environment) (d : FrameDecoder) (p : Peer) (data : list Z)
  : option (FrameDecoder * Peer) :=
  let p := count p (add_bytes (zlen data)) in
  let* (d, p) := PushData sole (Some (_Internal_static_OnPacket e)) d data (Some p) in
  let* p := p in
  Some (d, p).

(** The received pieces of a stream, one after the other. *)
Fixpoint on_data_chunks (e : Environment) (d : FrameDecoder) (p : Peer) (chunks : list (list Z))
  : option (FrameDecoder * Peer) :=
  match chunks with
  | [] => Some (d, p)
  | c :: chunks => let* (d, p) := _InternalOnData e d p c in on_data_chunks e d p chunks
  end.

(** ** Names *)

Lemma RpcName_round_trip_spec n : name_ok n -> zlen (str n) < 2 ^ 28 ->
  exists l, RpcName_write n = Some l
    /\ forall more e, RpcName_read (mkReader (l ++ more) e) = (n, mkReader more e).
Proof.
  destruct n as [s u]. unfold RpcName_write, RpcName_read. intros [[Hs Hu] | [Hs Hu]] Hz; cbn [str uint rest errors] in *.
  - rewrite bool_decide_false by done. subst u. simpl. exists (put_str s). split; [ done | ]. intros more e.
    destruct (put_str_next s more) as [-> ->]. by rewrite get_put_str, Z.lor_0_r by done.
  - subst s. rewrite bool_decide_true by done. rewrite (proj2 (Z.eqb_neq u 0)) by lia. simpl.
    exists (put_uint u). split; [ done | ]. intros more e.
    rewrite put_uint_next, get_put_uint by (unfold is_u32; lia). by rewrite Z.lor_0_r.
Qed.

(** ** Packets *)

Lemma read_args_count p f q flags ks : forall r, read_args (count p f) q flags r ks = read_args p q flags r ks.
Proof.
  induction ks as [|k ks IH]; intros r; [ done | ]. cbn [read_args].
  replace (ReadType (count p f) q flags r k) with (ReadType p q flags r k) by (by destruct k).
  destruct (ReadType p q flags r k) as [x r']. by rewrite IH.
Qed.

Lemma execute_count p f c q r fl id :
  DeserializeAndExecute (count p f) c q r fl id
  = let* p := DeserializeAndExecute p c q r fl id in Some (count p f).
Proof.
  unfold DeserializeAndExecute. destruct (name_bool (name c)); [ | done ]. rewrite read_args_count.
  destruct (read_args p q fl r (args (fn c))) as [xs r']. destruct (negb (errors r' =? 0)); [ done | ].
  unfold MessageReturnExecutor_Execute. destruct (negb (id =? 0) && _); [ | by destruct (negb (id =? 0)) ].
  destruct (ByteBufferWritable_capacity 100) as [b0|]; [ | done ].
  destruct (append b0 (put_u32 id)) as [b1|]; [ | done ].
  destruct (match onReceive (fn c) xs r' with Some _ => _ | None => _ end) as [b2|]; [ | done ].
  destruct (WriteHeaderIntoBuffer b2 _) as [b3|]; [ | done ]. by destruct (peerAlive p) eqn:E; cbn [peerAlive count add_executed]; rewrite E.
Qed.

Lemma call_count e p f r fl :
  OnReceiveCall e (count p f) r fl = let* (p, ft) := OnReceiveCall e p r fl in Some (count p f, ft).
Proof.
  unfold OnReceiveCall. destruct (if Z.land fl 6 =? FLAGS_CALL then _ else _) as [id r1].
  destruct (RpcName_read r1) as [n r2]. destruct (FindConverter e n) as [[ptr|]|]; [ | done | done ].
  destruct (heap e !! ptr) as [conv|]; [ | done ]. unfold ExecuteGetQueue. cbn [peerHandle count].
  destruct (if name_bool (name conv) then _ else None) as [[[q|] r3]|]; [ done | | done ].
  rewrite execute_count. cbn [loopQueue count].
  by destruct (DeserializeAndExecute p conv (loopQueue p) r3 fl id).
Qed.

(** The statistics do not influence what a packet does. *)
Lemma packet_count e p n b h :
  _InternalOnPacket e (count p (add_bytes n)) b h
  = let* (p, ft) := _InternalOnPacket e p b h in Some (count p (add_bytes n), ft).
Proof.
  unfold _InternalOnPacket.
  change (count (count p (add_bytes n)) add_frame) with (count (count p add_frame) (add_bytes n)).
  generalize (count p add_frame). clear p. intros p.
  destruct (zlen b =? h); [ done | ]. destruct (GetPacketFlags b 0) as [f|]; [ | done ].
  destruct (Z.land f _ =? _).
  { unfold _InternalOnPacketWithControllSequence, _InternalOnPacketWithControllSequenceBackend.
    destruct (vget b h) as [x|]; [ | done ]. by destruct (x <=? 0x7F). }
  unfold OnReceive, OnReceive_reader. destruct (GetPacketFlags b FLAG_RELIABLE) as [fl|]; [ | done ].
  cbn [errors]. change (0 =? 0) with true. destruct (_ || _); [ apply call_count | ].
  destruct (_ =? FLAGS_CALL_RETURN_FEEDBACK); [ | done ]. unfold OnReceiveReturn. cbn [calls count].
  destruct (map_get _ _) as [cb|]; [ | done ]. destruct (RpcCalls.OnReceiveReturn _ _ _) as [c|]; [ | done ].
  by destruct cb.
Qed.

(** ** Streams *)

Notation on_packet e := (Some (_Internal_static_OnPacket e)).

Definition count_chunk (p : Peer) (c : list Z) : Peer := count p (add_bytes (zlen c)).

Lemma deliver_stopped e fs : deliver (on_packet e) None fs = None.
Proof. induction fs as [|f fs IH]; [ done | ]. exact IH. Qed.

Lemma deliver_count e n fs : forall p,
  deliver (on_packet e) (Some (count p (add_bytes n))) fs
  = let* p := deliver (on_packet e) (Some p) fs in Some (count p (add_bytes n)).
Proof.
  induction fs as [|[b h] fs IH]; intros p; [ done | ]. unfold deliver in *. cbn [fold_left fst snd].
  unfold _Internal_static_OnPacket at 2 4. rewrite packet_count.
  destruct (_InternalOnPacket e p b h) as [[p' ft]|]; cbn [fst]; [ apply IH | ].
  change (deliver (on_packet e) None fs = let* p := deliver (on_packet e) None fs in Some (count p (add_bytes n))).
  by rewrite deliver_stopped.
Qed.

(** Receiving pieces of a stream: the frames of the stream are processed in order and the
    pieces are counted. *)
Lemma on_data_chunks_spec e chunks : forall d pend p,
  Forall (fun c => zlen c < 2 ^ 32 /\ Forall is_u8 c) chunks -> decoder_ok d pend ->
  match deliver (on_packet e) (Some p) (parse (pend ++ concat chunks)).1 with
  | Some p' => exists d', on_data_chunks e d p chunks = Some (d', fold_left count_chunk chunks p')
      /\ decoder_ok d' (parse (pend ++ concat chunks)).2
  | None => on_data_chunks e d p chunks = None
  end.
Proof.
  induction chunks as [|c chunks IH]; intros d pend p Hc Hd; cbn [on_data_chunks concat fold_left].
  { rewrite app_nil_r, (decoder_ok_incomplete _ _ Hd). by exists d. }
  apply Forall_cons in Hc as [[Hn Hu] Hc].
  assert (Forall is_u8 (concat chunks)) as Hu'.
  { apply Forall_concat. eapply Forall_impl; [ exact Hc | naive_solver ]. }
  assert (Forall is_u8 (pend ++ c)) as Hall by (apply Forall_app; split; [ apply Hd | done ]).
  rewrite app_assoc, (parse_app _ _ Hall Hu'). cbn [fst snd]. rewrite deliver_app.
  destruct (PushData_spec sole (on_packet e) d pend c (Some (count_chunk p c)) Hn Hd Hu) as (d1 & E1 & Hd1 & _).
  unfold _InternalOnData. fold (count_chunk p c). rewrite E1, (deliver_count e (zlen c) _ p).
  destruct (deliver (on_packet e) (Some p) (parse (pend ++ c)).1) as [p1|]; [ | by rewrite deliver_stopped ].
  specialize (IH d1 _ (count_chunk p1 c) Hc Hd1). rewrite (deliver_count e (zlen c) _ p1) in IH.
  destruct (deliver (on_packet e) (Some p1) _) as [p2|]; exact IH.
Qed.

(** ** Frames *)

Lemma frame_packet body fl : 1 <= zlen body <= 2 ^ 28 ->
  exists frm, frame body fl = Some frm /\ forall e p,
    Z.land fl 6 <> 6 ->
    _InternalOnPacket e p frm (GetHeaderSize (zlen body))
    = OnReceive_reader e (count p add_frame) (mkReader body 0) (Z.lor 1 (Z.land fl 6)).
Proof.
  intros Hn. destruct (header_fields (zlen body) fl Hn) as (header & h0 & E & Hz & _ & _ & _ & Hf & _).
  exists (header ++ body). unfold frame. rewrite E. split; [ done | ]. intros e p H6.
  unfold _InternalOnPacket, OnReceive. rewrite zlen_app, Hz, (proj2 (Z.eqb_neq _ _)) by lia. rewrite !Hf.
  rewrite Z.lor_0_l. change FLAGS_PROTOCOL_CONTROLL_SEQUENCE with 6. rewrite <- Z.land_assoc. change (Z.land 6 6) with 6.
  rewrite (proj2 (Z.eqb_neq _ 6)) by done. rewrite <- Hz. unfold zlen. rewrite Nat2Z.id, drop_app_length. done.
Qed.

(** The pieces of one frame. *)
Lemma on_data_frame e d p body fl frm chunks :
  decoder_ok d [] -> 1 <= zlen body <= 2 ^ 28 -> Forall is_u8 body -> frame body fl = Some frm ->
  concat chunks = frm -> Forall (fun c => zlen c < 2 ^ 32) chunks -> Z.land fl 6 <> 6 ->
  match OnReceive_reader e (count p add_frame) (mkReader body 0) (Z.lor 1 (Z.land fl 6)) with
  | Some (p', _) => exists d', on_data_chunks e d p chunks = Some (d', fold_left count_chunk chunks p')
      /\ decoder_ok d' []
  | None => on_data_chunks e d p chunks = None
  end.
Proof.
  intros Hd Hn Hu Ef Ec Hc H6. destruct (frame_packet body fl Hn) as (frm' & Ef' & Hp). simplify_eq.
  assert (frame_of (body, fl) = concat chunks) as Efo by (unfold frame_of; simpl; by rewrite Ef).
  assert (Forall is_u8 (concat chunks)) as Huc.
  { destruct (frame_of_spec (body, fl)) as (? & _ & _ & Hx & _); [ done | congruence ]. }
  pose proof (on_data_chunks_spec e chunks d [] p) as Hs. cbn [app] in Hs.
  replace (parse (concat chunks)) with ([(concat chunks, GetHeaderSize (zlen body))], @nil Z) in Hs.
  2: { pose proof (parse_frames [(body, fl)]) as Hpf. cbn [fmap list_fmap concat] in Hpf. rewrite app_nil_r, Efo in Hpf.
       rewrite Hpf; [ done | ]. by apply Forall_singleton. }
  unfold deliver in Hs. cbn [fst snd fold_left] in Hs. unfold _Internal_static_OnPacket in Hs. rewrite Hp in Hs by done.
  destruct (OnReceive_reader e (count p add_frame) _ _) as [[p' ft]|]; cbn [fst] in Hs; apply Hs; try done;
    apply Forall_and; (split; [ done | by apply Forall_concat ]).
Qed.

(** ** Calls and answers *)

(** The type bits of an answer and of a call. *)
Lemma answer_type f : Z.land (Z.lor (Z.lxor (Z.lor f 6) 6) FLAGS_CALL_RETURN_FEEDBACK) 6 = 4.
Proof.
  change FLAGS_CALL_RETURN_FEEDBACK with (Z.land 4 6). change 4 with (Z.land 4 6) at 2.
  apply Z.bits_inj'. intros i _. rewrite !Z.land_spec, Z.lor_spec, Z.land_spec, Z.lxor_spec, Z.lor_spec.
  by destruct (Z.testbit f i), (Z.testbit 6 i), (Z.testbit 4 i).
Qed.

Lemma call_type f : Z.land f 4 = 0 -> Z.land (Z.lor f FLAGS_CALL) 6 = 2.
Proof.
  intros Hf. change FLAGS_CALL with 2. change 6 with (Z.lor 2 4). apply Z.bits_inj'. intros i _.
  apply (f_equal (fun x => Z.testbit x i)) in Hf. rewrite Z.land_spec, Z.bits_0 in Hf.
  rewrite Z.land_spec, !Z.lor_spec. by destruct (Z.testbit f i), (Z.testbit 2 i), (Z.testbit 4 i).
Qed.

Lemma answer_buffer id ret : zlen ret <= 2 ^ 28 - 4 ->
  exists b0 b1 b2, ByteBufferWritable_capacity 100 = Some b0 /\ append b0 (put_u32 id) = Some b1
    /\ append b1 ret = Some b2 /\ wf b1 /\ wf b2
    /\ valid b1 = true /\ valid b2 = true /\ _offset b1 = 32 /\ _offset b2 = 32
    /\ contents b1 = put_u32 id /\ contents b2 = put_u32 id ++ ret
    /\ _size b1 = 4 /\ _size b2 = 4 + zlen ret.
Proof.
  intros Hr. pose proof (zlen_nonneg ret).
  destruct (ByteBufferWritable_capacity_spec 100) as (mem & cap & E0 & Hc & Hz & Hz'); [ lia | ].
  set (b0 := mkW (Some mem) 0 cap 32 0) in *.
  assert (wf b0) as Hw0 by (split; simpl; [ lia | unfold sizeof_StorageHeader, INITIAL_DATA_OFFSET; lia ]).
  destruct (append_spec b0 (put_u32 id)) as (b1 & E1 & X1);
    [ done | rewrite put_u32_zlen; unfold MAX_RESERVE, INITIAL_DATA_OFFSET; simpl; lia | ].
  pose proof (ext_size _ _ _ X1) as S1. rewrite put_u32_zlen in S1. cbn [_size b0] in S1.
  destruct (append_spec b1 ret) as (b2 & E2 & X2);
    [ apply X1 | rewrite S1; unfold MAX_RESERVE, INITIAL_DATA_OFFSET; lia | ].
  pose proof (ext_size _ _ _ X2) as S2.
  destruct (extends_head_room _ _ _ X1) as [V1 O1]; [ by right | lia | ].
  destruct (extends_head_room _ _ _ X2) as [V2 O2]; [ by right | lia | ].
  pose proof (ext_contents _ _ _ X1) as C1. rewrite (contents_empty b0) in C1 by done.
  exists b0, b1, b2. split_and!; try done; try apply X1; try apply X2; try lia.
  rewrite (ext_contents _ _ _ X2), C1. done.
Qed.

Lemma MessageExecute_spec p c xs r fl id :
  id <> 0 -> Z.land fl 6 = 2 -> zlen (default [] (onReceive (fn c) xs r)) <= 2 ^ 28 - 4 ->
  exists ans F, frame (put_u32 id ++ default [] (onReceive (fn c) xs r)) F = Some ans /\ Z.land F 6 = 4
    /\ MessageReturnExecutor_Execute p c xs r fl id
       = if peerAlive p then Some (Send (add_executed p (name c, xs)) ans) else None.
Proof.
  intros Hid Hfl Hr. set (ret := default [] _) in *. pose proof (zlen_nonneg ret).
  destruct (answer_buffer id ret Hr) as (b0 & b1 & b2 & E0 & E1 & E2 & W1 & W2 & V1 & V2 & O1 & O2 & C1 & C2 & S1 & S2).
  set (F := Z.lor (Z.lxor (Z.lor fl 6) 6) FLAGS_CALL_RETURN_FEEDBACK).
  assert (exists b, (match onReceive (fn c) xs r with Some l => append b1 l | None => Some b1 end) = Some b
    /\ wf b /\ valid b = true /\ _offset b = 32 /\ contents b = put_u32 id ++ ret /\ _size b = 4 + zlen ret)
    as (b & Eb & Wb & Vb & Ob & Cb & Sb).
  { subst ret. destruct (onReceive (fn c) xs r) as [l|]; [ by exists b2 | ]. exists b1. cbn [default] in *.
    rewrite app_nil_r, zlen_nil. done. }
  destruct (WriteHeaderIntoBuffer_in_place b F Wb Vb Ob) as (b3 & header & E3 & Eh & _ & C3 & _); [ lia | ].
  exists (contents b3), F. split_and!; [ | apply answer_type | ].
  - unfold frame. replace (zlen (put_u32 id ++ ret)) with (_size b) by (rewrite zlen_app, put_u32_zlen; lia).
    rewrite Eh, C3, Cb. done.
  - unfold MessageReturnExecutor_Execute. rewrite (proj2 (Z.eqb_neq id 0)) by done. rewrite Hfl.
    change (2 =? FLAGS_CALL) with true. cbn [negb andb]. rewrite E0, E1, Eb. fold F. rewrite E3. done.
Qed.

(** The function found for a name, with no queue of its own, reads the arguments [xs] from
    the bytes [argb] without an error and returns [ret]. *)
Definition serves (e : Environment) (p : Peer) (n : RpcName) (argb : list Z)
  (xs : list ArgValue) (ret : list Z) : Prop :=
  exists ptr c r, FindConverter e n = Some (Some ptr) /\ heap e !! ptr = Some c /\ name c = n
    /\ _executionQueue (fn c) = None /\ getExecutionQueue (fn c) = None
    /\ read_args p (loopQueue p) 3 (mkReader argb 0) (args (fn c)) = (xs, r) /\ errors r = 0
    /\ default [] (onReceive (fn c) xs r) = ret.

Lemma call_spec e p n nb argb xs ret id :
  name_ok n -> zlen (str n) < 2 ^ 28 -> RpcName_write n = Some nb -> serves e p n argb xs ret -> peerAlive p = true ->
  is_u32 id -> id <> 0 -> zlen ret <= 2 ^ 28 - 4 ->
  exists ans F, frame (put_u32 id ++ ret) F = Some ans /\ Z.land F 6 = 4
    /\ OnReceive_reader e p (mkReader (put_u32 id ++ nb ++ argb) 0) 3
       = Some (Send (add_executed p (n, xs)) ans, Released).
Proof.
  intros Hn Hzn Hnb (ptr & c & r & Hf & Hh & Hc & Hq & Hg & Hargs & Herr & Hret) Ha Hid Hid0 Hr.
  destruct (RpcName_round_trip_spec n Hn Hzn) as (nb' & E & Hread). simplify_eq.
  destruct (MessageExecute_spec p c xs r 3 id Hid0) as (ans & F & Ef & HF & Ex); [ done | done | ].
  exists ans, F. split_and!; [ done | done | ]. unfold OnReceive_reader, OnReceiveCall, op_untyped_uint32.
  cbn [errors rest]. change (Z.land 3 6) with 2. change (0 =? 0) with true. change (2 =? FLAGS_CALL) with true.
  cbn [orb]. rewrite get_put_u32, u32_errors_ok by done. change (Z.lor 0 0) with 0. rewrite Hread, Hf, Hh.
  destruct (name_ok_cases _ Hn) as [Hb _]. unfold ExecuteGetQueue, DeserializeAndExecute.
  rewrite Hb, Hq, Hg, Hargs, Herr. cbn [negb Z.eqb]. rewrite Ex, Ha. done.
Qed.

Lemma return_spec e p id ret c :
  calls_ok (calls p) -> is_u32 id -> waiting (calls p) !! id = Some c ->
  exists p', OnReceive_reader e p (mkReader (put_u32 id ++ ret) 0) 5 = Some (p', Taken)
    /\ events (calls p') = events (calls p) ++ [Returned c 5 ret]
    /\ waiting (calls p') = delete id (waiting (calls p)).
Proof.
  intros Hp Hid Hw. unfold OnReceive_reader, OnReceiveReturn. cbn [errors rest]. change (Z.land 5 6) with 4.
  change (0 =? 0) with true. cbn [orb Z.eqb FLAGS_CALL FLAGS_CALL_NO_FEEDBACK FLAGS_CALL_RETURN_FEEDBACK Pos.eqb].
  destruct (OnReceiveReturn_spec (calls p) 5 (put_u32 id ++ ret) Hp) as (c' & Ec & _ & _ & Hw' & He').
  rewrite Ec. rewrite get_put_u32 in * by done. cbn [fst snd] in *. rewrite Hw in He'.
  rewrite map_get_ok by apply Hp. fold (waiting (calls p)). rewrite Hw. by eexists.
Qed.

Lemma count_chunks_fields chunks : forall p,
  calls (fold_left count_chunk chunks p) = calls p /\ executed (fold_left count_chunk chunks p) = executed p.
Proof. induction chunks as [|c chunks IH]; intros p; [ done | ]. apply (IH (count_chunk p c)). Qed.

Lemma name_bytes n nb : Forall is_u8 (str n) -> RpcName_write n = Some nb -> name_ok n -> Forall is_u8 nb.
Proof.
  intros Hs E [[Hn Hu] | [Hn Hu]]; unfold RpcName_write in E.
  - rewrite bool_decide_false, Hu in E by done. simplify_eq/=. by apply put_str_bytes.
  - rewrite bool_decide_true, (proj2 (Z.eqb_neq _ 0)) in E by (done || lia). simplify_eq/=. apply put_uint_bytes.
Qed.

(** A name that is neither a string nor an integer. *)
Lemma nameless_stops e p r fl :
  (RpcName_read (if Z.land fl 6 =? FLAGS_CALL then (op_untyped_uint32 r).2 else r)).1 = mkName [] 0 ->
  OnReceiveCall e p r fl = None.
Proof.
  intros Hn. unfold OnReceiveCall. destruct (Z.land fl 6 =? FLAGS_CALL).
  - destruct (op_untyped_uint32 r) as [id r1]. cbn [snd] in Hn. destruct (RpcName_read r1) as [n r2].
    simpl in Hn. by subst n.
  - destruct (RpcName_read r) as [n r2]. simpl in Hn. by subst n.
Qed.

(** ** Statistics *)

Definition stats_of (p : Peer) : Stats * Stats * Stats := (peerStats p, hostStats p, loopStats p).

Lemma execute_stats p c q r fl id p' :
  DeserializeAndExecute p c q r fl id = Some p' -> stats_of p' = stats_of p.
Proof.
  unfold DeserializeAndExecute. destruct (name_bool (name c)); [ | done ].
  destruct (read_args p q fl r (args (fn c))) as [xs r']. destruct (negb (errors r' =? 0)); [ by intros [= <-] | ].
  unfold MessageReturnExecutor_Execute. destruct (negb (id =? 0) && _).
  - intros E. inv_bind E. by injection E as <-.
  - destruct (negb (id =? 0)); by intros [= <-].
Qed.

Lemma receive_stats e p r fl p' ft :
  OnReceive_reader e p r fl = Some (p', ft) -> stats_of p' = stats_of p.
Proof.
  unfold OnReceive_reader. destruct (errors r =? 0); [ | done ]. destruct (_ || _).
  - unfold OnReceiveCall. destruct (if Z.land fl 6 =? FLAGS_CALL then _ else _) as [id r1].
    destruct (RpcName_read r1) as [n r2]. destruct (FindConverter e n) as [[ptr|]|]; [ | by intros [= <- _] | done ].
    destruct (heap e !! ptr) as [conv|]; [ | done ].
    destruct (ExecuteGetQueue p conv r2 fl) as [[[q|] r3]|]; [ by intros [= <- _] | | done ].
    destruct (DeserializeAndExecute _ _ _ _ _ _) as [p1|] eqn:E; [ | done ]. intros [= <- _].
    by eapply execute_stats.
  - destruct (_ =? FLAGS_CALL_RETURN_FEEDBACK); [ | by intros [= <- _] ]. unfold OnReceiveReturn.
    destruct (map_get _ _) as [cb|]; [ | done ]. destruct (RpcCalls.OnReceiveReturn _ _ _) as [c|]; [ | done ].
    by destruct cb; intros [= <- _].
Qed.

(** A packet counts as one frame and as at most one error, for peer, host and loop alike. *)
Lemma packet_stats e p b h p' ft :
  _InternalOnPacket e p b h = Some (p', ft) ->
  stats_of p' = stats_of (count p add_frame) \/ stats_of p' = stats_of (count (count p add_frame) add_error).
Proof.
  unfold _InternalOnPacket. destruct (zlen b =? h); [ by intros [= <- _]; right | ].
  destruct (GetPacketFlags b 0) as [f|]; [ | done ]. destruct (Z.land f _ =? _).
  - unfold _InternalOnPacketWithControllSequence, _InternalOnPacketWithControllSequenceBackend.
    destruct (vget b h) as [x|]; [ | done ]. destruct (x <=? 0x7F); by intros [= <- _]; right.
  - unfold OnReceive. destruct (GetPacketFlags b FLAG_RELIABLE) as [fl|]; [ | done ].
    intros E. left. by eapply receive_stats.
Qed.

Definition received (s s' : Stats) (bytes packets frames : Z) : Prop :=
  bytesReceived s' = bytesReceived s + bytes /\ packetsReceived s' = packetsReceived s + packets
  /\ framesReceived s' = framesReceived s + frames /\ errorsCount s <= errorsCount s' <= errorsCount s + frames.

Definition received3 (p p' : Peer) (bytes packets frames : Z) : Prop :=
  received (peerStats p) (peerStats p') bytes packets frames
  /\ received (hostStats p) (hostStats p') bytes packets frames
  /\ received (loopStats p) (loopStats p') bytes packets frames.

Lemma received3_trans p p1 p2 b k f b' k' f' :
  received3 p p1 b k f -> received3 p1 p2 b' k' f' -> received3 p p2 (b + b') (k + k') (f + f').
Proof. unfold received3, received. lia. Qed.

Lemma deliver_stats e fs : forall p p',
  deliver (on_packet e) (Some p) fs = Some p' -> received3 p p' 0 0 (zlen fs).
Proof.
  induction fs as [|[b h] fs IH]; intros p p' E.
  { injection E as <-. unfold received3, received, zlen. simpl. lia. }
  unfold deliver in *. cbn [fold_left fst snd] in E. unfold _Internal_static_OnPacket at 2 in E.
  destruct (_InternalOnPacket e p b h) as [[p1 ft]|] eqn:Ep; cbn [fst] in E.
  - rewrite zlen_cons. apply (received3_trans p p1 p' 0 0 1 0 0 (zlen fs)); [ | by apply IH ].
    unfold received3, received.
    by destruct (packet_stats _ _ _ _ _ _ Ep) as [Es | Es]; unfold stats_of in Es; injection Es as -> -> ->; simpl; lia.
  - pose proof (deliver_stopped e fs) as Hs. unfold deliver in Hs. congruence.
Qed.

Lemma chunks_stats chunks : forall p,
  received3 p (fold_left count_chunk chunks p) (zlen (concat chunks)) (zlen chunks) 0.
Proof.
  induction chunks as [|c chunks IH]; intros p; cbn [fold_left concat].
  - unfold received3, received, zlen. simpl. lia.
  - rewrite zlen_app, zlen_cons. apply (received3_trans p (count_chunk p c) _ (zlen c) 1 0 _ _ 0); [ | apply IH ].
    unfold received3, received. simpl. lia.
Qed.

(** ** Claims *)

Definition short (chunks : list (list Z)) : Prop := Forall (fun c => zlen c < 2 ^ 32) chunks.

(** C1: a remote call from end to end. The client's [Call] sends one frame. Whatever pieces
    that frame arrives in, the server executes exactly the function (one without a queue) registered under the
    name, once, with the arguments read from the call, and sends one answer frame. Whatever
    pieces the answer arrives in, the client executes exactly the callback of this call with
    the returned bytes, and no other callback is touched. *)
Theorem remote_call_end_to_end (client server : Peer) eC eS dC dS n nb argb xs ret callback fl :
  calls_ok (calls client) -> Z.of_nat (size (waiting (calls client))) < map_limit ->
  Z.of_nat (size (waiting (calls client))) < 2 ^ 32 - 1 ->
  decoder_ok dC [] -> decoder_ok dS [] -> peerAlive server = true ->
  name_ok n -> zlen (str n) < 2 ^ 28 -> RpcName_write n = Some nb ->
  Forall is_u8 (str n) -> Forall is_u8 argb -> Forall is_u8 ret ->
  zlen (nb ++ argb) <= 2 ^ 28 - 4 -> zlen ret <= 2 ^ 28 - 4 -> Z.land fl 4 = 0 ->
  serves eS server n argb xs ret ->
  exists calls1 frm, Call (calls client) (nb ++ argb) callback fl = Some calls1
    /\ frames calls1 = frames (calls client) ++ [frm]
    /\ forall chunks, concat chunks = frm -> short chunks ->
  exists dS' server' ans, on_data_chunks eS dS server chunks = Some (dS', server')
    /\ executed server' = executed server ++ [(n, xs)]
    /\ frames (calls server') = frames (calls server) ++ [ans]
    /\ forall chunks', concat chunks' = ans -> short chunks' ->
  exists dC' client', on_data_chunks eC dC (set_calls client calls1) chunks' = Some (dC', client')
    /\ events (calls client') = events (calls client) ++ [Returned callback 5 ret]
    /\ waiting (calls client') = waiting (calls client).
Proof.
  intros Hc Hlim Hsz HdC HdS Ha Hn Hzn Hnb Hus Hua Hur Hl Hr Hfl Hsv.
  pose proof (zlen_nonneg (nb ++ argb)). pose proof (zlen_nonneg ret).
  destruct (Call_spec (calls client) (nb ++ argb) callback fl Hc Hl Hlim Hsz)
    as (calls1 & id & frm & E1 & Hc1 & Hid & Hid0 & Hnone & Hw1 & He1 & Hf1 & Hfrm).
  exists calls1, frm. split_and!; [ done | done | ]. intros chunks Ech Hch.
  destruct (call_spec eS (count server add_frame) n nb argb xs ret id) as (ans & F & Hans & HF & Ecall); try done.
  { destruct Hsv as (ptr & c & r & ? & ? & ? & ? & ? & Hargs & ?). exists ptr, c, r. by rewrite read_args_count. }
  pose proof (on_data_frame eS dS server (put_u32 id ++ nb ++ argb) (Z.lor fl FLAGS_CALL) frm chunks HdS) as HS.
  rewrite call_type in HS by done. change (Z.lor 1 2) with 3 in HS. rewrite Ecall in HS.
  destruct HS as (dS' & ES & _); try done.
  { rewrite zlen_app, put_u32_zlen. lia. }
  { repeat (apply Forall_app; split); try done; [ apply put_u32_bytes | by eapply name_bytes ]. }
  eexists dS', _, ans. split_and!; [ exact ES | apply count_chunks_fields | | ].
  { by rewrite (proj1 (count_chunks_fields _ _)). }
  intros chunks' Ech' Hch'.
  destruct (return_spec eC (count (set_calls client calls1) add_frame) id ret callback Hc1 Hid)
    as (client' & Eret & Hev & Hwt). { cbn [calls set_calls count]. by rewrite Hw1, lookup_insert_eq. }
  pose proof (on_data_frame eC dC (set_calls client calls1) (put_u32 id ++ ret) F ans chunks' HdC) as HC.
  rewrite HF in HC. change (Z.lor 1 4) with 5 in HC. rewrite Eret in HC. destruct HC as (dC' & EC & _); try done.
  { rewrite zlen_app, put_u32_zlen. lia. }
  { apply Forall_app; split; [ apply put_u32_bytes | done ]. }
  eexists dC', _. split_and!; [ exact EC | rewrite (proj1 (count_chunks_fields _ _)) .. ].
  - rewrite Hev. cbn [calls set_calls count]. by rewrite He1.
  - rewrite Hwt. cbn [calls set_calls count]. by rewrite Hw1, delete_insert_id.
Qed.

(** For every stream in pieces that does not stop the program the statistics of the
    peer, of its host and of its loop count exactly the received bytes, the pieces and the
    complete frames, and at most one error per frame. *)
Theorem received_statistics_are_exact e d p chunks d' p' :
  decoder_ok d [] -> Forall (fun c => zlen c < 2 ^ 32 /\ Forall is_u8 c) chunks ->
  on_data_chunks e d p chunks = Some (d', p') ->
  received3 p p' (zlen (concat chunks)) (zlen chunks) (zlen (parse (concat chunks)).1).
Proof.
  intros Hd Hc E. pose proof (on_data_chunks_spec e chunks d [] p Hc Hd) as Hs. cbn [app] in Hs.
  destruct (deliver (on_packet e) (Some p) _) as [p1|] eqn:Ed; [ | congruence ].
  destruct Hs as (d1 & E1 & _). rewrite E in E1. injection E1 as <- ->.
  apply deliver_stats in Ed. pose proof (chunks_stats chunks p1) as Hch.
  pose proof (received3_trans _ _ _ _ _ _ _ _ _ Ed Hch) as Hall. rewrite !Z.add_0_l, Z.add_0_r in Hall. exact Hall.
Qed.

(** A call without a function name (an empty string, or a value that is neither string
    nor integer) fails the assertion in [RpcName::IsString]: a remote peer stops the program,
    and the branch that would log and ignore the call is never reached. *)
Theorem nameless_call_stops_the_program e d p more frm chunks :
  decoder_ok d [] -> 1 <= zlen (put_object ++ more) <= 2 ^ 28 -> Forall is_u8 (put_object ++ more) ->
  frame (put_object ++ more) FLAGS_CALL_NO_FEEDBACK = Some frm ->
  concat chunks = frm -> short chunks ->
  on_data_chunks e d p chunks = None.
Proof.
  intros Hd Hn Hu Hf Hc Hs.
  pose proof (on_data_frame e d p (put_object ++ more) FLAGS_CALL_NO_FEEDBACK frm chunks Hd Hn Hu Hf Hc Hs) as Hx.
  change (Z.land FLAGS_CALL_NO_FEEDBACK 6) with 0 in Hx. change (Z.lor 1 0) with 1 in Hx.
  unfold OnReceive_reader in Hx. cbn [errors] in Hx. change (0 =? 0) with true in Hx. change (Z.land 1 6) with 0 in Hx.
  change ((0 =? FLAGS_CALL) || (0 =? FLAGS_CALL_NO_FEEDBACK)) with true in Hx. cbv iota in Hx.
  rewrite nameless_stops in Hx; [ by apply Hx | ]. change (Z.land 1 6 =? FLAGS_CALL) with false. cbv iota.
  unfold RpcName_read. cbn [rest]. destruct (put_object_next more) as [-> ->].
  by destruct (get_uint (put_object ++ more)) as [[? ?] ?].
Qed.

(** A frame with this answer: the id of the call and the result. *)
Definition carries (a : Z * list Z) (frm : list Z) : Prop := exists F, frame (put_u32 a.1 ++ a.2) F = Some frm /\ Z.land F 6 = FLAGS_CALL_RETURN_FEEDBACK.

(** The id of a call and what is behind it, as [OnReceiveCall] reads them. *)
Definition call_id (fl : Z) (r : ByteReader) : Z * ByteReader := if Z.land fl 6 =? FLAGS_CALL then op_untyped_uint32 r else (0, r).

(** What executing a function on a peer that exists does, for calls with and without an id. *)
Lemma execute_call_spec p c q r fl id : name_bool (name c) = true -> peerAlive p = true -> (id <> 0 -> Z.land fl 6 = FLAGS_CALL) ->
  let '(xs, r3) := read_args p q fl r (args (fn c)) in
  zlen (default [] (onReceive (fn c) xs r3)) <= 2 ^ 28 - 4 ->
  exists p' frms, DeserializeAndExecute p c q r fl id = Some p'
    /\ executed p' = executed p ++ (if errors r3 =? 0 then [(name c, xs)] else [])
    /\ frames (calls p') = frames (calls p) ++ frms
    /\ Forall2 carries (if (errors r3 =? 0) && negb (id =? 0) then [(id, default [] (onReceive (fn c) xs r3))] else []) frms
    /\ warnings p' = warnings p + (if errors r3 =? 0 then 0 else 1).
Proof.
  intros Hn Ha Hid. destruct (read_args p q fl r (args (fn c))) as [xs r3] eqn:Er. intros Hr. unfold DeserializeAndExecute. rewrite Hn, Er.
  destruct (errors r3 =? 0); cbn [negb andb].
  - destruct (Z.eqb_spec id 0) as [-> | Hne]; cbn [negb].
    + eexists _, []. rewrite app_nil_r, Z.add_0_r. by split_and!.
    + destruct (MessageExecute_spec p c xs r3 fl id Hne (Hid Hne) Hr) as (ans & F & Ef & HF & ->). rewrite Ha. eexists _, [ans].
      split_and!; try done; [ | cbn; lia ]. constructor; [ by exists F | constructor ].
  - eexists _, []. rewrite !app_nil_r. by split_and!.
Qed.

(** C39: a call whose function has a queue, its own or one that is chosen for the call, with or
    without an answer: [OnReceiveCall] enqueues one command and does nothing else. When the
    command is executed later, on a peer that still exists and with a result of at most
    [2^28 - 4] bytes, the function is executed once with the arguments of the call, and the
    answer that is sent, if the call has an id, carries this id and the result; arguments that
    cannot be read leave a log entry and no answer. The outcome is what a function without a
    queue would have given at once, on the thread of the queue. When the function was removed in
    between (names that are strings delete their converter) the command uses the deleted
    converter: the program stops. *)
Theorem queued_call_runs_with_its_converter e p r fl n r1 ptr c q r2 :
  env_ok e -> name_ok n -> RpcName_read (call_id fl r).2 = (n, r1) -> FindConverter e n = Some (Some ptr) -> heap e !! ptr = Some c ->
  name c = n -> ExecuteGetQueue p c r1 fl = Some (Some q, r2) ->
  exists cmd, OnReceiveCall e p r fl = Some (EnqueueCommand p cmd, Taken)
    /\ (forall p', peerAlive p' = true ->
          let '(xs, r3) := read_args p' q fl r2 (args (fn c)) in
          zlen (default [] (onReceive (fn c) xs r3)) <= 2 ^ 28 - 4 ->
          exists p'' frms, ExecuteRPC_Execute e p' cmd = Some p''
            /\ executed p'' = executed p' ++ (if errors r3 =? 0 then [(n, xs)] else [])
            /\ frames (calls p'') = frames (calls p') ++ frms
            /\ Forall2 carries (if (errors r3 =? 0) && negb ((call_id fl r).1 =? 0) then [((call_id fl r).1, default [] (onReceive (fn c) xs r3))] else []) frms
            /\ warnings p'' = warnings p' + (if errors r3 =? 0 then 0 else 1))
    /\ (forall e0 ptr0 p', r2 = r1 -> FindConverter e0 n = Some (Some ptr0) -> heap e0 !! ptr0 = Some (mkConverter n (mkFunction None None (args (fn c)) (onReceive (fn c)))) ->
          loopQueue p' = q -> OnReceiveCall e0 p' r fl = (let* p'' := ExecuteRPC_Execute e p' cmd in Some (p'', Released)))
    /\ (has_str n = true -> exists e', RemoveRegisteredMessage e n = Some e' /\ forall p', ExecuteRPC_Execute e' p' cmd = None).
Proof.
  intros He Hn Hr Hf Hh Hc Hq. destruct (name_ok_cases n Hn) as [Hb _]. unfold call_id in *.
  destruct (if Z.land fl 6 =? FLAGS_CALL then op_untyped_uint32 r else (0, r)) as [id r0] eqn:Eid. cbn [fst snd] in *.
  exists (mkExecuteRPC r2 ptr fl id q). split_and!.
  - unfold OnReceiveCall. rewrite Eid, Hr, Hf, Hh. cbn [mbind option_bind]. by rewrite Hq.
  - intros p' Ha. unfold ExecuteRPC_Execute. cbn [messageConverter reader queue flags returnId]. rewrite Hh. cbn [mbind option_bind].
    rewrite <- Hc. apply execute_call_spec; [ by rewrite Hc | done | ]. intros Hne.
    destruct (Z.eqb_spec (Z.land fl 6) FLAGS_CALL); [ done | by injection Eid as <- _ ].
  - intros e0 ptr0 p' -> Hf0 Hh0 Hl. unfold OnReceiveCall, ExecuteGetQueue, ExecuteRPC_Execute. rewrite Eid, Hr, Hf0, Hh0.
    cbn [mbind option_bind messageConverter reader queue flags returnId]. rewrite Hh. cbn [mbind option_bind name fn _executionQueue getExecutionQueue]. rewrite Hb, Hl.
    cbn [mbind option_bind]. unfold DeserializeAndExecute. cbn [name fn args]. rewrite Hb, Hc, Hb. destruct (read_args p' q fl r1 (args (fn c))) as [xs r3].
    unfold MessageReturnExecutor_Execute. cbn [name fn onReceive]. by rewrite Hc.
  - intros Hs. destruct (RemoveRegistered_spec e n He Hn) as (e' & Er & _ & Hheap). exists e'. split; [ done | ]. intros p'.
    unfold ExecuteRPC_Execute. cbn [messageConverter]. rewrite FindConverter_spec in Hf by done. injection Hf as Hf.
    rewrite Hheap. unfold name_key in *. rewrite Hs in *. by rewrite Hf, lookup_delete_eq.
Qed.

(** The answer of a function is sent through [peer.GetLocalPeerData()] without a test:
    when the peer is gone by the time the call is executed the program stops, while a call
    that wants no answer is executed. *)
Theorem answer_to_a_gone_peer_stops p c xs r fl id :
  peerAlive p = false -> zlen (default [] (onReceive (fn c) xs r)) <= 2 ^ 28 - 4 ->
  Z.land fl 6 = FLAGS_CALL ->
  MessageReturnExecutor_Execute p c xs r fl id = if id =? 0 then Some (add_executed p (name c, xs)) else None.
Proof.
  intros Hp Hr Hfl. destruct (Z.eqb_spec id 0) as [-> | Hid]; [ done | ].
  destruct (MessageExecute_spec p c xs r fl id Hid Hfl Hr) as (ans & F & _ & _ & ->). by rewrite Hp.
Qed.

End Dispatch.

(** ** Witnesses *)

#[local] Existing Instances le_codec callbacks_map.

(** A codec with a tag byte: 1 for integers, 2 for strings, 3 for an empty object. *)
#[local, refine] Instance tagged_codec : NameCodec := {
  u32_errors l := if (length l <? 4)%nat then 1 else 0;
  is_next_integer l := bool_decide (head l = Some 1);
  is_next_string l := bool_decide (head l = Some 2);
  get_uint l := (le_load (take 4 (drop 1 l)), drop 5 l, if bool_decide (head l = Some 1) then 0 else 2);
  get_str l := let n := Z.to_nat (le_load (take 4 (drop 1 l))) in (take n (drop 5 l), drop n (drop 5 l), 0);
  put_uint x := 1 :: le_put x;
  put_str s := 2 :: le_put (zlen s) ++ s;
  put_object := [3]
}.
Proof.
  - done.
  - done.
  - done.
  - done.
  - intros x rest Hx. pose proof (f_equal fst (get_put_u32 x rest Hx)) as E.
    change (le_load (take 4 (le_put x ++ rest)) = x) in E.
    change ((le_load (take 4 (le_put x ++ rest)), rest, 0) = (x, rest, 0)). by rewrite E.
  - intros s rest Hs. pose proof (zlen_nonneg s).
    pose proof (f_equal fst (get_put_u32 (zlen s) (s ++ rest) ltac:(unfold is_u32; lia))) as E.
    change (le_load (take 4 (le_put (zlen s) ++ s ++ rest)) = zlen s) in E.
    rewrite <- app_comm_cons, <- app_assoc.
    change (drop 5 (2 :: le_put (zlen s) ++ s ++ rest)) with (s ++ rest).
    change (drop 1 (2 :: le_put (zlen s) ++ s ++ rest)) with (le_put (zlen s) ++ s ++ rest).
    rewrite E. unfold zlen. by rewrite Nat2Z.id, take_app_length, drop_app_length.
  - intros x. apply Forall_cons. split; [ done | exact (put_u32_bytes x) ].
  - intros s Hs. apply Forall_cons. split; [ done | ]. apply Forall_app. split; [ exact (put_u32_bytes (zlen s)) | done ].
Defined.

(** A function of the flags and of one byte that answers with the byte plus one. *)
Definition increment (q : option nat) : Function (V := Z) :=
  mkFunction q None [KFlags; KValue (fun l => (hd 0 l, drop 1 l, if bool_decide (l = []) then 1 else 0))]
    (fun xs _ => match xs with [AFlags _; AValue x] => Some [x + 1] | _ => None end).

Definition sample_registry (q : option nat) : @RPCEnvironment (Function (V := Z)) :=
  default RPCEnvironment_init (reg_run RPCEnvironment_init [ORegister ping (increment q)]).

Definition zero_stats : Stats := mkStats 0 0 0 0.
Definition sample_peer (alive : bool) : Peer (T := FHM.FlatHashMap Z OnReturnCallback) (V := Z) :=
  mkPeer no_calls 1 2 3 alive [] [] zero_stats zero_stats zero_stats 0.

Definition sample_decoder : FrameDecoder :=
  default (mkD ByteBufferWritable_default None 0 0 0) FrameDecoder_init.

Lemma sample_decoder_ok : decoder_ok sample_decoder [].
Proof. unfold sample_decoder. by destruct FrameDecoder_init_ok as (d & -> & Hd & _). Qed.

Definition never_sole (_ : option (Peer (T := FHM.FlatHashMap Z OnReturnCallback) (V := Z))) : bool := false.

Definition ping_bytes : list Z := 2 :: le_put 4 ++ str ping.

Lemma remote_call_end_to_end_witness :
  exists calls1 frm, Call (calls (sample_peer true)) (ping_bytes ++ [41]) (mkCallback 7 false 100) 1 = Some calls1
    /\ frames calls1 = frames (calls (sample_peer true)) ++ [frm]
    /\ forall chunks, concat chunks = frm -> short chunks ->
  exists dS' server' ans,
    on_data_chunks never_sole (sample_registry None) sample_decoder (sample_peer true) chunks = Some (dS', server')
    /\ executed server' = executed (sample_peer true) ++ [(ping, [AFlags 3; AValue 41])]
    /\ frames (calls server') = frames (calls (sample_peer true)) ++ [ans]
    /\ forall chunks', concat chunks' = ans -> short chunks' ->
  exists dC' client',
    on_data_chunks never_sole RPCEnvironment_init sample_decoder (set_calls (sample_peer true) calls1) chunks'
      = Some (dC', client')
    /\ events (calls client') = events (calls (sample_peer true)) ++ [Returned (mkCallback 7 false 100) 5 [42]]
    /\ waiting (calls client') = waiting (calls (sample_peer true)).
Proof.
  apply (remote_call_end_to_end never_sole (sample_peer true) (sample_peer true) RPCEnvironment_init
           (sample_registry None) sample_decoder sample_decoder ping ping_bytes [41] [AFlags 3; AValue 41] [42]).
  - apply no_calls_spec.
  - cbn [calls sample_peer]. rewrite (proj2 no_calls_spec), map_size_empty. reflexivity.
  - cbn [calls sample_peer]. rewrite (proj2 no_calls_spec), map_size_empty. reflexivity.
  - apply sample_decoder_ok.
  - apply sample_decoder_ok.
  - reflexivity.
  - left. split; [ discriminate | reflexivity ].
  - reflexivity.
  - reflexivity.
  - repeat (constructor; [ done | ]). constructor.
  - repeat (constructor; [ done | ]). constructor.
  - repeat (constructor; [ done | ]). constructor.
  - intros E. vm_compute in E. discriminate E.
  - intros E. vm_compute in E. discriminate E.
  - reflexivity.
  - eexists _, _, _. split_and!; vm_compute; reflexivity.
Defined.

(** The frame of a call of [ping] that wants no answer, in two pieces. *)
Definition sample_chunks : list (list Z) := [[0x90; 2; 4]; [0; 0; 0; 112; 105; 110; 103; 41]].

Lemma sample_chunks_frame :
  FramingProtocol.frame (ping_bytes ++ [41]) FLAGS_CALL_NO_FEEDBACK = Some (concat sample_chunks).
Proof. reflexivity. Qed.

Lemma received_statistics_are_exact_witness :
  exists d' p', on_data_chunks never_sole (sample_registry None) sample_decoder (sample_peer true) sample_chunks
      = Some (d', p')
    /\ received3 (sample_peer true) p' (zlen (concat sample_chunks)) (zlen sample_chunks)
         (zlen (parse (concat sample_chunks)).1).
Proof.
  destruct (on_data_chunks never_sole (sample_registry None) sample_decoder (sample_peer true) sample_chunks)
    as [[d' p']|] eqn:E; [ | vm_compute in E; discriminate E ].
  exists d', p'. split; [ reflexivity | ].
  apply (received_statistics_are_exact never_sole (sample_registry None) sample_decoder _ _ d' p').
  - apply sample_decoder_ok.
  - unfold sample_chunks. repeat (apply Forall_cons; split; [ split; [ reflexivity | repeat (apply Forall_cons; split; [ split; [ discriminate | reflexivity ] | ]); by apply Forall_nil ] | ]);
      by apply Forall_nil.
  - exact E.
Defined.

Lemma nameless_call_stops_the_program_witness :
  on_data_chunks never_sole (sample_registry None) sample_decoder (sample_peer true) [[0; 3]] = None.
Proof.
  apply (nameless_call_stops_the_program never_sole (sample_registry None) sample_decoder (sample_peer true) [] [0; 3]).
  - apply sample_decoder_ok.
  - split; intros E; vm_compute in E; discriminate E.
  - repeat (constructor; [ done | ]). constructor.
  - reflexivity.
  - reflexivity.
  - repeat (constructor; [ reflexivity | ]). constructor.
Defined.

(** The call of "ping" with the id 5 and the argument 41, of a function with the queue 9. *)
Lemma queued_call_runs_with_its_converter_witness :
  exists cmd p'' frms, OnReceiveCall (sample_registry (Some 9%nat)) (sample_peer true) (mkReader (put_u32 5 ++ ping_bytes ++ [41]) 0) 3
      = Some (EnqueueCommand (sample_peer true) cmd, Taken)
    /\ ExecuteRPC_Execute (sample_registry (Some 9%nat)) (sample_peer true) cmd = Some p''
    /\ executed p'' = [(ping, [AFlags 3; AValue 41])] /\ frames (calls p'') = [] ++ frms /\ Forall2 carries [(5, [42])] frms.
Proof.
  destruct (queued_call_runs_with_its_converter (sample_registry (Some 9%nat)) (sample_peer true)
           (mkReader (put_u32 5 ++ ping_bytes ++ [41]) 0) 3 ping (mkReader [41] 0) (base.fresh (∅ : gset nat))
           (mkConverter ping (increment (Some 9%nat))) 9 (mkReader [41] 0)) as (cmd & E & Hex & _).
  - destruct (run_from_init [ORegister ping (increment (Some 9%nat))]) as (e & E & He & _).
    + apply Forall_singleton. left. split; [ discriminate | reflexivity ].
    + unfold sample_registry. rewrite E. exact He.
  - left. split; [ discriminate | reflexivity ].
  - vm_compute. reflexivity.
  - vm_compute. reflexivity.
  - vm_compute. reflexivity.
  - reflexivity.
  - reflexivity.
  - destruct (Hex (sample_peer true) eq_refl ltac:(vm_compute; discriminate)) as (p'' & frms & E2 & H1 & H2 & H3 & _).
    exists cmd, p'', frms. exact (conj E (conj E2 (conj H1 (conj H2 H3)))).
Defined.

Lemma answer_to_a_gone_peer_stops_witness :
  MessageReturnExecutor_Execute (sample_peer false) (mkConverter ping (increment None)) [AFlags 3; AValue 41]
    (mkReader [] 0) 3 1 = None.
Proof.
  apply (answer_to_a_gone_peer_stops (sample_peer false) (mkConverter ping (increment None)) [AFlags 3; AValue 41]
           (mkReader [] 0) 3 1).
  - reflexivity.
  - intros E. vm_compute in E. discriminate E.
  - reflexivity.
Defined.

End RpcDispatch.
