(* ===== verification/CommandsBuffer.v ===== *)
(** * Buffers of commands (CommandsBuffer, CommandsBufferHandler)

    A [CommandsBuffer] places commands of different types one after the other in one block,
    aligned, and their offsets in a table that grows down from the end of the block.
    [CommandsBufferHandler] fills such buffers and passes full ones, or old ones, to a command
    queue. A block is modelled by the command objects at their offsets and by the offsets
    stored in the table; destroying a command removes the object. *)

From S2P Require Import Prelude MemoryPool ByteBuffer.

Module CommandsBuffer.

Section Buffer.
Context `{Allocator}.
(** The commands, with what they will execute. *)
Context {C : Type}.

Record block := mkBlock { objects : gmap Z C; metadata : gmap Z Z }.

Record CommandsBuffer := mkCB {
  commandsBufferData : option block;
  totalBytes : Z;
  countCommands : Z;
  commandsExecuted : Z;
  offsetOfFree : Z
}.

Definition CommandsBuffer_default : CommandsBuffer := mkCB None 0 0 0 0.

Definition IsValid (b : CommandsBuffer) : bool := bool_decide (is_Some (commandsBufferData b)).

Definition sizeof_CommandEntryMetadata : Z := 4.

Definition GetMetadataOffset (b : CommandsBuffer) (id : Z) : Z :=
  u32 (totalBytes b - sizeof_CommandEntryMetadata * u32 (id + 1)).

Definition GetOffsetOfNextCommand (b : CommandsBuffer) (alignement : Z) : option Z :=
  assert* alignement <=? 4096 in
  assert* offsetOfFree b <? totalBytes b in
  let offset := u32 (offsetOfFree b + alignement - 1) in
  Some (Z.land offset (u32 (Z.lnot (alignement - 1)))).

(** The fatal log entry for an entry of more than [2^20] bytes does not change the result. *)
Definition CanAllocate (b : CommandsBuffer) (size alignement : Z) : option bool :=
  if IsValid b then
    let commandId := countCommands b in
    let metaOffset := GetMetadataOffset b commandId in
    let* commandOffset := GetOffsetOfNextCommand b alignement in
    Some (negb (metaOffset <? u32 (commandOffset + size)))
  else Some false.

(** The result is the offset of the place in the block, [None] for a null pointer. *)
Definition Allocate (b : CommandsBuffer) (size alignement : Z) : option (option Z * CommandsBuffer) :=
  let* can := CanAllocate b size alignement in
  if (can : bool) then
    let commandId := countCommands b in
    let* commandOffset := GetOffsetOfNextCommand b alignement in
    let* d := commandsBufferData b in
    let d := mkBlock (objects d) (<[GetMetadataOffset b commandId := commandOffset]> (metadata d)) in
    Some (Some commandOffset,
          mkCB (Some d) (totalBytes b) (u32 (countCommands b + 1)) (commandsExecuted b)
            (u32 (commandOffset + size)))
  else Some (None, b).

(** [EnqueueCommand<T>]: [size] and [alignement] are those of [T]. *)
Definition EnqueueCommand (b : CommandsBuffer) (size alignement : Z) (c : C)
  : option (bool * CommandsBuffer) :=
  let* (ptr, b) := Allocate b size alignement in
  match ptr with
  | None => Some (false, b)
  | Some offset =>
      let* d := commandsBufferData b in
      Some (true, mkCB (Some (mkBlock (<[offset := c]> (objects d)) (metadata d))) (totalBytes b)
                    (countCommands b) (commandsExecuted b) (offsetOfFree b))
  end.

(** [GetCommand]: the offset of the object and the object. *)
Definition GetCommand (b : CommandsBuffer) (id : Z) : option (Z * C) :=
  let* d := commandsBufferData b in
  let* offset := metadata d !! GetMetadataOffset b id in
  let* c := objects d !! offset in
  Some (offset, c).

(** The loop of [ExecuteAll] and of [CallDestructors]: the commands it visits, in order.
    Each is destroyed. *)
Fixpoint visit (fuel : nat) (b : CommandsBuffer) : option (list C * CommandsBuffer) :=
  if commandsExecuted b <? countCommands b then
    match fuel with
    | O => None
    | S fuel =>
        let* (offset, c) := GetCommand b (commandsExecuted b) in
        let* d := commandsBufferData b in
        let d := mkBlock (delete offset (objects d)) (metadata d) in
        let* (cs, b) := visit fuel (mkCB (Some d) (totalBytes b) (countCommands b)
                                      (u32 (commandsExecuted b + 1)) (offsetOfFree b)) in
        Some (c :: cs, b)
    end
  else Some ([], b).

Definition rounds (b : CommandsBuffer) : nat := Z.to_nat (countCommands b - commandsExecuted b).

(** The commands executed. *)
Definition ExecuteAll (b : CommandsBuffer) : option (list C * CommandsBuffer) := visit (rounds b) b.

(** The commands destroyed without having been executed. *)
Definition CallDestructors (b : CommandsBuffer) : option (list C * CommandsBuffer) := visit (rounds b) b.

(** [Reset]: [offsetOfFree] keeps its value. *)
Definition Reset (b : CommandsBuffer) : option (list C * CommandsBuffer) :=
  if IsValid b then
    let* (cs, b) := CallDestructors b in
    Some (cs, mkCB None 0 0 0 (offsetOfFree b))
  else Some ([], b).

(** The two fatal log entries on a wrong [size] do not stop the function. *)
Definition Init (b : CommandsBuffer) (size : Z) : option (list C * CommandsBuffer) :=
  let* (cs, b) := Reset b in
  Some (cs, match pool_block size with
            | None => mkCB None 0 0 0 0
            | Some mem => mkCB (Some (mkBlock ∅ ∅)) (u32 (zlen mem)) 0 0 0
            end).

(** The move constructor: the new buffer and what is left of the old one. *)
Definition move (o : CommandsBuffer) : CommandsBuffer * CommandsBuffer := (o, CommandsBuffer_default).

(** ** The layout *)

Record entry := mkEntry { e_offset : Z; e_size : Z; e_align : Z; e_cmd : C }.

(** A power of two up to 4096, and a size that holds at least a virtual table pointer. *)
Definition request_ok (size al : Z) : Prop :=
  8 <= size <= 2 ^ 20 /\ exists k, 0 <= k <= 12 /\ al = 2 ^ k.

(** The buffer holds the commands [l], of which the first [n] have been destroyed. *)
Record holds (b : CommandsBuffer) (l : list entry) (n : nat) : Prop := {
  h_valid : IsValid b = true;
  h_count : countCommands b = zlen l;
  h_done : commandsExecuted b = Z.of_nat n /\ (n <= length l)%nat;
  h_total : totalBytes b <= 2 ^ 29;
  h_fits : 0 <= offsetOfFree b < totalBytes b /\ offsetOfFree b + 4 * zlen l <= totalBytes b /\ 4 <= totalBytes b;
  h_room : 8 * zlen l <= offsetOfFree b;
  h_empty : l = [] -> offsetOfFree b = 0;
  h_entry : forall i x, l !! i = Some x ->
    0 <= e_offset x /\ (e_align x | e_offset x) /\ 8 <= e_size x /\ e_offset x + e_size x <= offsetOfFree b;
  h_order : forall i j x y, (i < j)%nat -> l !! i = Some x -> l !! j = Some y ->
    e_offset x + e_size x <= e_offset y;
  h_meta : forall i x d, l !! i = Some x -> commandsBufferData b = Some d ->
    metadata d !! (totalBytes b - 4 * (Z.of_nat i + 1)) = Some (e_offset x);
  h_object : forall i x d, l !! i = Some x -> (n <= i)%nat -> commandsBufferData b = Some d ->
    objects d !! e_offset x = Some (e_cmd x)
}.

(** Rounding up to a multiple of a power of two. *)
Lemma align_up x k : 0 <= k <= 12 -> 0 <= x -> x + 2 ^ k - 1 < 2 ^ 32 ->
  exists y, Z.land (u32 (x + 2 ^ k - 1)) (u32 (Z.lnot (2 ^ k - 1))) = y
    /\ x <= y < x + 2 ^ k /\ (2 ^ k | y).
Proof.
  intros Hk Hx Hlt. assert (0 < 2 ^ k) by (apply Z.pow_pos_nonneg; lia).
  rewrite (u32_small (x + _ - 1)) by (unfold is_u32; lia). set (z := x + 2 ^ k - 1).
  assert (Z.land z (u32 (Z.lnot (2 ^ k - 1))) = z / 2 ^ k * 2 ^ k) as ->.
  { unfold u32. rewrite <- Z.land_ones by lia. rewrite Z.land_comm, <- Z.land_assoc, (Z.land_comm (Z.ones 32)).
    rewrite (Z.land_ones z 32), Z.mod_small by (subst z; lia).
    replace (2 ^ k - 1) with (Z.ones k) by (rewrite Z.ones_equiv; lia).
    rewrite Z.land_comm, <- Z.ldiff_land.
    rewrite Z.ldiff_ones_r by lia. by rewrite Z.shiftl_mul_pow2, Z.shiftr_div_pow2 by lia. }
  eexists. split; [ reflexivity | ]. pose proof (Z.div_mod z (2 ^ k) ltac:(lia)).
  pose proof (Z.mod_pos_bound z (2 ^ k) ltac:(lia)). split; [ subst z; lia | ].
  exists (z / 2 ^ k). done.
Qed.

Lemma metadata_offset b id : 0 <= id -> 4 * (id + 1) <= totalBytes b <= 2 ^ 29 ->
  GetMetadataOffset b id = totalBytes b - 4 * (id + 1).
Proof.
  intros Hid Ht. unfold GetMetadataOffset, sizeof_CommandEntryMetadata.
  rewrite (u32_small (id + 1)), u32_small by (unfold is_u32; lia). done.
Qed.

Lemma lookup_snoc {A} (l : list A) x i y : (l ++ [x]) !! i = Some y ->
  l !! i = Some y \/ (i = length l /\ y = x).
Proof.
  intros [Hi | [Hi Ex]]%lookup_app_Some; [ by left | right ].
  destruct (i - length l)%nat as [|m] eqn:Em; [ | done ]. simplify_eq/=. split; [ lia | done ].
Qed.

(** Placing one more command behind the others. *)
Lemma holds_snoc b l n d off size al c :
  holds b l n -> commandsBufferData b = Some d ->
  8 <= size -> (al | off) -> offsetOfFree b <= off -> off + size + 4 * (zlen l + 1) <= totalBytes b ->
  holds (mkCB (Some (mkBlock (<[off := c]> (objects d))
                       (<[totalBytes b - 4 * (zlen l + 1) := off]> (metadata d))))
           (totalBytes b) (zlen l + 1) (commandsExecuted b) (off + size))
    (l ++ [mkEntry off size al c]) n.
Proof.
  intros Hh Ed Hs Hal Hoff Hfit. destruct Hh as [Hv Hc [Hd Hn] Ht Hf Hr Hem He Ho Hm Hb].
  pose proof (zlen_nonneg l).
  split; cbn [commandsBufferData totalBytes countCommands commandsExecuted offsetOfFree];
    rewrite ?zlen_app, ?length_app; change (zlen [mkEntry off size al c]) with 1; try lia; try done.
  - by intros [_ [=]]%app_eq_nil.
  - intros i x [Hi | [-> ->]]%lookup_snoc; [ destruct (He _ _ Hi) as (? & ? & ? & ?) | simpl ]; split_and!; (done || lia).
  - intros i j x y Hij [Hi | [-> ->]]%lookup_snoc [Hj | [-> ->]]%lookup_snoc; simpl.
    + by eapply Ho.
    + destruct (He _ _ Hi) as (? & ? & ? & ?). lia.
    + apply lookup_lt_Some in Hj. lia.
    + lia.
  - intros i x d' Hi [= <-]. cbn [metadata]. apply lookup_snoc in Hi as [Hi | [-> ->]].
    + pose proof (lookup_lt_Some _ _ _ Hi). rewrite lookup_insert_ne by (unfold zlen; lia). by apply Hm.
    + unfold zlen. by rewrite lookup_insert_eq.
  - intros i x d' Hi Hni [= <-]. cbn [objects]. apply lookup_snoc in Hi as [Hi | [-> ->]].
    + destruct (He _ _ Hi) as (? & ? & ? & ?). rewrite lookup_insert_ne by lia. by eapply Hb.
    + by rewrite lookup_insert_eq.
Qed.

(** [EnqueueCommand] either places the command behind the others, aligned and below the
    table, or finds no room and changes nothing. *)
Lemma Enqueue_spec b l n size al c : holds b l n -> request_ok size al ->
  exists off, offsetOfFree b <= off < offsetOfFree b + al /\ (al | off)
    /\ CanAllocate b size al = Some (off + size + 4 * (zlen l + 1) <=? totalBytes b)
    /\ if off + size + 4 * (zlen l + 1) <=? totalBytes b
       then exists b', EnqueueCommand b size al c = Some (true, b')
              /\ holds b' (l ++ [mkEntry off size al c]) n /\ totalBytes b' = totalBytes b
       else EnqueueCommand b size al c = Some (false, b).
Proof.
  intros Hh [Hs (k & Hk & ->)]. pose proof Hh as [Hv Hc [Hd Hn] Ht Hf Hr _ _ _ _ _].
  assert (1 <= 2 ^ k <= 4096) by (split; [ apply Z.lt_pred_le, Z.pow_pos_nonneg; lia
    | change 4096 with (2 ^ 12); apply Z.pow_le_mono_r; lia ]).
  pose proof (zlen_nonneg l).
  destruct (align_up (offsetOfFree b) k Hk) as (off & Eoff & Hoff & Hal); [ lia | lia | ].
  assert (GetOffsetOfNextCommand b (2 ^ k) = Some off) as Eg.
  { unfold GetOffsetOfNextCommand. rewrite (proj2 (Z.leb_le _ 4096)), (proj2 (Z.ltb_lt (offsetOfFree b) _)) by lia.
    by rewrite Eoff. }
  assert (GetMetadataOffset b (countCommands b) = totalBytes b - 4 * (zlen l + 1)) as Em
    by (rewrite Hc; apply metadata_offset; lia).
  exists off. split_and!; [ lia | lia | done | | ].
  - unfold CanAllocate. rewrite Hv, Eg, Em. rewrite (u32_small (off + size)) by (unfold is_u32; lia). f_equal.
    rewrite Z.leb_antisym. f_equal. apply eq_true_iff_eq. rewrite !Z.ltb_lt. lia.
  - unfold EnqueueCommand, Allocate, CanAllocate. rewrite Hv, Eg, Em.
    rewrite (u32_small (off + size)) by (unfold is_u32; lia).
    destruct (Z.leb_spec (off + size + 4 * (zlen l + 1)) (totalBytes b)) as [Hfit | Hno].
    + rewrite (proj2 (Z.ltb_ge _ (off + size))) by lia. cbn [negb].
      unfold IsValid in Hv. apply bool_decide_eq_true in Hv as [d Ed]. rewrite Ed. eexists. split; [ done | ].
      cbn [commandsBufferData totalBytes countCommands commandsExecuted offsetOfFree objects metadata].
      split; [ | done ]. rewrite Hc, u32_small by (unfold is_u32; lia). apply holds_snoc; (done || lia).
    + rewrite (proj2 (Z.ltb_lt _ (off + size))) by lia. done.
Qed.

Lemma GetCommand_spec b l n x : holds b l n -> l !! n = Some x ->
  GetCommand b (commandsExecuted b) = Some (e_offset x, e_cmd x).
Proof.
  intros Hh Hx. pose proof Hh as [Hv Hc [Hd Hn] Ht Hf Hr _ _ _ _ _]. pose proof (lookup_lt_Some _ _ _ Hx).
  unfold GetCommand, IsValid in *. apply bool_decide_eq_true in Hv as [d Ed]. rewrite Ed, Hd.
  rewrite metadata_offset by (unfold zlen in *; lia). rewrite (h_meta _ _ _ Hh n x d Hx Ed).
  by rewrite (h_object _ _ _ Hh n x d Hx (le_n n) Ed).
Qed.

(** The loop visits the commands that are left, in the order they were placed. *)
Lemma visit_spec fuel : forall b l n, holds b l n -> fuel = (length l - n)%nat ->
  exists b', visit fuel b = Some (e_cmd <$> drop n l, b') /\ holds b' l (length l) /\ totalBytes b' = totalBytes b.
Proof.
  induction fuel as [|fuel IH]; intros b l n Hh Ef;
    pose proof Hh as [Hv Hc [Hd Hn] Ht Hf Hr Hem He Ho Hm Hb]; cbn [visit]; rewrite Hd, Hc.
  - assert (n = length l) as -> by lia. rewrite (proj2 (Z.ltb_ge _ _)) by (unfold zlen; lia).
    rewrite drop_all. by exists b.
  - rewrite (proj2 (Z.ltb_lt _ _)) by (unfold zlen; lia).
    destruct (lookup_lt_is_Some_2 l n ltac:(lia)) as [x Hx].
    pose proof (GetCommand_spec b l n x Hh Hx) as Eg. rewrite Hd in Eg. rewrite Eg.
    unfold IsValid in Hv. apply bool_decide_eq_true in Hv as [d Ed]. rewrite Ed.
    rewrite (u32_small (Z.of_nat n + 1)) by (unfold is_u32, zlen in *; lia).
    destruct (IH (mkCB (Some (mkBlock (delete (e_offset x) (objects d)) (metadata d))) (totalBytes b) (zlen l)
                    (Z.of_nat n + 1) (offsetOfFree b)) l (S n)) as (b' & -> & Hb' & Ht'); [ | lia | ].
    + split; cbn [commandsBufferData totalBytes countCommands commandsExecuted offsetOfFree]; try done; try lia.
      * intros i y d' Hi [= <-]. cbn [metadata]. by apply Hm.
      * intros i y d' Hi Hni [= <-]. cbn [objects]. destruct (He _ _ Hx) as (? & ? & ? & ?).
        pose proof (Ho n i x y ltac:(lia) Hx Hi). rewrite lookup_delete_ne by lia. eapply Hb; (done || lia).
    + exists b'. rewrite (drop_S _ _ _ Hx). done.
Qed.

Lemma ExecuteAll_spec b l n : holds b l n ->
  exists b', ExecuteAll b = Some (e_cmd <$> drop n l, b') /\ holds b' l (length l) /\ totalBytes b' = totalBytes b.
Proof.
  intros Hh. apply visit_spec; [ done | ]. unfold rounds. rewrite (h_count _ _ _ Hh), (proj1 (h_done _ _ _ Hh)).
  unfold zlen. lia.
Qed.


Lemma Reset_spec b l n : holds b l n ->
  exists b', Reset b = Some (e_cmd <$> drop n l, b') /\ commandsBufferData b' = None /\ countCommands b' = 0.
Proof.
  intros Hh. unfold Reset, CallDestructors. rewrite (h_valid _ _ _ Hh).
  destruct (ExecuteAll_spec b l n Hh) as (b' & E & _). unfold ExecuteAll in E. rewrite E. by eexists.
Qed.

Lemma Init_spec b size : commandsBufferData b = None -> 0 < size <= 2 ^ 28 -> usable size <= 2 ^ 29 ->
  4 <= usable size ->
  exists b', Init b size = Some ([], b') /\ holds b' [] 0 /\ totalBytes b' = usable size.
Proof.
  intros Hb Hs Hu H4. unfold Init, Reset, IsValid. rewrite Hb, bool_decide_false by (by intros [? [=]]).
  destruct (pool_block_spec size) as (mem & -> & Hm & Em); [ lia | ].
  rewrite u32_small by (unfold is_u32; lia). rewrite Em. eexists. split_and!; [ done | | done ].
  split; cbn; try done; change (zlen (@nil entry)) with 0; lia.
Qed.

(** ** The handler *)

Definition bufferSize : Z := 1024 * 16.

(** [queue]: whether the pointer is set, and the buffers passed to
    [CommandExecutionQueue::EnqueueCommandsBuffer] so far; [lost] records the commands that
    were destroyed without having been executed, [fatal] counts the fatal log entries. *)
Record CommandsBufferHandler := mkHandler {
  queue : bool;
  queued : list CommandsBuffer;
  currentCommandsBuffer : CommandsBuffer;
  forceEnqueueTimepoint : Z;
  lost : list C;
  fatal : Z
}.

Definition set_current (h : CommandsBufferHandler) (b : CommandsBuffer) (cs : list C) : CommandsBufferHandler :=
  mkHandler (queue h) (queued h) b (forceEnqueueTimepoint h) (lost h ++ cs) (fatal h).

(** 200 milliseconds, in nanoseconds. *)
Definition FORCE_AFTER : Z := 200 * 1000000.

Definition CommandsBufferHandler_new (now : Z) : CommandsBufferHandler :=
  mkHandler true [] CommandsBuffer_default (now + FORCE_AFTER) [] 0.

Definition FlushBuffer (h : CommandsBufferHandler) : option CommandsBufferHandler :=
  if queue h then
    let b := currentCommandsBuffer h in
    if IsValid b && negb (countCommands b =? 0) then
      let '(moved, rest) := move b in
      let h := mkHandler true (queued h ++ [moved]) rest (forceEnqueueTimepoint h) (lost h) (fatal h) in
      let* (cs, b) := Reset (currentCommandsBuffer h) in
      Some (set_current h b cs)
    else Some h
  else Some (mkHandler false (queued h) (currentCommandsBuffer h) (forceEnqueueTimepoint h) (lost h) (fatal h + 1)).

Definition AllocateBuffer (h : CommandsBufferHandler) : option CommandsBufferHandler :=
  let* h := FlushBuffer h in
  assert* countCommands (currentCommandsBuffer h) =? 0 in
  let* h :=
    if IsValid (currentCommandsBuffer h) then Some h
    else
      let* (cs, b) := Reset (currentCommandsBuffer h) in
      let* (cs', b) := Init b bufferSize in
      Some (set_current h b (cs ++ cs')) in
  assert* countCommands (currentCommandsBuffer h) =? 0 in
  Some h.

(** [EnqueueCommand<T>] at the time [now]; the boolean tells whether the pointer is set. *)
Definition Handler_EnqueueCommand (h : CommandsBufferHandler) (now size al : Z) (c : C)
  : option (bool * CommandsBufferHandler) :=
  let* h :=
    let* room := if IsValid (currentCommandsBuffer h) then CanAllocate (currentCommandsBuffer h) size al
                 else Some false in
    if (room : bool) then Some h else AllocateBuffer h in
  let* h := if forceEnqueueTimepoint h <? now then AllocateBuffer h else Some h in
  let h := if countCommands (currentCommandsBuffer h) =? 0
           then mkHandler (queue h) (queued h) (currentCommandsBuffer h) (now + FORCE_AFTER) (lost h) (fatal h)
           else h in
  let* (ok, b) := EnqueueCommand (currentCommandsBuffer h) size al c in
  Some (ok, mkHandler (queue h) (queued h) b (forceEnqueueTimepoint h) (lost h)
              (if (ok : bool) then fatal h else fatal h + 1)).

(** [EnqueueCommandAndFlush]. *)
Definition EnqueueCommandAndFlush (h : CommandsBufferHandler) (now size al : Z) (c : C)
  : option CommandsBufferHandler :=
  let* (_, h) := Handler_EnqueueCommand h now size al c in
  FlushBuffer h.

(** The queue executes the buffers it was given in order, each with [ExecuteAll]. *)
Fixpoint execute_buffers (bs : list CommandsBuffer) : option (list C) :=
  match bs with
  | [] => Some []
  | b :: bs =>
      let* (cs, _) := ExecuteAll b in
      let* cs' := execute_buffers bs in
      Some (cs ++ cs')
  end.

Inductive handler_op := HEnqueue (now size al : Z) (c : C) | HFlush.

Definition handler_step (h : CommandsBufferHandler) (o : handler_op) : option CommandsBufferHandler :=
  match o with
  | HEnqueue now size al c => let* (_, h) := Handler_EnqueueCommand h now size al c in Some h
  | HFlush => FlushBuffer h
  end.

Fixpoint handler_run (h : CommandsBufferHandler) (os : list handler_op) : option CommandsBufferHandler :=
  match os with
  | [] => Some h
  | o :: os => let* h := handler_step h o in handler_run h os
  end.

Definition enqueued (os : list handler_op) : list C :=
  omap (fun o => match o with HEnqueue _ _ _ c => Some c | HFlush => None end) os.

(** Every command fits into an empty buffer. *)
Definition op_ok (o : handler_op) : Prop :=
  match o with
  | HEnqueue _ size al _ => request_ok size al /\ size + 4 <= bufferSize
  | HFlush => True
  end.

(** The current buffer holds the commands [cur]. *)
Definition current_ok (b : CommandsBuffer) (cur : list entry) : Prop :=
  (commandsBufferData b = None /\ countCommands b = 0 /\ cur = [])
  \/ (holds b cur 0 /\ bufferSize <= totalBytes b).

Record handler_ok (h : CommandsBufferHandler) (l : list C) : Prop := {
  ho_queue : queue h = true;
  ho_held : exists ls cur, Forall2 (fun b es => holds b es 0) (queued h) ls
    /\ current_ok (currentCommandsBuffer h) cur /\ (e_cmd <$> concat ls ++ cur) = l;
  ho_lost : lost h = [];
  ho_fatal : fatal h = 0
}.

Context (usable_bounded : usable bufferSize <= 2 ^ 29).

Lemma current_invalid b : commandsBufferData b = None -> IsValid b = false.
Proof. intros E. unfold IsValid. rewrite E. by rewrite bool_decide_false by (by intros [? [=]]). Qed.

Lemma Flush_spec h l : handler_ok h l ->
  exists h', FlushBuffer h = Some h' /\ handler_ok h' l /\ forceEnqueueTimepoint h' = forceEnqueueTimepoint h
    /\ (commandsBufferData (currentCommandsBuffer h') = None /\ countCommands (currentCommandsBuffer h') = 0
        \/ holds (currentCommandsBuffer h') [] 0 /\ bufferSize <= totalBytes (currentCommandsBuffer h')).
Proof.
  intros [Hq (ls & cur & Hf2 & Hcur & El) Hl Hfa]. unfold FlushBuffer. rewrite Hq.
  destruct Hcur as [(Ed & Ec & ->) | [Hh Ht]].
  - rewrite current_invalid by done. exists h. split_and!; [ done | | done | by left ].
    split; try done. exists ls, []. split_and!; try done. by left.
  - rewrite (h_valid _ _ _ Hh). destruct (Z.eqb_spec (countCommands (currentCommandsBuffer h)) 0) as [E0 | E0].
    + assert (cur = []) as -> by (apply zlen_0_nil; rewrite <- (h_count _ _ _ Hh); done).
      exists h. split_and!; [ done | | done | by right ]. split; try done. exists ls, []. split_and!; try done. by right.
    + cbn [negb andb move currentCommandsBuffer]. change (Reset CommandsBuffer_default) with (Some (@nil C, CommandsBuffer_default)).
      eexists. split_and!; [ done | | done | by left ]. split; try done.
      * exists (ls ++ [cur]), []. split_and!; [ | by left | ].
        -- apply Forall2_app; [ done | ]. by apply Forall2_cons.
        -- rewrite concat_app. simpl. by rewrite !app_nil_r.
      * simpl. by rewrite Hl.
Qed.

Lemma Allocate_spec h l : handler_ok h l ->
  exists h', AllocateBuffer h = Some h' /\ handler_ok h' l /\ forceEnqueueTimepoint h' = forceEnqueueTimepoint h
    /\ holds (currentCommandsBuffer h') [] 0 /\ bufferSize <= totalBytes (currentCommandsBuffer h').
Proof.
  intros Hh. unfold AllocateBuffer.
  destruct (Flush_spec h l Hh) as (h1 & -> & Hh1 & Ef & Hcur). destruct Hcur as [[Ed Ec] | [Hb Ht]].
  - rewrite Ec, Z.eqb_refl, current_invalid by done. unfold Reset at 1. rewrite current_invalid by done.
    destruct (Init_spec (currentCommandsBuffer h1) bufferSize) as (b & -> & Hb & Ht);
      [ done | unfold bufferSize; lia | done | pose proof (usable_ge bufferSize); unfold bufferSize in *; lia | ].
    cbn [app set_current currentCommandsBuffer]. rewrite (h_count _ _ _ Hb), zlen_nil, Z.eqb_refl.
    pose proof (usable_ge bufferSize ltac:(unfold bufferSize; lia)).
    eexists. split_and!; [ done | | done | done | simpl; lia ].
    destruct Hh1 as [Hq (ls & cur & Hf2 & Hcur & El) Hl Hfa]. split; try done; [ | simpl; by rewrite Hl ].
    destruct Hcur as [(_ & _ & ->) | [Hx _]]; [ | unfold IsValid in *; pose proof (h_valid _ _ _ Hx) as Hv;
      unfold IsValid in Hv; rewrite Ed in Hv; by apply bool_decide_eq_true in Hv as [? [=]] ].
    exists ls, []. split_and!; try done. right. split; [ done | simpl; lia ].
  - rewrite (h_count _ _ _ Hb), zlen_nil, Z.eqb_refl, (h_valid _ _ _ Hb). rewrite (h_count _ _ _ Hb), zlen_nil, Z.eqb_refl.
    exists h1. done.
Qed.

Lemma Allocate_ready h l size al (c : C) : handler_ok h l -> request_ok size al -> size + 4 <= bufferSize ->
  exists h', AllocateBuffer h = Some h' /\ handler_ok h' l
    /\ IsValid (currentCommandsBuffer h') = true /\ CanAllocate (currentCommandsBuffer h') size al = Some true.
Proof.
  intros Hh Hr Hs. destruct (Allocate_spec h l Hh) as (h' & E & Hh' & _ & Hb & Ht). exists h'.
  split_and!; [ done | done | apply Hb | ].
  destruct (Enqueue_spec _ _ _ size al c Hb Hr) as (off & Hoff & [q Hq] & -> & _).
  rewrite (h_empty _ _ _ Hb eq_refl) in Hoff. rewrite zlen_nil. f_equal. apply Z.leb_le.
  assert (off = 0) as -> by (subst off; assert (q = 0) by nia; lia). lia.
Qed.

(** Placing a command in a current buffer with room. *)
Lemma put_spec h l size al c t : handler_ok h l -> request_ok size al ->
  IsValid (currentCommandsBuffer h) = true -> CanAllocate (currentCommandsBuffer h) size al = Some true ->
  exists b, EnqueueCommand (currentCommandsBuffer h) size al c = Some (true, b)
    /\ handler_ok (mkHandler (queue h) (queued h) b t (lost h) (fatal h)) (l ++ [c]).
Proof.
  intros [Hq (ls & cur & Hf2 & Hcur & El) Hl Hfa] Hr Hv Hc.
  destruct Hcur as [(Ed & _) | [Hb Ht]]; [ by rewrite current_invalid in Hv | ].
  destruct (Enqueue_spec _ _ _ size al c Hb Hr) as (off & _ & _ & Hcan & Henq). rewrite Hc in Hcan.
  injection Hcan as Hcan. rewrite <- Hcan in Henq. destruct Henq as (b & -> & Hb' & Ht').
  exists b. split; [ done | ]. split; try done. eexists ls, _.
  split_and!; [ done | right; split; [ exact Hb' | simpl; lia ] | ]. by rewrite app_assoc, fmap_app, El.
Qed.

(** A command that fits into an empty buffer is always accepted. *)
Lemma Handler_Enqueue_spec h l now size al c : handler_ok h l -> request_ok size al -> size + 4 <= bufferSize ->
  exists h', Handler_EnqueueCommand h now size al c = Some (true, h') /\ handler_ok h' (l ++ [c]).
Proof.
  intros Hh Hr Hs. unfold Handler_EnqueueCommand.
  set (ready h1 := handler_ok h1 l /\ IsValid (currentCommandsBuffer h1) = true
    /\ CanAllocate (currentCommandsBuffer h1) size al = Some true).
  match goal with |- context [match ?e with Some h => _ | None => None end] => set (first := e) end.
  assert (exists h1, first = Some h1 /\ ready h1) as (h1 & -> & Hh1 & Hv1 & Hc1).
  { subst first. destruct (IsValid (currentCommandsBuffer h)) eqn:Ev.
    - destruct Hh as [Hq (ls & cur & Hf2 & Hcur & El) Hl Hfa] eqn:EH. clear EH.
      destruct Hcur as [(Ed & _) | [Hb Ht]]; [ by rewrite current_invalid in Ev | ].
      destruct (Enqueue_spec _ _ _ size al c Hb Hr) as (off & _ & _ & Ec & _). rewrite Ec.
      destruct (off + size + _ <=? _) eqn:Er; [ by exists h; split_and! | ].
      destruct (Allocate_ready h l size al c) as (h1 & ? & ? & ? & ?); [ done.. | by exists h1 ].
    - destruct (Allocate_ready h l size al c) as (h1 & ? & ? & ? & ?); [ done.. | by exists h1 ]. }
  assert (exists h2, (if forceEnqueueTimepoint h1 <? now then AllocateBuffer h1 else Some h1) = Some h2 /\ ready h2)
    as (h2 & -> & Hh2 & Hv2 & Hc2).
  { destruct (forceEnqueueTimepoint h1 <? now); [ | by exists h1 ].
    destruct (Allocate_ready h1 l size al c) as (h2 & ? & ? & ? & ?); [ done.. | by exists h2 ]. }
  destruct (countCommands (currentCommandsBuffer h2) =? 0); cbn [currentCommandsBuffer forceEnqueueTimepoint queue queued lost fatal].
  - destruct (put_spec h2 l size al c (now + FORCE_AFTER) Hh2 Hr Hv2 Hc2) as (b & -> & Hb). eexists. split; [ done | exact Hb ].
  - destruct (put_spec h2 l size al c (forceEnqueueTimepoint h2) Hh2 Hr Hv2 Hc2) as (b & -> & Hb). eexists. split; [ done | exact Hb ].
Qed.

Lemma handler_step_spec h l o : handler_ok h l -> op_ok o ->
  exists h', handler_step h o = Some h' /\ handler_ok h' (l ++ enqueued [o]).
Proof.
  intros Hh Ho. destruct o as [now size al c | ]; cbn [handler_step op_ok] in *.
  - destruct Ho as [Hr Hs]. destruct (Handler_Enqueue_spec h l now size al c Hh Hr Hs) as (h' & -> & Hh'). by exists h'.
  - destruct (Flush_spec h l Hh) as (h' & -> & Hh' & _). exists h'. split; [ done | ]. simpl. by rewrite app_nil_r.
Qed.

Lemma handler_run_spec os : forall h l, handler_ok h l -> Forall op_ok os ->
  exists h', handler_run h os = Some h' /\ handler_ok h' (l ++ enqueued os).
Proof.
  induction os as [|o os IH]; intros h l Hh Hos; cbn [handler_run].
  - exists h. split; [ done | ]. simpl. by rewrite app_nil_r.
  - apply Forall_cons in Hos as [Ho Hos]. destruct (handler_step_spec h l o Hh Ho) as (h1 & -> & Hh1).
    destruct (IH _ _ Hh1 Hos) as (h' & -> & Hh'). exists h'. split; [ done | ].
    change (o :: os) with ([o] ++ os). unfold enqueued. rewrite omap_app. by rewrite app_assoc.
Qed.

Lemma execute_buffers_spec bs ls : Forall2 (fun b es => holds b es 0) bs ls ->
  execute_buffers bs = Some (e_cmd <$> concat ls).
Proof.
  induction 1 as [|b es bs ls Hb _ IH]; [ done | ]. cbn [execute_buffers concat].
  destruct (ExecuteAll_spec b es 0 Hb) as (b' & -> & _). rewrite IH, drop_0, fmap_app. done.
Qed.

Lemma new_handler_ok now : handler_ok (CommandsBufferHandler_new now) [].
Proof. split; try done. exists [], []. split_and!; [ by constructor | by left | done ]. Qed.

(** After a flush the queue executes everything the handler was given. *)
Lemma flushed_handler_executes h l : handler_ok h l ->
  exists h', FlushBuffer h = Some h' /\ execute_buffers (queued h') = Some l /\ lost h' = [] /\ fatal h' = 0.
Proof.
  intros Hh. destruct (Flush_spec h _ Hh) as (h' & E' & Hh' & _ & Hend). exists h'.
  destruct Hh' as [_ (ls & cur & Hf2 & Hcur & El) Hl Hfa]. split_and!; try done.
  rewrite (execute_buffers_spec _ _ Hf2). assert (cur = []) as ->.
  { destruct Hcur as [(_ & _ & ->) | [Hx _]]; [ done | ]. apply zlen_0_nil. rewrite <- (h_count _ _ _ Hx).
    destruct Hend as [[_ E0] | [E0 _]]; [ done | by rewrite (h_count _ _ _ E0) ]. }
  by rewrite app_nil_r in El; rewrite El.
Qed.

(** ** Claims *)




(** C32: the commands given to a new handler, each of 8 to [16384 - 4] bytes (an empty buffer
    has room for it) and aligned to a power of two up to 4096: at whatever times they come and
    whenever the handler is flushed in between, after a last flush the queue has been given
    buffers that execute exactly these commands, in order, each once; none is lost, no
    assertion fails and nothing fatal is logged. The allocator may give up to [2^29] bytes for
    a buffer of 16384. (For a larger command [EnqueueCommand] logs a fatal error and returns a
    null pointer.) *)
Theorem handler_keeps_commands_in_order now os :
  Forall op_ok os ->
  exists h h', handler_run (CommandsBufferHandler_new now) os = Some h /\ FlushBuffer h = Some h'
    /\ execute_buffers (queued h') = Some (enqueued os) /\ lost h' = [] /\ fatal h' = 0.
Proof.
  intros Hos. destruct (handler_run_spec os _ _ (new_handler_ok now) Hos) as (h & E & Hh). cbn [app] in Hh.
  destruct (flushed_handler_executes h _ Hh) as (h' & E' & Hh'). by exists h, h'.
Qed.

End Buffer.

(** ** Witnesses *)




Definition sample_handler_ops : list (@handler_op nat) :=
  [HEnqueue 0 24 8 1%nat; HEnqueue 5 4096 16 2%nat; HFlush; HEnqueue 6 8000 64 3%nat; HEnqueue 7 8384 8 4%nat;
   HEnqueue 500000000 24 8 5%nat].

Lemma handler_keeps_commands_in_order_witness :
  exists h h', handler_run (CommandsBufferHandler_new 0) sample_handler_ops = Some h /\ FlushBuffer h = Some h'
    /\ execute_buffers (queued h') = Some (enqueued sample_handler_ops) /\ lost h' = [] /\ fatal h' = 0.
Proof.
  apply (handler_keeps_commands_in_order).
  - intros E. vm_compute in E. discriminate E.
  - unfold sample_handler_ops. repeat (apply Forall_cons; split); [ .. | by apply Forall_nil ];
      cbn [op_ok]; try exact I; (split; [ split; [ lia | ] | unfold bufferSize; lia ]);
      first [ by exists 3 | by exists 4 | by exists 6 ].
Defined.

End CommandsBuffer.
