(* ===== verification/CommandQueue.v ===== *)
(** * The command queue (src/CommandExecutionQueue.cpp)

    [Execute] takes commands out of a concurrent queue in bulks and executes them;
    [ExecuteLoop] repeats it in a thread of its own until it is asked to stop. The queue
    itself (moodycamel::ConcurrentQueue) is not part of the repository: the class
    [ConcurrentQueue] holds what is used of it. The thread and the one that stops it and
    destroys the queue are a transition system over the shared flags. *)

From S2P Require Import Prelude.

(** The state [St] contains the queue and everything commands change. [producer] is the thread
    that enqueued a command, [pending] are the commands in the queue, [done] those executed. *)
Class ConcurrentQueue (St X : Type) := {
  producer : X -> nat;
  pending : St -> list X;
  done : St -> list X;
  try_dequeue_bulk : St -> Z -> list X * St;
  run : X -> St -> St
}.

Definition of_producer `{ConcurrentQueue St X} (p : nat) (cs : list X) : list X := filter (fun x => producer x = p) cs.

(** A bulk takes at most as many commands as asked for, possibly fewer than there are, and takes
    each of them out. The documentation of moodycamel promises the order of the commands of each
    producer, and none between producers. Executing a command may add others at the end; it
    does not take commands out itself ([reentrant_command_overtakes] is about one that does). *)
Class QueueLaws (St X : Type) `{ConcurrentQueue St X} : Prop := {
  dequeue_ok : forall s n, 0 <= n ->
    zlen (try_dequeue_bulk s n).1 <= n
    /\ pending s ≡ₚ (try_dequeue_bulk s n).1 ++ pending (try_dequeue_bulk s n).2
    /\ (forall p, of_producer p (pending s) = of_producer p (try_dequeue_bulk s n).1 ++ of_producer p (pending (try_dequeue_bulk s n).2))
    /\ done (try_dequeue_bulk s n).2 = done s;
  run_ok : forall x s, done (run x s) = done s ++ [x] /\ exists new, pending (run x s) = pending s ++ new
}.

Module CommandQueue.

Lemma of_producer_app `{ConcurrentQueue St X} p (a b : list X) : of_producer p (a ++ b) = of_producer p a ++ of_producer p b.
Proof. apply filter_app. Qed.

(** All commands of one producer. *)
Lemma of_one_producer `{ConcurrentQueue St X} p (cs : list X) : (forall x, producer x = p) -> of_producer p cs = cs.
Proof. intros Hp. induction cs as [|c cs IH]; [ reflexivity | ]. unfold of_producer in *. by rewrite filter_cons_True, IH. Qed.

Section Queue.
Context `{CQ : ConcurrentQueue St X}.

Definition elems : Z := 1024.

(** The loop over the commands of a bulk. *)
Definition run_all (cs : list X) (s : St) : St := fold_left (fun s c => run c s) cs s.

(** How a bulk smaller than asked for reduces [notFullDequeuesMax]. *)
Definition penalty (toDequeue dequeued notFullDequeuesMax : Z) : Z :=
  let n := if dequeued <=? Z.shiftr toDequeue 3 then notFullDequeuesMax - 1 else notFullDequeuesMax in
  if dequeued <? 13 then n - 57
  else if dequeued =? 0 then n - 223
  else n.

(** The [while] loop of [Execute]. *)
Fixpoint execute_loop (fuel : nat) (maxToDequeue notFullDequeuesMax total : Z) (s : St)
  : option (Z * St) :=
  if maxToDequeue =? 0 then Some (total, s)
  else
    match fuel with
    | O => None
    | S fuel =>
        let toDequeue := Z.min maxToDequeue elems in
        let '(commands, s) := try_dequeue_bulk s toDequeue in
        let dequeued := zlen commands in
        let total := u32 (total + dequeued) in
        let s := run_all commands s in
        if negb (dequeued =? toDequeue) then
          if notFullDequeuesMax <=? 0 then Some (total, s)
          else execute_loop fuel (u32 (maxToDequeue - dequeued))
                 (penalty toDequeue dequeued notFullDequeuesMax) total s
        else execute_loop fuel (u32 (maxToDequeue - dequeued)) notFullDequeuesMax total s
    end.

(** Every round takes a command or lowers the limit of 512; then there is a last round. *)
Definition Execute (maxToDequeue : Z) (s : St) : option (Z * St) :=
  execute_loop (S (Z.to_nat (maxToDequeue + 512))) maxToDequeue 512 0 s.

(** ** The pauses of [ExecuteLoop] *)

(** The pause after a round without commands, and the new counter of such rounds. *)
Definition pause (sleepMicrosecondsOnNoActions maxSleepDuration accumulativeNopCounter : Z) : Z * Z :=
  let sleepTime := u64 (sleepMicrosecondsOnNoActions + u64 (accumulativeNopCounter * 64)) in
  let counter := u64 (accumulativeNopCounter + 1) in
  let counter := if 100000 <? counter then 100000 else counter in
  let sleepTime := if sleepTime <? 1 then 1 else sleepTime in
  let sleepTime := if maxSleepDuration <? sleepTime then maxSleepDuration else sleepTime in
  (sleepTime, counter).

(** One round of the loop: what [Execute] did, the pause (0 for none) and the counter. *)
Definition loop_round (sleepMicroseconds maxSleep counter : Z) (s : St) : option (St * Z * Z) :=
  let* (dequeued, s) := Execute 1024 s in
  if dequeued =? 0 then
    let '(t, counter) := pause sleepMicroseconds maxSleep counter in
    Some (s, t, counter)
  else Some (s, 0, 0).

End Queue.

(** ** Lemmas *)

Section Laws.
Context `{CQ : ConcurrentQueue St X} {QL : QueueLaws St X}.

Lemma run_all_spec cs : forall s, done (run_all cs s) = done s ++ cs
  /\ exists new, pending (run_all cs s) = pending s ++ new.
Proof.
  induction cs as [|c cs IH]; intros s; cbn [run_all fold_left].
  - split; [ by rewrite app_nil_r | exists []; by rewrite app_nil_r ].
  - destruct (run_ok c s) as [Hd [new Hp]]. destruct (IH (run c s)) as [Hd' [new' Hp']]. unfold run_all in *.
    rewrite Hd', Hp', Hd, Hp. split; [ by rewrite <- app_assoc | exists (new ++ new'); by rewrite app_assoc ].
Qed.

(** Commands were executed and [new] ones came in: no command is lost or executed twice, and
    those of each producer are executed in their order. *)
Definition progress (s s' : St) (n : Z) : Prop :=
  (exists new, done s' ++ pending s' ≡ₚ done s ++ pending s ++ new
     /\ forall p, of_producer p (done s' ++ pending s') = of_producer p (done s ++ pending s ++ new))
  /\ zlen (done s') = zlen (done s) + n.

Lemma progress_refl s : progress s s 0.
Proof. split; [ exists []; by rewrite app_nil_r | lia ]. Qed.

Lemma progress_trans s s1 s2 n m : progress s s1 n -> progress s1 s2 m -> progress s s2 (n + m).
Proof.
  intros [[new [P E]] L] [[new' [P' E']] L']. split; [ | lia ]. exists (new ++ new'). split.
  - rewrite P', app_assoc, P. by rewrite <- !app_assoc.
  - intros p. rewrite E', app_assoc, of_producer_app, E, <- of_producer_app. by rewrite <- !app_assoc.
Qed.

(** The history of a bulk that was taken and executed. *)
Lemma bulk_history s n : 0 <= n ->
  let s' := run_all (try_dequeue_bulk s n).1 (try_dequeue_bulk s n).2 in
  exists new, pending s' = pending (try_dequeue_bulk s n).2 ++ new /\ done s' = done s ++ (try_dequeue_bulk s n).1
    /\ done s' ++ pending s' ≡ₚ done s ++ pending s ++ new
    /\ forall p, of_producer p (done s' ++ pending s') = of_producer p (done s ++ pending s ++ new).
Proof.
  intros Hn s'. destruct (dequeue_ok s n Hn) as (Hz & Hp & Ho & Hd).
  destruct (run_all_spec (try_dequeue_bulk s n).1 (try_dequeue_bulk s n).2) as [Hd' [new Hp']]. subst s'.
  exists new. rewrite Hd', Hp', Hd. split_and!; [ reflexivity | reflexivity | by rewrite Hp, <- !app_assoc | ].
  intros p. rewrite !of_producer_app, Ho. by rewrite <- !app_assoc.
Qed.

Lemma bulk_progress s n : 0 <= n ->
  progress s (run_all (try_dequeue_bulk s n).1 (try_dequeue_bulk s n).2) (zlen (try_dequeue_bulk s n).1)
  /\ zlen (try_dequeue_bulk s n).1 <= n.
Proof.
  intros Hn. destruct (bulk_history s n Hn) as (new & _ & Hd & Hp & Ho). split; [ | by apply dequeue_ok ].
  split; [ by exists new | by rewrite Hd, zlen_app ].
Qed.

Lemma penalty_zero to n : 1 <= to -> penalty to 0 n = n - 58.
Proof.
  intros Ht. unfold penalty. assert (0 <= Z.shiftr to 3) by (apply Z.shiftr_nonneg; lia).
  rewrite (proj2 (Z.leb_le 0 _)) by lia. change (0 <? 13) with true. cbv zeta iota. lia.
Qed.

Lemma penalty_le to d n : penalty to d n <= n.
Proof. unfold penalty. cmp. Qed.

Lemma execute_loop_spec fuel : forall max notFull total s,
  0 <= max < 2 ^ 32 -> 0 <= total -> total + max < 2 ^ 32 ->
  max + Z.max 0 notFull < Z.of_nat fuel ->
  exists n s', execute_loop fuel max notFull total s = Some (total + n, s') /\ 0 <= n <= max /\ progress s s' n.
Proof.
  induction fuel as [|fuel IH]; intros max notFull total s Hm Ht Htm Hf; [ lia | ]. cbn [execute_loop].
  destruct (Z.eqb_spec max 0) as [-> | Hm0]; [ exists 0, s; rewrite Z.add_0_r; split_and!; try lia; try done; apply progress_refl | ].
  unfold elems. set (to := Z.min max 1024). destruct (bulk_progress s to ltac:(lia)) as [Hpr Hle].
  destruct (try_dequeue_bulk s to) as [cs s1]. cbn [fst snd] in *. pose proof (zlen_nonneg cs).
  rewrite (u32_small (total + _)), (u32_small (max - _)) by (unfold is_u32; lia).
  assert (forall notFull', max - zlen cs + Z.max 0 notFull' < Z.of_nat fuel ->
    exists n s', execute_loop fuel (max - zlen cs) notFull' (total + zlen cs) (run_all cs s1) = Some (total + n, s')
      /\ 0 <= n <= max /\ progress s s' n) as Hrec.
  { intros nf Hnf. destruct (IH (max - zlen cs) nf (total + zlen cs) (run_all cs s1)) as (n & s' & -> & Hn & Hp); try lia.
    exists (zlen cs + n), s'. split_and!; [ f_equal; f_equal; lia | lia | lia | by eapply progress_trans ]. }
  destruct (Z.eqb_spec (zlen cs) to) as [Efull | Hnot]; cbn [negb]; [ apply Hrec; lia | ].
  destruct (Z.leb_spec notFull 0) as [Hbreak | Hgo]; [ by eexists (zlen cs), _; split_and!; (done || lia) | ].
  apply Hrec. pose proof (penalty_le to (zlen cs) notFull).
  destruct (Z.eq_dec (zlen cs) 0) as [E0 | E0]; [ | lia ]. rewrite E0, penalty_zero by lia. lia.
Qed.

(** What bulks and commands keep, [Execute] keeps. *)
Lemma execute_loop_keeps (P : St -> Prop) :
  (forall s n, P s -> P (try_dequeue_bulk s n).2) -> (forall x s, P s -> P (run x s)) ->
  forall fuel max notFull total s t s', P s -> execute_loop fuel max notFull total s = Some (t, s') -> P s'.
Proof.
  intros Hd Hr. assert (forall cs s, P s -> P (run_all cs s)) as Hall.
  { induction cs as [|c cs IH]; intros s Hs; [ done | ]. cbn [run_all fold_left]. by apply IH, Hr. }
  induction fuel as [|fuel IH]; intros max notFull total s t s' Hs; cbn [execute_loop].
  { destruct (max =? 0); [ by intros [= _ <-] | done ]. }
  destruct (max =? 0); [ by intros [= _ <-] | ]. specialize (Hd s (Z.min max elems) Hs).
  destruct (try_dequeue_bulk s (Z.min max elems)) as [cs s1]. cbn [snd] in Hd.
  destruct (negb _); [ destruct (notFull <=? 0); [ intros [= _ <-]; by apply Hall | ] | ]; apply IH, Hall; done.
Qed.

Lemma run_all_adds_nothing : (forall x s, pending (run x s) = pending s) -> forall cs s, pending (run_all cs s) = pending s.
Proof.
  intros Hadd. induction cs as [|c cs IH]; intros s; [ done | ]. cbn [run_all fold_left]. unfold run_all in IH. by rewrite IH, Hadd.
Qed.

(** When commands add no others, the history of each producer stays. *)
Lemma execute_loop_history : (forall x s, pending (run x s) = pending s) ->
  forall fuel max notFull total s t s', 0 <= max < 2 ^ 32 -> execute_loop fuel max notFull total s = Some (t, s') ->
  forall p, of_producer p (done s' ++ pending s') = of_producer p (done s ++ pending s).
Proof.
  intros Hadd. pose proof (run_all_adds_nothing Hadd) as Hall.
  induction fuel as [|fuel IH]; intros max notFull total s t s' Hm; cbn [execute_loop];
    destruct (Z.eqb_spec max 0) as [-> | Hm0]; try done; try by intros [= _ <-].
  unfold elems. set (to := Z.min max 1024). destruct (dequeue_ok s to ltac:(lia)) as (Hz & _ & _ & _).
  destruct (bulk_history s to ltac:(lia)) as (new & Ep & _ & _ & Ho). rewrite Hall in Ep.
  assert (new = []) as -> by (apply (f_equal length) in Ep; rewrite length_app in Ep; destruct new; [ reflexivity | cbn in Ep; lia ]).
  destruct (try_dequeue_bulk s to) as [cs s1]. cbn [fst snd] in *. pose proof (zlen_nonneg cs).
  rewrite app_nil_r in Ho. rewrite (u32_small (max - _)) by (unfold is_u32; lia).
  destruct (negb _); [ destruct (notFull <=? 0); [ by intros [= _ <-] | ] | ]; intros E p; (eapply IH in E; [ rewrite E; apply Ho | lia ]).
Qed.

(** A queue that no other thread uses hands out what it has; when commands add no others,
    [Execute] empties a queue of at most [maxToDequeue] commands. *)
Lemma execute_loop_drains :
  (forall s n, 0 <= n -> zlen (try_dequeue_bulk s n).1 = Z.min n (zlen (pending s))) ->
  (forall x s, pending (run x s) = pending s) ->
  forall fuel max notFull total s t s', 0 <= max < 2 ^ 32 -> zlen (pending s) <= max ->
  execute_loop fuel max notFull total s = Some (t, s') -> pending s' = [].
Proof.
  intros Hex Hadd. pose proof (run_all_adds_nothing Hadd) as Hall.
  assert (forall s, zlen (pending s) <= 0 -> pending s = []) as Hnil
    by (intros s0 ?; apply zlen_0_nil; pose proof (zlen_nonneg (pending s0)); lia).
  induction fuel as [|fuel IH]; intros max notFull total s t s' Hm Hp; cbn [execute_loop];
    destruct (Z.eqb_spec max 0) as [-> | Hm0]; try done; try (intros [= _ <-]; by apply Hnil).
  unfold elems. set (to := Z.min max 1024). specialize (Hex s to ltac:(lia)). destruct (dequeue_ok s to ltac:(lia)) as (_ & Ep & _).
  destruct (try_dequeue_bulk s to) as [cs s1]. cbn [fst snd] in *. pose proof (zlen_nonneg cs).
  apply Permutation_length in Ep. apply (f_equal Z.of_nat) in Ep. change (zlen (pending s) = zlen (cs ++ pending s1)) in Ep. rewrite zlen_app in Ep. pose proof (zlen_nonneg (pending s1)).
  rewrite (u32_small (max - _)) by (unfold is_u32; lia).
  destruct (Z.eqb_spec (zlen cs) to); cbn [negb]; [ | destruct (notFull <=? 0) ].
  - apply IH; [ lia | rewrite Hall; lia ].
  - intros [= _ <-]. apply Hnil. rewrite Hall. lia.
  - apply IH; [ lia | rewrite Hall; lia ].
Qed.

(** ** Claims *)

(** C33: [Execute] always ends, for every queue that keeps the order of each producer, however
    few commands it hands out at a time, and for all commands that do not execute the queue
    themselves (they may enqueue others, [new]): it executes at most [maxToDequeue] commands,
    exactly as many as it reports. No command is lost and none executed twice: those executed and
    those still waiting are those that were there before and the new ones. The commands of each
    producer are executed in the order in which it enqueued them. *)
Theorem execute_runs_commands_in_order maxToDequeue s :
  0 <= maxToDequeue < 2 ^ 31 ->
  exists total s' new, Execute maxToDequeue s = Some (total, s') /\ 0 <= total <= maxToDequeue
    /\ zlen (done s') = zlen (done s) + total
    /\ done s' ++ pending s' ≡ₚ done s ++ pending s ++ new
    /\ forall p, of_producer p (done s' ++ pending s') = of_producer p (done s ++ pending s ++ new).
Proof.
  intros Hm. unfold Execute.
  destruct (execute_loop_spec (S (Z.to_nat (maxToDequeue + 512))) maxToDequeue 512 0 s)
    as (n & s' & E & Hn & [new [Hp Ho]] & Hl); [ lia.. | ].
  exists n, s', new. by rewrite E.
Qed.

(** A round of [ExecuteLoop] ends; the pause after a round without commands is never
    longer than [maxSleepDuration] and, if that is positive, at least a microsecond; the
    counter of such rounds stays at most 100000 and is reset by a round with commands. *)
Theorem loop_pause_is_bounded sleepMicroseconds maxSleep counter s :
  0 <= sleepMicroseconds < 2 ^ 32 -> 0 <= maxSleep < 2 ^ 32 -> 0 <= counter <= 100000 ->
  exists s' t counter', loop_round sleepMicroseconds maxSleep counter s = Some (s', t, counter')
    /\ 0 <= t <= maxSleep /\ 0 <= counter' <= 100000
    /\ (zlen (done s') = zlen (done s) -> t = Z.min maxSleep (Z.max 1 (sleepMicroseconds + counter * 64)))
    /\ (zlen (done s) < zlen (done s') -> t = 0 /\ counter' = 0).
Proof.
  intros Hs Hm Hc. unfold loop_round, Execute.
  destruct (execute_loop_spec (S (Z.to_nat (1024 + 512))) 1024 512 0 s) as (n & s' & -> & Hn & [_ Hl]); [ lia.. | ].
  rewrite Z.add_0_l. destruct (Z.eqb_spec n 0) as [-> | Hn0].
  - unfold pause, u64. rewrite (Z.mod_small (counter * 64)), (Z.mod_small (counter + 1)), Z.mod_small by lia.
    eexists s', _, _. split; [ done | ]. repeat cmp_step; split_and!; lia.
  - eexists s', _, _. split; [ done | ]. split_and!; lia.
Qed.

End Laws.

(** ** A command that executes the queue *)

(** Commands of one producer: [Some n] does nothing to the queue; [None] is the command of
    [Loop::Destroy], which executes the queue until it is empty before it destroys the hosts. *)
Abbreviation OneThread := (list (option nat) * list (option nat))%type.

Definition plain_queue : ConcurrentQueue OneThread (option nat) := {|
  producer _ := 0%nat;
  pending s := s.1;
  done s := s.2;
  try_dequeue_bulk s n := (take (Z.to_nat n) s.1, (drop (Z.to_nat n) s.1, s.2));
  run x s := (s.1, s.2 ++ [x])
|}.

(** [Execute(128)] and [while (HasAny()) Execute(128)]. *)
Fixpoint execute_until_empty (fuel : nat) (s : OneThread) : OneThread :=
  match fuel with
  | O => s
  | S fuel => match @Execute _ _ plain_queue 128 s with Some (_, s') => match s'.1 with [] => s' | _ => execute_until_empty fuel s' end | None => s end
  end.

Definition reentrant_queue : ConcurrentQueue OneThread (option nat) := {|
  producer _ := 0%nat;
  pending s := s.1;
  done s := s.2;
  try_dequeue_bulk s n := (take (Z.to_nat n) s.1, (drop (Z.to_nat n) s.1, s.2));
  run x s :=
    match x with
    | Some n => (s.1, s.2 ++ [Some n])
    | None => let s := execute_until_empty (S (length s.1)) s in (s.1, s.2 ++ [None])
    end
|}.

(** The command of [Loop::Destroy] makes later commands overtake earlier ones: [Execute] has
    already taken a bulk of 1024 commands out, and the command executes what is left in the
    queue before the rest of its bulk. Of 1025 commands that one thread enqueued, the last is
    executed first, and 1023 commands are executed after the hosts were destroyed. *)
Theorem reentrant_command_overtakes :
  @Execute _ _ reentrant_queue 2048 (None :: (Some <$> seq 1 1024), []) = Some (1024, ([], Some 1024%nat :: None :: (Some <$> seq 1 1023))).
Proof. vm_compute. reflexivity. Qed.

(** ** Starting and stopping the thread *)

Definition STOPPED : Z := 0.
Definition IS_RUNNING : Z := 2.
Definition QUEUE_STOP : Z := 4.

(** Where the thread of [RunAsyncExecution] is: not started, before the test of the flags,
    in [WaitStopAsyncExecution], between the test and the store of [IS_RUNNING], in the
    loop, returned. *)
Inductive thread := NotStarted | Starting | WaitingForOther | Passed | Looping | Returned.

(** Where the thread that stops and destroys the queue is: not yet, waiting in
    [WaitStopAsyncExecution], after the [delete]. *)
Inductive stopper := Idle | Waiting | Deleted.

Record State := mkState {
  asyncExecutionFlags : Z;
  worker : thread;
  owner : stopper;
  executed_after_delete : bool
}.

Definition initial : State := mkState STOPPED NotStarted Idle false.

Definition has (flags bit : Z) : bool := negb (Z.land flags bit =? 0).

Inductive step : State -> State -> Prop :=
| step_start f e : (* RunAsyncExecution *)
    step (mkState f NotStarted Idle e) (mkState f Starting Idle e)
| step_test_free f o e : has f IS_RUNNING = false ->
    step (mkState f Starting o e) (mkState f Passed o e)
| step_test_running f o e : has f IS_RUNNING = true -> has f QUEUE_STOP = false ->
    step (mkState f Starting o e) (mkState f Returned o e)
| step_test_stopping f o e : has f IS_RUNNING = true -> has f QUEUE_STOP = true ->
    step (mkState f Starting o e) (mkState (Z.lor f QUEUE_STOP) WaitingForOther o e)
| step_waited f o e : has f IS_RUNNING = false ->
    step (mkState f WaitingForOther o e) (mkState f Passed o e)
| step_store f o e :
    step (mkState f Passed o e) (mkState IS_RUNNING Looping o e)
| step_round f o e : f = IS_RUNNING -> (* one Execute(1024) *)
    step (mkState f Looping o e)
      (mkState f Looping o (e || match o with Deleted => true | _ => false end))
| step_leave f o e : f <> IS_RUNNING ->
    step (mkState f Looping o e) (mkState STOPPED Returned o e)
| step_stop f w e : (* QueueStopAsyncExecution in the destructor *)
    step (mkState f w Idle e) (mkState (Z.lor f QUEUE_STOP) w Waiting e)
| step_delete f w e : has f IS_RUNNING = false -> (* the wait is over *)
    step (mkState f w Waiting e) (mkState f w Deleted e).

Inductive reachable (s : State) : State -> Prop :=
| reach_refl : reachable s s
| reach_step s1 s2 : reachable s s1 -> step s1 s2 -> reachable s s2.

(** Once the loop runs, the owner deletes the queue only after the loop has been left. *)
Definition running_inv (s : State) : Prop :=
  match worker s with
  | Looping =>
      match owner s with
      | Idle => asyncExecutionFlags s = IS_RUNNING
      | Waiting => asyncExecutionFlags s = Z.lor IS_RUNNING QUEUE_STOP
      | Deleted => False
      end
  | Returned => True
  | _ => False
  end /\ executed_after_delete s = false.

Lemma running_inv_step s s' : running_inv s -> step s s' -> running_inv s'.
Proof.
  unfold running_inv. intros Hs Hst. destruct Hst; cbn in *; destruct Hs as [Hs He]; subst; try done;
    try (by destruct o); try (by destruct w); try (destruct w; try done; by subst).
Qed.

(** If the loop is running when the queue is destroyed, the destructor deletes the queue
    only after the loop has ended: in every interleaving no command is taken out of a deleted
    queue. *)
Theorem destructor_waits_for_running_loop s :
  reachable (mkState IS_RUNNING Looping Idle false) s -> executed_after_delete s = false.
Proof.
  intros Hr. enough (running_inv s) as [_ Hs] by exact Hs.
  induction Hr as [|s1 s2 _ IH Hst]; [ done | by eapply running_inv_step ].
Qed.

(** When the queue is destroyed before the thread started by [RunAsyncExecution] has
    stored [IS_RUNNING], the stop request is overwritten: the destructor deletes the queue and
    the thread then loops on the deleted queue, and never ends. *)
Theorem stop_before_start_is_lost :
  exists s, reachable initial s /\ executed_after_delete s = true /\ worker s = Looping
    /\ forall s', reachable s s' -> worker s' = Looping.
Proof.
  exists (mkState IS_RUNNING Looping Deleted true). split_and!; [ | done | done | ].
  - eapply reach_step; [ | by apply (step_round IS_RUNNING Deleted false) ].
    eapply reach_step; [ | apply (step_store QUEUE_STOP) ].
    eapply reach_step; [ | by apply step_test_free ].
    eapply reach_step; [ | by apply step_delete ].
    eapply reach_step; [ | apply (step_stop STOPPED) ].
    eapply reach_step; [ | apply step_start ]. apply reach_refl.
  - intros s' Hr. enough (asyncExecutionFlags s' = IS_RUNNING /\ worker s' = Looping /\ owner s' = Deleted) as (_ & ? & _) by done.
    induction Hr as [|s1 s2 _ (E1 & E2 & E3) Hst]; [ done | ].
    destruct Hst; simplify_eq/=; try done.
Qed.

(** ** Witnesses *)

(** Two producers, each with a list of its own: pending and executed commands. A command is a
    number and its producer the rest modulo 2; the queue hands out the commands of the second
    producer first. The command [n + 2] enqueues the command [n]. *)
Definition of_thread (p : nat) (cs : list nat) : list nat := filter (fun x => x mod 2 = p)%nat cs.

#[local] Instance list_queue : ConcurrentQueue (list nat * list nat) nat := {|
  producer x := (x mod 2)%nat;
  pending s := s.1;
  done s := s.2;
  try_dequeue_bulk s n :=
    let q := of_thread 1 s.1 ++ of_thread 0 s.1 in (take (Z.to_nat n) q, (drop (Z.to_nat n) q, s.2));
  run x s := (s.1 ++ match x with S (S n) => [n] | _ => [] end, s.2 ++ [x])
|}.

Lemma threads_perm q : q ≡ₚ of_thread 1 q ++ of_thread 0 q.
Proof.
  unfold of_thread. induction q as [|x q IH]; [ reflexivity | ]. rewrite !filter_cons. pose proof (Nat.mod_upper_bound x 2 ltac:(lia)).
  destruct (decide (x mod 2 = 1)%nat), (decide (x mod 2 = 0)%nat); try lia; cbn [app].
  - by rewrite <- IH.
  - by rewrite <- Permutation_middle, <- IH.
Qed.

Lemma of_thread_twice p p' q : of_thread p (of_thread p' q) = if decide (p = p') then of_thread p q else [].
Proof.
  unfold of_thread. induction q as [|x q IH]; [ by destruct (decide _) | ]. rewrite !filter_cons.
  destruct (decide (x mod 2 = p')%nat) as [E | E]; rewrite ?filter_cons, IH; destruct (decide (p = p')) as [-> | Hne];
    try (rewrite decide_True by exact E; reflexivity); try (rewrite decide_False by congruence; reflexivity); reflexivity.
Qed.

#[local] Instance list_queue_laws : QueueLaws (list nat * list nat) nat.
Proof.
  split.
  - intros s n Hn. cbn [list_queue try_dequeue_bulk pending done fst snd]. rewrite zlen_take, take_drop. split_and!; [ lia | apply threads_perm | | reflexivity ].
    intros p. rewrite <- of_producer_app, take_drop, of_producer_app. change (of_thread p s.1 = of_thread p (of_thread 1 s.1) ++ of_thread p (of_thread 0 s.1)).
    rewrite !of_thread_twice. destruct (decide (p = 1%nat)) as [-> | H1]; [ by rewrite decide_False, app_nil_r by lia | ].
    destruct (decide (p = 0%nat)) as [-> | H0]; [ reflexivity | ]. unfold of_thread. induction s.1 as [|x q IH]; [ reflexivity | ].
    rewrite filter_cons, decide_False; [ exact IH | ]. pose proof (Nat.mod_upper_bound x 2). lia.
  - intros x s. split; [ reflexivity | by eexists ].
Qed.

(** The two threads' commands in one run: 3 and 5 before 2, and the new ones at the end. *)
Lemma execute_runs_commands_in_order_witness :
  exists total s' new, Execute 7 ([2; 3; 5; 0], [])%nat = Some (total, s') /\ 0 <= total <= 7
    /\ zlen (done s') = zlen (done ([2; 3; 5; 0], [])%nat) + total
    /\ done s' ++ pending s' ≡ₚ done ([2; 3; 5; 0], [])%nat ++ pending ([2; 3; 5; 0], [])%nat ++ new
    /\ forall p, of_producer p (done s' ++ pending s') = of_producer p (done ([2; 3; 5; 0], [])%nat ++ pending ([2; 3; 5; 0], [])%nat ++ new).
Proof. apply (execute_runs_commands_in_order 7 ([2; 3; 5; 0], [])%nat). lia. Defined.

Lemma loop_pause_is_bounded_witness :
  exists s' t counter', loop_round 10 1000 3 ([], [])%nat = Some (s', t, counter')
    /\ 0 <= t <= 1000 /\ 0 <= counter' <= 100000
    /\ (zlen (done s') = zlen (done ([], [])%nat) -> t = Z.min 1000 (Z.max 1 (10 + 3 * 64)))
    /\ (zlen (done ([], [])%nat) < zlen (done s') -> t = 0 /\ counter' = 0).
Proof. apply (loop_pause_is_bounded 10 1000 3 ([], [])%nat); lia. Defined.

Lemma destructor_waits_for_running_loop_witness :
  executed_after_delete (mkState STOPPED Returned Deleted false) = false.
Proof.
  apply (destructor_waits_for_running_loop (mkState STOPPED Returned Deleted false)).
  eapply reach_step; [ | by apply step_delete ].
  eapply reach_step; [ | by apply (step_leave (Z.lor IS_RUNNING QUEUE_STOP)) ].
  eapply reach_step; [ | apply (step_stop IS_RUNNING) ].
  eapply reach_step; [ | by apply (step_round IS_RUNNING Idle false) ]. apply reach_refl.
Defined.

End CommandQueue.
