(* ===== verification/LoopAutoIndex.v ===== *)
(** * Indices of loops (src/LoopAutoIndex.cpp, include/icon7/LoopAutoIndex.hpp)

    Every [Loop] draws an index (a position and a version) from a global table when it is
    created and releases it when it is destroyed; [LoopIndex::GetLoop] leads from an index to
    its loop while the loop exists. Loops are numbered; the lock makes each operation atomic. *)

From S2P Require Import Prelude.

Module LoopAutoIndex.

Record LoopIndex := mkIndex { id : Z; version : Z }.

#[export] Instance LoopIndex_eq_dec : EqDecision LoopIndex.
Proof. solve_decision. Defined.

(** [Data]: the entry of a position. *)
Record Data := mkData { loop : option nat; data_version : Z }.

Definition table := list Data.

(** [LoopAutoIndexImpl()]: position 0 is never used. *)
Definition LoopAutoIndexImpl_init : table := [mkData None 0].

(** The [for] loop of [NewId]: every free entry from position [i] on gets the loop, the
    index built from it is dropped. *)
Definition fill_free (l : nat) (d : Data) : Data :=
  match loop d with None => mkData (Some l) (data_version d) | Some _ => d end.

Definition NewId (data : table) (l : nat) : LoopIndex * table :=
  let data := match data with [] => [] | d :: ds => d :: (fill_free l <$> ds) end in
  let ret := mkIndex (u32 (zlen data)) 0 in
  (ret, data ++ [mkData (Some l) 0]).

(** The boolean is [false] after one of the log entries. *)
Definition ReleaseId (data : table) (index : LoopIndex) : option (bool * table) :=
  if zlen data <=? id index then Some (false, data)
  else if id index =? 0 then Some (false, data)
  else
    let* d := vget data (id index) in
    if negb (data_version d =? version index) then Some (false, data)
    else
      match loop d with
      | None => Some (false, data)
      | Some _ =>
          let* data := vset data (id index) (mkData None (u32 (data_version d + 1))) in
          Some (true, data)
      end.

Definition GetLoop (data : table) (index : LoopIndex) : option (option nat) :=
  if zlen data <=? id index then Some None
  else if id index =? 0 then Some None
  else
    let* d := vget data (id index) in
    if negb (data_version d =? version index) then Some None
    else Some (loop d).

(** ** Programs *)

Inductive index_op := OCreate (l : nat) | ODestroy (i : LoopIndex).

(** The indices in use, with their loops: what [LoopAutoIndex] objects hold. *)
Notation issued := (gmap Z nat).

Definition index_step (st : table * issued) (o : index_op) : option (table * issued) :=
  match o with
  | OCreate l => let '(i, data) := NewId st.1 l in Some (data, <[id i := l]> st.2)
  | ODestroy i => let* (_, data) := ReleaseId st.1 i in
                  Some (data, if bool_decide (version i = 0) then delete (id i) st.2 else st.2)
  end.

Fixpoint index_run (st : table * issued) (os : list index_op) : option (table * issued) :=
  match os with
  | [] => Some st
  | o :: os => let* st := index_step st o in index_run st os
  end.

(** Destroying is releasing an index that was drawn before: its version is 0. *)
Definition op_ok (o : index_op) : Prop := match o with OCreate _ => True | ODestroy i => version i = 0 /\ 0 <= id i end.

(** The entries in use have version 0 and their loop; the others were released once, so
    that their version is 1. *)
Record table_ok (data : table) (m : issued) : Prop := {
  to_size : 1 <= zlen data;
  to_live : forall i l, m !! i = Some l -> 1 <= i < zlen data /\ vget data i = Some (mkData (Some l) 0);
  to_dead : forall i d, vget data i = Some d -> m !! i = None -> 1 <= i -> data_version d = 1;
  to_zero : m !! 0 = None
}.

Lemma vget_fill data l i : vget (match data with [] => [] | d :: ds => d :: (fill_free l <$> ds) end) i
  = if i =? 0 then vget data i else fill_free l <$> vget data i.
Proof.
  destruct data as [|d ds]; [ rewrite !vget_nil; by destruct (i =? 0) | ]. unfold vget.
  destruct (Z.ltb_spec i 0); [ destruct (i =? 0) eqn:E; [ apply Z.eqb_eq in E; lia | done ] | ].
  destruct (Z.eqb_spec i 0) as [-> | Hi]; [ done | ].
  replace (Z.to_nat i) with (S (Z.to_nat (i - 1))) by lia. simpl. by rewrite list_lookup_fmap.
Qed.

Lemma zlen_fill data l : zlen (match data with [] => [] | d :: ds => d :: (fill_free l <$> ds) end) = zlen data.
Proof. destruct data; [ done | ]. unfold zlen. simpl. by rewrite length_fmap. Qed.

(** [NewId] always appends. *)
Lemma NewId_spec data m l : table_ok data m -> zlen data < 2 ^ 32 ->
  (NewId data l).1 = mkIndex (zlen data) 0 /\ zlen (NewId data l).2 = zlen data + 1
  /\ table_ok (NewId data l).2 (<[zlen data := l]> m).
Proof.
  intros [Hs Hl Hd Hz] Hlt. unfold NewId. cbn [fst snd]. rewrite zlen_fill.
  assert (zlen ((match data with [] => [] | d :: ds => d :: (fill_free l <$> ds) end) ++ [mkData (Some l) 0]) = zlen data + 1) as Hz1
    by (rewrite zlen_app, zlen_fill; done).
  rewrite u32_small by (unfold is_u32; lia). split_and!; [ done | done | ].
  split; [ lia | | | by rewrite lookup_insert_ne by lia ].
  - intros i l'. rewrite Hz1. destruct (decide (i = zlen data)) as [-> | Hne].
    + rewrite lookup_insert_eq. intros [= <-]. split; [ lia | ].
      rewrite vget_snoc, zlen_fill, Z.eqb_refl. done.
    + rewrite lookup_insert_ne by done. intros Hi. destruct (Hl i l' Hi) as [Hr Hv]. split; [ lia | ].
      rewrite vget_snoc, zlen_fill, (proj2 (Z.eqb_neq _ _)) by done.
      rewrite vget_fill, (proj2 (Z.eqb_neq i 0)) by lia. by rewrite Hv.
  - intros i d. destruct (decide (i = zlen data)) as [-> | Hne]; [ by rewrite lookup_insert_eq | ].
    rewrite lookup_insert_ne by done. rewrite vget_snoc, zlen_fill, (proj2 (Z.eqb_neq _ _)) by done.
    intros Hv Hm Hi. rewrite vget_fill, (proj2 (Z.eqb_neq i 0)) in Hv by lia.
    destruct (vget data i) as [d0|] eqn:E; [ | done ]. simpl in Hv. injection Hv as <-.
    rewrite <- (Hd i d0 E Hm Hi). unfold fill_free. by destruct (loop d0).
Qed.

Lemma ReleaseId_spec data m i : table_ok data m -> 0 <= i ->
  exists data', ReleaseId data (mkIndex i 0) = Some (bool_decide (is_Some (m !! i)), data')
    /\ zlen data' = zlen data /\ table_ok data' (delete i m).
Proof.
  intros [Hs Hl Hd Hz] Hi. unfold ReleaseId. cbn [id version].
  assert (m !! i = None -> table_ok data (delete i m)) as Hsame.
  { intros E. rewrite delete_id by done. by split. }
  destruct (Z.leb_spec (zlen data) i) as [Hge | Hlt].
  { assert (m !! i = None) as E by (destruct (m !! i) as [l|] eqn:E; [ destruct (Hl i l E); lia | done ]).
    exists data. rewrite E. rewrite bool_decide_false by (by intros [? [=]]). auto. }
  destruct (Z.eqb_spec i 0) as [-> | Hi0].
  { exists data. rewrite Hz. rewrite bool_decide_false by (by intros [? [=]]). auto. }
  destruct (vget_is_Some data i) as [d Ed]; [ lia | ]. rewrite Ed.
  destruct (m !! i) as [l|] eqn:Em.
  - destruct (Hl i l Em) as [_ Ed']. simplify_eq. cbn [data_version loop Z.eqb negb].
    destruct (vset_is_Some data i (mkData None (u32 (0 + 1)))) as [data' Es]; [ lia | ]. rewrite Es.
    exists data'. rewrite bool_decide_true by eauto. rewrite (vset_zlen _ _ _ _ Es). split_and!; [ done | done | ].
    split; [ by rewrite (vset_zlen _ _ _ _ Es) | | | by rewrite lookup_delete_ne ].
    + intros j l'. rewrite (vset_zlen _ _ _ _ Es), (vget_vset _ _ _ _ j Es). destruct (Z.eqb_spec j i) as [-> | Hne];
        [ by rewrite lookup_delete_eq | rewrite lookup_delete_ne by done; apply Hl ].
    + intros j d'. rewrite (vget_vset _ _ _ _ j Es). destruct (Z.eqb_spec j i) as [-> | Hne];
        [ by intros [= <-] | rewrite lookup_delete_ne by done; apply Hd ].
  - rewrite (Hd i d Ed Em) by lia. change (1 =? 0) with false. cbn [negb]. exists data.
    rewrite bool_decide_false by (by intros [? [=]]). auto.
Qed.

Lemma GetLoop_spec data m i : table_ok data m -> 0 <= i -> GetLoop data (mkIndex i 0) = Some (m !! i).
Proof.
  intros [Hs Hl Hd Hz] Hi. unfold GetLoop. cbn [id version].
  destruct (Z.leb_spec (zlen data) i) as [Hge | Hlt].
  { by destruct (m !! i) as [l|] eqn:E; [ destruct (Hl i l E); lia | ]. }
  destruct (Z.eqb_spec i 0) as [-> | Hi0]; [ by rewrite Hz | ].
  destruct (vget_is_Some data i) as [d Ed]; [ lia | ]. rewrite Ed.
  destruct (m !! i) as [l|] eqn:Em.
  - destruct (Hl i l Em) as [_ Ed']. by simplify_eq.
  - by rewrite (Hd i d Ed Em) by lia.
Qed.

(** The number of loops created. *)
Definition created (os : list index_op) : Z :=
  zlen (omap (fun o => match o with OCreate l => Some l | ODestroy _ => None end) os).

Lemma created_cons o os : created (o :: os) = match o with OCreate _ => 1 | _ => 0 end + created os.
Proof. unfold created. destruct o; cbn [omap list_omap]; [ by rewrite zlen_cons | lia ]. Qed.

Lemma created_nonneg os : 0 <= created os.
Proof. apply zlen_nonneg. Qed.

Lemma index_run_spec os : forall data m, table_ok data m -> Forall op_ok os -> zlen data + created os < 2 ^ 32 ->
  exists data' m', index_run (data, m) os = Some (data', m') /\ table_ok data' m'
    /\ zlen data' = zlen data + created os.
Proof.
  induction os as [|o os IH]; intros data m Ht Hos Hn; cbn [index_run].
  { exists data, m. split_and!; try done. unfold created. simpl. rewrite Z.add_0_r. done. }
  apply Forall_cons in Hos as [Ho Hos]. rewrite created_cons in *. pose proof (created_nonneg os).
  destruct o as [l | [i v]]; cbn [index_step fst snd].
  - destruct (NewId_spec data m l Ht ltac:(lia)) as (E1 & E2 & Ht'). destruct (NewId data l) as [ix data1]. cbn [fst snd] in *.
    subst ix. destruct (IH data1 _ Ht' Hos ltac:(lia)) as (data' & m' & E & Ht'' & Hl). exists data', m'.
    split_and!; [ exact E | done | lia ].
  - destruct Ho as [Ev Hi]. cbn [version id] in *. subst v.
    destruct (ReleaseId_spec data m i Ht Hi) as (data1 & -> & E2 & Ht'). rewrite bool_decide_true by done.
    destruct (IH data1 _ Ht' Hos ltac:(lia)) as (data' & m' & E & Ht'' & Hl). exists data', m'.
    split_and!; [ exact E | done | lia ].
Qed.

Lemma init_ok : table_ok LoopAutoIndexImpl_init ∅.
Proof.
  split; [ done | by intros i l | | done ]. intros i d Hv _ Hi. apply vget_Some_range in Hv.
  unfold LoopAutoIndexImpl_init, zlen in Hv. simpl in Hv. lia.
Qed.

(** For any loops created and destroyed, an index that was drawn leads to its loop until
    it is released, and to no loop afterwards and before it is drawn. *)
Theorem loop_index_leads_to_its_loop os :
  Forall op_ok os -> created os < 2 ^ 32 - 1 ->
  exists data m, index_run (LoopAutoIndexImpl_init, ∅) os = Some (data, m)
    /\ forall i, 0 <= i -> GetLoop data (mkIndex i 0) = Some (m !! i).
Proof.
  intros Hos Hn. destruct (index_run_spec os _ _ init_ok Hos) as (data & m & E & Ht & _).
  { change (zlen LoopAutoIndexImpl_init) with 1. lia. }
  exists data, m. split; [ done | ]. intros i Hi. by apply GetLoop_spec.
Qed.

(** A released position is never reused. [NewId] finds the free entries, but without a
    [return] it goes on: it writes the new loop into every free entry and still appends one,
    so the table grows by one entry for every loop ever created. *)
Theorem released_positions_are_not_reused os l :
  Forall op_ok os -> created os < 2 ^ 32 - 2 ->
  exists data m, index_run (LoopAutoIndexImpl_init, ∅) os = Some (data, m) /\ zlen data = 1 + created os
    /\ (NewId data l).1 = mkIndex (zlen data) 0 /\ zlen (NewId data l).2 = zlen data + 1
    /\ forall i d, vget data i = Some d -> 1 <= i -> loop d = None ->
         vget (NewId data l).2 i = Some (mkData (Some l) (data_version d)).
Proof.
  intros Hos Hn. destruct (index_run_spec os _ _ init_ok Hos) as (data & m & E & Ht & Hz).
  { change (zlen LoopAutoIndexImpl_init) with 1. lia. }
  change (zlen LoopAutoIndexImpl_init) with 1 in Hz.
  destruct (NewId_spec data m l Ht ltac:(lia)) as (E1 & E2 & _). exists data, m. split_and!; try done.
  intros i d Hv Hi Hl. unfold NewId. cbn [snd]. pose proof (vget_Some_range _ _ _ Hv).
  rewrite vget_snoc, zlen_fill, (proj2 (Z.eqb_neq _ _)), vget_fill, (proj2 (Z.eqb_neq i 0)), Hv by lia.
  simpl. unfold fill_free. by rewrite Hl.
Qed.

(** ** Witnesses *)

Definition sample_index_ops : list index_op :=
  [OCreate 1; OCreate 2; ODestroy (mkIndex 1 0); OCreate 3; ODestroy (mkIndex 3 0)].

Lemma sample_index_ops_ok : Forall op_ok sample_index_ops.
Proof. unfold sample_index_ops. repeat (apply Forall_cons; split); [ .. | by apply Forall_nil ]; cbn; lia || done. Qed.

Lemma loop_index_leads_to_its_loop_witness :
  exists data m, index_run (LoopAutoIndexImpl_init, ∅) sample_index_ops = Some (data, m)
    /\ forall i, 0 <= i -> GetLoop data (mkIndex i 0) = Some (m !! i).
Proof. apply (loop_index_leads_to_its_loop sample_index_ops); [ apply sample_index_ops_ok | reflexivity ]. Defined.

Lemma released_positions_are_not_reused_witness :
  exists data m, index_run (LoopAutoIndexImpl_init, ∅) sample_index_ops = Some (data, m)
    /\ zlen data = 1 + created sample_index_ops
    /\ (NewId data 9).1 = mkIndex (zlen data) 0 /\ zlen (NewId data 9).2 = zlen data + 1
    /\ forall i d, vget data i = Some d -> 1 <= i -> loop d = None ->
         vget (NewId data 9).2 i = Some (mkData (Some 9%nat) (data_version d)).
Proof. apply (released_positions_are_not_reused sample_index_ops 9); [ apply sample_index_ops_ok | reflexivity ]. Defined.

End LoopAutoIndex.
