(* ===== verification/CommandHandle.v ===== *)
(** * Owning handles of commands (include/icon7/Command.hpp)

    A [CommandHandle] is one machine word: the address of a [Command] object, or the address
    of a suspended coroutine, with the kind in the three low bits. The model keeps the word
    with its bit operations and the objects that exist at each address; [None] is the use of
    an object that does not exist or is of the other kind. The pool's accounting is in
    MemoryPool.v. The theorem shows that programs over handles run or release every command
    exactly once. *)

From S2P Require Import Prelude.

Module CommandHandle.

Definition REGULAR_COMMAND : Z := 0.
Definition COROUTINE_HANDLE : Z := 1.
Definition COMMAND_BITS_MASK : Z := 7.

Section Handle.
Context {C : Type}.

(** A [Command] with its field [_commandSize], or a suspended coroutine. *)
Inductive object := Regular (_commandSize : Z) (c : C) | Suspended (c : C).

(** [created], [executed], [destroyed]: the history of the objects; [fatal] counts the fatal
    log entries. *)
Record Memory := mkMemory {
  objects : gmap Z object;
  created : list object;
  executed : list object;
  destroyed : list object;
  fatal : Z
}.

Definition Memory_init : Memory := mkMemory ∅ [] [] [] 0.

(** The two parts of the word; [~uintptr_t(COMMAND_BITS_MASK)] is [2^64 - 8]. *)
Definition handle_type (handle : Z) : Z := Z.land handle COMMAND_BITS_MASK.
Definition handle_int (handle : Z) : Z := Z.land handle (2 ^ 64 - 1 - COMMAND_BITS_MASK).

Definition IsValid (handle : Z) : bool := negb (handle =? 0).

Definition warn_alignment (m : Memory) (handle : Z) : Memory :=
  if negb (Z.land handle COMMAND_BITS_MASK =? 0)
  then mkMemory (objects m) (created m) (executed m) (destroyed m) (fatal m + 1) else m.

(** [Create(args...)]: [p] is the address the pool returned, [size] is [sizeof(T)]. *)
Definition Create (m : Memory) (p size : Z) (c : C) : Memory * Z :=
  let handle := p in
  let m := warn_alignment m handle in
  (mkMemory (<[p := Regular size c]> (objects m)) (created m ++ [Regular size c]) (executed m)
     (destroyed m) (fatal m), handle).

(** [Create(std::coroutine_handle<>)] for the suspended coroutine at [p]. *)
Definition Create_coroutine (m : Memory) (p : Z) (c : C) : Memory * Z :=
  let handle := p in
  let m := warn_alignment m handle in
  (mkMemory (<[p := Suspended c]> (objects m)) (created m ++ [Suspended c]) (executed m)
     (destroyed m) (fatal m), Z.lor handle COROUTINE_HANDLE).

(** The object at [p] when it is of the kind [type] stands for. *)
Definition object_at (m : Memory) (type p : Z) : option object :=
  let* o := objects m !! p in
  match o with
  | Regular _ _ => if type =? REGULAR_COMMAND then Some o else None
  | Suspended _ => if type =? COROUTINE_HANDLE then Some o else None
  end.

(** [Destroy] and the destructor. *)
Definition Destroy (m : Memory) (handle : Z) : option (Memory * Z) :=
  let type := handle_type handle in
  let p := handle_int handle in
  if negb (p =? 0) then
    if (type =? REGULAR_COMMAND) || (type =? COROUTINE_HANDLE) then
      let* o := object_at m type p in
      Some (mkMemory (delete p (objects m)) (created m) (executed m) (destroyed m ++ [o]) (fatal m), 0)
    else Some (m, 0)
  else Some (m, 0).

(** [Execute]: a command runs and is released, a coroutine is resumed and owns itself. *)
Definition Execute (m : Memory) (handle : Z) : option (Memory * Z) :=
  let type := handle_type handle in
  let p := handle_int handle in
  if negb (p =? 0) then
    if (type =? REGULAR_COMMAND) || (type =? COROUTINE_HANDLE) then
      let* o := object_at m type p in
      Some (mkMemory (delete p (objects m)) (created m) (executed m ++ [o]) (destroyed m) (fatal m), 0)
    else Some (m, 0)
  else Some (m, 0).

(** The move constructor: the new handle and what is left of the old one. *)
Definition move_construct (o : Z) : Z * Z := (o, 0).

(** [operator=]: a handle that still holds something is not overwritten. *)
Definition move_assign (m : Memory) (handle o : Z) : Memory * Z * Z :=
  if negb (handle =? 0) then
    (mkMemory (objects m) (created m) (executed m) (destroyed m) (fatal m + 1), handle, o)
  else (m, o, 0).

(** ** Programs over a table of handles *)

Inductive handle_op :=
| HCreate (p size : Z) (c : C)
| HCoroutine (p : Z) (c : C)
| HMove (i : nat)
| HAssign (i j : nat)
| HDestroy (i : nat)
| HExecute (i : nat).

(** The addresses an allocator returns: not null, aligned to 8 bytes, not in use. *)
Definition fresh_address (m : Memory) (p : Z) : bool :=
  (0 <? p) && (p <? 2 ^ 64) && (p mod 8 =? 0) && bool_decide (objects m !! p = None).

(** An index outside the table is not a handle of the program: nothing happens. *)
Definition handle_step (s : Memory * list Z) (o : handle_op) : option (Memory * list Z) :=
  let '(m, hs) := s in
  match o with
  | HCreate p size c =>
      if fresh_address m p then let '(m, h) := Create m p size c in Some (m, hs ++ [h]) else Some s
  | HCoroutine p c =>
      if fresh_address m p then let '(m, h) := Create_coroutine m p c in Some (m, hs ++ [h]) else Some s
  | HMove i =>
      match hs !! i with
      | None => Some s
      | Some o => let '(h, o) := move_construct o in Some (m, <[i := o]> hs ++ [h])
      end
  | HAssign i j =>
      match hs !! i, hs !! j with
      | Some h, Some o => let '(m, h, o) := move_assign m h o in Some (m, <[i := h]> (<[j := o]> hs))
      | _, _ => Some s
      end
  | HDestroy i =>
      match hs !! i with
      | None => Some s
      | Some h => let* (m, h) := Destroy m h in Some (m, <[i := h]> hs)
      end
  | HExecute i =>
      match hs !! i with
      | None => Some s
      | Some h => let* (m, h) := Execute m h in Some (m, <[i := h]> hs)
      end
  end.

Fixpoint handle_run (s : Memory * list Z) (os : list handle_op) : option (Memory * list Z) :=
  match os with
  | [] => Some s
  | o :: os => let* s := handle_step s o in handle_run s os
  end.

(** ** Ownership *)

(** The word that owns the object at an address. *)
Definition owner (x : Z * object) : Z :=
  match x.2 with Regular _ _ => x.1 | Suspended _ => x.1 + 1 end.

Definition held (hs : list Z) : list Z := filter (fun h => h <> 0) hs.

Record handles_ok (m : Memory) (hs : list Z) : Prop := {
  hk_owned : held hs ≡ₚ owner <$> map_to_list (objects m);
  hk_history : created m ≡ₚ executed m ++ destroyed m ++ (snd <$> map_to_list (objects m));
  hk_address : map_Forall (fun p _ => 0 < p < 2 ^ 64 /\ p mod 8 = 0) (objects m)
}.

(** Taking the word apart gives the address and the kind back. *)
Lemma handle_parts p t : 0 <= p < 2 ^ 64 -> p mod 8 = 0 -> 0 <= t < 8 ->
  handle_int (p + t) = p /\ handle_type (p + t) = t.
Proof.
  intros Hp H8 Ht. pose proof (Z.div_mod p 8 ltac:(lia)). split.
  - unfold handle_int. change (2 ^ 64 - 1 - COMMAND_BITS_MASK) with (Z.ldiff (Z.ones 64) (Z.ones 3)).
    rewrite Z.ldiff_land, Z.land_assoc, Z.land_ones, Z.mod_small by lia.
    rewrite <- Z.ldiff_land, Z.ldiff_ones_r, Z.shiftl_mul_pow2, Z.shiftr_div_pow2 by lia.
    change (2 ^ 3) with 8. replace (p + t) with (t + p / 8 * 8) by lia.
    rewrite Z.div_add, (Z.div_small t) by lia. lia.
  - unfold handle_type. change COMMAND_BITS_MASK with (Z.ones 3). rewrite Z.land_ones by lia.
    change (2 ^ 3) with 8. replace (p + t) with (t + p / 8 * 8) by lia.
    by rewrite Z.mod_add, Z.mod_small by lia.
Qed.

Definition kind (o : object) : Z := match o with Regular _ _ => REGULAR_COMMAND | Suspended _ => COROUTINE_HANDLE end.

Lemma owner_parts m p o :
  map_Forall (fun p _ => 0 < p < 2 ^ 64 /\ p mod 8 = 0) (objects m) -> objects m !! p = Some o ->
  handle_int (owner (p, o)) = p /\ handle_type (owner (p, o)) = kind o /\ owner (p, o) <> 0 /\ p <> 0.
Proof.
  intros Ha Ho. destruct (Ha p o Ho) as [Hp H8].
  assert (owner (p, o) = p + kind o) as -> by (destruct o; cbn [owner kind fst snd]; unfold REGULAR_COMMAND, COROUTINE_HANDLE; lia).
  assert (0 <= kind o < 8) as Hk by (by destruct o).
  destruct (handle_parts p (kind o)) as [-> ->]; [ lia | done | done | ]. split_and!; try done; lia.
Qed.

Lemma object_at_kind m p o : objects m !! p = Some o -> object_at m (kind o) p = Some o.
Proof. intros Ho. unfold object_at. rewrite Ho. by destruct o. Qed.

(** ** Handles in a table *)

(** Overwriting a handle leaves the others alone. *)
Lemma table_set (hs : list Z) i h : hs !! i = Some h ->
  exists r : list Z, hs ≡ₚ h :: r /\ forall h', <[i := h']> hs ≡ₚ h' :: r.
Proof.
  intros Hi. exists (take i hs ++ drop (S i) hs). split.
  - rewrite <- (take_drop_middle hs i h Hi) at 1. by rewrite Permutation_middle.
  - intros h'. rewrite insert_take_drop by (by eapply lookup_lt_Some). by rewrite Permutation_middle.
Qed.

Lemma held_cons h hs : held (h :: hs) = if decide (h <> 0) then h :: held hs else held hs.
Proof. unfold held. by rewrite filter_cons. Qed.

Lemma held_zero hs : held (0 :: hs) = held hs.
Proof. done. Qed.

Lemma held_perm hs hs' : hs ≡ₚ hs' -> held hs ≡ₚ held hs'.
Proof. unfold held. by intros ->. Qed.

(** A handle of the table is empty or owns an object. *)
Lemma handle_owns m hs h : handles_ok m hs -> h ∈ hs -> h <> 0 ->
  exists p o, objects m !! p = Some o /\ h = owner (p, o).
Proof.
  intros [Ho _ _] Hin Hh. assert (h ∈ held hs) as Hh' by (by apply list_elem_of_filter).
  rewrite Ho in Hh'. apply list_elem_of_fmap in Hh' as ([p o] & -> & Hm%elem_of_map_to_list). eauto.
Qed.

(** What [Destroy] and [Execute] share: the object of the handle goes to the history. *)
Lemma consume_ok m hs i p o (ex : bool) :
  handles_ok m hs -> hs !! i = Some (owner (p, o)) -> objects m !! p = Some o ->
  handles_ok (mkMemory (delete p (objects m)) (created m) (if ex then executed m ++ [o] else executed m)
    (if ex then destroyed m else destroyed m ++ [o]) (fatal m)) (<[i := 0]> hs).
Proof.
  intros [H1 H2 H3] Hi Ho. destruct (owner_parts m p o H3 Ho) as (_ & _ & Hne & _).
  destruct (table_set hs i _ Hi) as (r & Er & Es).
  pose proof (map_to_list_delete (objects m) p o Ho) as Ed. split; cbn [objects created executed destroyed].
  - rewrite (held_perm _ _ (Es 0)), held_zero. rewrite (held_perm _ _ Er), held_cons in H1.
    rewrite decide_True in H1 by done.
    rewrite <- Ed in H1. cbn [fmap list_fmap] in H1. by apply Permutation_cons_inv in H1.
  - rewrite H2, <- Ed. cbn [fmap list_fmap snd]. destruct ex.
    + rewrite <- app_assoc. apply Permutation_app_head. cbn [app]. symmetry. apply (Permutation_middle (destroyed m)).
    + by rewrite <- (app_assoc (destroyed m)).
  - intros q x Hq. apply lookup_delete_Some in Hq as [_ Hq]. by apply (H3 q x).
Qed.

Lemma Destroy_spec m hs i h : handles_ok m hs -> hs !! i = Some h ->
  exists m', Destroy m h = Some (m', 0) /\ handles_ok m' (<[i := 0]> hs).
Proof.
  intros Hm Hi. unfold Destroy. destruct (decide (h = 0)) as [-> | Hh].
  { exists m. split; [ done | ]. by rewrite list_insert_id. }
  destruct (handle_owns m hs h Hm) as (p & o & Ho & ->); [ by eapply list_elem_of_lookup_2 | done | ].
  destruct (owner_parts m p o (hk_address _ _ Hm) Ho) as (-> & -> & _ & Hp).
  rewrite (proj2 (Z.eqb_neq p 0)) by done. cbn [negb].
  replace (_ || _) with true by (by destruct o). rewrite object_at_kind by done.
  eexists. split; [ done | ]. by apply (consume_ok m hs i p o false).
Qed.

Lemma Execute_spec m hs i h : handles_ok m hs -> hs !! i = Some h ->
  exists m', Execute m h = Some (m', 0) /\ handles_ok m' (<[i := 0]> hs)
    /\ (h <> 0 -> exists o, executed m' = executed m ++ [o]).
Proof.
  intros Hm Hi. unfold Execute. destruct (decide (h = 0)) as [-> | Hh].
  { exists m. split_and!; [ done | by rewrite list_insert_id | done ]. }
  destruct (handle_owns m hs h Hm) as (p & o & Ho & ->); [ by eapply list_elem_of_lookup_2 | done | ].
  destruct (owner_parts m p o (hk_address _ _ Hm) Ho) as (-> & -> & _ & Hp).
  rewrite (proj2 (Z.eqb_neq p 0)) by done. cbn [negb].
  replace (_ || _) with true by (by destruct o). rewrite object_at_kind by done.
  eexists. split_and!; [ done | by apply (consume_ok m hs i p o true) | intros _; by eexists ].
Qed.

(** A fresh object and its handle. *)
Lemma create_ok m hs p o f : handles_ok m hs -> fresh_address m p = true ->
  handles_ok (mkMemory (<[p := o]> (objects m)) (created m ++ [o]) (executed m) (destroyed m) f)
    (hs ++ [owner (p, o)]).
Proof.
  intros [H1 H2 H3] Hf. unfold fresh_address in Hf.
  apply andb_true_iff in Hf as [[[Hp Hlt]%andb_true_iff H8]%andb_true_iff Hn%bool_decide_eq_true].
  apply Z.ltb_lt in Hp, Hlt. apply Z.eqb_eq in H8.
  pose proof (map_to_list_insert (objects m) p o Hn) as Ei.
  assert (owner (p, o) <> 0) as Hne by (destruct o; cbn [owner fst snd]; lia).
  split; cbn [objects created executed destroyed].
  - rewrite Ei. cbn [fmap list_fmap]. rewrite <- H1, (held_perm _ _ (Permutation_app_comm hs [_])).
    cbn [app]. by rewrite held_cons, decide_True.
  - rewrite Ei. cbn [fmap list_fmap snd]. rewrite H2, <- !app_assoc. do 2 apply Permutation_app_head.
    apply Permutation_app_comm.
  - apply map_Forall_insert_2; [ lia | done ].
Qed.

Lemma handles_ok_perm m hs hs' f : handles_ok m hs -> held hs' ≡ₚ held hs ->
  handles_ok (mkMemory (objects m) (created m) (executed m) (destroyed m) f) hs'.
Proof. intros [H1 H2 H3] E. split; [ by rewrite E | done | done ]. Qed.

Lemma handles_ok_moved m hs hs' : handles_ok m hs -> held hs' ≡ₚ held hs -> handles_ok m hs'.
Proof. intros [H1 H2 H3] E. split; [ by rewrite E | done | done ]. Qed.

Lemma Create_owner m p size c : fresh_address m p = true ->
  Create m p size c = (mkMemory (<[p := Regular size c]> (objects m)) (created m ++ [Regular size c])
                         (executed m) (destroyed m) (fatal m), owner (p, Regular size c))
  /\ Create_coroutine m p c = (mkMemory (<[p := Suspended c]> (objects m)) (created m ++ [Suspended c])
                         (executed m) (destroyed m) (fatal m), owner (p, Suspended c)).
Proof.
  intros Hf. unfold fresh_address in Hf.
  apply andb_true_iff in Hf as [[[Hp Hlt]%andb_true_iff H8]%andb_true_iff _].
  apply Z.ltb_lt in Hp, Hlt. apply Z.eqb_eq in H8. destruct (handle_parts p 0) as [_ Ht]; [ lia | done | lia | ].
  rewrite Z.add_0_r in Ht. unfold Create, Create_coroutine, warn_alignment. unfold handle_type in Ht. rewrite Ht.
  split; [ done | ]. cbn [negb Z.eqb]. f_equal. unfold COROUTINE_HANDLE. cbn [owner fst snd].
  symmetry. apply Z.add_nocarry_lor. change 1 with (Z.ones 1). rewrite Z.land_ones by lia.
  change (2 ^ 1) with 2. apply Z.mod_divide; [ lia | ]. apply Z.mod_divide in H8; [ | lia ].
  apply (Z.divide_trans _ 8); [ by exists 4 | done ].
Qed.

Lemma handle_step_ok m hs o : handles_ok m hs ->
  exists m' hs', handle_step (m, hs) o = Some (m', hs') /\ handles_ok m' hs'.
Proof.
  intros Hm. destruct o as [p size c | p c | i | i j | i | i]; cbn [handle_step].
  - destruct (fresh_address m p) eqn:Hf; [ | eauto ].
    rewrite (proj1 (Create_owner m p size c Hf)). eexists _, _. split; [ done | by apply create_ok ].
  - destruct (fresh_address m p) eqn:Hf; [ | eauto ].
    rewrite (proj2 (Create_owner m p 0 c Hf)). eexists _, _. split; [ done | by apply create_ok ].
  - destruct (hs !! i) as [h|] eqn:Hi; [ | eauto ]. cbn [move_construct]. eexists _, _. split; [ done | ].
    apply (handles_ok_moved m hs); [ done | ]. destruct (table_set hs i h Hi) as (r & Er & Es).
    rewrite (held_perm _ _ (Permutation_app_comm _ [h])), (held_perm _ _ Er). cbn [app].
    rewrite !held_cons. case_decide; by rewrite (held_perm _ _ (Es 0)), held_zero.
  - destruct (hs !! i) as [h|] eqn:Hi; [ | eauto ]. destruct (hs !! j) as [o|] eqn:Hj; [ | eauto ].
    unfold move_assign. destruct (Z.eqb_spec h 0) as [-> | Hh]; cbn [negb].
    + eexists _, _. split; [ done | ]. apply (handles_ok_moved m hs); [ done | ].
      destruct (decide (i = j)) as [-> | Hij].
      { simplify_eq. rewrite list_insert_insert_eq. by rewrite list_insert_id. }
      destruct (table_set hs j o Hj) as (r & Er & Es).
      assert (<[j := 0]> hs !! i = Some 0) as Hi' by (by rewrite list_lookup_insert_ne).
      destruct (table_set _ i 0 Hi') as (r' & Er' & Es'). rewrite (held_perm _ _ (Es' o)), held_cons.
      assert (held r' ≡ₚ held r) as E.
      { pose proof (held_perm _ _ Er') as E. by rewrite (held_perm _ _ (Es 0)), !held_zero in E. }
      rewrite (held_perm _ _ Er), held_cons. case_decide; by rewrite E.
    + eexists _, _. split; [ done | ]. rewrite (list_insert_id hs j) by done. rewrite list_insert_id by done.
      by apply (handles_ok_perm m hs).
  - destruct (hs !! i) as [h|] eqn:Hi; [ | eauto ].
    destruct (Destroy_spec m hs i h Hm Hi) as (m' & -> & Hm'). eauto.
  - destruct (hs !! i) as [h|] eqn:Hi; [ | eauto ].
    destruct (Execute_spec m hs i h Hm Hi) as (m' & -> & Hm' & _). eauto.
Qed.

Lemma handle_run_ok os : forall m hs, handles_ok m hs ->
  exists m' hs', handle_run (m, hs) os = Some (m', hs') /\ handles_ok m' hs'.
Proof.
  induction os as [|o os IH]; intros m hs Hm; cbn [handle_run]; [ eauto | ].
  destruct (handle_step_ok m hs o Hm) as (m' & hs' & -> & Hm'). by apply IH.
Qed.

Lemma Memory_init_ok : handles_ok Memory_init [].
Proof. split; [ done | done | apply map_Forall_empty ]. Qed.

(** ** Properties *)

(** C31: in every program over command handles (creating commands and coroutine handles,
    moving, assigning, destroying and executing handles) no operation uses an object that
    does not exist, the handles that are not empty own the existing objects one to one, and
    every object that was created has been executed once, or destroyed once, or still exists.
    In particular nothing is executed or released twice and nothing is leaked. *)
Theorem commands_run_or_are_released_once os :
  exists m hs, handle_run (Memory_init, []) os = Some (m, hs)
    /\ held hs ≡ₚ owner <$> map_to_list (objects m)
    /\ created m ≡ₚ executed m ++ destroyed m ++ (snd <$> map_to_list (objects m)).
Proof.
  destruct (handle_run_ok os _ _ Memory_init_ok) as (m & hs & E & [H1 H2 _]). by exists m, hs.
Qed.

End Handle.
End CommandHandle.
