(* ===== verification/BatchWriter.v ===== *)
(** * Batched sends to several loops (src/MultiBatchWriter.cpp, include/icon7/MapLoop.hpp)

    A [MultiBatchWriter] collects frames per loop, in a vector indexed by the loop's index,
    and hands each loop one command with its frames when it is flushed. [SendBatch] declares a
    destructor that flushes, so it has no move constructor: when the vector reallocates, its
    elements are copied and the old ones are destroyed, which flushes them. The model keeps
    the capacity of the vector and these destructor calls. What a loop does with the command
    is in LoopFlush.v. *)

From S2P Require Import Prelude PeersToFlush PeerManager.

Module BatchWriter.
Import PeerManager.

Section Writer.
Context {F : Type}.

(** [live]: the existing loops; [index]: their indices (LoopAutoIndex.v); [grow c n]: the
    capacity a vector of capacity [c] takes when it needs [n] elements. *)
Context (live : Z -> Prop) (index : Z -> Z) (grow : Z -> Z -> Z).
Hypothesis live_nonzero : forall l, live l -> l <> 0.
Hypothesis index_range : forall l, live l -> 0 <= index l < 2 ^ 32 - 1.
Hypothesis index_inj : forall l l', live l -> live l' -> index l = index l' -> l = l'.
Hypothesis grow_ge : forall c n, n <= grow c n.

Definition SendData : Type := F * PeerId.

(** [loop] 0 is the null pointer. *)
Record SendBatch := mkBatch { batch_loop : Z; batch_data : list SendData }.

Definition SendBatch_default : SendBatch := mkBatch 0 [].

(** [log]: the commands enqueued to the loops, in order; [fatal]: the fatal log entries. *)
Record MultiBatchWriter := mkWriter {
  map_data : list SendBatch;
  map_capacity : Z;
  log : list (Z * list SendData);
  fatal : Z
}.

Definition MultiBatchWriter_init : MultiBatchWriter := mkWriter [] 0 [] 0.

Definition SendBatch_Push (b : SendBatch) (handle : PeerHandle) (frame : F) : option SendBatch :=
  let l := if batch_loop b =? 0 then loop handle else batch_loop b in
  assert* l =? loop handle in
  Some (mkBatch l (batch_data b ++ [(frame, hid handle)])).

(** What is left of the batch, the commands it enqueued, the fatal log entries. *)
Definition SendBatch_Flush (b : SendBatch) : SendBatch * list (Z * list SendData) * Z :=
  match batch_data b with
  | [] => (b, [], 0)
  | _ => if batch_loop b =? 0 then (mkBatch (batch_loop b) [], [], 1)
         else (mkBatch (batch_loop b) [], [(batch_loop b, batch_data b)], 0)
  end.

(** The destructors of some batches, in order. *)
Fixpoint destroy_batches (bs : list SendBatch) : list (Z * list SendData) * Z :=
  match bs with
  | [] => ([], 0)
  | b :: bs =>
      let '(_, cs, n) := SendBatch_Flush b in
      let '(cs', n') := destroy_batches bs in
      (cs ++ cs', n + n')
  end.

(** [data.resize(n)] for [n] above the size: above the capacity the elements are copied and
    the old ones destroyed. *)
Definition resize (w : MultiBatchWriter) (n : Z) : MultiBatchWriter :=
  let bs := vresize (map_data w) n SendBatch_default in
  if n <=? map_capacity w then mkWriter bs (map_capacity w) (log w) (fatal w)
  else
    let '(cs, k) := destroy_batches (map_data w) in
    mkWriter bs (grow (map_capacity w) n) (log w ++ cs) (fatal w + k).

(** [MapLoop::Access]: the position of the loop's batch. *)
Definition Access (w : MultiBatchWriter) (l : Z) : option (MultiBatchWriter * Z) :=
  assert* negb (l =? 0) in
  let id := index l in
  if zlen (map_data w) <=? id then
    let w := resize w (u32 (id + 1)) in
    let* b := vget (map_data w) id in
    let* bs := vset (map_data w) id (mkBatch l (batch_data b)) in
    Some (mkWriter bs (map_capacity w) (log w) (fatal w), id)
  else Some (w, id).

Definition Send (w : MultiBatchWriter) (handle : PeerHandle) (frame : F) : option MultiBatchWriter :=
  let* (w, id) := Access w (loop handle) in
  let* b := vget (map_data w) id in
  let* b := SendBatch_Push b handle frame in
  let* bs := vset (map_data w) id b in
  Some (mkWriter bs (map_capacity w) (log w) (fatal w)).

(** The loop of [MultiBatchWriter::Flush]. *)
Fixpoint flush_batches (bs : list SendBatch) : list SendBatch * list (Z * list SendData) * Z :=
  match bs with
  | [] => ([], [], 0)
  | b :: bs =>
      let '(b, cs, n) := if batch_loop b =? 0 then (b, [], 0) else SendBatch_Flush b in
      let '(bs, cs', n') := flush_batches bs in
      (b :: bs, cs ++ cs', n + n')
  end.

Definition Flush (w : MultiBatchWriter) : MultiBatchWriter :=
  let '(bs, cs, n) := flush_batches (map_data w) in
  mkWriter bs (map_capacity w) (log w ++ cs) (fatal w + n).

(** The destructor: a flush, then the batches are destroyed. *)
Definition MultiBatchWriter_destroy (w : MultiBatchWriter) : list (Z * list SendData) * Z :=
  let w := Flush w in
  let '(cs, n) := destroy_batches (map_data w) in
  (log w ++ cs, fatal w + n).

Fixpoint send_all (w : MultiBatchWriter) (os : list (PeerHandle * F)) : option MultiBatchWriter :=
  match os with
  | [] => Some w
  | (h, f) :: os => let* w := Send w h f in send_all w os
  end.

(** ** What a loop is sent *)

(** The frames of the commands for loop [l]. *)
Definition delivered (l : Z) (cs : list (Z * list SendData)) : list SendData :=
  concat ((fun c => if c.1 =? l then c.2 else []) <$> cs).

(** The frames that wait for loop [l]. *)
Definition waiting (l : Z) (bs : list SendBatch) : list SendData :=
  concat ((fun b => if batch_loop b =? l then batch_data b else []) <$> bs).

(** The frames a program sends to loop [l]. *)
Definition sent_to (l : Z) (os : list (PeerHandle * F)) : list SendData :=
  concat ((fun o : PeerHandle * F => if loop o.1 =? l then [(o.2, hid o.1)] else []) <$> os).

(** Every batch is at the index of its loop; one without a loop is empty. *)
Record writer_ok (w : MultiBatchWriter) : Prop := {
  wo_index : forall i b, vget (map_data w) i = Some b -> batch_loop b <> 0 ->
    live (batch_loop b) /\ index (batch_loop b) = i;
  wo_empty : forall i b, vget (map_data w) i = Some b -> batch_loop b = 0 -> batch_data b = [];
  wo_size : zlen (map_data w) <= map_capacity w;
  wo_fatal : fatal w = 0
}.

Definition batch_sound (b : SendBatch) : Prop := batch_loop b = 0 -> batch_data b = [].

Lemma writer_ok_sound w : writer_ok w -> Forall batch_sound (map_data w).
Proof.
  intros Hw. apply Forall_forall. intros b [i Hi]%elem_vget Hb. by apply (wo_empty _ Hw i b).
Qed.

Lemma delivered_app l cs cs' : delivered l (cs ++ cs') = delivered l cs ++ delivered l cs'.
Proof. unfold delivered. by rewrite fmap_app, concat_app. Qed.

Lemma waiting_app l bs bs' : waiting l (bs ++ bs') = waiting l bs ++ waiting l bs'.
Proof. unfold waiting. by rewrite fmap_app, concat_app. Qed.

Lemma waiting_cons l b bs : waiting l (b :: bs) = (if batch_loop b =? l then batch_data b else []) ++ waiting l bs.
Proof. done. Qed.

Lemma sent_to_app l os os' : sent_to l (os ++ os') = sent_to l os ++ sent_to l os'.
Proof. unfold sent_to. by rewrite fmap_app, concat_app. Qed.

(** Flushing a batch hands over what it holds. *)
Lemma SendBatch_Flush_spec b : batch_sound b ->
  exists cs, SendBatch_Flush b = (mkBatch (batch_loop b) [], cs, 0)
    /\ forall l, l <> 0 -> delivered l cs = if batch_loop b =? l then batch_data b else [].
Proof.
  intros Hb. unfold SendBatch_Flush, batch_sound in *. destruct b as [lp [|x xs]]; cbn [batch_loop batch_data] in *.
  { exists []. split; [ done | ]. intros l _. by destruct (_ =? _). }
  destruct (Z.eqb_spec lp 0) as [-> | Hlp]; [ by specialize (Hb eq_refl) | ].
  eexists. split; [ done | ]. intros l _. unfold delivered. cbn [fmap list_fmap concat fst snd].
  destruct (lp =? l); by rewrite ?app_nil_r.
Qed.

Lemma destroy_batches_spec bs : Forall batch_sound bs ->
  exists cs, destroy_batches bs = (cs, 0) /\ forall l, l <> 0 -> delivered l cs = waiting l bs.
Proof.
  induction 1 as [|b bs Hb Hbs IH]; cbn [destroy_batches]; [ by exists [] | ].
  destruct (SendBatch_Flush_spec b Hb) as (cs & -> & Hcs). destruct IH as (cs' & -> & Hcs').
  exists (cs ++ cs'). split; [ done | ]. intros l Hl. by rewrite delivered_app, Hcs, Hcs', waiting_cons.
Qed.

Lemma flush_batches_spec bs : Forall batch_sound bs ->
  exists cs, flush_batches bs = ((fun b => mkBatch (batch_loop b) []) <$> bs, cs, 0)
    /\ forall l, l <> 0 -> delivered l cs = waiting l bs.
Proof.
  induction 1 as [|b bs Hb Hbs IH]; cbn [flush_batches]; [ by exists [] | ].
  destruct IH as (cs' & -> & Hcs'). destruct (Z.eqb_spec (batch_loop b) 0) as [E | E].
  - exists cs'. split.
    + cbn [fmap list_fmap]. destruct b as [lp xs]. cbn [batch_loop] in *. by rewrite <- (Hb E).
    + intros l Hl. rewrite waiting_cons, Hcs' by done. rewrite (Hb E). by destruct (_ =? _).
  - destruct (SendBatch_Flush_spec b Hb) as (cs & -> & Hcs). exists (cs ++ cs'). split; [ done | ].
    intros l Hl. by rewrite delivered_app, Hcs, Hcs', waiting_cons.
Qed.

(** ** One batch per loop *)

Lemma waiting_none l bs : Forall (fun b => batch_loop b <> l) bs -> waiting l bs = [].
Proof.
  induction 1 as [|b bs Hb _ IH]; [ done | ]. rewrite waiting_cons, IH.
  by rewrite (proj2 (Z.eqb_neq _ _)) by done.
Qed.

(** Only the batch at position [k] can belong to [l]. *)
Lemma waiting_at l bs k b : bs !! k = Some b ->
  (forall j b', bs !! j = Some b' -> j <> k -> batch_loop b' <> l) ->
  waiting l bs = if batch_loop b =? l then batch_data b else [].
Proof.
  intros Hk Hother. pose proof (lookup_lt_Some _ _ _ Hk).
  rewrite <- (take_drop_middle bs k b Hk), waiting_app, waiting_cons.
  rewrite (waiting_none l (take k bs)), (waiting_none l (drop (S k) bs)), app_nil_r; [ done | | ].
  - apply Forall_lookup_2. intros j b' Hj. rewrite lookup_drop in Hj. apply (Hother _ _ Hj). lia.
  - apply Forall_lookup_2. intros j b' Hj. apply lookup_take_Some in Hj as [Hj ?]. apply (Hother _ _ Hj). lia.
Qed.

(** In a sound writer that is the position of the loop's index. *)
Lemma writer_waiting w l b : writer_ok w -> live l -> vget (map_data w) (index l) = Some b ->
  waiting l (map_data w) = if batch_loop b =? l then batch_data b else [].
Proof.
  intros Hw Hl Hb. pose proof (index_range l Hl). apply live_nonzero in Hl.
  apply (waiting_at l _ (Z.to_nat (index l))); [ by rewrite <- vget_lookup, Z2Nat.id by lia | ].
  intros j b' Hj Hne El. rewrite <- vget_lookup in Hj. apply Hne. rewrite <- El in Hl |- *.
  rewrite (proj2 (wo_index _ Hw _ _ Hj Hl)). lia.
Qed.

Lemma waiting_replicate l n : l <> 0 -> waiting l (replicate n SendBatch_default) = [].
Proof. intros Hl. apply waiting_none, Forall_replicate. cbn. done. Qed.

Lemma waiting_vresize l bs n : l <> 0 -> zlen bs <= n -> waiting l (vresize bs n SendBatch_default) = waiting l bs.
Proof.
  intros Hl Hn. unfold vresize. rewrite take_ge by (unfold zlen in Hn; lia).
  by rewrite waiting_app, waiting_replicate, app_nil_r.
Qed.

(** What a loop gets when the vector grows to [n] elements: with a reallocation, everything
    that waits for it. *)
Definition spilled (w : MultiBatchWriter) (n l : Z) : list SendData :=
  if n <=? map_capacity w then [] else waiting l (map_data w).

(** The capacity of a vector that was made to hold [n] elements. *)
Definition capacity_for (w : MultiBatchWriter) (n : Z) : Z :=
  if n <=? map_capacity w then map_capacity w else grow (map_capacity w) n.

Lemma resize_capacity w n : map_capacity (resize w n) = capacity_for w n.
Proof. unfold resize, capacity_for. destruct (n <=? _); [ done | ]. by destruct (destroy_batches _). Qed.

Lemma map_resize_spec w n : writer_ok w -> zlen (map_data w) <= n ->
  writer_ok (resize w n) /\ map_data (resize w n) = vresize (map_data w) n SendBatch_default
  /\ forall l, l <> 0 -> delivered l (log (resize w n)) = delivered l (log w) ++ spilled w n l.
Proof.
  intros Hw Hn. pose proof (zlen_nonneg (map_data w)). unfold resize, spilled.
  destruct (destroy_batches_spec _ (writer_ok_sound w Hw)) as (cs & -> & Hcs).
  assert (forall c lg, n <= c -> writer_ok (mkWriter (vresize (map_data w) n SendBatch_default) c lg 0)) as Hok.
  { intros c lg Hc. split; cbn [map_data map_capacity fatal]; [ | | by rewrite zlen_vresize by lia | done ].
    - intros i b. rewrite vget_vresize by lia. destruct (_ && _); [ by intros [= <-] | apply Hw ].
    - intros i b. rewrite vget_vresize by lia. destruct (_ && _); [ by intros [= <-] | apply Hw ]. }
  rewrite (wo_fatal _ Hw). destruct (Z.leb_spec n (map_capacity w)) as [Hc | Hc]; cbn [map_data log].
  - split_and!; [ by apply Hok | done | ]. intros l _. by rewrite app_nil_r.
  - split_and!; [ apply Hok; apply grow_ge | done | ]. intros l Hl. by rewrite delivered_app, Hcs.
Qed.

(** Storing a batch of loop [l] at the index of [l]. *)
Lemma writer_ok_store w l b bs c lg :
  writer_ok w -> live l -> batch_loop b = l -> vset (map_data w) (index l) b = Some bs -> map_capacity w <= c ->
  writer_ok (mkWriter bs c lg 0).
Proof.
  intros Hw Hl Hb Hbs Hc. split; cbn [map_data map_capacity fatal]; [ | | | done ].
  - intros i b'. rewrite (vget_vset _ _ _ _ _ Hbs). destruct (Z.eqb_spec i (index l)) as [-> | _]; [ | apply Hw ].
    intros [= <-] _. by rewrite Hb.
  - intros i b'. rewrite (vget_vset _ _ _ _ _ Hbs). destruct (Z.eqb_spec i (index l)) as [-> | _]; [ | apply Hw ].
    intros [= <-] E. rewrite Hb in E. by apply live_nonzero in Hl.
  - rewrite (vset_zlen _ _ _ _ Hbs). pose proof (wo_size _ Hw). lia.
Qed.

(** The other loops do not notice it. *)
Lemma waiting_store w l b bs l' :
  writer_ok w -> live l -> batch_loop b = l -> vset (map_data w) (index l) b = Some bs -> live l' ->
  waiting l' bs = if l' =? l then batch_data b else waiting l' (map_data w).
Proof.
  intros Hw Hl Hb Hbs Hl'. pose proof (writer_ok_store w l b bs _ [] Hw Hl Hb Hbs (Z.le_refl _)) as Hw'.
  set (w' := mkWriter bs (map_capacity w) [] 0) in *. pose proof (vget_vset _ _ _ _ (index l') Hbs) as Hv.
  change bs with (map_data w') in Hv |- *.
  destruct (Z.eqb_spec l' l) as [-> | Hne].
  { rewrite Z.eqb_refl in Hv. rewrite (writer_waiting w' l b Hw' Hl Hv), Hb, Z.eqb_refl. done. }
  rewrite (proj2 (Z.eqb_neq (index l') (index l))) in Hv by (intros E; by apply Hne, index_inj).
  destruct (vget (map_data w) (index l')) as [b'|] eqn:E'.
  - rewrite (writer_waiting w' l' b' Hw' Hl' Hv). by rewrite (writer_waiting w l' b' Hw Hl' E').
  - assert (forall v, writer_ok v -> vget (map_data v) (index l') = None -> waiting l' (map_data v) = []) as Hnone.
    { intros v Hv' Ev. apply waiting_none, Forall_forall. intros b' [i Hi]%elem_vget E.
      apply live_nonzero in Hl'. rewrite <- E in Hl', Ev. rewrite (proj2 (wo_index _ Hv' _ _ Hi Hl')) in Ev. congruence. }
    rewrite (Hnone w' Hw' Hv). by rewrite (Hnone w Hw E').
Qed.

Lemma Access_spec w l : writer_ok w -> live l ->
  exists w' b, Access w l = Some (w', index l) /\ writer_ok w'
    /\ vget (map_data w') (index l) = Some b /\ (batch_loop b = 0 \/ batch_loop b = l)
    /\ zlen (map_data w') = Z.max (zlen (map_data w)) (index l + 1)
    /\ map_capacity w' = capacity_for w (index l + 1)
    /\ forall l', live l' -> waiting l' (map_data w') = waiting l' (map_data w)
       /\ delivered l' (log w') = delivered l' (log w)
            ++ (if zlen (map_data w) <=? index l then spilled w (index l + 1) l' else []).
Proof.
  intros Hw Hl. pose proof (index_range l Hl). pose proof (live_nonzero l Hl). unfold Access. rewrite (proj2 (Z.eqb_neq l 0)) by done. cbn [negb].
  destruct (Z.leb_spec (zlen (map_data w)) (index l)) as [Hge | Hlt].
  - rewrite u32_small by (unfold is_u32; lia).
    destruct (map_resize_spec w (index l + 1) Hw) as (Hw1 & Em & Hd); [ lia | ]. set (w1 := resize w _) in *.
    assert (zlen (map_data w1) = index l + 1) as Hz by (rewrite Em; apply zlen_vresize; lia).
    assert (vget (map_data w1) (index l) = Some SendBatch_default) as Hb.
    { rewrite Em, vget_vresize by lia. by rewrite (proj2 (Z.leb_le _ _)), (proj2 (Z.ltb_lt _ _)) by lia. }
    rewrite Hb. destruct (vset_is_Some (map_data w1) (index l) (mkBatch l [])) as [bs Hbs]; [ lia | ].
    cbn [batch_data SendBatch_default]. rewrite Hbs. eexists _, (mkBatch l []). split; [ done | ].
    rewrite (wo_fatal _ Hw1). cbn [map_data log]. split_and!.
    + apply (writer_ok_store w1 l (mkBatch l [])); (done || lia).
    + by rewrite (vget_vset _ _ _ _ _ Hbs), Z.eqb_refl.
    + by right.
    + rewrite (vset_zlen _ _ _ _ Hbs). lia.
    + apply resize_capacity.
    + intros l' Hl'. pose proof (live_nonzero l' Hl'). split; [ | by apply Hd ]. rewrite (waiting_store w1 l (mkBatch l []) bs l' Hw1 Hl eq_refl Hbs Hl').
      rewrite Em, waiting_vresize by (done || lia). destruct (Z.eqb_spec l' l) as [-> | _]; [ | done ].
      cbn [batch_data]. pose proof (writer_waiting w1 l _ Hw1 Hl Hb) as E.
      rewrite Em, waiting_vresize in E by (done || lia). rewrite E. by destruct (_ =? _).
  - destruct (vget_is_Some (map_data w) (index l)) as [b Hb]; [ lia | ]. exists w, b. split_and!; try done.
    + destruct (decide (batch_loop b = 0)) as [E | E]; [ by left | right ].
      destruct (wo_index _ Hw _ _ Hb E). by apply index_inj.
    + lia.
    + unfold capacity_for. pose proof (wo_size _ Hw). by rewrite (proj2 (Z.leb_le _ _)) by lia.
    + intros l' _. by rewrite app_nil_r.
Qed.

Lemma sent_to_one l h f : sent_to l [(h, f)] = if loop h =? l then [(f, hid h)] else [].
Proof. unfold sent_to. cbn. apply app_nil_r. Qed.

Lemma Writer_Send_spec w h f : writer_ok w -> live (loop h) ->
  exists w', Send w h f = Some w' /\ writer_ok w'
    /\ zlen (map_data w') = Z.max (zlen (map_data w)) (index (loop h) + 1)
    /\ map_capacity w' = capacity_for w (index (loop h) + 1)
    /\ forall l, live l -> waiting l (map_data w') = waiting l (map_data w) ++ sent_to l [(h, f)]
       /\ delivered l (log w') = delivered l (log w)
            ++ (if zlen (map_data w) <=? index (loop h) then spilled w (index (loop h) + 1) l else []).
Proof.
  intros Hw Hl. pose proof (live_nonzero _ Hl). unfold Send.
  destruct (Access_spec w (loop h) Hw Hl) as (w1 & b & -> & Hw1 & Hb & Hbl & Hz & Hcap & Hwd). rewrite Hb.
  unfold SendBatch_Push.
  replace (if batch_loop b =? 0 then loop h else batch_loop b) with (loop h)
    by (destruct Hbl as [-> | ->]; [ done | by rewrite (proj2 (Z.eqb_neq _ 0)) by done ]).
  rewrite Z.eqb_refl. set (b' := mkBatch _ _).
  destruct (vset_is_Some (map_data w1) (index (loop h)) b') as [bs Hbs]; [ by eapply vget_Some_range | ].
  rewrite Hbs, (wo_fatal _ Hw1). eexists. split; [ done | ]. cbn [map_data log]. split_and!.
  - apply (writer_ok_store w1 (loop h) b'); (done || lia).
  - by rewrite (vset_zlen _ _ _ _ Hbs).
  - done.
  - intros l Hl'. destruct (Hwd l Hl') as [Ew Ed]. split; [ | done ].
    rewrite (waiting_store w1 (loop h) b' bs l Hw1 Hl eq_refl Hbs Hl'), sent_to_one, <- Ew, Z.eqb_sym.
    destruct (Z.eqb_spec (loop h) l) as [<- | _]; [ | by rewrite app_nil_r ].
    rewrite (writer_waiting w1 (loop h) b Hw1 Hl Hb). unfold b'. cbn [batch_data].
    destruct Hbl as [E | ->]; [ | by rewrite Z.eqb_refl ].
    rewrite (wo_empty _ Hw1 _ _ Hb E). by destruct (_ =? _).
Qed.

Lemma Writer_Flush_spec w : writer_ok w ->
  writer_ok (Flush w) /\ forall l, l <> 0 -> waiting l (map_data (Flush w)) = []
    /\ delivered l (log (Flush w)) = delivered l (log w) ++ waiting l (map_data w).
Proof.
  intros Hw. unfold Flush. destruct (flush_batches_spec _ (writer_ok_sound w Hw)) as (cs & -> & Hcs).
  rewrite (wo_fatal _ Hw). set (bs := _ <$> _).
  assert (forall i b, vget bs i = Some b -> exists b0, vget (map_data w) i = Some b0 /\ b = mkBatch (batch_loop b0) []) as Hbs.
  { intros i b. unfold bs, vget. destruct (i <? 0); [ done | ]. rewrite list_lookup_fmap.
    destruct (map_data w !! _) as [b0|]; [ | done ]. intros [= <-]. by exists b0. }
  cbn [map_data log]. split.
  - split; cbn [map_data map_capacity fatal].
    + intros i b (b0 & Hi & ->)%Hbs. apply (wo_index _ Hw _ _ Hi).
    + by intros i b (b0 & Hi & ->)%Hbs.
    + unfold bs, zlen. rewrite length_fmap. apply Hw.
    + done.
  - intros l Hl. split; [ | by rewrite delivered_app, Hcs ].
    unfold bs. clear Hbs Hcs. clear bs. induction (map_data w) as [|b bs IH]; [ done | ].
    cbn [fmap list_fmap]. rewrite waiting_cons. cbn [batch_loop batch_data]. rewrite IH. by destruct (_ =? _).
Qed.

Definition handles_set (os : list (PeerHandle * F)) : Prop := Forall (fun o => live (loop o.1)) os.

(** Without growth of the vector nothing is handed over before the flush. *)
Lemma send_all_no_growth os : forall w,
  writer_ok w -> handles_set os -> Forall (fun o => index (loop o.1) < zlen (map_data w)) os ->
  exists w', send_all w os = Some w' /\ writer_ok w'
    /\ forall l, live l -> waiting l (map_data w') = waiting l (map_data w) ++ sent_to l os
       /\ delivered l (log w') = delivered l (log w).
Proof.
  induction os as [|[h f] os IH]; intros w Hw Hh Hi; cbn [send_all].
  { exists w. split_and!; try done. intros l _. by rewrite app_nil_r. }
  apply Forall_cons in Hh as [Hh Hos]. apply Forall_cons in Hi as [Hi His]. cbn [fst] in *.
  destruct (Writer_Send_spec w h f Hw Hh) as (w1 & -> & Hw1 & Hz & _ & Hwd).
  destruct (IH w1 Hw1 Hos) as (w' & E & Hw' & Hwd').
  { eapply Forall_impl; [ exact His | ]. cbn. intros. lia. }
  exists w'. split_and!; try done. intros l Hl. destruct (Hwd l Hl) as [E1 E2]. destruct (Hwd' l Hl) as [E3 E4].
  rewrite E3, E4, E1, E2, <- app_assoc, (proj2 (Z.leb_gt _ _)), app_nil_r by lia.
  split; [ | done ]. by rewrite <- sent_to_app.
Qed.

(** What reached a loop and what waits for it contains what was sent to it, in order, and
    nothing else. *)
Definition accounted (w : MultiBatchWriter) (os : list (PeerHandle * F)) : Prop :=
  forall l, live l ->
    sublist (sent_to l os) (delivered l (log w) ++ waiting l (map_data w))
    /\ forall x, x ∈ delivered l (log w) ++ waiting l (map_data w) -> x ∈ sent_to l os.

Lemma send_all_accounted os : forall w done,
  writer_ok w -> handles_set os -> accounted w done ->
  exists w', send_all w os = Some w' /\ writer_ok w' /\ accounted w' (done ++ os).
Proof.
  induction os as [|[h f] os IH]; intros w done Hw Hh Ha; cbn [send_all].
  { exists w. by rewrite app_nil_r. }
  apply Forall_cons in Hh as [Hh Hos]. cbn [fst] in *.
  destruct (Writer_Send_spec w h f Hw Hh) as (w1 & -> & Hw1 & _ & _ & Hwd).
  destruct (IH w1 (done ++ [(h, f)]) Hw1 Hos) as (w' & E & Hw' & Ha').
  { intros l Hl. destruct (Ha l Hl) as [Hs He]. destruct (Hwd l Hl) as [-> ->].
    rewrite sent_to_app. set (x := sent_to l [(h, f)]). set (sp := if _ <=? _ then _ else _).
    assert (forall y, y ∈ sp -> y ∈ waiting l (map_data w)) as Hsp.
    { intros y. unfold sp, spilled. repeat destruct (_ <=? _); (done || by intros ?%not_elem_of_nil). }
    split.
    - rewrite app_assoc. apply sublist_app; [ | done ]. etrans; [ exact Hs | ]. rewrite <- app_assoc.
      apply sublist_app; [ done | ]. by apply sublist_inserts_l.
    - intros y. specialize (He y). specialize (Hsp y). rewrite !elem_of_app in *. naive_solver. }
  exists w'. by rewrite <- app_assoc in Ha'.
Qed.

Lemma MultiBatchWriter_init_ok : writer_ok MultiBatchWriter_init.
Proof. split; cbn; try done; intros i b; by rewrite vget_nil. Qed.

(** ** Properties *)

(** When the loop with the largest index is used first, so that the vector does not grow
    later, the writer delivers exactly: after the flush the commands enqueued for each loop
    carry the frames sent to handles of that loop, in order, each once, and nothing waits. *)
Theorem batch_writer_delivers_in_order h0 f0 os :
  live (loop h0) -> handles_set os -> Forall (fun o => index (loop o.1) <= index (loop h0)) os ->
  exists w, send_all MultiBatchWriter_init ((h0, f0) :: os) = Some w
    /\ forall l, live l -> delivered l (log (Flush w)) = sent_to l ((h0, f0) :: os)
       /\ waiting l (map_data (Flush w)) = [].
Proof.
  intros H0 Hh Hi. cbn [send_all]. pose proof (index_range _ H0).
  destruct (Writer_Send_spec MultiBatchWriter_init h0 f0 MultiBatchWriter_init_ok H0) as (w1 & -> & Hw1 & Hz & _ & Hwd).
  destruct (send_all_no_growth os w1 Hw1 Hh) as (w & E & Hw & Hwd').
  { eapply Forall_impl; [ exact Hi | ]. cbn. intros o Ho. rewrite Hz. lia. }
  exists w. split; [ done | ]. intros l Hl. destruct (Writer_Flush_spec w Hw) as [_ HF].
  destruct (HF l (live_nonzero l Hl)) as [-> ->]. split; [ | done ]. destruct (Hwd l Hl) as [E1 E2]. destruct (Hwd' l Hl) as [-> ->].
  rewrite E1, E2. change (waiting l (map_data MultiBatchWriter_init)) with (@nil SendData).
  unfold spilled. change (waiting l (map_data MultiBatchWriter_init)) with (@nil SendData).
  change ((h0, f0) :: os) with ([(h0, f0)] ++ os). rewrite (sent_to_app l [(h0, f0)]).
  repeat destruct (_ <=? _); reflexivity.
Qed.

(** C35: in any program no frame is lost and none goes astray: after the flush, the frames sent
    to handles of a loop are, in order, among the frames of the commands enqueued for that
    loop, and those commands carry only frames sent to that loop. No assertion fails. *)
Theorem batch_writer_loses_nothing os :
  handles_set os ->
  exists w, send_all MultiBatchWriter_init os = Some w
    /\ forall l, live l -> sublist (sent_to l os) (delivered l (log (Flush w)))
       /\ forall x, x ∈ delivered l (log (Flush w)) -> x ∈ sent_to l os.
Proof.
  intros Hh. destruct (send_all_accounted os MultiBatchWriter_init [] MultiBatchWriter_init_ok Hh)
    as (w & E & Hw & Ha).
  { intros l _. split; [ done | by intros x ?%not_elem_of_nil ]. }
  exists w. split; [ done | ]. intros l Hl. destruct (Writer_Flush_spec w Hw) as [_ HF].
  destruct (HF l (live_nonzero l Hl)) as [_ ->]. apply (Ha l Hl).
Qed.

(** But a frame can be sent twice. When a frame waits for one loop and the next one is
    for a loop whose index needs a larger vector, the reallocation copies the first loop's
    batch and the destructor of the original sends it: the first loop gets its frame at once
    and again when the writer is flushed. *)
Theorem growing_the_map_sends_frames_twice h1 f1 h2 f2 :
  live (loop h1) -> live (loop h2) -> index (loop h1) < index (loop h2) ->
  grow 0 (index (loop h1) + 1) < index (loop h2) + 1 ->
  exists w, send_all MultiBatchWriter_init [(h1, f1); (h2, f2)] = Some w
    /\ delivered (loop h1) (log (Flush w)) = [(f1, hid h1); (f1, hid h1)]
    /\ delivered (loop h2) (log (Flush w)) = [(f2, hid h2)].
Proof.
  intros H1 H2 Hi Hg. cbn [send_all]. pose proof (index_range _ H1).
  assert (loop h1 <> loop h2) as Hne by (intros E; rewrite E in Hi; lia).
  destruct (Writer_Send_spec MultiBatchWriter_init h1 f1 MultiBatchWriter_init_ok H1) as (w1 & -> & Hw1 & Hz1 & Hc1 & Hwd1).
  destruct (Writer_Send_spec w1 h2 f2 Hw1 H2) as (w & -> & Hw & _ & _ & Hwd). exists w. split; [ done | ].
  change (map_data MultiBatchWriter_init) with (@nil SendBatch) in Hz1. rewrite zlen_nil in Hz1.
  unfold capacity_for in Hc1. change (map_capacity MultiBatchWriter_init) with 0 in Hc1.
  rewrite (proj2 (Z.leb_gt (index (loop h1) + 1) 0)) in Hc1 by lia.
  assert (forall l, live l -> waiting l (map_data w1) = sent_to l [(h1, f1)] /\ delivered l (log w1) = []) as Hw1'.
  { intros l Hl. destruct (Hwd1 l Hl) as [-> ->]. split; [ done | ]. unfold spilled. by repeat destruct (_ <=? _). }
  assert (forall l, live l -> delivered l (log (Flush w)) = sent_to l [(h1, f1)] ++ sent_to l [(h1, f1)] ++ sent_to l [(h2, f2)]) as Hd.
  { intros l Hl. destruct (proj2 (Writer_Flush_spec w Hw) l (live_nonzero l Hl)) as [_ ->]. destruct (Hwd l Hl) as [-> ->].
    destruct (Hw1' l Hl) as [-> ->]. unfold spilled. rewrite (proj1 (Hw1' l Hl)), Hc1.
    by rewrite (proj2 (Z.leb_le _ _)), (proj2 (Z.leb_gt _ _)) by lia. }
  rewrite !Hd, !sent_to_one, !Z.eqb_refl by done. by rewrite !(proj2 (Z.eqb_neq _ _)) by done.
Qed.

End Writer.

(** ** Witnesses *)

(** Two loops at the addresses 100 and 200 with the indices 1 and 2, and the usual growth. *)
Definition sample_live (l : Z) : Prop := l = 100 \/ l = 200.
Definition sample_index (l : Z) : Z := if l =? 100 then 1 else 2.
Definition doubling (c n : Z) : Z := Z.max (2 * c) n.

Definition peer_a : PeerHandle := mkHandle (mkId 4 1) 100.
Definition peer_b : PeerHandle := mkHandle (mkId 7 3) 200.

Lemma sample_nonzero l : sample_live l -> l <> 0.
Proof. unfold sample_live. lia. Qed.
Lemma sample_range l : sample_live l -> 0 <= sample_index l < 2 ^ 32 - 1.
Proof. unfold sample_index. destruct (_ =? _); lia. Qed.
Lemma sample_inj l l' : sample_live l -> sample_live l' -> sample_index l = sample_index l' -> l = l'.
Proof. unfold sample_index. intros [-> | ->] [-> | ->]; cbn; lia. Qed.
Lemma doubling_ge c n : n <= doubling c n.
Proof. unfold doubling. lia. Qed.

Lemma batch_writer_delivers_in_order_witness :
  exists w, send_all sample_index doubling MultiBatchWriter_init
              [(peer_b, 10%nat); (peer_a, 11%nat); (peer_b, 12%nat); (peer_a, 13%nat)] = Some w
    /\ forall l, sample_live l ->
         delivered l (log (Flush w)) =
           sent_to l [(peer_b, 10%nat); (peer_a, 11%nat); (peer_b, 12%nat); (peer_a, 13%nat)]
         /\ waiting l (map_data (Flush w)) = [].
Proof.
  apply (batch_writer_delivers_in_order sample_live sample_index doubling
           sample_nonzero sample_range sample_inj doubling_ge).
  - right. reflexivity.
  - repeat (constructor; [ first [ left; reflexivity | right; reflexivity ] | ]). constructor.
  - repeat (constructor; [ vm_compute; discriminate | ]). constructor.
Defined.

Lemma batch_writer_loses_nothing_witness :
  exists w, send_all sample_index doubling MultiBatchWriter_init
              [(peer_a, 10%nat); (peer_b, 11%nat); (peer_a, 12%nat)] = Some w
    /\ forall l, sample_live l ->
         sublist (sent_to l [(peer_a, 10%nat); (peer_b, 11%nat); (peer_a, 12%nat)]) (delivered l (log (Flush w)))
         /\ forall x, x ∈ delivered l (log (Flush w)) ->
              x ∈ sent_to l [(peer_a, 10%nat); (peer_b, 11%nat); (peer_a, 12%nat)].
Proof.
  apply (batch_writer_loses_nothing sample_live sample_index doubling
           sample_nonzero sample_range sample_inj doubling_ge).
  repeat (constructor; [ first [ left; reflexivity | right; reflexivity ] | ]). constructor.
Defined.

Lemma growing_the_map_sends_frames_twice_witness :
  exists w, send_all sample_index doubling MultiBatchWriter_init [(peer_a, 10%nat); (peer_b, 11%nat)] = Some w
    /\ delivered 100 (log (Flush w)) = [(10%nat, mkId 4 1); (10%nat, mkId 4 1)]
    /\ delivered 200 (log (Flush w)) = [(11%nat, mkId 7 3)].
Proof.
  apply (growing_the_map_sends_frames_twice sample_live sample_index doubling
           sample_nonzero sample_range sample_inj doubling_ge peer_a 10%nat peer_b 11%nat);
    [ left; reflexivity | right; reflexivity | reflexivity | reflexivity ].
Defined.

End BatchWriter.
