(* ===== verification/Time.v ===== *)
(** * Calendar dates (src/Time.cpp)

    [YMDFromTimestamp] turns nanoseconds since 1970 into a date, [TimestampFromYMD] a date
    into nanoseconds. Division and remainder of [int] round towards zero. The clock itself
    and the printing with [sprintf] are not modelled. The sums of [TimestampFromYMD] are
    checked against their widths ([int], then [int64_t]): [None] is the overflow. *)

From S2P Require Import Prelude.

Module Time.

Definition IsLeapYear (year : Z) : bool :=
  (Z.rem year 4 =? 0) && negb (Z.rem year 100 =? 0) || (Z.rem year 400 =? 0).

Definition LeapYearsBefore (year : Z) : Z :=
  Z.quot year 4 - Z.quot year 100 + Z.quot year 400.

Definition DAY_NS : Z := 24 * 3600 * 1000 * 1000 * 1000.

Definition daysPerMonth (isLeap : bool) : list Z :=
  [31; if isLeap then 29 else 28; 31; 30; 31; 30; 31; 31; 30; 31; 30; 31].

Definition leapYears (year : Z) : Z := LeapYearsBefore (year - 1) - LeapYearsBefore 1970.

Definition year_length (year : Z) : Z := if IsLeapYear year then 366 else 365.

(** The [while (true)] loop: the year and the days left. *)
Fixpoint year_loop (fuel : nat) (year days : Z) : option (Z * Z) :=
  match fuel with
  | O => None
  | S fuel =>
      let max := year_length year in
      if max <=? days then year_loop fuel (year + 1) (days - max) else Some (year, days)
  end.

(** The loop over the months; reading past the table is a failure. *)
Fixpoint month_loop (fuel : nat) (table : list Z) (month days : Z) : option (Z * Z) :=
  match fuel with
  | O => None
  | S fuel =>
      let* m := vget table month in
      if m <=? days then month_loop fuel table (month + 1) (days - m) else Some (month, days)
  end.

(** The result is [(day, month, year)]. A round of the first loop takes 365 days or more, the
    second has at most twelve rounds. *)
Definition YMDFromTimestamp (ns : Z) : option (Z * Z * Z) :=
  let days := Z.quot ns DAY_NS in
  let year := 1970 + Z.quot (days - 370) 366 in
  let days := days - ((year - 1970) * 365 + leapYears year) in
  let* (year, days) := year_loop (S (Z.to_nat days)) year days in
  let* (month, days) := month_loop 13 (daysPerMonth (IsLeapYear year)) 0 days in
  Some (days + 1, month + 1, year).

(** The loop that adds the lengths of the months before. *)
Fixpoint month_offset (fuel : nat) (table : list Z) (i month days : Z) : option Z :=
  if i <? month then
    match fuel with
    | O => None
    | S fuel =>
        let* m := vget table i in
        month_offset fuel table (i + 1) month (days + m)
    end
  else Some days.

Definition fits (bits x : Z) : bool := (- 2 ^ (bits - 1) <=? x) && (x <? 2 ^ (bits - 1)).

Definition TimestampFromYMD (day month year : Z) : option Z :=
  assert* fits 32 ((year - 1970) * 365) in
  let days := (year - 1970) * 365 + day - 1 + leapYears year in
  assert* fits 32 days in
  let* days := month_offset 12 (daysPerMonth (IsLeapYear year)) 0 (month - 1) days in
  assert* fits 64 (days * DAY_NS) in
  Some (days * DAY_NS).

(** ** Years *)

(** The day number of the first of January. *)
Definition days_before (year : Z) : Z := (year - 1970) * 365 + leapYears year.

Lemma leap_step year : 1 <= year ->
  LeapYearsBefore year = LeapYearsBefore (year - 1) + if IsLeapYear year then 1 else 0.
Proof.
  intros Hy. unfold LeapYearsBefore, IsLeapYear. rewrite !Z.quot_div_nonneg, !Z.rem_mod_nonneg by lia.
  destruct (Z.eqb_spec (year mod 4) 0), (Z.eqb_spec (year mod 100) 0), (Z.eqb_spec (year mod 400) 0);
    simpl; Z.to_euclidean_division_equations; lia.
Qed.

Lemma days_before_succ year : 1 <= year -> days_before (year + 1) = days_before year + year_length year.
Proof.
  intros Hy. unfold days_before, leapYears, year_length. replace (year + 1 - 1) with year by lia.
  rewrite (leap_step year Hy). destruct (IsLeapYear year); lia.
Qed.

Lemma days_before_mono y y' : 1 <= y <= y' -> days_before y + 365 * (y' - y) <= days_before y' <= days_before y + 366 * (y' - y).
Proof.
  intros [Hy Hle]. replace y' with (y + Z.of_nat (Z.to_nat (y' - y))) by lia. clear Hle.
  induction (Z.to_nat (y' - y)) as [|n IH]; [ replace (y + Z.of_nat 0) with y by lia; lia | ].
  replace (y + Z.of_nat (S n)) with (y + Z.of_nat n + 1) by lia. rewrite days_before_succ by lia.
  unfold year_length. destruct (IsLeapYear _); lia.
Qed.

Lemma year_loop_spec fuel : forall year days N,
  1 <= year -> days = N - days_before year -> 0 <= days < Z.of_nat fuel ->
  exists y, year_loop fuel year days = Some (y, N - days_before y) /\ year <= y
    /\ days_before y <= N < days_before (y + 1).
Proof.
  induction fuel as [|fuel IH]; intros year days N Hy Ed Hd; [ lia | ]. cbn [year_loop].
  assert (365 <= year_length year) by (unfold year_length; destruct (IsLeapYear year); lia).
  pose proof (days_before_succ year Hy). destruct (Z.leb_spec (year_length year) days) as [Hle | Hgt].
  - destruct (IH (year + 1) (days - year_length year) N) as (y & E & Hy' & Hr); [ lia | lia | lia | ].
    exists y. split_and!; [ done | lia | lia | lia ].
  - exists year. subst days. split_and!; [ done | lia | lia | lia ].
Qed.

(** The year of a day number is unique. *)
Lemma year_unique y y' N : 1 <= y -> 1 <= y' ->
  days_before y <= N < days_before (y + 1) -> days_before y' <= N < days_before (y' + 1) -> y = y'.
Proof.
  intros Hy Hy' H H'. destruct (Z.lt_trichotomy y y') as [Hl | [He | Hg]]; [ | done | ].
  - pose proof (days_before_mono (y + 1) y'). lia.
  - pose proof (days_before_mono (y' + 1) y). lia.
Qed.

(** ** Months *)

Definition valid_date (day month year : Z) : Prop :=
  1970 <= year /\ exists len, vget (daysPerMonth (IsLeapYear year)) (month - 1) = Some len /\ 1 <= day <= len.

Definition total (l : list Z) : Z := foldr Z.add 0 l.

Lemma total_nonneg l : Forall (fun x => 0 <= x) l -> 0 <= total l.
Proof. unfold total. induction 1 as [|x l Hx _ IH]; simpl; lia. Qed.

Lemma vget_middle (pre : list Z) x rest : vget (pre ++ x :: rest) (zlen pre) = Some x.
Proof. unfold zlen. rewrite vget_lookup. by rewrite list_lookup_middle. Qed.

(** The search stops at the month the days fall into. *)
Lemma month_loop_finds j : forall fuel pre rest len d,
  (j < fuel)%nat -> Forall (fun x => 0 <= x) rest -> rest !! j = Some len -> 0 <= d < len ->
  month_loop fuel (pre ++ rest) (zlen pre) (total (take j rest) + d) = Some (zlen pre + Z.of_nat j, d).
Proof.
  induction j as [|j IH]; intros [|fuel] pre [|x rest] len d Hf Hp Hj Hd; try done; try lia; cbn [month_loop].
  - simpl in Hj. injection Hj as ->. rewrite vget_middle. cbn [take total foldr].
    rewrite (proj2 (Z.leb_gt _ _)) by lia. f_equal. f_equal; lia.
  - apply Forall_cons in Hp as [Hx Hp]. rewrite vget_middle. cbn [take]. change (total (x :: ?l)) with (x + total l).
    pose proof (total_nonneg (take j rest) (Forall_take _ _ _ Hp)). rewrite (proj2 (Z.leb_le x _)) by lia.
    replace (x + total (take j rest) + d - x) with (total (take j rest) + d) by lia.
    replace (zlen pre + 1) with (zlen (pre ++ [x])) by (rewrite zlen_app; done).
    change (pre ++ x :: rest) with (pre ++ [x] ++ rest). rewrite app_assoc.
    rewrite (IH fuel (pre ++ [x]) rest len d) by (done || lia). rewrite zlen_app. f_equal. f_equal.
    change (zlen [x]) with 1. lia.
Qed.

Lemma month_offset_sums j : forall fuel pre rest days,
  (j <= fuel)%nat -> (j <= length rest)%nat ->
  month_offset fuel (pre ++ rest) (zlen pre) (zlen pre + Z.of_nat j) days = Some (days + total (take j rest)).
Proof.
  induction j as [|j IH]; intros fuel pre rest days Hf Hl.
  - rewrite Z.add_0_r. destruct fuel; cbn [month_offset]; rewrite Z.ltb_irrefl; f_equal; simpl; lia.
  - destruct fuel as [|fuel]; [ lia | ]. destruct rest as [|x rest]; [ simpl in Hl; lia | ]. cbn [month_offset].
    rewrite (proj2 (Z.ltb_lt _ _)) by lia. rewrite vget_middle.
    replace (zlen pre + 1) with (zlen (pre ++ [x])) by (rewrite zlen_app; done).
    replace (zlen pre + Z.of_nat (S j)) with (zlen (pre ++ [x]) + Z.of_nat j) by (rewrite zlen_app; change (zlen [x]) with 1; lia).
    change (pre ++ x :: rest) with (pre ++ [x] ++ rest). rewrite app_assoc, IH by (simpl in Hl; lia).
    f_equal. cbn [take]. change (total (x :: take j rest)) with (x + total (take j rest)). lia.
Qed.

(** Some month contains a given day of the year. *)
Lemma month_exists l : forall days, 0 <= days < total l ->
  exists j len d, l !! j = Some len /\ 0 <= d < len /\ days = total (take j l) + d.
Proof.
  induction l as [|x l IH]; intros days Hd; [ cbn in Hd; lia | ]. change (total (x :: l)) with (x + total l) in Hd.
  destruct (Z.lt_ge_cases days x) as [Hlt | Hge]; [ exists 0%nat, x, days; cbn; split_and!; (done || lia) | ].
  destruct (IH (days - x)) as (j & len & d & Hj & Hd' & E); [ lia | ].
  exists (S j), len, d. split_and!; try done; try lia. cbn [take]. change (total (x :: take j l)) with (x + total (take j l)). lia.
Qed.

Lemma take_total l j len d : Forall (fun x => 0 <= x) l -> l !! j = Some len -> 0 <= d < len ->
  0 <= total (take j l) + d < total l.
Proof.
  intros Hp Hj Hd. pose proof (total_nonneg (take j l) (Forall_take _ _ _ Hp)).
  rewrite <- (take_drop_middle l j len Hj) at 3. unfold total at 3. rewrite foldr_app. cbn [foldr].
  assert (forall a l', foldr Z.add a l' = total l' + a) as Hfold
    by (intros a l'; unfold total; induction l' as [|y l' IHl]; simpl; lia).
  rewrite Hfold. pose proof (total_nonneg (drop (S j) l) (Forall_drop _ _ _ Hp)). unfold total in *. lia.
Qed.

Lemma table_ok leap : Forall (fun x => 0 <= x) (daysPerMonth leap) /\ length (daysPerMonth leap) = 12%nat
  /\ total (daysPerMonth leap) = if leap then 366 else 365.
Proof. split_and!; [ repeat (apply Forall_cons; split; [ by destruct leap | ]); by apply Forall_nil | done | by destruct leap ]. Qed.

(** ** Dates *)

Lemma fits_small bits x : 0 <= x < 2 ^ (bits - 1) -> fits bits x = true.
Proof. intros Hx. unfold fits. by rewrite (proj2 (Z.leb_le _ _)), (proj2 (Z.ltb_lt _ _)) by lia. Qed.

(** The two functions on a date given by its year, the position of its month and its day. *)
Lemma date_round_trip y j len d : 1970 <= y -> daysPerMonth (IsLeapYear y) !! j = Some len -> 0 <= d < len ->
  exists N, N = days_before y + total (take j (daysPerMonth (IsLeapYear y))) + d
    /\ days_before y <= N < days_before (y + 1)
    /\ (N * DAY_NS < 2 ^ 63 -> TimestampFromYMD (d + 1) (Z.of_nat j + 1) y = Some (N * DAY_NS))
    /\ month_loop 13 (daysPerMonth (IsLeapYear y)) 0 (N - days_before y) = Some (Z.of_nat j, d).
Proof.
  intros Hy Hj Hd. destruct (table_ok (IsLeapYear y)) as (Hp & Hl & Ht). pose proof (lookup_lt_Some _ _ _ Hj).
  pose proof (take_total _ _ _ _ Hp Hj Hd) as Htk. eexists. split; [ done | ]. split_and!.
  - lia.
  - rewrite days_before_succ by lia. unfold year_length. destruct (IsLeapYear y); lia.
  - intros Hb. pose proof (days_before_mono 1970 y ltac:(lia)) as Hmono. change (days_before 1970) with 0 in Hmono.
    assert (0 <= total (take j (daysPerMonth (IsLeapYear y)))) as Htn by (apply total_nonneg; by apply Forall_take).
    unfold TimestampFromYMD. fold (days_before y) in *.
    rewrite (fits_small 32 ((y - 1970) * 365)), (fits_small 32 (_ + leapYears y)) by (unfold days_before, DAY_NS in *; lia).
    replace (Z.of_nat j + 1 - 1) with (0 + Z.of_nat j) by lia.
    change 0 with (zlen (@nil Z)) at 1 2. rewrite (month_offset_sums j 12 [] (daysPerMonth (IsLeapYear y))) by lia.
    set (N := _ + total _ + d) in Hb. rewrite fits_small by (unfold days_before, DAY_NS in *; lia).
    f_equal. f_equal. unfold days_before. lia.
  - replace (days_before y + total (take j (daysPerMonth (IsLeapYear y))) + d - days_before y)
      with (total (take j (daysPerMonth (IsLeapYear y))) + d) by lia.
    apply (month_loop_finds j 13 [] (daysPerMonth (IsLeapYear y)) len d); (done || lia).
Qed.

Lemma YMD_of_day N y j d : 0 <= N -> 1970 <= y -> days_before y <= N < days_before (y + 1) ->
  month_loop 13 (daysPerMonth (IsLeapYear y)) 0 (N - days_before y) = Some (j, d) ->
  forall ns, N * DAY_NS <= ns < (N + 1) * DAY_NS -> YMDFromTimestamp ns = Some (d + 1, j + 1, y).
Proof.
  intros HN Hy Hr Hm ns Hns. unfold YMDFromTimestamp. unfold DAY_NS in *.
  assert (Z.quot ns (24 * 3600 * 1000 * 1000 * 1000) = N) as ->.
  { rewrite Z.quot_div_nonneg by lia. symmetry. apply Z.div_unique with (ns - N * (24 * 3600 * 1000 * 1000 * 1000)); lia. }
  set (y0 := 1970 + Z.quot (N - 370) 366).
  assert (1 <= y0 /\ days_before y0 <= N) as [Hy0 Hd0].
  { destruct (Z.le_gt_cases 370 N) as [Hge | Hlt].
    - subst y0. rewrite Z.quot_div_nonneg by lia. pose proof (Z.div_pos (N - 370) 366).
      pose proof (Z.mul_div_le (N - 370) 366 ltac:(lia)). set (q := (N - 370) / 366) in *.
      pose proof (days_before_mono 1970 (1970 + q) ltac:(lia)) as Hmono. change (days_before 1970) with 0 in Hmono. lia.
    - assert (y0 = 1970 \/ y0 = 1969) as [-> | ->] by (subst y0; Z.to_euclidean_division_equations; lia).
      + change (days_before 1970) with 0. lia.
      + change (days_before 1969) with (-365). lia. }
  fold (days_before y0).
  destruct (year_loop_spec (S (Z.to_nat (N - days_before y0))) y0 (N - days_before y0) N) as (y' & E & Hge & Hr');
    [ lia | lia | lia | ].
  rewrite E. assert (y' = y) as -> by (eapply year_unique; (eassumption || lia)). by rewrite Hm.
Qed.

(** The date of a timestamp exists, has a year of four digits, and leads back to its day. *)
Lemma date_of_timestamp ns :
  0 <= ns < 2 ^ 63 ->
  exists day month year, YMDFromTimestamp ns = Some (day, month, year) /\ valid_date day month year
    /\ year <= 2262 /\ TimestampFromYMD day month year = Some (ns / DAY_NS * DAY_NS).
Proof.
  intros Hns. set (N := ns / DAY_NS). assert (0 <= N) by (apply Z.div_pos; unfold DAY_NS; lia).
  destruct (year_loop_spec (S (Z.to_nat N)) 1970 N N) as (y & _ & Hy & Hr); [ lia | change (days_before 1970) with 0; lia | lia | ].
  destruct (table_ok (IsLeapYear y)) as (Hp & Hl & Ht).
  destruct (month_exists (daysPerMonth (IsLeapYear y)) (N - days_before y)) as (j & len & d & Hj & Hd & E).
  { rewrite Ht. pose proof (days_before_succ y ltac:(lia)) as Hs. unfold year_length in Hs. destruct (IsLeapYear y); lia. }
  destruct (date_round_trip y j len d Hy Hj Hd) as (N' & EN & HrN & Ets & Eml). assert (N' = N) as -> by lia.
  exists (d + 1), (Z.of_nat j + 1), y. split_and!; [ | | | apply Ets; pose proof (Z.mul_div_le ns DAY_NS ltac:(done)); subst N; lia ].
  - apply (YMD_of_day N y (Z.of_nat j) d); try done. pose proof (Z.div_mod ns DAY_NS ltac:(unfold DAY_NS; lia)).
    pose proof (Z.mod_pos_bound ns DAY_NS ltac:(unfold DAY_NS; lia)). subst N. lia.
  - split; [ done | ]. exists len. replace (Z.of_nat j + 1 - 1) with (Z.of_nat j) by lia. rewrite vget_lookup. split; [ done | lia ].
  - pose proof (days_before_mono 2263 y) as Hmono. change (days_before 2263) with 107016 in Hmono.
    assert (N <= 106751) by (subst N; unfold DAY_NS; Z.to_euclidean_division_equations; lia). lia.
Qed.

(** For every non-negative timestamp [YMDFromTimestamp] ends, reads only inside its table
    of months and gives an existing date; [TimestampFromYMD] of that date is the beginning of
    the day of the timestamp. *)
Theorem date_of_timestamp_correct ns :
  0 <= ns < 2 ^ 63 ->
  exists day month year, YMDFromTimestamp ns = Some (day, month, year) /\ valid_date day month year
    /\ TimestampFromYMD day month year = Some (ns / DAY_NS * DAY_NS).
Proof. intros Hns. destruct (date_of_timestamp ns Hns) as (d & m & y & E & Hv & _ & Et). eauto 10. Qed.

(** Every date from 1970 to 2261 has a timestamp that fits [int64_t] and comes back from
    it. *)
Theorem date_round_trips day month year :
  valid_date day month year -> year <= 2261 ->
  exists ns, TimestampFromYMD day month year = Some ns /\ 0 <= ns < 2 ^ 63 /\ YMDFromTimestamp ns = Some (day, month, year).
Proof.
  intros [Hy (len & Hm & Hd)] Hmax. pose proof (vget_Some_range _ _ _ Hm) as Hr.
  replace (month - 1) with (Z.of_nat (Z.to_nat (month - 1))) in Hm by lia. rewrite vget_lookup in Hm.
  destruct (date_round_trip year _ len (day - 1) Hy Hm ltac:(lia)) as (N & EN & HrN & Ets & Eml).
  replace (Z.of_nat (Z.to_nat (month - 1)) + 1) with month in Ets by lia. replace (day - 1 + 1) with day in Ets by lia.
  pose proof (days_before_mono 1970 year ltac:(lia)) as Hmono. change (days_before 1970) with 0 in Hmono.
  pose proof (days_before_mono (year + 1) 2262 ltac:(lia)) as Hend. change (days_before 2262) with 106651 in Hend.
  assert (0 <= N * DAY_NS < 2 ^ 63) as Hfit by (unfold DAY_NS; lia).
  exists (N * DAY_NS). split_and!; [ apply Ets; lia | lia | lia | ].
  rewrite (YMD_of_day N year _ _ ltac:(lia) Hy HrN Eml) by (unfold DAY_NS; lia). do 3 f_equal; lia.
Qed.

(** ** Witnesses *)

Lemma date_of_timestamp_correct_witness :
  exists day month year, YMDFromTimestamp 1709210096000000000 = Some (day, month, year) /\ valid_date day month year
    /\ TimestampFromYMD day month year = Some (1709210096000000000 / DAY_NS * DAY_NS).
Proof. apply (date_of_timestamp_correct 1709210096000000000). lia. Defined.

(** The 29th of February 2024. *)
Lemma sample_date : YMDFromTimestamp 1709210096000000000 = Some (29, 2, 2024).
Proof. vm_compute. reflexivity. Qed.

Lemma date_round_trips_witness :
  exists ns, TimestampFromYMD 31 12 2100 = Some ns /\ 0 <= ns < 2 ^ 63 /\ YMDFromTimestamp ns = Some (31, 12, 2100).
Proof. apply (date_round_trips 31 12 2100); [ | lia ]. split; [ lia | ]. exists 31. split; [ reflexivity | lia ]. Defined.

End Time.
