(* ===== verification/TimeString.v ===== *)
(** * Timestamps as strings (src/Time.cpp)

    [TimestampToString] prints a date, a time of the day, up to nine digits of the second in
    groups of three, and the offset of the local time from UTC; [StringToTimestamp] reads it
    back. [DayTimeBegin] holds what the program learns at its start: the difference of its two
    clocks and the offset in hours, which is zero unless the build defines [tm_gmtoff].
    [None] is an overflow of [int] or [int64_t], a read outside of the string or a write
    outside of the buffers of [sprintf]. Strings hold no zero character. *)

From Stdlib Require Import Ascii String.
From S2P Require Import Prelude CString Time.

Module TimeString.
Import CString Time.

Record DayTimeBegin := mkBegin { nanosecondsSinceEpoch : Z; hoursOffset : Z }.

(** The constructor, given what the wall clock and the steady clock show. *)
Definition DayTimeBegin_init (date now : Z) : option DayTimeBegin :=
  assert* fits 64 (date - now) in Some (mkBegin (date - now) 0).

Definition hoursOffsetNanoseconds (g : DayTimeBegin) : Z := hoursOffset g * 3600 * 1000 * 1000 * 1000.

Definition TemporaryTimestampToTimestamp (g : DayTimeBegin) (tmpTimestamp : Z) : option Z :=
  assert* fits 64 (nanosecondsSinceEpoch g + tmpTimestamp) in Some (nanosecondsSinceEpoch g + tmpTimestamp).

Definition DeltaNsBetweenTimestamps (begin end_ : Z) : option Z :=
  assert* fits 64 (end_ - begin) in Some (end_ - begin).

Definition DeltaNsBetweenTimepoints (begin end_ : Z) : option Z :=
  assert* fits 64 (end_ - begin) in Some (end_ - begin).

Definition clamp_digits (subsecondDigits : Z) : Z :=
  let d := if 9 <? subsecondDigits then 9 else subsecondDigits in
  if d <? 0 then 0 else d.

(** [".%3.3li.%3.3li.%3.3li"], cut after the wanted digits and the dots in front of them. *)
Definition subseconds_string (ns subsecondDigits : Z) : option (list Z) :=
  let subsecondsLen := subsecondDigits + Z.quot (subsecondDigits + 2) 3 in
  let* s := sprintf 31 (chars "." ++ print_int 3 (Z.quot ns 1000000)
              ++ chars "." ++ print_int 3 (Z.rem (Z.quot ns 1000) 1000)
              ++ chars "." ++ print_int 3 (Z.rem ns 1000)) in
  Some (take (Z.to_nat subsecondsLen) s).

(** ["%4.4i-%2.2i-%2.2i+%2.2i:%2.2i:%2.2i"]. *)
Definition date_string (year month day h m s : Z) : list Z :=
  print_int 4 year ++ chars "-" ++ print_int 2 month ++ chars "-" ++ print_int 2 day
    ++ chars "+" ++ print_int 2 h ++ chars ":" ++ print_int 2 m ++ chars ":" ++ print_int 2 s.

Definition TimestampToString (g : DayTimeBegin) (timestamp subsecondDigits : Z) : option (list Z) :=
  let timestamp := timestamp - hoursOffsetNanoseconds g in
  assert* fits 64 timestamp in
  let seconds := Z.quot timestamp 1000000000 in
  let ns := timestamp - seconds * 1000000000 in
  let* subsecondsStr := subseconds_string ns (clamp_digits subsecondDigits) in
  let* (day, month, year) := YMDFromTimestamp timestamp in
  let h := Z.rem (Z.quot seconds 3600) 24 in
  let m := Z.rem (Z.quot seconds 60) 60 in
  let s := Z.rem seconds 60 in
  let* str := sprintf 48 (date_string year month day h m s) in
  let* tmp := sprintf 31 (chars "U" ++ print_signed (- hoursOffset g)) in
  Some (str ++ subsecondsStr ++ tmp).

Definition GetCurrentTimestampString (g : DayTimeBegin) (now subsecondDigits : Z) : option (list Z) :=
  let* t := TemporaryTimestampToTimestamp g now in TimestampToString g t subsecondDigits.

(** ["%d-%d-%d+%d:%d:%d"]. *)
Definition date_format : list directive :=
  [PercentD; Exactly 45; PercentD; Exactly 45; PercentD; Exactly 43; PercentD; Exactly 58; PercentD;
   Exactly 58; PercentD].

(** The part behind [U] gives the offset and is cut off. *)
Definition split_utc (subsecondsStr : list Z) : option (list Z * Z) :=
  match find subsecondsStr (chars "U") with
  | None => Some (subsecondsStr, 0)
  | Some utcPos =>
      let utcStr := drop (Z.to_nat utcPos) subsecondsStr in
      let vals := sscanf [Exactly 85; PercentD] utcStr in
      let utcOffset := nth 0 vals 0 in
      assert* forallb (fits 32) vals && fits 32 (- utcOffset) in
      Some (vresize subsecondsStr utcPos 0, - utcOffset)
  end.

(** The dots between the groups are erased, missing digits are zeros. *)
Definition read_subseconds (subsecondsStr : list Z) : option Z :=
  let* s := if 7 <? zlen subsecondsStr then erase subsecondsStr 7 1 else Some subsecondsStr in
  let* s := if 3 <? zlen s then erase s 3 1 else Some s in
  Some (atoi (vresize s 9 48)).

Definition StringToTimestamp (str : list Z) : option Z :=
  let vals := sscanf date_format str in
  assert* forallb (fits 32) vals in
  let years := nth 0 vals 0 in
  let months := nth 1 vals 0 in
  let days := nth 2 vals 0 in
  let hours := nth 3 vals 0 in
  let minutes := nth 4 vals 0 in
  let seconds := nth 5 vals 0 in
  assert* 20 <=? zlen str in
  let* (subsecondsStr, utcOffset) := split_utc (drop 20 str) in
  let* subseconds := read_subseconds subsecondsStr in
  let* date := TimestampFromYMD days months years in
  let daytime := (hours * 60 + minutes) * 60 + seconds in
  assert* fits 32 ((hours * 60 + minutes) * 60) && fits 32 daytime in
  let t := Z.quot date 1000000000 + daytime in
  assert* fits 64 (t * 1000000000) in
  let tpSeconds := t + utcOffset * 3600 in
  let ns := tpSeconds * 1000000000 + subseconds in
  assert* fits 64 (tpSeconds * 1000000000) && fits 64 ns in
  Some ns.

(** ** The date *)

Lemma valid_date_bounds day month year : valid_date day month year ->
  1970 <= year /\ 1 <= month <= 12 /\ 1 <= day <= 31.
Proof.
  intros [Hy (len & Hlen & Hday)]. pose proof (vget_Some_range _ _ _ Hlen) as Hr. change (zlen _) with 12 in Hr.
  assert (len <= 31); [ | lia ]. apply vget_elem in Hlen.
  destruct (IsLeapYear year); repeat (apply elem_of_cons in Hlen as [-> | Hlen]; [ lia | ]); by apply elem_of_nil in Hlen.
Qed.

Lemma sscanf_date y mo d h mi s rest :
  0 <= y < 10000 -> 0 <= mo < 100 -> 0 <= d < 100 -> 0 <= h < 100 -> 0 <= mi < 100 -> 0 <= s < 100 ->
  starts_with_digit rest = false ->
  sscanf date_format (date_string y mo d h mi s ++ rest) = [y; mo; d; h; mi; s]
  /\ length (date_string y mo d h mi s) = 19%nat.
Proof.
  intros Hy Hmo Hd Hh Hmi Hs Hr. unfold date_string.
  rewrite (print_int_digits 4 y), !print_int_digits by done. split; [ | by rewrite !length_app, !length_digits ].
  unfold date_format. rewrite <- !app_assoc. cbn [sscanf].
  repeat (rewrite scan_int_digits by (done || lia); cbn [chars map list_ascii_of_string app sscanf];
    match goal with |- context [if ?a =? ?b then _ else _] => change (a =? b) with true; cbn match | _ => idtac end).
  done.
Qed.

(** ** The subseconds *)

Lemma find_char l c r : c ∉ l -> find_nat (l ++ c :: r) [c] = Some (length l).
Proof.
  induction l as [|x l IH]; intros Hn; cbn [app find_nat].
  - unfold starts_with. cbn. by rewrite bool_decide_true.
  - apply not_elem_of_cons in Hn as [Hx Hl]. unfold starts_with. cbn [length take].
    rewrite bool_decide_false by congruence. by rewrite IH.
Qed.

Lemma split_utc_at l o tail : 85 ∉ l -> scan_int tail = Some (o, []) -> - 2 ^ 31 < o < 2 ^ 31 ->
  split_utc (l ++ 85 :: tail) = Some (l, - o).
Proof.
  intros Hl Ho Hb. unfold split_utc, find. change (chars "U") with [85]. rewrite find_char by done. cbn [fmap option_fmap option_map].
  rewrite Nat2Z.id, drop_app_length. cbn [sscanf]. change (85 =? 85) with true. cbn match. rewrite Ho. cbn [nth forallb].
  assert (fits 32 o = true /\ fits 32 (- o) = true) as [-> ->] by (unfold fits; split; cmp). cbn [andb].
  unfold vresize. rewrite Nat2Z.id, take_app_length.
  replace (Z.to_nat (Z.of_nat (length l) - zlen (l ++ 85 :: tail))) with O by (rewrite zlen_app; unfold zlen; simpl; lia).
  simpl. by rewrite app_nil_r.
Qed.

(** Three groups of three digits are nine digits. *)
Lemma groups_of_three sub : 0 <= sub < 1000000000 ->
  digits 3 (sub / 1000000) ++ digits 3 ((sub / 1000) mod 1000) ++ digits 3 (sub mod 1000) = digits 9 sub.
Proof.
  intros Hs. change (digits 9 sub) with (digits (6 + 3) sub). rewrite digits_add. change (digits 6 ?x) with (digits (3 + 3) x).
  rewrite digits_add, Z.div_div by lia. change (10 ^ Z.of_nat 3) with 1000. change (1000 * 1000) with 1000000.
  change 1000 with (10 ^ Z.of_nat 3) at 2 4. rewrite !digits_mod. by rewrite <- app_assoc.
Qed.

(** The text between the first dot and [U]. *)
Definition dotted (d : nat) (l : list Z) : list Z :=
  match l with
  | [c1; c2; c3; c4; c5; c6; c7; c8; c9] =>
      take (d + (d + 2) / 3 - 1)%nat [c1; c2; c3; 46; c4; c5; c6; 46; c7; c8; c9]
  | _ => []
  end.

Lemma read_dotted d l : (1 <= d <= 9)%nat -> length l = 9%nat ->
  read_subseconds (dotted d l) = Some (atoi (take d l ++ replicate (9 - d) 48)).
Proof.
  intros Hd Hl. do 9 (destruct l as [|? l]; [ discriminate Hl | ]). destruct l; [ | discriminate Hl ].
  do 10 (destruct d as [|d]; [ first [ lia | reflexivity ] | ]). lia.
Qed.

Lemma dotted_elem d l x : x ∈ dotted d l -> x ∈ l \/ x = 46.
Proof.
  unfold dotted. repeat case_match; try (by intros ?%elem_of_nil). intros (? & Hx & _)%elem_of_take.
  apply list_elem_of_lookup_2 in Hx. set_solver.
Qed.

(** Reading the first [d] of nine digits back. *)
Lemma atoi_truncated d sub : (1 <= d <= 9)%nat -> 0 <= sub < 1000000000 ->
  atoi (take d (digits 9 sub) ++ replicate (9 - d) 48)
  = sub / 10 ^ (9 - Z.of_nat d) * 10 ^ (9 - Z.of_nat d).
Proof.
  intros Hd Hs. replace 9%nat with (d + (9 - d))%nat at 1 by lia. rewrite digits_add, take_app_le, take_ge by (rewrite length_digits; lia).
  replace (Z.of_nat (9 - d)) with (9 - Z.of_nat d) by lia. set (q := sub / _).
  assert (0 < 10 ^ (9 - Z.of_nat d)) by (apply Z.pow_pos_nonneg; lia).
  assert (0 <= q) by (apply Z.div_pos; lia). pose proof (Z.mul_div_le sub (10 ^ (9 - Z.of_nat d)) ltac:(lia)) as Hle.
  rewrite digits_shift by done. replace (Z.of_nat (9 - d)) with (9 - Z.of_nat d) by lia.
  replace (d + (9 - d))%nat with 9%nat by lia. unfold atoi.
  rewrite <- (app_nil_r (digits 9 _)), (scan_int_digits 9); [ done | | lia | done ].
  change (10 ^ Z.of_nat 9) with 1000000000. fold q in Hle. nia.
Qed.

Lemma subseconds_string_dotted sub d : 0 <= sub < 1000000000 -> (d <= 9)%nat ->
  subseconds_string sub (Z.of_nat d) = Some (match d with O => [] | S _ => 46 :: dotted d (digits 9 sub) end).
Proof.
  intros Hs Hd. unfold subseconds_string, sprintf. rewrite !Z.quot_div_nonneg, !Z.rem_mod_nonneg by (lia || (apply Z.div_pos; lia)).
  assert (0 <= sub / 1000000 < 1000) by (Z.to_euclidean_division_equations; lia).
  rewrite !print_int_digits by first [ done | (apply (Z.mod_pos_bound _ 1000); lia) ].
  rewrite <- (groups_of_three sub Hs). change (chars ".") with [46].
  generalize (length_digits 3 (sub / 1000000)) (length_digits 3 ((sub / 1000) mod 1000)) (length_digits 3 (sub mod 1000)).
  destruct (digits 3 (sub / 1000000)) as [|? [|? [|? [|]]]]; try discriminate.
  destruct (digits 3 ((sub / 1000) mod 1000)) as [|? [|? [|? [|]]]]; try discriminate.
  destruct (digits 3 (sub mod 1000)) as [|? [|? [|? [|]]]]; try discriminate.
  intros _ _ _. do 10 (destruct d as [|d]; [ reflexivity | ]). lia.
Qed.

Lemma clamp_digits_range d : exists n : nat, clamp_digits d = Z.of_nat n /\ (n <= 9)%nat
  /\ (0 <= d <= 9 -> Z.of_nat n = d) /\ (1 <= d -> (1 <= n)%nat).
Proof.
  exists (Z.to_nat (clamp_digits d)). unfold clamp_digits.
  destruct (Z.ltb_spec 9 d), (Z.ltb_spec d 0); cbn; cmp; split_and!; lia.
Qed.

(** The text behind the date, from its 21st character on, is read as the kept digits and the
    offset. *)
Lemma read_tail g sub d : (1 <= d <= 9)%nat -> 0 <= sub < 1000000000 -> -2 ^ 20 < hoursOffset g < 2 ^ 20 ->
  split_utc (dotted d (digits 9 sub) ++ chars "U" ++ print_signed (- hoursOffset g))
    = Some (dotted d (digits 9 sub), hoursOffset g)
  /\ read_subseconds (dotted d (digits 9 sub)) = Some (sub / 10 ^ (9 - Z.of_nat d) * 10 ^ (9 - Z.of_nat d)).
Proof.
  intros Hd Hs Hh. split.
  - change (chars "U" ++ ?l) with (85 :: l). rewrite (split_utc_at _ (- hoursOffset g)).
    + by rewrite Z.opp_involutive.
    + intros [Hx | Hx]%dotted_elem; [ | done ]. pose proof (digits_Forall 9 sub) as Hf.
      rewrite Forall_forall in Hf. apply Hf in Hx. by destruct (digit_not_space _ Hx) as (_ & _ & _ & ?).
    + rewrite <- (app_nil_r (print_signed _)). apply scan_print_signed; [ lia | done ].
    + lia.
  - rewrite read_dotted by (lia || apply length_digits). by rewrite atoi_truncated.
Qed.

(** ** The whole string *)

(** The time of the day comes back from its hours, minutes and seconds. *)
Lemma daytime_seconds sec : 0 <= sec ->
  ((sec / 3600) mod 24 * 60 + (sec / 60) mod 60) * 60 + sec mod 60 = sec mod 86400
  /\ 0 <= (sec / 3600) mod 24 < 24 /\ 0 <= (sec / 60) mod 60 < 60 /\ 0 <= sec mod 60 < 60.
Proof. intros Hs. Z.to_euclidean_division_equations. lia. Qed.

(** Cutting digits off does not see whole seconds. *)
Lemma truncate_seconds K sub d : 0 <= d <= 9 ->
  (K * 1000000000 + sub) / 10 ^ (9 - d) * 10 ^ (9 - d) = K * 1000000000 + sub / 10 ^ (9 - d) * 10 ^ (9 - d).
Proof.
  intros Hd. replace 1000000000 with (10 ^ d * 10 ^ (9 - d)) by (rewrite <- Z.pow_add_r by lia; by replace (d + (9 - d)) with 9 by lia).
  rewrite Z.mul_assoc, Z.div_add_l by (apply Z.pow_nonzero; lia). lia.
Qed.

Lemma offset_text_fits h : - 2 ^ 20 < h < 2 ^ 20 -> zlen (chars "U" ++ print_signed (- h)) <= 9.
Proof.
  intros Hh. pose proof (ndigits_small 7 20 (Z.abs (- h))). unfold print_signed. rewrite !zlen_app.
  change (zlen (chars "U")) with 1. unfold zlen. rewrite length_digits. destruct (- h <? 0); simpl length; lia.
Qed.

(** What the parser computes from the fields of the date and from the rest of the text. *)
Lemma StringToTimestamp_parts str y mo da sec rest off sub L :
  sscanf date_format str = [y; mo; da; (sec / 3600) mod 24; (sec / 60) mod 60; sec mod 60] ->
  20 <= zlen str -> split_utc (drop 20 str) = Some (rest, off) -> read_subseconds rest = Some sub ->
  0 <= y < 10000 -> 0 <= mo < 100 -> 0 <= da < 100 -> 0 <= L < 2 ^ 63 -> sec = L / 1000000000 ->
  TimestampFromYMD da mo y = Some (L / DAY_NS * DAY_NS) ->
  0 <= sub < 1000000000 -> 0 <= (sec + off * 3600) * 1000000000 -> (sec + off * 3600) * 1000000000 + sub < 2 ^ 63 ->
  StringToTimestamp str = Some ((sec + off * 3600) * 1000000000 + sub).
Proof.
  intros Hscan Hlen Hutc Hsub Hy Hmo Hda HL Hsec Hymd Hsb H0 H63.
  assert (0 <= sec) as Hs0 by (subst sec; apply Z.div_pos; lia). destruct (daytime_seconds sec Hs0) as (Hday & Hh & Hmi & Hse).
  unfold StringToTimestamp. rewrite Hscan. cbn [forallb nth]. rewrite !fits_small by lia. cbn [andb].
  rewrite (proj2 (Z.leb_le 20 _)) by done. rewrite Hutc, Hsub, Hymd, Hday.
  assert (Z.quot (L / DAY_NS * DAY_NS) 1000000000 + sec mod 86400 = sec) as ->.
  { assert (0 <= L / DAY_NS) by (apply Z.div_pos; unfold DAY_NS; lia). rewrite Z.quot_div_nonneg by (unfold DAY_NS in *; lia).
    assert (L / DAY_NS = sec / 86400) as -> by (subst sec; rewrite Z.div_div; [ done | lia | lia ]).
    replace (sec / 86400 * DAY_NS) with (sec / 86400 * 86400 * 1000000000) by (unfold DAY_NS; lia).
    rewrite Z.div_mul by lia. pose proof (Z.div_mod sec 86400). lia. }
  assert (sec * 1000000000 <= L) by (subst sec; pose proof (Z.mul_div_le L 1000000000); lia).
  rewrite !fits_small by lia. done.
Qed.

(** The text behind the date. *)
Definition tail_text (g : DayTimeBegin) (sub : Z) (d : nat) : list Z :=
  (match d with O => [] | S _ => 46 :: dotted d (digits 9 sub) end) ++ chars "U" ++ print_signed (- hoursOffset g).

(** What is printed for a moment [L] of the local time: fields that read back, in 19 characters,
    then the tail. *)
Lemma TimestampToString_text g ns subsecondDigits (d : nat) :
  let L := ns - hoursOffsetNanoseconds g in
  let sec := L / 1000000000 in
  0 <= L < 2 ^ 63 -> -2 ^ 20 < hoursOffset g < 2 ^ 20 -> clamp_digits subsecondDigits = Z.of_nat d -> (d <= 9)%nat ->
  exists year month day date,
    TimestampToString g ns subsecondDigits = Some (date ++ tail_text g (L mod 1000000000) d) /\ length date = 19%nat
    /\ sscanf date_format (date ++ tail_text g (L mod 1000000000) d)
       = [year; month; day; (sec / 3600) mod 24; (sec / 60) mod 60; sec mod 60]
    /\ 0 <= year < 10000 /\ 0 <= month < 100 /\ 0 <= day < 100
    /\ TimestampFromYMD day month year = Some (L / DAY_NS * DAY_NS).
Proof.
  intros L sec HL Hh Ed Hd9. set (sub := L mod 1000000000).
  assert (0 <= sub < 1000000000) as Hsub by (apply Z.mod_pos_bound; lia).
  assert (L = sec * 1000000000 + sub) as EL by (subst sec sub; pose proof (Z.div_mod L 1000000000); lia).
  assert (0 <= sec) as Hs0 by (subst sec; apply Z.div_pos; lia). destruct (daytime_seconds sec Hs0) as (_ & Hhr & Hmi & Hse).
  destruct (date_of_timestamp L HL) as (day & month & year & Eymd & Hdate & Hy2 & Ets).
  destruct (valid_date_bounds _ _ _ Hdate) as (Hy1 & Hmonth & Hday).
  destruct (sscanf_date year month day ((sec / 3600) mod 24) ((sec / 60) mod 60) (sec mod 60) (tail_text g sub d)) as [Escan El];
    [ lia.. | by destruct d | ].
  exists year, month, day, (date_string year month day ((sec / 3600) mod 24) ((sec / 60) mod 60) (sec mod 60)).
  split_and!; try done; try lia.
  unfold TimestampToString. fold L. rewrite fits_small by done. rewrite Z.quot_div_nonneg by lia. fold sec.
  replace (L - sec * 1000000000) with sub by lia. rewrite Ed, subseconds_string_dotted, Eymd by done.
  rewrite !Z.quot_div_nonneg, !Z.rem_mod_nonneg by (lia || (apply Z.div_pos; lia)).
  unfold sprintf. unfold zlen at 1. rewrite El. change (Z.of_nat 19 <=? 48) with true. cbn match.
  rewrite (proj2 (Z.leb_le _ 31)); [ done | ]. pose proof (offset_text_fits (hoursOffset g) Hh). lia.
Qed.

(** The tail read back, also without digits when there is no offset. *)
Lemma read_tail_text g sub d date : length date = 19%nat -> (d <= 9)%nat -> 0 <= sub < 1000000000 ->
  -2 ^ 20 < hoursOffset g < 2 ^ 20 -> (1 <= d)%nat \/ hoursOffset g = 0 ->
  20 <= zlen (date ++ tail_text g sub d) /\
  exists rest, split_utc (drop 20 (date ++ tail_text g sub d)) = Some (rest, hoursOffset g)
    /\ read_subseconds rest = Some (sub / 10 ^ (9 - Z.of_nat d) * 10 ^ (9 - Z.of_nat d)).
Proof.
  intros El Hd9 Hsub Hh Hd. unfold tail_text. split.
  - rewrite !zlen_app. unfold zlen at 1. rewrite El. pose proof (zlen_nonneg (print_signed (- hoursOffset g))).
    change (zlen (chars "U")) with 1. pose proof (zlen_nonneg (match d with O => [] | S _ => 46 :: dotted d (digits 9 sub) end)). lia.
  - rewrite drop_app_ge, El by lia. destruct d as [|d].
    + assert (hoursOffset g = 0) as -> by lia. eexists. split; [ reflexivity | ].
      change (9 - Z.of_nat 0) with 9. rewrite Z.div_small by lia. reflexivity.
    + eexists. apply read_tail; (done || lia).
Qed.

(** C37: a timestamp from 1970 on (also in local time) printed with some number of digits is read back as the timestamp cut to
    that many digits of the second, whatever the offset of the local time; without digits
    only when the offset is zero. *)
Theorem timestamp_string_round_trip g ns subsecondDigits :
  0 <= ns < 2 ^ 63 -> 0 <= ns - hoursOffsetNanoseconds g < 2 ^ 63 -> -2 ^ 20 < hoursOffset g < 2 ^ 20 ->
  1 <= subsecondDigits \/ hoursOffset g = 0 ->
  let u := 10 ^ (9 - clamp_digits subsecondDigits) in
  exists str, TimestampToString g ns subsecondDigits = Some str /\ StringToTimestamp str = Some (ns / u * u).
Proof.
  intros Hns HL Hh Hd u. subst u. destruct (clamp_digits_range subsecondDigits) as (d & Ed & Hd9 & _ & Hd1).
  destruct (TimestampToString_text g ns subsecondDigits d HL Hh Ed Hd9) as (y & mo & da & date & Es & El & Escan & Hy & Hmo & Hda & Ets).
  set (L := ns - hoursOffsetNanoseconds g) in *. set (sec := L / 1000000000) in *. set (sub := L mod 1000000000) in *.
  assert (0 <= sub < 1000000000) as Hsub by (apply Z.mod_pos_bound; lia). eexists. split; [ exact Es | ].
  assert ((sec + hoursOffset g * 3600) * 1000000000 + sub = ns) as Ens
    by (pose proof (Z.div_mod L 1000000000); subst sec sub; unfold L, hoursOffsetNanoseconds in *; lia).
  assert (0 <= ns / 1000000000) by (apply Z.div_pos; lia).
  rewrite Ed, <- Ens, (truncate_seconds _ sub) by lia.
  destruct (read_tail_text g sub d date El Hd9 Hsub Hh ltac:(lia)) as (Hlen & rest & Erest & Esub).
  assert (0 < 10 ^ (9 - Z.of_nat d)) by (apply Z.pow_pos_nonneg; lia).
  pose proof (Z.mul_div_le sub (10 ^ (9 - Z.of_nat d)) ltac:(lia)). pose proof (Z.div_pos sub (10 ^ (9 - Z.of_nat d)) ltac:(lia) ltac:(lia)).
  apply (StringToTimestamp_parts _ y mo da sec rest _ _ L); (done || lia || nia).
Qed.

(** The last moment of 2024, five hours east of Greenwich, printed with five digits. *)
Lemma sample_string :
  TimestampToString (mkBegin 0 (-5)) 1735689599123456789 5
  = Some (chars "2025-01-01+04:59:59.123.45U+5").
Proof. vm_compute. reflexivity. Qed.

Lemma timestamp_string_round_trip_witness :
  exists str, TimestampToString (mkBegin 0 (-5)) 1735689599123456789 5 = Some str
    /\ StringToTimestamp str = Some (1735689599123456789 / 10 ^ (9 - clamp_digits 5) * 10 ^ (9 - clamp_digits 5)).
Proof.
  apply (timestamp_string_round_trip (mkBegin 0 (-5)) 1735689599123456789 5); unfold hoursOffsetNanoseconds; cbn [hoursOffset]; lia.
Defined.

(** Without digits the [U] stands where the parser begins to read behind it: the digits of a
    non-zero offset are taken for nanoseconds. *)
Lemma offset_without_digits_is_misread :
  TimestampToString (mkBegin 0 (-5)) 1735689599000000000 0 = Some (chars "2025-01-01+04:59:59U+5")
  /\ StringToTimestamp (chars "2025-01-01+04:59:59U+5") = Some 1735707599050000000.
Proof. split; vm_compute; reflexivity. Qed.

(** The program's clock: differences of timestamps are differences of the steady clock. *)
Theorem timestamps_keep_time g a b ta tb :
  TemporaryTimestampToTimestamp g a = Some ta -> TemporaryTimestampToTimestamp g b = Some tb ->
  DeltaNsBetweenTimestamps ta tb = DeltaNsBetweenTimepoints a b.
Proof.
  unfold TemporaryTimestampToTimestamp, DeltaNsBetweenTimestamps, DeltaNsBetweenTimepoints. intros Ha Hb.
  inv_bind Ha. inv_bind Hb. simplify_eq. by replace (nanosecondsSinceEpoch g + b - (nanosecondsSinceEpoch g + a)) with (b - a) by lia.
Qed.

End TimeString.
