(* ===== verification/MapPeerHandle.v ===== *)
(** * The map from peer handles (include/icon7/MapPeerHandle.hpp)

    [MapPeerHandleInLoop] keeps values in a dense vector, next to the ids they belong to, and
    a table from ids to positions. Its lookups return a null pointer when the table is large
    enough for the id instead of when it is too small, so that nothing that was stored is ever
    found. The functions that return a reference have no return statement on the path that
    stores a new value: their result is the state the statements leave, and no reference.
    [None] is a false assertion or an access outside of a vector. *)

From S2P Require Import Prelude PeersToFlush PeerManager.

Module MapPeerHandle.
Import PeerManager.

Section Map.
Context {T : Type} (default : T).

Record MapPeerHandleInLoop := mkMPH {
  entityDataOffsets : list Z;
  denseDataEntityIds : list PeerId;
  denseData : list T;
  map_loop : Z
}.

Definition MapPeerHandleInLoop_init (l : Z) : MapPeerHandleInLoop := mkMPH [] [] [] l.

(** The two assertions every operation begins with. *)
Definition guard_ok (m : MapPeerHandleInLoop) (handle : PeerHandle) : bool :=
  (loop handle =? map_loop m) && (zlen (denseData m) =? zlen (denseDataEntityIds m)).

(** The position a lookup comes to, minus what it is shifted by. *)
Definition lookup_offset (m : MapPeerHandleInLoop) (handle : PeerHandle) : option (option Z) :=
  assert* guard_ok m handle in
  if id (hid handle) <=? zlen (entityDataOffsets m) then Some None
  else
    let* offset := vget (entityDataOffsets m) (id (hid handle)) in
    if offset =? 0 then Some None
    else
      assert* offset <? zlen (denseDataEntityIds m) in
      let* i := vget (denseDataEntityIds m) (u32 (offset - 1)) in
      if bool_decide (i <> hid handle) then Some None else Some (Some offset).

(** A pointer is a position in [denseData]; [Some None] is the null pointer. *)
Definition Get (m : MapPeerHandleInLoop) (handle : PeerHandle) : option (option Z) :=
  let* offset := lookup_offset m handle in Some (option_map (fun o => u32 (o - 1)) offset).

Definition Get_const (m : MapPeerHandleInLoop) (handle : PeerHandle) : option (option Z) :=
  lookup_offset m handle.

(** Storing a value for an id the lookup did not find. *)
Definition store_new (m : MapPeerHandleInLoop) (handle : PeerHandle) (value : T) : option MapPeerHandleInLoop :=
  let table := if zlen (entityDataOffsets m) <=? id (hid handle)
               then vresize (entityDataOffsets m) (u32 (id (hid handle) + 1)) 0 else entityDataOffsets m in
  let offset := zlen (denseData m) in
  let* table := vset table (id (hid handle)) (u32 offset) in
  Some (mkMPH table (denseDataEntityIds m ++ [hid handle]) (denseData m ++ [value]) (map_loop m)).

(** Both overloads of [Set]. *)
Definition Set_ (m : MapPeerHandleInLoop) (handle : PeerHandle) (value : T)
  : option (MapPeerHandleInLoop * option Z) :=
  assert* guard_ok m handle in
  let* ptr := Get m handle in
  match ptr with
  | Some p => Some (m, Some p)
  | None => let* m := store_new m handle value in Some (m, None)
  end.

(** [Access] and [operator[]]. *)
Definition Access (m : MapPeerHandleInLoop) (handle : PeerHandle) : option (MapPeerHandleInLoop * option Z) :=
  Set_ m handle default.

Definition Remove (m : MapPeerHandleInLoop) (handle : PeerHandle) : option MapPeerHandleInLoop :=
  assert* guard_ok m handle in
  if id (hid handle) <=? zlen (entityDataOffsets m) then Some m
  else
    let* offset := vget (entityDataOffsets m) (id (hid handle)) in
    if offset =? 0 then Some m
    else
      assert* offset <? zlen (denseDataEntityIds m) in
      let* i := vget (denseDataEntityIds m) (u32 (offset - 1)) in
      if bool_decide (i <> hid handle) then Some m
      else
        let last := zlen (denseData m) - 1 in
        let* (ids, values, k) :=
          if negb (last =? offset) then
            let* v := vget (denseData m) (u32 (last - 1)) in
            let* values := vset (denseData m) (u32 (offset - 1)) v in
            let* j := vget (denseDataEntityIds m) (u32 (last - 1)) in
            let* ids := vset (denseDataEntityIds m) (u32 (offset - 1)) j in
            Some (ids, values, id j)
          else Some (denseDataEntityIds m, denseData m, id (hid handle)) in
        let* table := vset (entityDataOffsets m) k offset in
        Some (mkMPH table (take (length ids - 1) ids) (take (length values - 1) values) (map_loop m)).

Definition Size (m : MapPeerHandleInLoop) : Z := zlen (denseData m).

(** ** Programs *)

Inductive map_op := MSet (h : PeerHandle) (v : T) | MAccess (h : PeerHandle) | MRemove (h : PeerHandle).

Definition map_step (m : MapPeerHandleInLoop) (o : map_op) : option (MapPeerHandleInLoop * option Z) :=
  match o with
  | MSet h v => Set_ m h v
  | MAccess h => Access m h
  | MRemove h => let* m := Remove m h in Some (m, None)
  end.

Fixpoint map_run (m : MapPeerHandleInLoop) (os : list map_op) : option (MapPeerHandleInLoop * list (option Z)) :=
  match os with
  | [] => Some (m, [])
  | o :: os =>
      let* (m, r) := map_step m o in
      let* (m, rs) := map_run m os in
      Some (m, r :: rs)
  end.

(** The value an operation appends. *)
Definition stored (o : map_op) : list T :=
  match o with MSet _ v => [v] | MAccess _ => [default] | MRemove _ => [] end.

(** No lookup finds anything: the table is too large for the test, or too small to be read. *)
Lemma lookup_offset_nothing m h r : lookup_offset m h = Some r -> r = None.
Proof.
  unfold lookup_offset. intros H. inv_bind H. destruct (Z.leb_spec (id (hid h)) (zlen (entityDataOffsets m))); [ by simplify_eq | ].
  inv_bind H. apply vget_Some_range in E. lia.
Qed.

Lemma Get_nothing m h r : Get m h = Some r -> r = None.
Proof. unfold Get. intros H. inv_bind H. apply lookup_offset_nothing in E as ->. by simplify_eq. Qed.

Lemma Remove_nothing m h m' : Remove m h = Some m' -> m' = m.
Proof.
  unfold Remove. intros H. inv_bind H. destruct (Z.leb_spec (id (hid h)) (zlen (entityDataOffsets m))); [ by simplify_eq | ].
  inv_bind H. apply vget_Some_range in E. lia.
Qed.

Lemma map_step_spec m o m' r : map_step m o = Some (m', r) -> r = None /\ denseData m' = denseData m ++ stored o.
Proof.
  assert (forall h v, Set_ m h v = Some (m', r) -> r = None /\ denseData m' = denseData m ++ [v]) as Hset.
  { unfold Set_. intros h v H. inv_bind H. apply Get_nothing in E as ->. inv_bind H. simplify_eq.
    unfold store_new in E. inv_bind E. by simplify_eq. }
  destruct o as [h v | h | h]; cbn; [ apply Hset.. | ]. intros H. inv_bind H. apply Remove_nothing in E as ->.
  simplify_eq. by rewrite app_nil_r.
Qed.

(** Whatever values were stored in and removed from a map, no operation returns a
    reference to one of them and no lookup finds any; nothing is ever removed: the map holds
    every value that was stored, repeated keys repeated. *)
Theorem map_from_peer_handles_never_finds l os m rs :
  map_run (MapPeerHandleInLoop_init l) os = Some (m, rs) ->
  Forall (eq None) rs /\ denseData m = concat (stored <$> os)
  /\ forall h, match Get m h with Some r => r = None | None => True end
            /\ match Get_const m h with Some r => r = None | None => True end.
Proof.
  assert (forall m0, map_run m0 os = Some (m, rs) -> Forall (eq None) rs /\ denseData m = denseData m0 ++ concat (stored <$> os)) as Hrun.
  { revert m rs. induction os as [|o os IH]; intros m rs m0 H; cbn [map_run] in H; [ simplify_eq; by rewrite app_nil_r | ].
    destruct (map_step m0 o) as [[m1 r]|] eqn:E; [ | done ]. inv_bind H. destruct p as [m2 rs']. simplify_eq.
    apply map_step_spec in E as [-> E]. destruct (IH _ _ _ E0) as [Hf Hd]. split; [ by constructor | ].
    rewrite Hd, E. cbn. by rewrite app_assoc. }
  intros H. apply Hrun in H as [Hf Hd]. split_and!; [ done | done | ]. intros h. split.
  - destruct (Get m h) as [r|] eqn:E; [ by apply Get_nothing in E | done ].
  - unfold Get_const. destruct (lookup_offset m h) as [r|] eqn:E; [ by apply lookup_offset_nothing in E | done ].
Qed.

End Map.

(** Two values stored for the peer with id 0 of loop 7, and an access of the peer with id 1. *)
Lemma map_from_peer_handles_never_finds_witness :
  exists m, map_run 0 (MapPeerHandleInLoop_init 7)
      [MSet (mkHandle (mkId 0 1) 7) 10; MSet (mkHandle (mkId 0 1) 7) 20; MAccess (mkHandle (mkId 1 1) 7)]
    = Some (m, [None; None; None]) /\ denseData m = [10; 20; 0] /\ Get m (mkHandle (mkId 0 1) 7) = Some None.
Proof.
  eexists. split; [ vm_compute; reflexivity | ].
  match goal with |- denseData ?m = _ /\ _ =>
    destruct (map_from_peer_handles_never_finds 0 7
      [MSet (mkHandle (mkId 0 1) 7) 10; MSet (mkHandle (mkId 0 1) 7) 20; MAccess (mkHandle (mkId 1 1) 7)] m
      [None; None; None] eq_refl) as (_ & Hd & _) end.
  split; [ exact Hd | reflexivity ].
Defined.

End MapPeerHandle.
