(* ===== verification/LogPath.v ===== *)
(** * File paths in the log (src/Debug.cpp, CorrectFilePath)

    A build option chooses between the name of the file alone and the path from which a common
    beginning, repeated separators and [.] and [..] components are taken out. The rewriting
    loops get a fuel above the number of characters, each round but the last shortens the path
    or replaces one backslash. *)

From Stdlib Require Import Ascii String.
From S2P Require Import Prelude CString.

Module LogPath.
Import CString.

Definition SLASH : Z := 47.
Definition BACKSLASH : Z := 92.

(** With [ICON7_LOG_USE_FILENAME_WITHOUT_PATH]. *)
Definition CorrectFilePath_name (path : list Z) : list Z :=
  let it := default 0 (rfind path [BACKSLASH] (zlen path)) in
  let it2 := default 0 (rfind path [SLASH] (zlen path)) in
  let it := if it <? it2 then it2 else it in
  if negb (it =? 0) then drop (Z.to_nat (it + 1)) path else path.

(** [while (true)]: every occurrence of [p] is replaced by a slash, the first one first. *)
Fixpoint replace_loop (fuel : nat) (p path : list Z) : option (list Z) :=
  match fuel with
  | O => None
  | S fuel =>
      match find path p with
      | None => Some path
      | Some pos => let* path := replace path pos (zlen p) [SLASH] in replace_loop fuel p path
      end
  end.

(** One round of the loop that takes [./] out. *)
Definition remove_dot (path : list Z) : option (list Z) :=
  match find path (chars "./") with
  | None => Some path
  | Some pos =>
      let* after_slash := if 0 <? pos then let* c := vget path (pos - 1) in Some (c =? SLASH) else Some false in
      if after_slash || (pos =? 0) then replace path pos 2 [] else Some path
  end.

(** One round of the loop that takes a component and the [..] behind it out. *)
Definition remove_dotdot (path : list Z) : option (list Z) :=
  match find path (chars "/../") with
  | None => Some path
  | Some pos =>
      if 0 <? pos then
        let pos2 := default 0 (rfind path [SLASH] (pos - 1)) in
        replace path pos2 (pos + 3 - pos2) []
      else Some path
  end.

(** [while (oldSize != path.size())]. *)
Fixpoint until_same_size (fuel : nat) (round : list Z -> option (list Z)) (path : list Z) : option (list Z) :=
  match fuel with
  | O => None
  | S fuel =>
      let* path' := round path in
      if zlen path =? zlen path' then Some path' else until_same_size fuel round path'
  end.

(** Without it; [IGNORE_COMMON_PATH] is the directory of the project. *)
Definition CorrectFilePath (IGNORE_COMMON_PATH path : list Z) : option (list Z) :=
  let pos := find path IGNORE_COMMON_PATH in
  let at_begin := bool_decide (pos = Some 0) in
  let* path := if at_begin then replace path 0 (zlen IGNORE_COMMON_PATH) [] else Some path in
  let* path := replace_loop (S (length path)) [BACKSLASH] path in
  let* path := replace_loop (S (length path)) (chars "//") path in
  let* path := until_same_size (S (length path)) remove_dot path in
  let* path := until_same_size (S (length path)) remove_dotdot path in
  if at_begin && (0 <? zlen path) then
    let* c := vget path 0 in
    if (c =? SLASH) || (c =? BACKSLASH) then erase path 0 1 else Some path
  else Some path.

(** ** Clean paths: one separator at a time, and no backslash *)

Fixpoint double_slash (s : list Z) : bool :=
  match s with
  | a :: (b :: _) as t => (a =? SLASH) && (b =? SLASH) || double_slash t
  | _ => false
  end.

Definition clean (s : list Z) : Prop := BACKSLASH ∉ s /\ double_slash s = false.

Lemma double_slash_join a c b : double_slash (a ++ c :: b) = double_slash (a ++ [c]) || double_slash (c :: b).
Proof.
  induction a as [|x a IH]; [ by destruct b | ]. destruct a as [|y a].
  - cbn. destruct b; by rewrite ?orb_false_r.
  - change ((x :: y :: a) ++ ?l) with (x :: y :: (a ++ l)). change ((y :: a) ++ ?l) with (y :: (a ++ l)) in IH.
    change (double_slash (x :: y :: ?l)) with ((x =? SLASH) && (y =? SLASH) || double_slash (y :: l)).
    by rewrite IH, orb_assoc.
Qed.

Lemma double_slash_find s : find s (chars "//") = None -> double_slash s = false.
Proof.
  rewrite find_None. intros H. induction s as [|a [|b s] IH]; [ done | done | ].
  change (double_slash (a :: b :: s)) with ((a =? SLASH) && (b =? SLASH) || double_slash (b :: s)).
  rewrite IH by (intros x y E; apply (H (a :: x) y); by rewrite E). unfold SLASH.
  destruct (Z.eqb_spec a 47) as [-> | _], (Z.eqb_spec b 47) as [-> | _]; try done. by destruct (H [] s).
Qed.

(** What a clean path is made of is clean, and pieces that share their border join. *)
Lemma clean_app_l a b : clean (a ++ b) -> clean a.
Proof.
  intros [Hb Hd]. split; [ set_solver | ]. destruct a as [|x a _] using rev_ind; [ done | ].
  rewrite <- app_assoc in Hd. cbn [app] in Hd. rewrite double_slash_join in Hd. by apply orb_false_iff in Hd as [? _].
Qed.

Lemma clean_app_r a b : clean (a ++ b) -> clean b.
Proof.
  intros [Hb Hd]. split; [ set_solver | ]. destruct b as [|x b]; [ done | ]. rewrite double_slash_join in Hd.
  by apply orb_false_iff in Hd as [_ ?].
Qed.

Lemma clean_join a c b : clean (a ++ [c]) -> clean (c :: b) -> clean (a ++ c :: b).
Proof. intros [Ha Hda] [Hb Hdb]. split; [ set_solver | ]. by rewrite double_slash_join, Hda, Hdb. Qed.

(** ** The loops *)

Definition count (c : Z) (s : list Z) : nat := length (filter (eq c) s).

Lemma backslash_loop fuel s : (count BACKSLASH s < fuel)%nat ->
  exists r, replace_loop fuel [BACKSLASH] s = Some r /\ BACKSLASH ∉ r.
Proof.
  revert s. induction fuel as [|fuel IH]; intros s Hf; [ lia | ]. cbn [replace_loop].
  destruct (find s [BACKSLASH]) as [n|] eqn:E.
  - apply find_Some in E as (x & y & -> & <-). rewrite replace_found by done. apply IH.
    unfold count in *. rewrite !filter_app, !length_app in *. simpl in *. lia.
  - exists s. split; [ done | ]. unfold find in E. rewrite fmap_None in E. by apply find_nat_char_None.
Qed.

Lemma slash_loop fuel s : (length s < fuel)%nat -> BACKSLASH ∉ s ->
  exists r, replace_loop fuel (chars "//") s = Some r /\ clean r.
Proof.
  revert s. induction fuel as [|fuel IH]; intros s Hf Hb; [ lia | ]. cbn [replace_loop].
  destruct (find s (chars "//")) as [n|] eqn:E.
  - apply find_Some in E as (x & y & -> & <-). rewrite replace_found by done. apply IH.
    + rewrite !length_app in *. simpl in *. lia.
    + change (chars "//") with [SLASH; SLASH] in Hb. unfold SLASH, BACKSLASH in *. set_solver.
  - exists s. split; [ done | ]. split; [ done | by apply double_slash_find ].
Qed.

(** A loop whose rounds keep the path clean and do not make it longer ends. *)
Lemma until_same_size_clean fuel round s : (length s < fuel)%nat ->
  (forall s, clean s -> exists r, round s = Some r /\ clean r /\ (length r <= length s)%nat) -> clean s ->
  exists r, until_same_size fuel round s = Some r /\ clean r.
Proof.
  intros Hf Hround. revert s Hf. induction fuel as [|fuel IH]; intros s Hf Hs; [ lia | ]. cbn [until_same_size].
  destruct (Hround s Hs) as (r & -> & Hr & Hl). destruct (Z.eqb_spec (zlen s) (zlen r)) as [E | E]; [ eauto | ].
  apply IH; [ unfold zlen in E; lia | done ].
Qed.

Lemma remove_dot_clean s : clean s -> exists r, remove_dot s = Some r /\ clean r /\ (length r <= length s)%nat.
Proof.
  intros Hs. unfold remove_dot. destruct (find s (chars "./")) as [n|] eqn:E; [ | eauto ].
  apply find_Some in E as (x & y & -> & <-). change (chars "./") with [46; SLASH] in *.
  assert ((length (x ++ [] ++ y) <= length (x ++ [46%Z; SLASH] ++ y))%nat) as Hl by (rewrite !length_app; simpl; lia).
  destruct x as [|c x _] using rev_ind.
  - change (zlen (@nil Z)) with 0. cbn. rewrite (replace_found [] [46; SLASH] y []) by done. eexists.
    split_and!; [ done | | done ]. by apply (clean_app_r [46; SLASH] y).
  - assert (vget ((x ++ [c]) ++ [46; SLASH] ++ y) (zlen (x ++ [c]) - 1) = Some c) as ->.
    { rewrite zlen_app. change (zlen [c]) with 1. replace (zlen x + 1 - 1) with (zlen x) by lia. unfold zlen. rewrite vget_lookup.
      rewrite <- app_assoc. by apply list_lookup_middle. }
    pose proof (zlen_nonneg x). rewrite (proj2 (Z.ltb_lt 0 _)) by (rewrite zlen_app; change (zlen [c]) with 1; lia).
    rewrite (proj2 (Z.eqb_neq _ 0)), orb_false_r by (rewrite zlen_app; change (zlen [c]) with 1; lia).
    destruct (Z.eqb_spec c SLASH) as [-> | _]; [ | eauto ]. rewrite replace_found by done. eexists. split_and!; [ done | | done ].
    rewrite <- app_assoc. apply clean_join; [ by apply clean_app_l in Hs | ]. by apply (clean_app_r ((x ++ [SLASH]) ++ [46])); rewrite <- app_assoc.
Qed.

Lemma remove_dotdot_clean s : clean s -> exists r, remove_dotdot s = Some r /\ clean r /\ (length r <= length s)%nat.
Proof.
  intros Hs. unfold remove_dotdot. destruct (find s (chars "/../")) as [n|] eqn:E; [ | eauto ].
  apply find_Some in E as (x & y & -> & <-). change (chars "/../") with [SLASH; 46; 46; SLASH] in *.
  destruct (Z.ltb_spec 0 (zlen x)) as [Hx | _]; [ | eauto ].
  assert (clean (SLASH :: y)) as Hy.
  { apply (clean_app_r (x ++ [SLASH; 46; 46])). by rewrite <- app_assoc. }
  assert (0 <= zlen x - 1 <= zlen (x ++ [SLASH; 46; 46; SLASH] ++ y)) as Hrange
    by (rewrite zlen_app; pose proof (zlen_nonneg ([SLASH; 46; 46; SLASH] ++ y)); lia).
  destruct (rfind _ [SLASH] (zlen x - 1)) as [p|] eqn:Er; cbn [default].
  - apply rfind_Some in Er as (a & b & Hs' & <- & Ha & _); [ | done ].
    assert (exists b', x = a ++ [SLASH] ++ b') as [b' ->].
    { apply (f_equal (take (length x))) in Hs'. rewrite take_app_length in Hs'. unfold zlen in Ha.
      rewrite take_app_ge in Hs' by lia. exists (take (length x - length a - 1) b). rewrite Hs' at 1. do 2 f_equal.
      destruct (length x - length a)%nat eqn:El; [ lia | ]. cbn. by rewrite Nat.sub_0_r. }
    rewrite <- !app_assoc. replace ([SLASH; 46; 46; SLASH] ++ y) with ([SLASH; 46; 46] ++ SLASH :: y) by done.
    rewrite (app_assoc b'), (app_assoc [SLASH]). rewrite replace_found by (rewrite !zlen_app; unfold zlen; simpl; lia).
    eexists. split_and!; [ done | | rewrite !length_app; simpl; lia ]. cbn [app].
    apply clean_join; [ | done ]. apply (clean_app_l _ (b' ++ [SLASH; 46; 46; SLASH] ++ y)). by rewrite <- !app_assoc in *.
  - replace (x ++ [SLASH; 46; 46; SLASH] ++ y) with ([] ++ (x ++ [SLASH; 46; 46]) ++ SLASH :: y) by (simpl; by rewrite <- app_assoc).
    change 0 with (zlen (@nil Z)) at 1. rewrite replace_found by (rewrite zlen_app; unfold zlen; simpl; lia).
    eexists. split_and!; [ done | done | rewrite !length_app; simpl; lia ].
Qed.

Lemma CorrectFilePath_clean common path :
  exists r, CorrectFilePath common path = Some r /\ clean r.
Proof.
  unfold CorrectFilePath. set (b := bool_decide _).
  assert (exists p0, (if b then replace path 0 (zlen common) [] else Some path) = Some p0) as [p0 ->].
  { destruct b; [ | eauto ]. unfold replace. rewrite (proj2 (Z.leb_le 0 (zlen path))) by apply zlen_nonneg. eauto. }
  destruct (backslash_loop (S (length p0)) p0) as (p1 & -> & Hp1); [ unfold count; pose proof (length_filter (eq BACKSLASH) p0); lia | ].
  destruct (slash_loop (S (length p1)) p1) as (p2 & -> & Hp2); [ lia | done | ].
  destruct (until_same_size_clean (S (length p2)) _ p2 ltac:(lia) remove_dot_clean Hp2) as (p3 & -> & Hp3).
  destruct (until_same_size_clean (S (length p3)) _ p3 ltac:(lia) remove_dotdot_clean Hp3) as (p4 & -> & Hp4).
  destruct p4 as [|c p4]; [ rewrite andb_false_r; eauto | ].
  destruct (b && _); [ | eauto ]. cbn [vget]. change (vget (c :: p4) 0) with (Some c). cbn match. destruct (_ || _); [ | eauto ].
  eexists. split; [ by apply (replace_found [] [c] p4 []) | ]. by apply (clean_app_r [c] p4).
Qed.

(** Whatever path the compiler wrote and whatever the common beginning is, the four
    rewriting loops end and every position they use is inside of the path; the result has no
    backslash and no two separators behind each other. *)
Theorem corrected_path_is_clean common path :
  exists r, CorrectFilePath common path = Some r /\ clean r.
Proof. apply CorrectFilePath_clean. Qed.

(** Behind the last separator, or the first character when there is none. *)
Lemma last_separator c path n : n = default 0 (rfind path [c] (zlen path)) ->
  0 <= n <= zlen path /\ forall i, n < i -> vget path i <> Some c.
Proof.
  intros ->. pose proof (zlen_nonneg path) as Hl.
  assert (forall i, vget path i = Some c -> exists x y, path = x ++ [c] ++ y /\ zlen x = i) as Hocc.
  { intros i Hi. pose proof (vget_Some_range _ _ _ Hi) as Hr. replace i with (Z.of_nat (Z.to_nat i)) in Hi by lia. rewrite vget_lookup in Hi.
    exists (take (Z.to_nat i) path), (drop (S (Z.to_nat i)) path). split; [ symmetry; by apply take_drop_middle | rewrite zlen_take; lia ]. }
  assert (forall x y, path = x ++ [c] ++ y -> zlen x <= zlen path) as Hpre
    by (intros x y E; rewrite E, zlen_app; pose proof (zlen_nonneg ([c] ++ y)); lia).
  destruct (rfind path [c] (zlen path)) as [n|] eqn:E; cbn [from_option id].
  - apply rfind_Some in E as (x & y & Hs & <- & Hle & Hlast); [ | lia ]. pose proof (zlen_nonneg x). split; [ lia | ].
    intros i Hi (x' & y' & Hs' & <-)%Hocc. specialize (Hlast x' y' Hs' (Hpre x' y' Hs')). lia.
  - split; [ lia | ]. intros i Hi (x' & y' & Hs' & <-)%Hocc. pose proof (rfind_None path [c] (zlen path) ltac:(lia) E x' y' Hs') as H.
    specialize (Hpre x' y' Hs'). lia.
Qed.

(** The short form is the end of the path, and no separator is in it but possibly its first
    character. *)
Theorem file_name_is_the_last_component path :
  exists dir, path = dir ++ CorrectFilePath_name path
    /\ forall i, 0 < i -> vget (CorrectFilePath_name path) i <> Some SLASH /\ vget (CorrectFilePath_name path) i <> Some BACKSLASH.
Proof.
  unfold CorrectFilePath_name. destruct (last_separator BACKSLASH path _ eq_refl) as [Hb Hb']. destruct (last_separator SLASH path _ eq_refl) as [Hs Hs'].
  set (a := default 0 (rfind path [BACKSLASH] _)) in *. set (b := default 0 (rfind path [SLASH] _)) in *.
  set (m := if a <? b then b else a). assert (a <= m /\ b <= m) as [Ha Hm] by (subst m; cmp).
  destruct (Z.eqb_spec m 0) as [E | E]; cbn [negb].
  - exists []. split; [ done | ]. intros i Hi. split; [ apply Hs' | apply Hb' ]; lia.
  - exists (take (Z.to_nat (m + 1)) path). split; [ by rewrite take_drop | ]. intros i Hi.
    assert (forall c, vget (drop (Z.to_nat (m + 1)) path) i = Some c -> vget path (m + 1 + i) = Some c) as Hshift.
    { intros c. unfold vget. rewrite lookup_drop, (proj2 (Z.ltb_ge i 0)), (proj2 (Z.ltb_ge (m + 1 + i) 0)) by lia.
      by replace (Z.to_nat (m + 1) + Z.to_nat i)%nat with (Z.to_nat (m + 1 + i)) by lia. }
    split; intros H%Hshift; [ by apply Hs' in H; [ | lia ] | by apply Hb' in H; [ | lia ] ].
Qed.

(** Paths of the library and of a program that includes it. *)
Lemma sample_paths :
  CorrectFilePath (chars "/home/user/icon7") (chars "/home/user/icon7//./src/peer/../Loop.cpp") = Some (chars "src/Loop.cpp")
  /\ CorrectFilePath [] (chars "C:\icon7\src\..\include") = Some (chars "C:/icon7/include").
Proof. split; vm_compute; reflexivity. Qed.

(** The loop that takes [./] out stops at the end of the first [..]. *)
Lemma dot_behind_dotdot_stays : CorrectFilePath [] (chars "a/../src/./b") = Some (chars "src/./b").
Proof. vm_compute. reflexivity. Qed.

(** A [..] is taken for an ordinary component: two of them cancel each other. *)
Lemma leading_dotdots_cancel : CorrectFilePath [] (chars "../../b") = Some (chars "b").
Proof. vm_compute. reflexivity. Qed.

End LogPath.
