(* ===== verification/LogName.v ===== *)
(** * Function names in the log (src/Debug.cpp, GetPrettyFunctionName)

    The compiler's [__PRETTY_FUNCTION__] is shortened: template arguments in square brackets,
    the words [static], [virtual] and [const] and the parameters go, and [()] ends the name.
    Results are kept in a map that all threads share under a lock. The loops over brackets
    restart behind the first character after every change; their fuel is the number of rounds
    that a string of that length allows, and the theorems prove that they end. *)

From Stdlib Require Import Ascii String.
From S2P Require Import Prelude CString.

Module LogName.
Import CString.

(** The inner loop: the position of the closing bracket, when no other one opens before it;
    [s] is the string from position [j] on. *)
Fixpoint close_pos (o c : Z) (s : list Z) (j : Z) : option Z :=
  match s with
  | [] => None
  | x :: s => if x =? o then None else if x =? c then Some j else close_pos o c s (j + 1)
  end.

(** The loop over the brackets [o] and [c], whose contents and themselves become [r]. A pair
    that already is as long as [r] (the empty parentheses) stays. After a change [i] is set to
    0 and incremented. *)
Fixpoint bracket_loop (fuel : nat) (o c : Z) (r s : list Z) (i : Z) : option (list Z) :=
  match fuel with
  | O => None
  | S fuel =>
      if i <? zlen s then
        let* x := vget s i in
        if x =? o then
          match close_pos o c (drop (Z.to_nat (i + 1)) s) (i + 1) with
          | Some j =>
              if j - i + 1 =? zlen r then bracket_loop fuel o c r s (i + 1)
              else let* s := replace s i (j - i + 1) r in bracket_loop fuel o c r s 1
          | None => bracket_loop fuel o c r s (i + 1)
          end
        else bracket_loop fuel o c r s (i + 1)
      else Some s
  end.

Definition bracket_fuel (s : list Z) : nat := S (length s * (length s + 3)).

(** The keyword to erase next: its position and its length. *)
Definition find_keyword (s : list Z) : option (Z * Z) :=
  match find s (chars "static") with
  | Some p => Some (p, 6)
  | None =>
      match find s (chars "virtual") with
      | Some p => Some (p, 7)
      | None => match find s (chars "const") with Some p => Some (p, 5) | None => None end
      end
  end.

(** A space at position [p] is erased. *)
Definition erase_space (s : list Z) (p : Z) : option (list Z) :=
  let* x := vget s p in if x =? 32 then erase s p 1 else Some s.

Fixpoint keyword_loop (fuel : nat) (s : list Z) : option (list Z) :=
  match fuel with
  | O => None
  | S fuel =>
      match find_keyword s with
      | None => Some s
      | Some (p, len) =>
          let* s := erase s p len in
          let* s := if p <? zlen s then erase_space s p else Some s in
          let* s := if (u64 (p - 1) <? zlen s) && (0 <? u64 (p - 1)) then erase_space s (u64 (p - 1)) else Some s in
          keyword_loop fuel s
      end
  end.

(** [while (funcName.ends_with(" "))]. *)
Fixpoint trim_loop (fuel : nat) (s : list Z) : option (list Z) :=
  match fuel with
  | O => None
  | S fuel => if ends_with s (chars " ") then let* s := erase s (zlen s - 1) 1 in trim_loop fuel s else Some s
  end.

(** The first [n] characters of every occurrence of [p] are erased. *)
Fixpoint erase_loop (fuel : nat) (p : list Z) (n : Z) (s : list Z) : option (list Z) :=
  match fuel with
  | O => None
  | S fuel =>
      match find s p with
      | None => Some s
      | Some pos => let* s := erase s pos n in erase_loop fuel p n s
      end
  end.

Definition pretty_name (function : list Z) : option (list Z) :=
  let* s := bracket_loop (bracket_fuel function) 91 93 [] function 0 in
  let* s := keyword_loop (S (length s)) s in
  let* s := bracket_loop (bracket_fuel s) 40 41 (chars "()") s 0 in
  let* s := trim_loop (S (length s)) s in
  let s := if ends_with s (chars "()") then s else s ++ chars "()" in
  let* s := erase_loop (S (length s)) (chars "()()") 2 s in
  erase_loop (S (length s)) (chars "::()::") 4 s.

(** With the map of the names seen before. *)
Definition GetPrettyFunctionName (names : gmap (list Z) (list Z)) (function : list Z)
  : option (gmap (list Z) (list Z) * list Z) :=
  match names !! function with
  | Some r => Some (names, r)
  | None => let* r := pretty_name function in Some (<[function := r]> names, r)
  end.

(** ** The loops end *)

Lemma close_pos_range o c s j k : close_pos o c s j = Some k -> j <= k < j + zlen s.
Proof.
  revert j. induction s as [|x s IH]; intros j; cbn [close_pos]; [ done | ]. rewrite zlen_cons. pose proof (zlen_nonneg s).
  destruct (x =? o); [ done | ]. destruct (x =? c); [ intros [= <-]; lia | ]. intros Hk%IH. lia.
Qed.

Lemma replace_in_range s pos len r : 0 <= pos -> 0 <= len -> pos + len <= zlen s ->
  exists s', replace s pos len r = Some s' /\ zlen s' = zlen s - len + zlen r.
Proof.
  intros Hp Hl Hle. unfold replace. rewrite (proj2 (Z.leb_le 0 pos)), (proj2 (Z.leb_le pos _)) by lia. cbn [andb]. eexists.
  split; [ done | ]. rewrite !zlen_app, zlen_take, zlen_drop. lia.
Qed.

Lemma bracket_loop_ends o c r L : zlen r <= 2 -> forall fuel s i,
  0 <= i -> zlen s <= L -> zlen s * (L + 2) + Z.max 0 (zlen s - i) < Z.of_nat fuel ->
  exists s', bracket_loop fuel o c r s i = Some s'.
Proof.
  intros Hr. induction fuel as [|fuel IH]; intros s i Hi HL Hf; pose proof (zlen_nonneg s); [ nia | ]. cbn [bracket_loop].
  destruct (Z.ltb_spec i (zlen s)) as [Hlt | Hge]; [ | eauto ].
  destruct (vget_is_Some s i ltac:(lia)) as [x ->]. assert (exists s', bracket_loop fuel o c r s (i + 1) = Some s') as Hnext by (apply IH; lia).
  destruct (x =? o); [ | done ]. destruct (close_pos _ _ _ _) as [j|] eqn:Ej; [ | done ].
  apply close_pos_range in Ej. rewrite zlen_drop in Ej. destruct (Z.eqb_spec (j - i + 1) (zlen r)) as [E | E]; [ done | ].
  destruct (replace_in_range s i (j - i + 1) r ltac:(lia) ltac:(lia) ltac:(lia)) as (s' & -> & Hs').
  pose proof (zlen_nonneg s'). apply IH; [ lia | lia | ]. assert (zlen s' <= zlen s - 1) by lia. nia.
Qed.

Lemma bracket_loop_fuel o c r s : zlen r <= 2 -> exists s', bracket_loop (bracket_fuel s) o c r s 0 = Some s'.
Proof. intros Hr. apply (bracket_loop_ends o c r (zlen s) Hr); unfold bracket_fuel, zlen; [ lia | lia | nia ]. Qed.

Lemma erase_space_ends s p : 0 <= p < zlen s -> exists s', erase_space s p = Some s' /\ zlen s' <= zlen s.
Proof.
  intros Hp. unfold erase_space. destruct (vget_is_Some s p Hp) as [x ->]. destruct (x =? 32); [ | eauto with lia ].
  destruct (replace_in_range s p 1 [] ltac:(lia) ltac:(lia) ltac:(lia)) as (s' & E & Hl). change (zlen []) with 0 in Hl.
  exists s'. split; [ done | lia ].
Qed.

Lemma find_keyword_range s p len : find_keyword s = Some (p, len) -> 0 <= p /\ 0 < len /\ p + len <= zlen s.
Proof.
  unfold find_keyword. intros H. repeat case_match; simplify_eq.
  all: match goal with E : find _ _ = Some _ |- _ => apply find_Some in E as (x & y & -> & <-) end.
  all: rewrite !zlen_app; pose proof (zlen_nonneg x); pose proof (zlen_nonneg y); change (zlen (chars "static")) with 6; change (zlen (chars "virtual")) with 7; change (zlen (chars "const")) with 5; lia.
Qed.

Lemma keyword_loop_ends fuel s : zlen s < Z.of_nat fuel -> exists s', keyword_loop fuel s = Some s'.
Proof.
  revert s. induction fuel as [|fuel IH]; intros s Hf; [ pose proof (zlen_nonneg s); lia | ]. cbn [keyword_loop].
  destruct (find_keyword s) as [[p len]|] eqn:E; [ | eauto ]. apply find_keyword_range in E as (Hp & Hlen & Hle).
  destruct (replace_in_range s p len [] Hp ltac:(lia) Hle) as (s1 & E1 & Hs1). unfold erase at 1. rewrite E1. change (zlen []) with 0 in Hs1.
  assert (exists s2, (if p <? zlen s1 then erase_space s1 p else Some s1) = Some s2 /\ zlen s2 <= zlen s1) as (s2 & -> & Hs2).
  { destruct (Z.ltb_spec p (zlen s1)); [ apply erase_space_ends; lia | eauto with lia ]. }
  assert (exists s3, (if (u64 (p - 1) <? zlen s2) && (0 <? u64 (p - 1)) then erase_space s2 (u64 (p - 1)) else Some s2) = Some s3
    /\ zlen s3 <= zlen s2) as (s3 & -> & Hs3).
  { destruct (Z.ltb_spec (u64 (p - 1)) (zlen s2)), (Z.ltb_spec 0 (u64 (p - 1))); cbn [andb]; eauto with lia. apply erase_space_ends. lia. }
  apply IH. lia.
Qed.

Lemma ends_with_spec s p : ends_with s p = true <-> exists x, s = x ++ p.
Proof.
  unfold ends_with. rewrite bool_decide_eq_true. split.
  - intros H. exists (take (length s - length p) s). by rewrite <- H at 2; rewrite take_drop.
  - intros [x ->]. rewrite length_app. by replace (length x + length p - length p)%nat with (length x) by lia; rewrite drop_app_length.
Qed.

Lemma trim_loop_ends fuel s : zlen s < Z.of_nat fuel -> exists s', trim_loop fuel s = Some s'.
Proof.
  revert s. induction fuel as [|fuel IH]; intros s Hf; [ pose proof (zlen_nonneg s); lia | ]. cbn [trim_loop].
  destruct (ends_with s _) eqn:E; [ | eauto ]. apply ends_with_spec in E as [x ->]. rewrite zlen_app in *. change (zlen (chars " ")) with 1 in *.
  pose proof (zlen_nonneg x). destruct (replace_in_range (x ++ chars " ") (zlen x + 1 - 1) 1 []) as (s' & E & Hs');
    [ lia | lia | rewrite zlen_app; change (zlen (chars " ")) with 1; lia | ].
  unfold erase. rewrite E. apply IH. rewrite zlen_app in Hs'. change (zlen (chars " ")) with 1 in Hs'. change (zlen []) with 0 in Hs'. lia.
Qed.

(** An erasing loop ends without an occurrence left and keeps what each round keeps. *)
Lemma erase_loop_spec (I : list Z -> Prop) p (n : nat) fuel s :
  (0 < n <= length p)%nat ->
  (forall x y, I (x ++ p ++ y) -> I (x ++ drop n p ++ y)) ->
  zlen s < Z.of_nat fuel -> I s ->
  exists r, erase_loop fuel p (Z.of_nat n) s = Some r /\ find r p = None /\ I r.
Proof.
  intros Hn HI. revert s. induction fuel as [|fuel IH]; intros s Hf Hs; [ pose proof (zlen_nonneg s); lia | ]. cbn [erase_loop].
  destruct (find s p) as [pos|] eqn:E; [ | eauto ]. apply find_Some in E as (x & y & -> & <-).
  assert (erase (x ++ p ++ y) (zlen x) (Z.of_nat n) = Some (x ++ drop n p ++ y)) as ->.
  { rewrite <- (take_drop n p) at 1. rewrite <- (app_assoc (take n p)). unfold erase. rewrite replace_found; [ done | ].
    unfold zlen. rewrite length_take. lia. }
  apply IH; [ | by apply HI ]. rewrite !zlen_app in *. rewrite zlen_drop. unfold zlen in *. lia.
Qed.

(** ** The shape of the result *)

Definition ends_in_parens (s : list Z) : Prop := exists x, s = x ++ chars "()".

(** The last two characters are not touched when something is taken out in front of [d], which
    itself either ends in [()] or cannot be part of it. *)
Lemma ends_in_parens_keep x q d y :
  (ends_in_parens d \/ exists d' c, d = d' ++ [c] /\ c <> 40 /\ c <> 41) ->
  ends_in_parens (x ++ q ++ d ++ y) -> ends_in_parens (x ++ d ++ y).
Proof.
  intros Hd [z Hz]. change (chars "()") with [40; 41] in *. unfold ends_in_parens in *. change (chars "()") with [40; 41] in *.
  destruct y as [|b y _] using rev_ind.
  - destruct Hd as [[d' ->] | (d' & c & -> & _ & Hc)]; [ exists (x ++ d'); by rewrite app_nil_r, app_assoc | ].
    rewrite app_nil_r, !app_assoc in Hz. change [40; 41] with ([40] ++ [41]) in Hz. rewrite app_assoc in Hz. apply app_inj_tail in Hz as [_ ->]. done.
  - rewrite !app_assoc in Hz. change [40; 41] with ([40] ++ [41]) in Hz. rewrite (app_assoc z) in Hz. apply app_inj_tail in Hz as [Hz ->].
    destruct y as [|a y _] using rev_ind.
    + rewrite app_nil_r in Hz. destruct Hd as [[d' ->] | (d' & c & -> & Hc & _)].
      * change [40; 41] with ([40] ++ [41]) in Hz. rewrite !app_assoc in Hz. by apply app_inj_tail in Hz as [_ ?].
      * rewrite !app_assoc in Hz. by apply app_inj_tail in Hz as [_ ->].
    + rewrite !app_assoc in Hz. apply app_inj_tail in Hz as [_ ->]. exists (x ++ d ++ y). by rewrite <- !app_assoc.
Qed.

(** An occurrence that does not hold [c] lies in front of it or behind it. *)
Lemma occurrence_beside (c : Z) (x y p u v : list Z) : c ∉ p -> p <> [] -> x ++ c :: y = u ++ p ++ v ->
  (exists v', x = u ++ p ++ v') \/ (exists u', y = u' ++ p ++ v).
Proof.
  intros Hc Hp H. apply app_eq_app in H as (l & [[-> H] | [-> H]]).
  - apply app_eq_app in H as (l2 & [[-> H] | [-> H]]).
    + destruct l2 as [|c' l2]; [ left; exists []; by rewrite !app_nil_r | ]. simplify_eq/=. set_solver.
    + left. by exists l2.
  - destruct l as [|c' l]; simplify_eq/=; [ | right; by exists l ].
    destruct p as [|c' p]; [ done | ]. simplify_eq/=. set_solver.
Qed.

Lemma no_parens_pair_keep x q y : find (x ++ q ++ chars "::" ++ y) (chars "()()") = None ->
  find (x ++ chars "::" ++ y) (chars "()()") = None.
Proof.
  rewrite !find_None. intros H u v E. change (chars "::") with [58; 58] in *. change ([58; 58] ++ y) with (58 :: 58 :: y) in *.
  change (chars "()()") with [40; 41; 40; 41] in *. apply occurrence_beside in E as [[v' ->] | [u' E]]; [ | | set_solver | done ].
  - apply (H u (v' ++ q ++ 58 :: 58 :: y)). by rewrite <- !app_assoc.
  - apply (H (x ++ q ++ [58] ++ u') v). by rewrite E, <- !app_assoc.
Qed.

Lemma pretty_name_spec s : exists r, pretty_name s = Some r /\ ends_in_parens r
  /\ find r (chars "()()") = None /\ find r (chars "::()::") = None.
Proof.
  unfold pretty_name. destruct (bracket_loop_fuel 91 93 [] s ltac:(done)) as [s1 ->].
  destruct (keyword_loop_ends (S (length s1)) s1) as [s2 ->]; [ unfold zlen; lia | ].
  destruct (bracket_loop_fuel 40 41 (chars "()") s2 ltac:(done)) as [s3 ->].
  destruct (trim_loop_ends (S (length s3)) s3) as [s4 ->]; [ unfold zlen; lia | ].
  set (s5 := if ends_with s4 _ then s4 else s4 ++ _).
  assert (ends_in_parens s5) as H5.
  { subst s5. destruct (ends_with s4 _) eqn:E; [ by apply ends_with_spec in E | by exists s4 ]. }
  destruct (erase_loop_spec ends_in_parens (chars "()()") 2 (S (length s5)) s5) as (s6 & E6 & F6 & H6); [ simpl; lia | | unfold zlen; lia | done | ].
  { intros x y. apply (ends_in_parens_keep x (chars "()") (chars "()") y). left. by exists []. }
  change (Z.of_nat 2) with 2 in E6. rewrite E6.
  destruct (erase_loop_spec (fun s => ends_in_parens s /\ find s (chars "()()") = None) (chars "::()::") 4 (S (length s6)) s6)
    as (r & Er & Fr & Hr1 & Hr2); [ simpl; lia | | unfold zlen; lia | done | ].
  { intros x y [H F]. split.
    - apply (ends_in_parens_keep x (chars "::()") (chars "::") y); [ | done ]. right. by exists [58], 58.
    - by apply (no_parens_pair_keep x (chars "::()") y). }
  exists r. change (Z.of_nat 4) with 4 in Er. done.
Qed.

(** For every function name the six loops end and every position they use is inside of
    the string; the result ends in one pair of parentheses, no pair follows another one and
    no empty component is left between two [::]. *)
Theorem pretty_name_shape function : exists r, pretty_name function = Some r /\ ends_with r (chars "()") = true
  /\ find r (chars "()()") = None /\ find r (chars "::()::") = None.
Proof. destruct (pretty_name_spec function) as (r & E & H & F & G). exists r. split_and!; try done. by apply ends_with_spec. Qed.

(** ** The map of names *)

Fixpoint get_names (names : gmap (list Z) (list Z)) (fs : list (list Z)) : option (list (list Z)) :=
  match fs with
  | [] => Some []
  | f :: fs =>
      let* (names, r) := GetPrettyFunctionName names f in
      let* rs := get_names names fs in
      Some (r :: rs)
  end.

Definition names_ok (names : gmap (list Z) (list Z)) : Prop := forall f r, names !! f = Some r -> pretty_name f = Some r.

Lemma GetPrettyFunctionName_ok names f : names_ok names -> exists names' r,
  GetPrettyFunctionName names f = Some (names', r) /\ pretty_name f = Some r /\ names_ok names'.
Proof.
  intros Hn. unfold GetPrettyFunctionName. destruct (names !! f) as [r|] eqn:E; [ exists names, r; eauto | ].
  destruct (pretty_name_spec f) as (r & Er & _). rewrite Er. exists (<[f := r]> names), r. split_and!; [ done | done | ].
  intros g r' [[<- <-] | [_ Hg]]%lookup_insert_Some; [ done | by apply Hn ].
Qed.

(** The map of names is transparent: every sequence of log calls gets the names it would
    get if each was computed anew. *)
Theorem name_cache_is_transparent fs : get_names ∅ fs = mapM pretty_name fs.
Proof.
  assert (forall names, names_ok names -> get_names names fs = mapM pretty_name fs) as H; [ | apply H; by intros ?? ?%lookup_empty_Some ].
  induction fs as [|f fs IH]; intros names Hn; [ done | ]. cbn [get_names].
  destruct (GetPrettyFunctionName_ok names f Hn) as (names' & r & -> & Er & Hn'). rewrite (IH names' Hn').
  simpl. rewrite Er. simpl. by destruct (mapM pretty_name fs).
Qed.

Lemma sample_name :
  pretty_name (chars "static void icon7::Peer::Send(const T&) const [with T = int]") = Some (chars "void icon7::Peer::Send()").
Proof. vm_compute. reflexivity. Qed.
End LogName.
