(* ===== verification/Log.v ===== *)
(** * The log (src/Debug.cpp, include/icon7/Debug.hpp)

    Levels, the assembly of a line and the files it goes to. A line is written to the standard
    error and, when one could be opened, to a log file, which is replaced by a new one after a
    day. Level names and file paths have two forms, chosen when the library is built
    ([Options]). The clocks, the thread's and the process' number, whether a file can be opened
    and the text that the caller's format gives are arguments. Flushing is not modelled. *)

From Stdlib Require Import Ascii String.
From S2P Require Import Prelude CString Time TimeString LogPath LogName.

Module Log.
Import CString Time TimeString LogPath LogName.

Definition FATAL : Z := 1.
Definition LL_ERROR : Z := 2.
Definition WARN : Z := 3.
Definition INFO : Z := 4.
Definition DEBUG : Z := 5.
Definition TRACE : Z := 6.
Definition LL_IGNORE : Z := 127.

Record Options := mkOptions {
  LEVEL_SINGLE_CHARACTER : bool;
  USE_FILENAME_WITHOUT_PATH : bool;
  IGNORE_COMMON_PATH : list Z;
  DATETIME_SUBSECONDS_DIGITS : Z
}.

(** A log file is known by the number of its opening. *)
Inductive FILE := Stderr | Opened (n : nat).

#[export] Instance FILE_eq_dec : EqDecision FILE.
Proof. solve_decision. Defined.

Inductive event :=
| EOpen (name : list Z)
| EClose (n : nat)
| EWrite (f : FILE) (text : list Z).

(** [threadLocalLogLevel]: the levels of the threads that have set one; [opened]: the number
    of files opened so far; [events]: what was done with files, in order. *)
Record LogState := mkLog {
  globalLogLevel : Z;
  threadLocalLogLevel : gmap nat Z;
  enablePrintingTime : bool;
  names : gmap (list Z) (list Z);
  file : option FILE;
  openTime : Z;
  opened : nat;
  events : list event
}.

Definition LogState_init (level : Z) : LogState := mkLog level ∅ false ∅ None 0 0 [].

(** ** Levels *)

Definition SetGlobalLogLevel (s : LogState) (level : Z) : LogState :=
  mkLog level (threadLocalLogLevel s) (enablePrintingTime s) (names s) (file s) (openTime s) (opened s) (events s).

Definition GetThreadLocalLogLevel (s : LogState) (t : nat) : Z := default LL_IGNORE (threadLocalLogLevel s !! t).

Definition SetThreadLocalLogLevel (s : LogState) (t : nat) (level : Z) : LogState :=
  mkLog (globalLogLevel s) (<[t := level]> (threadLocalLogLevel s)) (enablePrintingTime s) (names s) (file s) (openTime s) (opened s)
    (events s).

Definition RemoveThreadLocalLogLevel (s : LogState) (t : nat) : LogState := SetThreadLocalLogLevel s t LL_IGNORE.

Definition IsLogLevelApplicable (s : LogState) (t : nat) (level : Z) : bool :=
  let tlsl := GetThreadLocalLogLevel s t in
  if negb (tlsl =? LL_IGNORE) then level <=? tlsl else level <=? globalLogLevel s.

Definition GlobalDisablePrintingTime (s : LogState) (disableTime : bool) : LogState :=
  mkLog (globalLogLevel s) (threadLocalLogLevel s) (negb disableTime) (names s) (file s) (openTime s) (opened s) (events s).

(** ["%5u"]: at least five characters, filled with spaces. *)
Definition print_padded (width : nat) (x : Z) : list Z :=
  let d := print_int 1 x in replicate (width - length d) 32 ++ d.

(** A level without a name is printed into the four characters of its place in a table. *)
Definition LogLevelToName (o : Options) (level : Z) : option (list Z) :=
  let pick (short long : string) := Some (chars (if LEVEL_SINGLE_CHARACTER o then short else long)) in
  if level =? FATAL then pick "F"%string "FATAL"%string
  else if level =? LL_ERROR then pick "E"%string "ERROR"%string
  else if level =? WARN then pick "W"%string "WARN "%string
  else if level =? INFO then pick "I"%string "INFO "%string
  else if level =? DEBUG then pick "D"%string "DEBUG"%string
  else if level =? TRACE then pick "T"%string "TRACE"%string
  else sprintf 3 (print_padded 5 level).

(** ** Files *)

(** What the environment answers to one call: the time, and whether [fopen] succeeds. *)
Record Env := mkEnv { now : Z; fopen_ok : bool }.

Section Writing.
Context (g : DayTimeBegin) (pid : Z).

Definition log_file_name (t : Z) : option (list Z) :=
  let* timestampStr := TimestampToString g t 0 in
  Some (timestampStr ++ chars "_" ++ print_int 1 pid ++ chars ".log").

Definition DAY : Z := 3600 * 24 * 1000000000.

Definition close_file (s : LogState) : list event :=
  match file s with Some (Opened n) => [EClose n] | _ => [] end.

(** A new file in place of the old one; the standard error when there is none. *)
Definition reopen (s : LogState) (t : Z) (fopen_ok : bool) : option (LogState * FILE) :=
  let* fileName := log_file_name t in
  let success := negb ((64 <? zlen fileName) || (zlen fileName <=? 0)) && fopen_ok in
  let f := if success then Opened (opened s) else Stderr in
  Some (mkLog (globalLogLevel s) (threadLocalLogLevel s) (enablePrintingTime s) (names s) (Some f) t
          (if success then S (opened s) else opened s)
          (events s ++ close_file s ++ if success then [EOpen fileName] else []), f).

Definition GetFile (s : LogState) (e : Env) : option (LogState * FILE) :=
  let* t := TemporaryTimestampToTimestamp g (now e) in
  match file s with
  | None => reopen s t (fopen_ok e)
  | Some f =>
      assert* fits 64 (openTime s + DAY) in
      if openTime s + DAY <? t then reopen s t (fopen_ok e) else Some (s, f)
  end.

(** [ICON7_MULTI_FILE_PRINT]. *)
Definition multi_file_print (s : LogState) (output : FILE) (text : list Z) : LogState :=
  mkLog (globalLogLevel s) (threadLocalLogLevel s) (enablePrintingTime s) (names s) (file s) (openTime s) (opened s)
    (events s ++ (if decide (output = Stderr) then [] else [EWrite output text]) ++ [EWrite Stderr text]).

Definition WriteSync (s : LogState) (e : Env) (buf : list Z) : option LogState :=
  let* (s, output) := GetFile s e in Some (multi_file_print s output buf).

(** [text] is what the format and the arguments give. *)
Definition PrintLineSync (s : LogState) (e : Env) (text : list Z) : option LogState :=
  let* (s, output) := GetFile s e in
  Some (multi_file_print (multi_file_print s output text) output [10]).

(** ** Hexadecimal dumps *)

Definition hex_digit (x : Z) : Z := if x <? 10 then 48 + x else 55 + x.

(** [" %2.2X"]. *)
Definition print_hex (b : Z) : list Z := [32; hex_digit (b / 16); hex_digit (b mod 16)].

Definition print_char (b : Z) : list Z := if (32 <=? b) && (b <? 127) then [32; 32; b] else [32; 32; 32].

(** The inner loops: [f] of the bytes from [i + j] to the end of the row. *)
Fixpoint dump_row (fuel : nat) (f : Z -> list Z) (buf : list Z) (i j : Z) : option (list (list Z)) :=
  match fuel with
  | O => Some []
  | S fuel =>
      if (j <? 16) && (j + i <? zlen buf) then
        let* c := vget buf (i + j) in
        let* rest := dump_row fuel f buf i (j + 1) in
        Some (f c :: rest)
      else Some []
  end.

Fixpoint dump_rows (fuel : nat) (buf : list Z) (i : Z) : option (list (list Z)) :=
  match fuel with
  | O => None
  | S fuel =>
      if i <? zlen buf then
        let* cs := dump_row 17 print_char buf i 0 in
        let* hs := dump_row 17 print_hex buf i 0 in
        let* rest := dump_rows fuel buf (i + 16) in
        Some (cs ++ [[10]] ++ hs ++ [[10]] ++ rest)
      else Some []
  end.

(** The prints of a dump; [address] is how the pointer is printed. *)
Definition dump_prints (address buf : list Z) : option (list (list Z)) :=
  let* rows := dump_rows (S (length buf)) buf 0 in
  Some ((chars "Hex dump from [" ++ address ++ chars "] bytes " ++ print_int 1 (zlen buf) ++ [10]) :: rows).

Definition HexDump (s : LogState) (e : Env) (address buf : list Z) : option LogState :=
  let* (s, output) := GetFile s e in
  let* prints := dump_prints address buf in
  Some (foldl (fun s text => multi_file_print s output text) s prints).

(** ** Lines *)

Definition BYTES : Z := 16 * 1024.

(** [snprintf(buf + strlen(buf), BYTES - strlen(buf), text)]. *)
Definition snprintf (buf text : list Z) : list Z := take (Z.to_nat (BYTES - 1)) (buf ++ text).

Definition set_names (s : LogState) (ns : gmap (list Z) (list Z)) : LogState :=
  mkLog (globalLogLevel s) (threadLocalLogLevel s) (enablePrintingTime s) ns (file s) (openTime s) (opened s) (events s).

(** The beginning of a line: the level, then the time and the thread when they are wanted. *)
Definition line_head (o : Options) (level : Z) (timestamp : option (list Z)) (threadId : Z) : option (list Z) :=
  let* n := LogLevelToName o level in
  let buf := snprintf [] (n ++ chars " ") in
  Some (match timestamp with
        | None => buf
        | Some t => snprintf buf (t ++ chars " [" ++ print_padded 3 threadId ++ chars "] ")
        end).

(** The file, when there is one; [printFile] is not looked at. *)
Definition line_file (o : Options) (buf : list Z) (path : option (list Z)) (line : Z) : option (list Z) :=
  match path with
  | None => Some buf
  | Some path =>
      let* filePath := if USE_FILENAME_WITHOUT_PATH o then Some (CorrectFilePath_name path)
                       else CorrectFilePath (IGNORE_COMMON_PATH o) path in
      Some (snprintf buf (filePath ++ chars ":" ++ print_int 1 line ++ chars " "))
  end.

(** [e] answers to [WriteSync], [t0] is the time of the timestamp. *)
Definition Log_ (o : Options) (s : LogState) (t : nat) (e : Env) (t0 : Z) (logLevel : Z) (printTime printFile : bool)
  (path : option (list Z)) (line : Z) (function text : list Z) : option LogState :=
  let printTime := printTime || enablePrintingTime s in
  if negb (IsLogLevelApplicable s t logLevel) then Some s
  else
    let* timestamp :=
      if printTime then let* str := GetCurrentTimestampString g t0 (DATETIME_SUBSECONDS_DIGITS o) in Some (Some str)
      else Some None in
    let* (ns, funcName) := GetPrettyFunctionName (names s) function in
    let s := set_names s ns in
    let* buf := line_head o logLevel timestamp (Z.of_nat t) in
    let* buf := line_file o buf path line in
    let buf := snprintf buf (funcName ++ chars " : ") in
    let buf := snprintf buf text in
    let buf := snprintf buf [10] in
    WriteSync s e buf.

(** ** Programs that log *)

Inductive log_op :=
| OWrite (e : Env) (buf : list Z)
| OLine (e : Env) (text : list Z)
| ODump (e : Env) (address buf : list Z)
| OLog (o : Options) (t : nat) (e : Env) (t0 level : Z) (printTime printFile : bool) (path : option (list Z))
    (line : Z) (function text : list Z)
| OSetGlobal (level : Z)
| OSetThread (t : nat) (level : Z)
| ORemoveThread (t : nat)
| ODisableTime (b : bool).

Definition log_step (s : LogState) (o : log_op) : option LogState :=
  match o with
  | OWrite e buf => WriteSync s e buf
  | OLine e text => PrintLineSync s e text
  | ODump e address buf => HexDump s e address buf
  | OLog o t e t0 level pt pf path line function text => Log_ o s t e t0 level pt pf path line function text
  | OSetGlobal level => Some (SetGlobalLogLevel s level)
  | OSetThread t level => Some (SetThreadLocalLogLevel s t level)
  | ORemoveThread t => Some (RemoveThreadLocalLogLevel s t)
  | ODisableTime b => Some (GlobalDisablePrintingTime s b)
  end.

Fixpoint log_run (s : LogState) (os : list log_op) : option LogState :=
  match os with
  | [] => Some s
  | o :: os => let* s := log_step s o in log_run s os
  end.

(** ** The use of files *)

(** How many files were opened and which one is open. *)
Definition file_step (st : nat * option nat) (ev : event) : option (nat * option nat) :=
  let '(n, cur) := st in
  match ev with
  | EOpen _ => match cur with None => Some (S n, Some n) | Some _ => None end
  | EClose k => if decide (cur = Some k) then Some (n, None) else None
  | EWrite Stderr _ => Some (n, cur)
  | EWrite (Opened k) _ => if decide (cur = Some k) then Some (n, cur) else None
  end.

Fixpoint file_run (st : nat * option nat) (evs : list event) : option (nat * option nat) :=
  match evs with
  | [] => Some st
  | ev :: evs => let* st := file_step st ev in file_run st evs
  end.

Definition current (s : LogState) : option nat :=
  match file s with Some (Opened n) => Some n | _ => None end.

Definition files_ok (s : LogState) : Prop := file_run (0%nat, None) (events s) = Some (opened s, current s).

Lemma file_run_app st a b : file_run st (a ++ b) = let* st := file_run st a in file_run st b.
Proof. revert st. induction a as [|ev a IH]; intros st; [ done | ]. cbn. by destruct (file_step st ev). Qed.

Lemma GetFile_ok s e s' f : GetFile s e = Some (s', f) -> files_ok s -> files_ok s' /\ file s' = Some f.
Proof.
  assert (forall t b, reopen s t b = Some (s', f) -> files_ok s -> files_ok s' /\ file s' = Some f) as Hre.
  { unfold reopen. intros t b H Hok. inv_bind H. simplify_eq. split; [ | done ]. unfold files_ok. cbn [events opened].
    rewrite !file_run_app, Hok. unfold close_file, current. cbn [file].
    destruct (negb _ && b); destruct (file s) as [[|n]|]; cbn; rewrite ?decide_True by done; done. }
  unfold GetFile. intros H Hok. inv_bind H. destruct (file s) as [f0|] eqn:Ef; [ | by apply (Hre z (fopen_ok e)) ].
  inv_bind H. destruct (_ <? _); [ by apply (Hre z (fopen_ok e)) | ]. by simplify_eq.
Qed.

Lemma multi_file_print_ok s f text : files_ok s -> file s = Some f ->
  files_ok (multi_file_print s f text) /\ file (multi_file_print s f text) = Some f.
Proof.
  intros Hok Hf. split; [ | done ]. unfold files_ok, multi_file_print. cbn [events opened]. rewrite !file_run_app, Hok.
  unfold current. cbn [file]. rewrite Hf. destruct f as [|n]; [ done | ].
  rewrite decide_False by done. cbn [app file_run file_step]. by rewrite decide_True.
Qed.

Lemma prints_ok l : forall s f, files_ok s -> file s = Some f ->
  files_ok (foldl (fun s text => multi_file_print s f text) s l).
Proof.
  induction l as [|x l IH]; intros s f Hok Hf; [ done | ]. cbn [foldl].
  destruct (multi_file_print_ok s f x Hok Hf) as [Hok' Hf']. by apply IH.
Qed.

Lemma log_step_files s o s' : log_step s o = Some s' -> files_ok s -> files_ok s'.
Proof.
  assert (forall s0 e buf s', WriteSync s0 e buf = Some s' -> files_ok s0 -> files_ok s') as Hw.
  { unfold WriteSync. intros s0 e buf s1 H Hok. inv_bind H. destruct p as [s2 f]. simplify_eq.
    destruct (GetFile_ok _ _ _ _ E Hok) as [Hok' Hf]. by apply multi_file_print_ok. }
  destruct o as [e buf | e text | e a buf | o t e t0 lv pt pf path line fn text | | | | ]; cbn [log_step]; intros H Hok.
  - eauto.
  - unfold PrintLineSync in H. inv_bind H. destruct p as [s2 f]. simplify_eq. destruct (GetFile_ok _ _ _ _ E Hok) as [Hok' Hf].
    destruct (multi_file_print_ok s2 f text Hok' Hf). by apply multi_file_print_ok.
  - unfold HexDump in H. inv_bind H. destruct p as [s2 f]. inv_bind H. simplify_eq.
    destruct (GetFile_ok _ _ _ _ E Hok) as [Hok' Hf]. by apply prints_ok.
  - unfold Log_ in H. destruct (negb _); [ by simplify_eq | ]. inv_bind H. destruct p as [ns fnm]. inv_bind H. by apply (Hw _ _ _ _ H).
  - by simplify_eq.
  - by simplify_eq.
  - by simplify_eq.
  - by simplify_eq.
Qed.

(** Whatever a program logs, and whichever files can be opened, log files are used
    properly: at most one is open, it is closed once and before the next one is opened, and
    nothing is written to a file before it is opened or after it is closed. *)
Theorem log_files_are_used_properly level os s :
  log_run (LogState_init level) os = Some s -> file_run (0%nat, None) (events s) = Some (opened s, current s).
Proof.
  change (log_run (LogState_init level) os = Some s -> files_ok s).
  assert (forall s0, files_ok s0 -> log_run s0 os = Some s -> files_ok s) as H; [ | by apply H ].
  induction os as [|o os IH]; intros s0 Hok H; cbn [log_run] in H; [ by simplify_eq | ].
  destruct (log_step s0 o) as [s1|] eqn:E; [ | done ]. apply (IH s1); [ | done ]. by apply (log_step_files s0 o).
Qed.

(** ** The line *)

(** The line as one text, before it is cut to the buffer. *)
Definition full_line (o : Options) (level : Z) (timestamp : option (list Z)) (threadId : Z) (path : option (list Z)) (line : Z)
  (function text : list Z) : option (list Z) :=
  let* n := LogLevelToName o level in
  let* p := match path with
            | None => Some []
            | Some path =>
                let* f := if USE_FILENAME_WITHOUT_PATH o then Some (CorrectFilePath_name path)
                          else CorrectFilePath (IGNORE_COMMON_PATH o) path in
                Some (f ++ chars ":" ++ print_int 1 line ++ chars " ")
            end in
  let* f := pretty_name function in
  Some ((n ++ chars " ")
    ++ (match timestamp with None => [] | Some t => t ++ chars " [" ++ print_padded 3 threadId ++ chars "] " end)
    ++ p ++ (f ++ chars " : ") ++ text ++ [10]).

(** Printing at the end of a cut text is cutting the longer text. *)
Lemma snprintf_cut a b : snprintf (take (Z.to_nat (BYTES - 1)) a) b = take (Z.to_nat (BYTES - 1)) (a ++ b).
Proof.
  unfold snprintf. set (n := Z.to_nat (BYTES - 1)). clearbody n. destruct (Nat.le_gt_cases n (length a)) as [H | H].
  - rewrite !(take_app_le _ _ n) by (rewrite ?length_take; lia). rewrite take_take. f_equal. lia.
  - by rewrite (take_ge a) by lia.
Qed.

Lemma level_has_name o level : 1 <= level <= 6 -> exists n, LogLevelToName o level = Some n.
Proof.
  intros H. assert (level = 1 \/ level = 2 \/ level = 3 \/ level = 4 \/ level = 5 \/ level = 6) as Hl by lia.
  repeat destruct Hl as [-> | Hl]; subst; by eexists.
Qed.

Lemma path_is_corrected o path : exists p, (if USE_FILENAME_WITHOUT_PATH o then Some (CorrectFilePath_name path)
  else CorrectFilePath (IGNORE_COMMON_PATH o) path) = Some p.
Proof. destruct (USE_FILENAME_WITHOUT_PATH o); [ eauto | ]. destruct (CorrectFilePath_clean (IGNORE_COMMON_PATH o) path) as (r & E & _). eauto. Qed.

(** The prints of [Log] give the cut line. *)
Lemma line_is_cut o level ts t path line function text : 1 <= level <= 6 ->
  exists full n f buf, full_line o level ts t path line function text = Some full /\
    line_head o level ts t = Some n /\ pretty_name function = Some f /\ line_file o n path line = Some buf
    /\ snprintf (snprintf (snprintf buf (f ++ chars " : ")) text) [10] = take (Z.to_nat (BYTES - 1)) full.
Proof.
  intros Hl. unfold full_line, line_head, line_file. destruct (level_has_name o level Hl) as [n ->]. destruct (pretty_name_spec function) as (f & -> & _).
  set (stamp := match ts with None => [] | Some t' => _ end).
  assert ((match ts with None => snprintf [] (n ++ chars " ") | Some t' => snprintf (snprintf [] (n ++ chars " "))
      (t' ++ chars " [" ++ print_padded 3 t ++ chars "] ") end) = take (Z.to_nat (BYTES - 1)) ((n ++ chars " ") ++ stamp)) as ->.
  { subst stamp. destruct ts as [t'|]; unfold snprintf at 1; [ | by rewrite app_nil_r ]. apply snprintf_cut. }
  destruct path as [path|].
  - destruct (path_is_corrected o path) as [p ->]. do 4 eexists. split_and!; try done. rewrite !snprintf_cut. f_equal. by rewrite <- !app_assoc.
  - do 4 eexists. split_and!; try done. rewrite !snprintf_cut. f_equal. by rewrite <- !app_assoc.
Qed.

(** ** Logging always succeeds *)

Definition clock_ok (t : Z) : Prop :=
  0 <= nanosecondsSinceEpoch g + t < 2 ^ 63 - DAY
  /\ 0 <= nanosecondsSinceEpoch g + t - hoursOffsetNanoseconds g < 2 ^ 63.

Hypothesis offset_small : -2 ^ 20 < hoursOffset g < 2 ^ 20.
Hypothesis pid_range : 0 <= pid < 2 ^ 64.

Definition log_ok (s : LogState) : Prop := 0 <= openTime s < 2 ^ 63 - DAY /\ names_ok (names s).

Lemma timestamp_total t : clock_ok t -> TemporaryTimestampToTimestamp g t = Some (nanosecondsSinceEpoch g + t).
Proof. intros [H _]. unfold TemporaryTimestampToTimestamp. rewrite fits_small by (unfold DAY in H; lia). done. Qed.

Lemma timestamp_string_total t d : clock_ok t -> exists str, GetCurrentTimestampString g t d = Some str.
Proof.
  intros Hc. unfold GetCurrentTimestampString. rewrite timestamp_total by done. destruct Hc as [_ Hc].
  destruct (clamp_digits_range d) as (n & Ed & Hn & _).
  destruct (TimestampToString_text g _ d n Hc offset_small Ed Hn) as (y & m & da & date & E & _). eauto.
Qed.

(** The name of a log file is never too long. *)
Lemma log_file_name_fits t : clock_ok t -> exists name,
  log_file_name (nanosecondsSinceEpoch g + t) = Some name /\ 0 < zlen name <= 64.
Proof.
  intros [_ Hc]. unfold log_file_name.
  destruct (TimestampToString_text g _ 0 0 Hc offset_small eq_refl ltac:(lia)) as (y & m & da & date & -> & El & _).
  eexists. split; [ done | ]. unfold tail_text. cbn [app]. rewrite !zlen_app. unfold zlen at 1 6. rewrite El.
  change (zlen (chars "_")) with 1. change (zlen (chars ".log")) with 4. pose proof (offset_text_fits (hoursOffset g) offset_small) as Hu.
  pose proof (zlen_nonneg (chars "U" ++ print_signed (- hoursOffset g))). rewrite zlen_app in *.
  unfold print_int. rewrite (proj2 (Z.ltb_ge pid 0)) by lia. cbn [app]. unfold zlen. rewrite length_digits.
  pose proof (ndigits_small 20 20 (Z.abs pid) ltac:(lia)). unfold zlen in *. lia.
Qed.

Definition no_write (ev : event) : Prop := match ev with EWrite _ _ => False | _ => True end.

(** The state after a call of [GetFile] that opened or closed files, as [evs] tells. *)
Lemma GetFile_total s e : clock_ok (now e) -> 0 <= openTime s < 2 ^ 63 - DAY ->
  exists s' f evs, GetFile s e = Some (s', f) /\ events s' = events s ++ evs /\ Forall no_write evs
    /\ 0 <= openTime s' < 2 ^ 63 - DAY /\ names s' = names s /\ file s' = Some f.
Proof.
  intros Hc Ho. unfold GetFile. rewrite timestamp_total by done.
  assert (exists s' f evs, reopen s (nanosecondsSinceEpoch g + now e) (fopen_ok e) = Some (s', f) /\ events s' = events s ++ evs
    /\ Forall no_write evs /\ 0 <= openTime s' < 2 ^ 63 - DAY /\ names s' = names s /\ file s' = Some f) as Hre.
  { unfold reopen. destruct (log_file_name_fits (now e) Hc) as (name & -> & _). do 3 eexists. split_and!; try done; try apply Hc.
    apply Forall_app. split.
    - unfold close_file. repeat case_match; by repeat constructor.
    - case_match; by repeat constructor. }
  destruct (file s) as [f|] eqn:Ef; [ | done ]. rewrite fits_small by (unfold DAY in *; lia). destruct (_ <? _); [ done | ].
  exists s, f, []. rewrite app_nil_r. split_and!; try done; lia.
Qed.

(** [Log], on every path. *)
Lemma Log_writes o s t e t0 level printTime printFile path line function text :
  log_ok s -> clock_ok (now e) -> clock_ok t0 -> 1 <= level <= 6 ->
  exists s', Log_ o s t e t0 level printTime printFile path line function text = Some s' /\ log_ok s' /\
    if IsLogLevelApplicable s t level then
      exists full f evs,
        full_line o level (if printTime || enablePrintingTime s then GetCurrentTimestampString g t0 (DATETIME_SUBSECONDS_DIGITS o) else None)
          (Z.of_nat t) path line function text = Some full
        /\ file s' = Some f /\ Forall no_write evs
        /\ let l := take (Z.to_nat (BYTES - 1)) full in
           events s' = events s ++ evs ++ (if decide (f = Stderr) then [] else [EWrite f l]) ++ [EWrite Stderr l]
    else s' = s.
Proof.
  intros [Ho Hn] Hc Hc0 Hl. unfold Log_. destruct (IsLogLevelApplicable s t level); cbn [negb]; [ | by exists s ].
  set (ts := if _ || _ then GetCurrentTimestampString _ _ _ else None).
  assert ((if printTime || enablePrintingTime s then let* str := GetCurrentTimestampString g t0 (DATETIME_SUBSECONDS_DIGITS o) in
    Some (Some str) else Some None) = Some ts) as ->.
  { subst ts. destruct (_ || _); [ | done ]. by destruct (timestamp_string_total t0 (DATETIME_SUBSECONDS_DIGITS o) Hc0) as [str ->]. }
  destruct (GetPrettyFunctionName_ok (names s) function Hn) as (ns & r & -> & Er & Hns).
  destruct (line_is_cut o level ts (Z.of_nat t) path line function text Hl) as (full & n & f & buf & Ef & -> & Ef' & -> & Eb).
  simplify_eq. rewrite Eb. unfold WriteSync.
  destruct (GetFile_total (set_names s ns) e Hc Ho) as (s' & f & evs & -> & Eev & Hevs & Ho' & Hns' & Hf). eexists. split; [ done | ].
  split; [ split; [ done | cbn [names multi_file_print]; by rewrite Hns' ] | ]. exists full, f, evs. split_and!; [ done | done | done | ].
  cbn [events multi_file_print]. rewrite Eev. by rewrite <- app_assoc.
Qed.

(** C36: a call of [Log] with a named level always ends. If the level does not apply nothing
    happens; otherwise exactly one line is written to the standard error and the same line to
    the log file when one is open: the level, the time and thread when wanted, the corrected
    file, the shortened function and the text, cut to the 16383 characters of the buffer. *)
Theorem log_writes_one_line o s t e t0 level printTime printFile path line function text :
  log_ok s -> clock_ok (now e) -> clock_ok t0 -> 1 <= level <= 6 ->
  exists s', Log_ o s t e t0 level printTime printFile path line function text = Some s' /\ log_ok s' /\
    if IsLogLevelApplicable s t level then
      exists full f evs,
        full_line o level (if printTime || enablePrintingTime s then GetCurrentTimestampString g t0 (DATETIME_SUBSECONDS_DIGITS o) else None)
          (Z.of_nat t) path line function text = Some full
        /\ file s' = Some f /\ Forall no_write evs
        /\ let l := take (Z.to_nat (BYTES - 1)) full in
           events s' = events s ++ evs ++ (if decide (f = Stderr) then [] else [EWrite f l]) ++ [EWrite Stderr l]
    else s' = s.
Proof. apply Log_writes. Qed.

End Writing.

(** ** Levels *)

(** A thread that set a level is judged by it alone, the others are not affected. *)
Theorem thread_level_overrides_global s t t' level l :
  IsLogLevelApplicable (SetThreadLocalLogLevel s t level) t' l =
    if decide (t' = t) then if decide (level = LL_IGNORE) then l <=? globalLogLevel s else l <=? level
    else IsLogLevelApplicable s t' l.
Proof.
  unfold IsLogLevelApplicable, GetThreadLocalLogLevel. cbn [threadLocalLogLevel SetThreadLocalLogLevel globalLogLevel].
  destruct (decide (t' = t)) as [-> | Hne]; [ | by rewrite lookup_insert_ne ]. rewrite lookup_insert_eq. cbn [from_option id].
  destruct (decide (level = LL_IGNORE)) as [-> | Hl]; [ done | ]. by rewrite (proj2 (Z.eqb_neq _ _)).
Qed.

(** A level without a name does not fit its place in the table, not even its first digit. *)
Theorem unnamed_level_overruns_its_buffer o level : 0 <= level < 256 -> ~ 1 <= level <= 6 -> LogLevelToName o level = None.
Proof.
  intros Hr Hn. unfold LogLevelToName, FATAL, LL_ERROR, WARN, INFO, DEBUG, TRACE. rewrite !(proj2 (Z.eqb_neq level _)) by lia.
  unfold sprintf. rewrite (proj2 (Z.leb_gt _ 3)); [ done | ]. unfold print_padded. rewrite zlen_app, zlen_replicate. unfold zlen. lia.
Qed.

(** ** Samples *)

Definition sample_options : Options := mkOptions true true [] 5.

(** A warning of thread 7 on the standard error and in a new log file. *)
Definition sample_log : log_op :=
  OLog sample_options 7 (mkEnv 1709210096000000000 true) 1709210096123456789 WARN true true (Some (chars "/icon7/src/Peer.cpp"))
    85 (chars "void icon7::PeerData::Send(ByteBufferReadable&)") (chars "queue is full").

Lemma sample_log_events : option_map events (log_run (mkBegin 0 0) 4711 (LogState_init LL_IGNORE) [sample_log]) =
  Some [EOpen (chars "2024-02-29+12:34:56U+0_4711.log");
        EWrite (Opened 0) (chars "W 2024-02-29+12:34:56.123.45U+0 [  7] Peer.cpp:85 void icon7::PeerData::Send() : queue is full" ++ [10]);
        EWrite Stderr (chars "W 2024-02-29+12:34:56.123.45U+0 [  7] Peer.cpp:85 void icon7::PeerData::Send() : queue is full" ++ [10])].
Proof. vm_compute. reflexivity. Qed.

(** The file is replaced after a day. *)
Lemma log_files_are_used_properly_witness :
  exists s, log_run (mkBegin 0 0) 4711 (LogState_init LL_IGNORE)
      [sample_log; OWrite (mkEnv 1709310096000000000 true) [65]; OWrite (mkEnv 1709410096000000000 false) [66]] = Some s
    /\ file_run (0%nat, None) (events s) = Some (opened s, current s) /\ opened s = 2%nat.
Proof.
  eexists. split; [ vm_compute; reflexivity | ]. split; [ | reflexivity ].
  apply (log_files_are_used_properly (mkBegin 0 0) 4711 LL_IGNORE
    [sample_log; OWrite (mkEnv 1709310096000000000 true) [65]; OWrite (mkEnv 1709410096000000000 false) [66]]).
  vm_compute. reflexivity.
Defined.

Lemma names_ok_empty : names_ok ∅.
Proof. by intros ?? ?%lookup_empty_Some. Qed.

Lemma log_writes_one_line_witness :
  exists s', Log_ (mkBegin 0 0) 4711 sample_options (LogState_init INFO) 7 (mkEnv 1709210096000000000 false) 1709210096123456789
      FATAL true false None 0 (chars "main") (chars "stopped") = Some s'
    /\ file s' = Some Stderr.
Proof.
  destruct (log_writes_one_line (mkBegin 0 0) 4711 ltac:(cbn; lia) ltac:(lia) sample_options (LogState_init INFO) 7
    (mkEnv 1709210096000000000 false) 1709210096123456789 FATAL true false None 0 (chars "main") (chars "stopped")) as (s' & E & _ & _).
  - split; [ cbn; unfold DAY; lia | apply names_ok_empty ].
  - unfold clock_ok, DAY, hoursOffsetNanoseconds. cbn [nanosecondsSinceEpoch hoursOffset now]. lia.
  - unfold clock_ok, DAY, hoursOffsetNanoseconds. cbn [nanosecondsSinceEpoch hoursOffset]. lia.
  - unfold FATAL. lia.
  - exists s'. split; [ exact E | ]. vm_compute in E. injection E as <-. reflexivity.
Defined.

(** ** Dumps *)

Fixpoint chunks (fuel : nat) (l : list Z) : list (list Z) :=
  match fuel, l with
  | S fuel, _ :: _ => take 16 l :: chunks fuel (drop 16 l)
  | _, _ => []
  end.

Lemma dump_row_spec f buf i : 0 <= i -> forall fuel j, (Z.to_nat (16 - j) < fuel)%nat -> 0 <= j <= 16 ->
  dump_row fuel f buf i j = Some (f <$> take (Z.to_nat (16 - j)) (drop (Z.to_nat (i + j)) buf)).
Proof.
  intros Hi. induction fuel as [|fuel IH]; intros j Hf Hj; [ lia | ]. cbn [dump_row].
  destruct (Z.ltb_spec j 16) as [H16 | H16]; cbn [andb]; [ | by replace (Z.to_nat (16 - j)) with O by lia ].
  destruct (Z.ltb_spec (j + i) (zlen buf)) as [Hl | Hl].
  - destruct (vget_is_Some buf (i + j) ltac:(lia)) as [c Hc]. rewrite Hc, IH by lia.
    replace (i + j) with (Z.of_nat (Z.to_nat (i + j))) in Hc by lia. rewrite vget_lookup in Hc.
    rewrite (drop_S _ _ _ Hc). replace (Z.to_nat (16 - j)) with (S (Z.to_nat (16 - (j + 1)))) by lia. cbn [take fmap list_fmap].
    by replace (Z.to_nat (i + (j + 1))) with (S (Z.to_nat (i + j))) by lia.
  - unfold zlen in Hl. by rewrite drop_ge, take_nil by lia.
Qed.

(** A dump prints its bytes in rows of sixteen: the characters, then the codes. *)
Theorem hex_dump_rows address buf : dump_prints address buf =
  Some ((chars "Hex dump from [" ++ address ++ chars "] bytes " ++ print_int 1 (zlen buf) ++ [10])
    :: concat ((fun row => (print_char <$> row) ++ [[10]] ++ (print_hex <$> row) ++ [[10]]) <$> chunks (length buf) buf)).
Proof.
  unfold dump_prints.
  assert (forall fuel k i, (length buf - Z.to_nat i <= k)%nat -> (length buf - Z.to_nat i < fuel)%nat -> 0 <= i ->
    dump_rows fuel buf i = Some (concat ((fun row => (print_char <$> row) ++ [[10]] ++ (print_hex <$> row) ++ [[10]])
      <$> chunks k (drop (Z.to_nat i) buf)))) as H.
  { induction fuel as [|fuel IH]; intros k i Hk Hf Hi; [ lia | ]. cbn [dump_rows]. unfold zlen.
    destruct (Z.ltb_spec i (Z.of_nat (length buf))) as [Hl | Hl].
    - rewrite !dump_row_spec by (lia || (simpl; lia)). destruct k as [|k]; [ lia | ]. rewrite (IH k) by lia. cbn [chunks].
      assert (length (drop (Z.to_nat i) buf) <> O) as Hne by (rewrite length_drop; lia).
      rewrite Z.add_0_r, Z.sub_0_r. destruct (drop (Z.to_nat i) buf) as [|x l] eqn:Ed; [ done | ]. rewrite <- Ed.
      rewrite drop_drop. replace (Z.to_nat i + 16)%nat with (Z.to_nat (i + 16)) by lia. change (Z.to_nat 16) with 16%nat.
      cbn [fmap list_fmap concat]. by rewrite <- !app_assoc.
    - rewrite drop_ge by lia. by destruct k. }
  by rewrite (H _ (length buf) 0) by lia.
Qed.

End Log.
