(* ===== verification/SendPaths.v ===== *)
(** * The ways to send a frame (src/Peer.cpp, src/PeerHandle.cpp)

    A thread sends a frame to a peer of a loop in one of three ways: as a command of its own,
    through a [CommandsBufferHandler] that collects commands for the loop's queue, or through
    a [MultiBatchWriter] that collects frames per loop. [PeerHandle::Send] and [Peer::Send]
    have an overload for each, and fall back to the first when the pointer they get is null.
    The overloads for an lvalue first copy the handle of the frame (SharedBuffer.v) and call
    the one for an rvalue. Each way is an instance of one interface, [SendRoute]; its law says
    what the loop's peers have received when everything is flushed and executed, and any two
    lawful routes are indistinguishable for the loop. *)

From S2P Require Import Prelude MemoryPool ByteBuffer PeersToFlush PeerManager PeerSend LoopFlush CommandsBuffer BatchWriter.

Module SendPaths.
Import PeerManager PeerSend LoopFlush.

Section Paths.
Context `{Allocator} {Sock : Type} `{Socket Sock}.

(** The commands of the sending functions. Other commands of the program share the queue with
    them: [CommandCallSend] is in RpcCalls.v, [ExecuteConnect] in ConnectCommands.v,
    [ExecuteListen] and [CommandDestroyHosts] in HostCommands.v, users' commands in
    CommandQueue.v. Theorems about this type speak of queues that hold only these three. *)
Inductive cmd :=
| CSendFrame (peer : PeerHandle) (frame : list Z)
| CBatchSend (l : Z) (data : list (list Z * PeerId))
| CDisconnect (peer : PeerHandle).

Definition exec_cmd (s : LoopState) (c : cmd) : option (@LoopState Sock) :=
  match c with
  | CSendFrame peer frame => ExecutePeerSendFrame s peer (Some frame)
  | CBatchSend l data => CommandBatchSend s l data
  | CDisconnect peer => ExecuteDisconnect s peer
  end.

Fixpoint exec_cmds (s : LoopState) (cs : list cmd) : option (@LoopState Sock) :=
  match cs with
  | [] => Some s
  | c :: cs => let* s := exec_cmd s c in exec_cmds s cs
  end.

(** ** The interface of a way to send *)

(** [queue_of]: the commands the loop's queue was given so far, in order. *)
Class SendRoute (St : Type) := {
  route_init : St;
  route_send : St -> PeerHandle -> option (list Z) -> option St;
  route_flush : St -> option St;
  queue_of : St -> option (list cmd)
}.

Fixpoint route_send_all {St} `{SendRoute St} (st : St) (os : list (PeerHandle * list Z)) : option St :=
  match os with
  | [] => Some st
  | (h, f) :: os => let* st := route_send st h (Some f) in route_send_all st os
  end.

(** What the sends mean: each frame goes to its peer, one after the other. *)
Fixpoint send_each (s : LoopState) (os : list (PeerHandle * list Z)) : option (@LoopState Sock) :=
  match os with
  | [] => Some s
  | (h, f) :: os => let* s := ExecutePeerSendFrame s h (Some f) in send_each s os
  end.

(** Handles that are set belong to loop [l]. *)
Definition for_loop (l : Z) (os : list (PeerHandle * list Z)) : Prop :=
  Forall (fun o => handle_valid o.1 = true -> loop o.1 = l) os.

(** The law: sending never stops, and after a flush the queue holds commands that mean the
    sends. *)
Class LawfulRoute (l : Z) (St : Type) `{SendRoute St} : Prop :=
  route_law : forall os, for_loop l os ->
    exists st st' cs, route_send_all route_init os = Some st /\ route_flush st = Some st'
      /\ queue_of st' = Some cs /\ forall s, exec_cmds s cs = send_each s os.

(** ** Peer::Send and PeerHandle::Send *)

(** [Peer::Send(PeerHandle, ByteBufferReadable &&)]; the assertion on the frame, and the null
    pointer of the loop. *)
Definition Peer_Send (q : list cmd) (peer : PeerHandle) (frame : option (list Z)) : option (list cmd) :=
  let* f := frame in
  assert* negb (loop peer =? 0) in
  Some (q ++ [CSendFrame peer f]).

Definition PeerHandle_Send (q : list cmd) (peer : PeerHandle) (frame : option (list Z)) : option (list cmd) :=
  if handle_valid peer then Peer_Send q peer frame else Some q.

(** [Peer::Send(ByteBufferReadable &&)], on the shared part of a peer: a frame for a peer that
    disconnects is counted as an error and dropped. *)
Definition Peer_Send_member (q : list cmd) (peerFlags : Z) (peerHandle : PeerHandle) (frame : option (list Z)) (errorsCount : Z)
  : option (list cmd * Z) :=
  let* f := frame in
  if negb (Z.land peerFlags BIT_DISCONNECTING =? 0) then Some (q, errorsCount + 1)
  else assert* negb (loop peerHandle =? 0) in Some (q ++ [CSendFrame peerHandle f], errorsCount).

(** [sizeof] and [alignof] of [ExecutePeerSendFrame]. *)
Definition SEND_SIZE : Z := 40.
Definition SEND_ALIGN : Z := 8.

(** A thread that may have a [CommandsBufferHandler]; [clock] are the times of its calls. *)
Record Buffered := mkBuffered {
  commandsBuffer : option (@CommandsBuffer.CommandsBufferHandler cmd);
  direct : list cmd;
  clock : list Z
}.

Definition Peer_Send_buffered (st : Buffered) (peer : PeerHandle) (frame : option (list Z)) : option Buffered :=
  let* f := frame in
  match commandsBuffer st with
  | Some h =>
      let* (_, h) := CommandsBuffer.Handler_EnqueueCommand h (hd 0 (clock st)) SEND_SIZE SEND_ALIGN (CSendFrame peer f) in
      Some (mkBuffered (Some h) (direct st) (tl (clock st)))
  | None => let* q := Peer_Send (direct st) peer frame in Some (mkBuffered None q (clock st))
  end.

Definition PeerHandle_Send_buffered (st : Buffered) (peer : PeerHandle) (frame : option (list Z)) : option Buffered :=
  if handle_valid peer then Peer_Send_buffered st peer frame else Some st.

(** A thread that may have a [MultiBatchWriter]. *)
Record Batched := mkBatched {
  batchWriter : option (@BatchWriter.MultiBatchWriter (list Z));
  bdirect : list cmd
}.

Section Batches.
Context (index : Z -> Z) (grow : Z -> Z -> Z).

Definition Peer_Send_batched (st : Batched) (peer : PeerHandle) (frame : option (list Z)) : option Batched :=
  let* f := frame in
  match batchWriter st with
  | Some w => let* w := BatchWriter.Send index grow w peer f in Some (mkBatched (Some w) (bdirect st))
  | None => let* q := Peer_Send (bdirect st) peer frame in Some (mkBatched None q)
  end.

Definition PeerHandle_Send_batched (st : Batched) (peer : PeerHandle) (frame : option (list Z)) : option Batched :=
  if handle_valid peer then Peer_Send_batched st peer frame else Some st.
End Batches.

(** [Peer::Disconnect(PeerHandle)] and [PeerHandle::Disconnect]. *)
Definition Peer_Disconnect (q : list cmd) (peer : PeerHandle) : option (list cmd) :=
  assert* negb (loop peer =? 0) in Some (q ++ [CDisconnect peer]).

Definition PeerHandle_Disconnect (q : list cmd) (peer : PeerHandle) : option (list cmd) :=
  if handle_valid peer then Peer_Disconnect q peer else Some q.

(** ** Sends that are not valid do nothing *)

Lemma exec_cmds_app s a b : exec_cmds s (a ++ b) = let* s := exec_cmds s a in exec_cmds s b.
Proof. revert s. induction a as [|c a IH]; intros s; [ done | ]. cbn [app exec_cmds]. by destruct (exec_cmd s c). Qed.

Lemma handle_valid_loop h : handle_valid h = true -> loop h <> 0.
Proof. unfold handle_valid. intros [_ Hl%negb_true_iff%Z.eqb_neq]%andb_true_iff. done. Qed.

(** The sends with a valid handle. *)
Definition valid_sends (os : list (PeerHandle * list Z)) : list (PeerHandle * list Z) :=
  filter (fun o => handle_valid o.1 = true) os.

Lemma send_each_valid s os : send_each s os = send_each s (valid_sends os).
Proof.
  revert s. induction os as [|[h f] os IH]; intros s; [ done | ]. unfold valid_sends. rewrite filter_cons.
  cbn [send_each fst]. destruct (decide (handle_valid h = true)) as [Hv | Hv]; cbn [send_each].
  - destruct (ExecutePeerSendFrame s h (Some f)); [ apply IH | done ].
  - unfold ExecutePeerSendFrame. apply not_true_is_false in Hv. rewrite Hv. apply IH.
Qed.

Lemma send_each_cmds s os : exec_cmds s ((fun o => CSendFrame o.1 o.2) <$> os) = send_each s os.
Proof. revert s. induction os as [|[h f] os IH]; intros s; [ done | ]. cbn. by destruct (ExecutePeerSendFrame s h (Some f)). Qed.

(** ** Commands of their own *)

Definition direct_route : SendRoute (list cmd) := {|
  route_init := [];
  route_send := PeerHandle_Send;
  route_flush := Some;
  queue_of := Some
|}.

Lemma direct_send_all q os : route_send_all (H1 := direct_route) q os = Some (q ++ ((fun o => CSendFrame o.1 o.2) <$> valid_sends os)).
Proof.
  revert q. induction os as [|[h f] os IH]; intros q; cbn [route_send_all]; [ by rewrite app_nil_r | ].
  cbn [route_send direct_route]. unfold PeerHandle_Send, Peer_Send, valid_sends. rewrite filter_cons. cbn [fst].
  destruct (decide (handle_valid h = true)) as [Hv | Hv].
  - rewrite Hv, (proj2 (Z.eqb_neq (loop h) 0)) by by apply handle_valid_loop. cbn [negb]. rewrite IH, <- app_assoc. done.
  - apply not_true_is_false in Hv. by rewrite Hv, IH.
Qed.

Lemma direct_lawful l : @LawfulRoute l (list cmd) direct_route.
Proof.
  intros os _. do 3 eexists. split_and!; [ apply direct_send_all | done | done | ].
  intros s. cbn [route_init direct_route app]. by rewrite send_each_cmds, <- send_each_valid.
Qed.

(** ** Through a buffer of commands *)

Definition buffered_route (t0 : option Z) (times : list Z) : SendRoute Buffered := {|
  route_init := mkBuffered (CommandsBuffer.CommandsBufferHandler_new <$> t0) [] times;
  route_send := PeerHandle_Send_buffered;
  route_flush st :=
    match commandsBuffer st with
    | Some h => let* h := CommandsBuffer.FlushBuffer h in Some (mkBuffered (Some h) (direct st) (clock st))
    | None => Some st
    end;
  queue_of st :=
    match commandsBuffer st with
    | Some h => let* cs := CommandsBuffer.execute_buffers (CommandsBuffer.queued h) in Some (direct st ++ cs)
    | None => Some (direct st)
    end
|}.

Context (usable_bounded : usable CommandsBuffer.bufferSize <= 2 ^ 29).

Lemma send_request_ok : CommandsBuffer.request_ok SEND_SIZE SEND_ALIGN /\ SEND_SIZE + 4 <= CommandsBuffer.bufferSize.
Proof. split; [ | done ]. split; [ unfold SEND_SIZE; lia | ]. by exists 3. Qed.

Lemma buffered_send_all t0 times os : forall h d cl l, CommandsBuffer.handler_ok h l ->
  exists h' cl', route_send_all (H1 := buffered_route t0 times) (mkBuffered (Some h) d cl) os = Some (mkBuffered (Some h') d cl')
    /\ CommandsBuffer.handler_ok h' (l ++ ((fun o => CSendFrame o.1 o.2) <$> valid_sends os)).
Proof.
  induction os as [|[p f] os IH]; intros h d cl l Hh; cbn [route_send_all]; [ exists h, cl; by rewrite app_nil_r | ].
  cbn [route_send buffered_route]. unfold PeerHandle_Send_buffered, Peer_Send_buffered, valid_sends. rewrite filter_cons. cbn [fst commandsBuffer direct clock].
  destruct (decide (handle_valid p = true)) as [Hv | Hv].
  - destruct send_request_ok as [Hr Hs]. rewrite Hv.
    destruct (CommandsBuffer.Handler_Enqueue_spec usable_bounded h l (hd 0 cl) SEND_SIZE SEND_ALIGN (CSendFrame p f) Hh Hr Hs) as (h1 & -> & Hh1).
    destruct (IH h1 d (tl cl) _ Hh1) as (h' & cl' & -> & Hh'). exists h', cl'. split; [ done | ]. by rewrite <- app_assoc in Hh'.
  - apply not_true_is_false in Hv. rewrite Hv. apply IH. done.
Qed.

Lemma unbuffered_send_all t0 times os : forall d cl,
  route_send_all (H1 := buffered_route t0 times) (mkBuffered None d cl) os
  = Some (mkBuffered None (d ++ ((fun o => CSendFrame o.1 o.2) <$> valid_sends os)) cl).
Proof.
  induction os as [|[h f] os IH]; intros d cl; cbn [route_send_all]; [ by rewrite app_nil_r | ].
  cbn [route_send buffered_route]. unfold PeerHandle_Send_buffered, Peer_Send_buffered, Peer_Send, valid_sends. rewrite filter_cons.
  cbn [fst commandsBuffer direct clock]. destruct (decide (handle_valid h = true)) as [Hv | Hv].
  - rewrite Hv, (proj2 (Z.eqb_neq (loop h) 0)) by by apply handle_valid_loop. cbn [negb]. rewrite IH, <- app_assoc. done.
  - apply not_true_is_false in Hv. by rewrite Hv, IH.
Qed.

(** Lawful with a handler and without one. *)
Lemma buffered_lawful l t0 times : @LawfulRoute l Buffered (buffered_route t0 times).
Proof.
  intros os _. destruct t0 as [t|]; cbn [route_init buffered_route].
  - destruct (buffered_send_all (Some t) times os (CommandsBuffer.CommandsBufferHandler_new t) [] times [] (CommandsBuffer.new_handler_ok t))
      as (h & cl & E & Hh). cbn [app] in Hh.
    destruct (CommandsBuffer.flushed_handler_executes h _ Hh) as (h' & Ef & Ex & _). do 3 eexists. split_and!; [ exact E | | | ].
    + cbn [route_flush buffered_route commandsBuffer direct clock]. by rewrite Ef.
    + cbn [queue_of buffered_route commandsBuffer direct clock]. by rewrite Ex.
    + intros s. cbn [app]. by rewrite send_each_cmds, <- send_each_valid.
  - eexists _, _, _. split_and!; [ apply (unbuffered_send_all None times os [] times) | reflexivity | reflexivity | ].
    intros s. cbn [app direct]. by rewrite send_each_cmds, <- send_each_valid.
Qed.

(** ** Through batches *)

Context (live : Z -> Prop) (index : Z -> Z) (grow : Z -> Z -> Z).
Hypothesis live_nonzero : forall l, live l -> l <> 0.
Hypothesis index_range : forall l, live l -> 0 <= index l < 2 ^ 32 - 1.
Hypothesis index_inj : forall l l', live l -> live l' -> index l = index l' -> l = l'.
Hypothesis grow_ge : forall c n, n <= grow c n.

(** The commands of the writer for loop [l]. *)
Definition batch_cmds (l : Z) (log : list (Z * list (list Z * PeerId))) : list cmd :=
  omap (fun c : Z * list (list Z * PeerId) => if c.1 =? l then Some (CBatchSend c.1 c.2) else None) log.

Definition batched_route (l : Z) (writer : bool) : SendRoute Batched := {|
  route_init := mkBatched (if writer then Some BatchWriter.MultiBatchWriter_init else None) [];
  route_send := PeerHandle_Send_batched index grow;
  route_flush st := Some (mkBatched (BatchWriter.Flush <$> batchWriter st) (bdirect st));
  queue_of st := Some (bdirect st ++ match batchWriter st with Some w => batch_cmds l (BatchWriter.log w) | None => [] end)
|}.

Lemma CommandBatchSend_app (s : @LoopState Sock) l a b : CommandBatchSend s l (a ++ b) = let* s := CommandBatchSend s l a in CommandBatchSend s l b.
Proof.
  revert s. induction a as [|[f i] a IH]; intros s; [ done | ]. cbn [app CommandBatchSend].
  destruct (GetLocalPeerData _ _) as [[d|]|]; [ | apply IH | done ]. by destruct (PeerData_Send s d (Some f)).
Qed.

Lemma exec_batch_cmds s l log : exec_cmds s (batch_cmds l log) = CommandBatchSend s l (BatchWriter.delivered l log).
Proof.
  revert s. induction log as [|[l' data] log IH]; intros s; [ done | ]. unfold batch_cmds, BatchWriter.delivered. cbn [omap list_omap fmap list_fmap concat fst snd].
  destruct (Z.eqb_spec l' l) as [-> | _]; [ | apply IH ]. rewrite CommandBatchSend_app. cbn [exec_cmds exec_cmd].
  destruct (CommandBatchSend s l data); [ apply IH | done ].
Qed.

(** A batch means its sends. *)
Lemma batch_is_send_each l os : Forall (fun o => handle_valid o.1 = true /\ loop o.1 = l) os -> forall s,
  CommandBatchSend s l (BatchWriter.sent_to l os) = send_each s os.
Proof.
  induction 1 as [|[h f] os [Hv Hl] _ IH]; intros s; [ done | ]. cbn [fst] in *. unfold BatchWriter.sent_to. cbn [fmap list_fmap concat fst snd].
  rewrite Hl, Z.eqb_refl. cbn [app CommandBatchSend send_each]. unfold ExecutePeerSendFrame. rewrite Hv, <- Hl.
  replace (mkHandle (hid h) (loop h)) with h by by destruct h. destruct (GetLocalPeerData _ h) as [[d|]|]; [ | | done ].
  - destruct (PeerData_Send s d (Some f)); [ | done ]. rewrite Hl. apply IH.
  - rewrite Hl. apply IH.
Qed.

(** While only one loop is written to, nothing is handed over before the flush. *)
Lemma batched_send_all l wr os : live l -> for_loop l os -> forall w d,
  BatchWriter.writer_ok live index w -> BatchWriter.delivered l (BatchWriter.log w) = [] ->
  (index l < zlen (BatchWriter.map_data w) \/ BatchWriter.waiting l (BatchWriter.map_data w) = []) ->
  exists w', route_send_all (H1 := batched_route l wr) (mkBatched (Some w) d) os = Some (mkBatched (Some w') d)
    /\ BatchWriter.writer_ok live index w' /\ BatchWriter.delivered l (BatchWriter.log w') = []
    /\ BatchWriter.waiting l (BatchWriter.map_data w')
       = BatchWriter.waiting l (BatchWriter.map_data w) ++ BatchWriter.sent_to l (valid_sends os).
Proof.
  intros Hl. induction os as [|[p f] os IH]; intros Hos w d Hw Hd Hz; cbn [route_send_all]; [ exists w; by rewrite app_nil_r | ].
  apply Forall_cons in Hos as [Hp Hos]. cbn [route_send batched_route fst] in *.
  unfold PeerHandle_Send_batched, Peer_Send_batched, valid_sends. rewrite filter_cons. cbn [fst batchWriter bdirect].
  destruct (decide (handle_valid p = true)) as [Hv | Hv]; [ | apply not_true_is_false in Hv; rewrite Hv; by apply IH ].
  specialize (Hp Hv). rewrite Hv.
  destruct (BatchWriter.Writer_Send_spec live index grow live_nonzero index_range index_inj grow_ge w p f Hw) as (w1 & -> & Hw1 & Hz1 & _ & Hwd);
    [ by rewrite Hp | ]. rewrite Hp in *. destruct (Hwd l Hl) as [Ew Ed].
  destruct (IH Hos w1 d Hw1) as (w' & -> & Hw' & Hd' & Ew').
  - rewrite Ed, Hd. destruct (Z.leb_spec (zlen (BatchWriter.map_data w)) (index l)); [ | done ]. unfold BatchWriter.spilled.
    destruct (_ <=? _); [ done | ]. destruct Hz as [? | ->]; [ lia | done ].
  - left. lia.
  - exists w'. split_and!; try done. rewrite Ew', Ew, <- app_assoc, <- BatchWriter.sent_to_app. done.
Qed.

Lemma unbatched_send_all l wr os : forall d,
  route_send_all (H1 := batched_route l wr) (mkBatched None d) os
  = Some (mkBatched None (d ++ ((fun o => CSendFrame o.1 o.2) <$> valid_sends os))).
Proof.
  induction os as [|[h f] os IH]; intros d; cbn [route_send_all]; [ by rewrite app_nil_r | ].
  cbn [route_send batched_route]. unfold PeerHandle_Send_batched, Peer_Send_batched, Peer_Send, valid_sends. rewrite filter_cons.
  cbn [fst batchWriter bdirect]. destruct (decide (handle_valid h = true)) as [Hv | Hv].
  - rewrite Hv, (proj2 (Z.eqb_neq (loop h) 0)) by by apply handle_valid_loop. cbn [negb]. rewrite IH, <- app_assoc. done.
  - apply not_true_is_false in Hv. by rewrite Hv, IH.
Qed.

Lemma batched_lawful l writer : live l -> @LawfulRoute l Batched (batched_route l writer).
Proof.
  intros Hl os Hos. destruct writer; cbn [route_init batched_route].
  - assert (BatchWriter.writer_ok live index (@BatchWriter.MultiBatchWriter_init (list Z))) as Hinit by apply BatchWriter.MultiBatchWriter_init_ok.
    destruct (batched_send_all l true os Hl Hos BatchWriter.MultiBatchWriter_init [] Hinit eq_refl (or_intror eq_refl)) as (w & E & Hw & Hd & Ew).
    destruct (BatchWriter.Writer_Flush_spec live index w Hw) as [_ Hf]. destruct (Hf l (live_nonzero l Hl)) as [_ Ed].
    eexists _, _, _. split_and!; [ exact E | reflexivity | reflexivity | ]. intros s. cbn [batchWriter bdirect fmap option_fmap option_map app].
    rewrite exec_batch_cmds, Ed, Hd, Ew. cbn [app]. rewrite (send_each_valid s os). apply batch_is_send_each.
    apply Forall_forall. intros o [Hv Ho]%list_elem_of_filter. split; [ done | ]. unfold for_loop in Hos. rewrite Forall_forall in Hos. by apply Hos.
  - eexists _, _, _. split_and!; [ apply unbatched_send_all | reflexivity | reflexivity | ].
    intros s. cbn [app bdirect batchWriter fmap option_fmap option_map]. by rewrite app_nil_r, send_each_cmds, <- send_each_valid.
Qed.

(** ** All ways are the same *)

(** Everything is sent and flushed, then the loop executes its queue. *)
Definition route_outcome {St} (R : SendRoute St) (s : LoopState) (os : list (PeerHandle * list Z)) : option (option (@LoopState Sock)) :=
  let* st := route_send_all route_init os in
  let* st := route_flush st in
  let* cs := queue_of st in
  Some (exec_cmds s cs).

Lemma lawful_outcome l {St} (R : SendRoute St) s os : @LawfulRoute l St R -> for_loop l os ->
  route_outcome R s os = Some (send_each s os).
Proof.
  intros HR Hos. unfold route_outcome. destruct (HR os Hos) as (st & st' & cs & -> & -> & -> & Hcs). by rewrite Hcs.
Qed.

(** C20: whichever way a program sends its frames to the peers of a loop (as commands, through
    a commands buffer at whatever times, through a batch writer, or through the fallbacks of
    the last two for null pointers), sending never stops the program, and the loop ends in the
    same state: every frame of a valid handle given to its peer, in order; the others are
    ignored. *)
Theorem send_paths_are_equivalent l s os t0 times writer :
  live l -> for_loop l os ->
  route_outcome direct_route s os = Some (send_each s os)
  /\ route_outcome (buffered_route t0 times) s os = Some (send_each s os)
  /\ route_outcome (batched_route l writer) s os = Some (send_each s os).
Proof.
  intros Hl Hos. split_and!; apply (lawful_outcome l); try done.
  - apply direct_lawful.
  - apply buffered_lawful.
  - by apply batched_lawful.
Qed.

End Paths.

(** ** Witnesses *)

(** A peer of loop 100, an invalid handle, and three frames. *)
Definition sample_sends : list (PeerHandle * list Z) :=
  [(mkHandle (mkId 0 1) 100, [1; 2]); (PeerHandle_default, [3]); (mkHandle (mkId 0 1) 100, [4])].

Lemma sample_usable : usable CommandsBuffer.bufferSize <= 2 ^ 29.
Proof. intros E. vm_compute in E. discriminate E. Qed.

Definition sample_times : list Z := [0; 5; 500000000].

Lemma send_paths_are_equivalent_witness :
  exists s s' p, loop_run (Loop_init 100) [LOpen 0 5 true; LReady 0] = Some s
    /\ (route_outcome direct_route s sample_sends = Some (Some s')
        /\ route_outcome (buffered_route (Some 0) sample_times) s sample_sends = Some (Some s')
        /\ route_outcome (batched_route BatchWriter.sample_index BatchWriter.doubling 100 true) s sample_sends = Some (Some s'))
    /\ sends s' !! 0%nat = Some p /\ stream p = [1; 2; 4].
Proof.
  destruct (loop_run (Loop_init 100) [LOpen 0 5 true; LReady 0]) as [s|] eqn:E; [ | vm_compute in E; discriminate E ].
  assert (exists s' p, send_each s sample_sends = Some s' /\ sends s' !! 0%nat = Some p /\ stream p = [1; 2; 4]) as (s' & p & Es & Ep & Est).
  { vm_compute in E. injection E as <-. eexists _, _. split_and!; vm_compute; reflexivity. }
  exists s, s', p. split; [ reflexivity | ]. split; [ | exact (conj Ep Est) ]. rewrite <- Es.
  apply (send_paths_are_equivalent sample_usable BatchWriter.sample_live BatchWriter.sample_index BatchWriter.doubling
    BatchWriter.sample_nonzero BatchWriter.sample_range BatchWriter.sample_inj BatchWriter.doubling_ge 100).
  - by left.
  - unfold for_loop, sample_sends. rewrite !Forall_cons, Forall_nil. split_and!; (done || by intros Hv; vm_compute in Hv; discriminate Hv).
Defined.

End SendPaths.
