(* ===== verification/LoopControl.v ===== *)
(** * Starting and stopping a loop (src/Loop.cpp)

    [RunAsync] clears the flags and starts the thread; the thread sets [RUNNING], iterates
    while no stop is queued and clears [RUNNING] when it leaves. Any thread may queue a stop;
    the owner waits in [WaitStopRunning] (also called by the destructor) until [RUNNING] is
    clear. The flags are one atomic word, every access to it is one step, and all
    interleavings of the steps are considered; the theorems say what cannot happen in them, not
    that a thread makes progress. What an iteration does is in CommandQueue.v and
    LoopFlush.v. *)

From S2P Require Import Prelude.

Module LoopControl.

Definition RUNNING : Z := 1.
Definition QUEUE_STOP : Z := 2.

Definition has (flags bit : Z) : bool := negb (Z.land flags bit =? 0).

Definition IsQueuedStopAsync (flags : Z) : bool := has flags QUEUE_STOP.
Definition IsRunningAsync (flags : Z) : bool := has flags RUNNING.

(** Where the thread is: not started; before it sets [RUNNING]; at the test of the loop; in
    an iteration; before it clears [RUNNING]; returned. *)
Inductive thread := NoThread | Started | Testing | Iterating | Leaving | Ended.

(** Where the owner is: somewhere else; in the loop of [WaitStopRunning]; behind it. *)
Inductive waiter := Elsewhere | Waiting | Returned.

(** [wakeups] counts the calls of [WakeUp]; [sawThread] records whether the thread had set
    [RUNNING] or had ended when the wait began, [iterations] the iterations that began after
    the wait was over. *)
Record State := mkState {
  asyncRunnerFlags : Z;
  runner : thread;
  owner : waiter;
  wakeups : nat;
  sawThread : bool;
  iterations : nat
}.

Definition Loop_init : State := mkState 0 NoThread Elsewhere 0 false 0.

(** [QueueStopRunning]: the wake-up only when the thread runs. *)
Definition QueueStopRunning (s : State) : State :=
  let f := Z.lor (asyncRunnerFlags s) QUEUE_STOP in
  mkState f (runner s) (owner s) (if IsRunningAsync f then S (wakeups s) else wakeups s) (sawThread s) (iterations s).

Definition set_runner (s : State) (f : Z) (t : thread) : State :=
  mkState f t (owner s) (wakeups s) (sawThread s) (iterations s).

Definition set_owner (s : State) (o : waiter) (saw : bool) : State :=
  mkState (asyncRunnerFlags s) (runner s) o (wakeups s) saw (iterations s).

(** The steps of the thread: [_InternalSyncLoop]. [ts_iterated] says that an iteration may end
    at any time, not that it does: for [LoopUS] it ends when [us_loop_run] of uSockets returns,
    and what a wake-up does there is not modelled. The relation has at least the interleavings
    of the code, so that what holds in all of them holds in the code. *)
Inductive thread_step : State -> State -> Prop :=
| ts_set_running s : runner s = Started ->
    thread_step s (set_runner s (Z.lor (asyncRunnerFlags s) RUNNING) Testing)
| ts_iterate s : runner s = Testing -> IsQueuedStopAsync (asyncRunnerFlags s) = false ->
    thread_step s (mkState (asyncRunnerFlags s) Iterating (owner s) (wakeups s) (sawThread s)
                     (match owner s with Returned => S (iterations s) | _ => iterations s end))
| ts_iterated s : runner s = Iterating -> thread_step s (set_runner s (asyncRunnerFlags s) Testing)
| ts_leave s : runner s = Testing -> IsQueuedStopAsync (asyncRunnerFlags s) = true ->
    thread_step s (set_runner s (asyncRunnerFlags s) Leaving)
| ts_clear_running s : runner s = Leaving ->
    thread_step s (set_runner s (Z.land (asyncRunnerFlags s) (Z.lnot RUNNING)) Ended).

Definition alive (t : thread) : bool := match t with Testing | Iterating | Leaving => true | _ => false end.

(** The steps of the owner: [WaitStopRunning]; and a stop queued by anybody. *)
Inductive owner_step : State -> State -> Prop :=
| os_queue_stop s : owner_step s (QueueStopRunning s)
| os_wait s : owner s = Elsewhere ->
    owner_step s (set_owner (QueueStopRunning s) Waiting (alive (runner s) || match runner s with Ended => true | _ => false end))
| os_round s : owner s = Waiting -> IsRunningAsync (asyncRunnerFlags s) = true ->
    owner_step s (mkState (asyncRunnerFlags (QueueStopRunning s)) (runner s) Waiting (S (wakeups (QueueStopRunning s)))
                    (sawThread s) (iterations s))
| os_return s : owner s = Waiting -> IsRunningAsync (asyncRunnerFlags s) = false ->
    owner_step s (set_owner s Returned (sawThread s)).

(** [RunAsync], before anybody waits and when no thread of the loop is left. *)
Inductive run_step : State -> State -> Prop :=
| rs_run s : owner s = Elsewhere -> (runner s = NoThread \/ runner s = Ended) -> run_step s (set_runner s 0 Started).

Definition step (s s' : State) : Prop := thread_step s s' \/ owner_step s s' \/ run_step s s'.

Inductive reachable : State -> Prop :=
| reach_init : reachable Loop_init
| reach_step s s' : reachable s -> step s s' -> reachable s'.

(** ** Flags and positions agree *)

Lemma lor_small f b : 0 <= f < 4 -> b = 1 \/ b = 2 -> 0 <= Z.lor f b < 4.
Proof.
  intros Hf Hb. assert (f = 0 \/ f = 1 \/ f = 2 \/ f = 3) as Hc by lia.
  repeat destruct Hc as [-> | Hc]; subst; destruct Hb as [-> | ->]; vm_compute; by split.
Qed.

Record loop_inv (s : State) : Prop := {
  li_flags : 0 <= asyncRunnerFlags s < 4;
  li_running : IsRunningAsync (asyncRunnerFlags s) = alive (runner s);
  li_waiting : owner s <> Elsewhere -> IsQueuedStopAsync (asyncRunnerFlags s) = true;
  li_returned : owner s = Returned -> alive (runner s) = true -> runner s <> Iterating;
  li_saw : owner s <> Elsewhere -> sawThread s = true -> runner s <> Started /\ runner s <> NoThread;
  li_over : owner s = Returned -> sawThread s = true -> runner s = Ended;
  li_late : iterations s = 0%nat
}.

(** The effect of the four operations on the two flags. *)
Lemma flags_cases f : 0 <= f < 4 -> f = 0 \/ f = 1 \/ f = 2 \/ f = 3.
Proof. lia. Qed.

Ltac flag_cases f := let H := fresh in pose proof (flags_cases f) as H;
  match goal with Hf : 0 <= f < 4 |- _ => specialize (H Hf); repeat destruct H as [H | H]; rewrite H in * end.

Lemma loop_inv_step s s' : loop_inv s -> step s s' -> loop_inv s'.
Proof.
  intros [Hf Hr Hw Hret Hsaw Hover Hl] Hst.
  destruct s as [f t o w sw it]. cbn [asyncRunnerFlags runner owner wakeups sawThread iterations] in *.
  destruct Hst as [Hst | [Hst | Hst]]; inversion Hst; subst; cbn in *; subst;
  flag_cases f; repeat match goal with t : thread |- _ => destruct t | o : waiter |- _ => destruct o end; try discriminate;
  split; cbn in *; try done; try lia; try (by intros; simplify_eq); try tauto; auto.
  all: intros; naive_solver.
Qed.

Lemma reachable_inv s : reachable s -> loop_inv s.
Proof. induction 1 as [|s s' _ IH Hst]; [ | by eapply loop_inv_step ]. split; cbn; (done || lia). Qed.

(** C21: in every interleaving, no iteration of the loop begins or is under way once
    [WaitStopRunning] has returned; and if the thread had begun to run (or had ended) when the
    wait began, it has ended by then. *)
Theorem no_iteration_after_wait s :
  reachable s -> owner s = Returned ->
  iterations s = 0%nat /\ runner s <> Iterating /\ (sawThread s = true -> runner s = Ended).
Proof.
  intros [Hf Hr Hw Hret Hsaw Hover Hl]%reachable_inv Ho. split_and!; [ done | | auto ].
  intros Hi. apply (Hret Ho); [ by rewrite Hi | done ].
Qed.

(** A queued stop is not lost: only [RunAsync] clears it, and while it is queued no step of the
    thread begins an iteration. Every request to stop and every round of the wait wakes the
    thread up if it runs; only the return of the wait does not, and then it does not run. That
    an iteration that is under way ends is up to uSockets and not claimed. *)
Theorem queued_stop_starts_no_iteration s s' :
  reachable s -> IsQueuedStopAsync (asyncRunnerFlags s) = true ->
  (thread_step s s' -> IsQueuedStopAsync (asyncRunnerFlags s') = true /\ runner s' <> Iterating)
  /\ (owner_step s s' -> IsQueuedStopAsync (asyncRunnerFlags s') = true /\ runner s' = runner s
       /\ (if alive (runner s) then (wakeups s < wakeups s')%nat else wakeups s' = wakeups s)).
Proof.
  intros [Hf Hr _ _ _ _ _]%reachable_inv Hq. destruct s as [f t o w sw it].
  cbn [asyncRunnerFlags runner wakeups] in *. rewrite <- Hr. split.
  - intros Hst. inversion Hst; subst; cbn in *; subst; flag_cases f; try discriminate; cbn; split; done.
  - intros Hst. inversion Hst; subst; cbn in *; subst; flag_cases f; try discriminate; cbn; split_and!; try done; vm_compute; lia.
Qed.

(** A wait that begins before the new thread has set [RUNNING] returns while the thread is
    still starting: the thread then uses the flags of a loop that may be destroyed. *)
Theorem early_wait_misses_the_thread :
  exists s, reachable s /\ owner s = Returned /\ runner s = Started.
Proof.
  exists (set_owner (set_owner (QueueStopRunning (set_runner Loop_init 0 Started)) Waiting false) Returned false).
  split_and!; try done. eapply reach_step.
  - eapply reach_step; [ eapply reach_step; [ apply reach_init | right; right; apply rs_run; [ done | by left ] ] | ].
    right; left. by apply os_wait.
  - right; left. by apply os_return.
Qed.

(** ** Witnesses *)

(** The thread runs, the owner waits, the thread ends, the wait is over. *)
Definition running_state : State := mkState 1 Testing Elsewhere 0 false 0.
Definition stopping_state : State := mkState 3 Testing Waiting 1 true 0.

Lemma running_reachable : reachable running_state.
Proof.
  apply (reach_step (set_runner Loop_init 0 Started)).
  - apply (reach_step Loop_init); [ apply reach_init | ]. right; right. apply rs_run; [ reflexivity | by left ].
  - left. by apply (ts_set_running (set_runner Loop_init 0 Started)).
Qed.

Lemma stopping_reachable : reachable stopping_state.
Proof. apply (reach_step running_state); [ apply running_reachable | ]. right; left. by apply (os_wait running_state). Qed.

Lemma queued_stop_starts_no_iteration_witness :
  owner_step stopping_state (mkState 3 Testing Waiting 3 true 0) /\ (1 < 3)%nat
  /\ thread_step stopping_state (set_runner stopping_state 3 Leaving)
  /\ runner (set_runner stopping_state 3 Leaving) <> Iterating.
Proof.
  assert (owner_step stopping_state (mkState 3 Testing Waiting 3 true 0)) as Ho by (by apply (os_round stopping_state)).
  assert (thread_step stopping_state (set_runner stopping_state 3 Leaving)) as Ht by (by apply (ts_leave stopping_state)).
  split; [ exact Ho | ]. split; [ | split; [ exact Ht | ] ].
  - destruct (queued_stop_starts_no_iteration stopping_state (mkState 3 Testing Waiting 3 true 0) stopping_reachable eq_refl) as [_ H].
    destruct (H Ho) as (_ & _ & Hw). exact Hw.
  - destruct (queued_stop_starts_no_iteration stopping_state (set_runner stopping_state 3 Leaving) stopping_reachable eq_refl) as [H _].
    destruct (H Ht) as [_ Hi]. exact Hi.
Defined.

Lemma no_iteration_after_wait_witness :
  exists s, reachable s /\ owner s = Returned /\ iterations s = 0%nat /\ runner s <> Iterating /\ (sawThread s = true -> runner s = Ended).
Proof.
  exists (mkState 2 Ended Returned 1 true 0).
  assert (reachable (mkState 2 Ended Returned 1 true 0)) as Hr.
  { apply (reach_step (mkState 2 Ended Waiting 1 true 0)); [ | right; left; by apply (os_return (mkState 2 Ended Waiting 1 true 0)) ].
    apply (reach_step (mkState 3 Leaving Waiting 1 true 0)); [ | left; by apply (ts_clear_running (mkState 3 Leaving Waiting 1 true 0)) ].
    apply (reach_step stopping_state); [ apply stopping_reachable | left; by apply (ts_leave stopping_state) ]. }
  split; [ exact Hr | ]. split; [ reflexivity | ]. apply (no_iteration_after_wait _ Hr). reflexivity.
Defined.

End LoopControl.
