(* ===== verification/HostCommands.v ===== *)
(** * Listening, and the end of a loop (src/Host.cpp, src/HostUStcp.cpp, src/Command.cpp, src/Loop.cpp)

    The calls of a host that another thread may make enqueue commands to its loop; the loop
    executes the commands of one thread in order (CommandQueue.v has several threads).
    [ListenOnPort] hands over a callback, which may be a promise, and gets it executed with the
    result, in the loop or in a queue that the caller names.
    [Loop::Destroy] enqueues a last command, which destroys the hosts. Opening a listening
    socket is a call of uSockets: an interface that returns a socket that is not open, or
    none. The peers of the hosts are in HostLifecycle.v, the queue in CommandQueue.v. *)

From Stdlib Require Import Ascii String.
From S2P Require Import Prelude CString.

Module HostCommands.
Import CString.

(** What uSockets promises: the [n]-th call of [us_socket_context_listen] when the sockets
    [used] listen. *)
Class Listening := {
  us_listen : nat -> gset nat -> list Z -> Z -> option nat;
  us_listen_fresh : forall n used address port s, us_listen n used address port = Some s -> s ∉ used
}.

Section Host.
Context `{Listening}.

Inductive IPProto := IPv4 | IPv6.

(** A callback is a promise, by its number; [None] is the empty handle. [toQueue]: whether the
    caller named a queue for it. *)
Inductive cmd :=
| ExecuteListen (host : nat) (address : list Z) (ipProto : IPProto) (port : Z) (onListen : option nat) (toQueue : bool)
| CommandStopListening (host : nat)
| CommandDestroyHosts.

(** [hosts]: the hosts of the loop with their listening sockets; [fulfilled], [queued]: the
    promises with their results, executed in the loop or passed to the caller's queue;
    [opened], [closed]: the listening sockets opened and closed so far. *)
Record Hosts := mkHosts {
  hosts : gmap nat (gset nat);
  fulfilled : list (nat * bool);
  queued : list (nat * bool);
  opened : list nat;
  closed : list nat;
  calls : nat
}.

(** Hosts that were created by [CreateHost] and do not listen yet. *)
Definition Hosts_init (hs : list nat) : Hosts := mkHosts (list_to_map ((fun h => (h, ∅)) <$> hs)) [] [] [] [] 0.

Record Loop := mkLoop { state : Hosts; queue : list cmd }.

(** The sockets that listen. *)
Definition sockets_of (m : gmap nat (gset nat)) : list nat := map_to_list m ≫= (fun e => elements e.2).

Definition listening (s : Hosts) : list nat := sockets_of (hosts s).

Definition listen_address (address : list Z) (ipProto : IPProto) : list Z :=
  match address, ipProto with
  | [], IPv4 => chars "127.0.0.1"
  | [], IPv6 => chars "::1"
  | _, _ => address
  end.

(** [Host::_InternalListen]: the state and the result; [None] is a host that is gone. *)
Definition _InternalListen (s : Hosts) (host : nat) (address : list Z) (ipProto : IPProto) (port : Z) : option (Hosts * bool) :=
  let* sockets := hosts s !! host in
  match us_listen (calls s) (list_to_set (listening s)) (listen_address address ipProto) port with
  | Some socket =>
      Some (mkHosts (<[host := {[socket]} ∪ sockets]> (hosts s)) (fulfilled s) (queued s) (opened s ++ [socket]) (closed s)
              (S (calls s)), true)
  | None => Some (mkHosts (hosts s) (fulfilled s) (queued s) (opened s) (closed s) (S (calls s)), false)
  end.

Definition _InternalStopListening (s : Hosts) (host : nat) : option Hosts :=
  let* sockets := hosts s !! host in
  Some (mkHosts (<[host := ∅]> (hosts s)) (fulfilled s) (queued s) (opened s) (closed s ++ elements sockets) (calls s)).

(** [ExecuteListen::Execute]: the result goes to the callback. *)
Definition ExecuteListen_Execute (s : Hosts) (host : nat) (address : list Z) (ipProto : IPProto) (port : Z) (onListen : option nat) (toQueue : bool)
  : option Hosts :=
  let* (s, result) := _InternalListen s host address ipProto port in
  match onListen with
  | None => Some s (* a dummy takes the result and is destroyed *)
  | Some p =>
      if toQueue
      then Some (mkHosts (hosts s) (fulfilled s) (queued s ++ [(p, result)]) (opened s) (closed s) (calls s))
      else Some (mkHosts (hosts s) (fulfilled s ++ [(p, result)]) (queued s) (opened s) (closed s) (calls s))
  end.

(** ** The end of a loop *)

(** [Host::_InternalDestroy]. *)
Definition _InternalDestroy (s : Hosts) (host : nat) : option Hosts :=
  let* s := _InternalStopListening s host in
  Some (mkHosts (delete host (hosts s)) (fulfilled s) (queued s) (opened s) (closed s) (calls s)).

(** [while (hosts.empty() == false)]: the first host of the set. *)
Fixpoint destroy_hosts (fuel : nat) (s : Hosts) : option Hosts :=
  match map_to_list (hosts s), fuel with
  | [], _ => Some s
  | (h, _) :: _, S fuel => let* s := _InternalDestroy s h in destroy_hosts fuel s
  | _, O => None
  end.

(** [Execute] until the queue is empty, one command after the other; the command of [Destroy]
    does so with what is still in the queue and then destroys the hosts. In the programs below
    it is the last command. (Commands behind it that the same dequeue has already taken run
    after it: [reentrant_command_overtakes] in CommandQueue.v.) *)
Fixpoint execute_queue (s : Hosts) (q : list cmd) : option Hosts :=
  match q with
  | [] => Some s
  | ExecuteListen host address ipProto port onListen toQueue :: q =>
      let* s := ExecuteListen_Execute s host address ipProto port onListen toQueue in execute_queue s q
  | CommandStopListening host :: q => let* s := _InternalStopListening s host in execute_queue s q
  | CommandDestroyHosts :: q => let* s := execute_queue s q in destroy_hosts (size (hosts s)) s
  end.

(** ** Calls of other threads *)

(** [Host::ListenOnPort]: an empty callback is replaced by another empty one. *)
Definition ListenOnPort (l : Loop) (host : nat) (address : list Z) (port : Z) (ipProto : IPProto) (callback : option nat) (toQueue : bool)
  : Loop := mkLoop (state l) (queue l ++ [ExecuteListen host address ipProto port callback toQueue]).

(** The overload that returns a future, of the promise [p]. *)
Definition ListenOnPort_future (l : Loop) (host : nat) (address : list Z) (port : Z) (ipProto : IPProto) (p : nat) : Loop :=
  ListenOnPort l host address port ipProto (Some p) false.

Definition StopListening (l : Loop) (host : nat) : Loop := mkLoop (state l) (queue l ++ [CommandStopListening host]).

(** The loop executes the next command. *)
Definition execute_next (l : Loop) : option Loop :=
  match queue l with
  | [] => Some l
  | CommandDestroyHosts :: q => let* s := execute_queue (state l) (queue l) in Some (mkLoop s [])
  | c :: q => let* s := execute_queue (state l) [c] in Some (mkLoop s q)
  end.

Fixpoint execute_some (n : nat) (l : Loop) : option Loop :=
  match n with
  | O => Some l
  | S n => let* l := execute_next l in execute_some n l
  end.

(** [Loop::Destroy]: the last command is enqueued; while [WaitStopRunning] waits the loop's
    thread, if it runs, executes [n] commands; then the caller executes those that are left. *)
Definition Loop_Destroy (l : Loop) (n : nat) : option Loop :=
  let l := mkLoop (state l) (queue l ++ [CommandDestroyHosts]) in
  let* l := execute_some n l in
  let* s := execute_queue (state l) (queue l) in
  Some (mkLoop s []).

(** ** Programs *)

Inductive call :=
| AListen (host : nat) (address : list Z) (port : Z) (ipProto : IPProto) (callback : option nat) (toQueue : bool)
| AStop (host : nat)
| AExecute.

Definition call_step (l : Loop) (a : call) : option Loop :=
  match a with
  | AListen h address port ipProto cb toQueue => Some (ListenOnPort l h address port ipProto cb toQueue)
  | AStop h => Some (StopListening l h)
  | AExecute => execute_next l
  end.

Fixpoint call_run (l : Loop) (os : list call) : option Loop :=
  match os with
  | [] => Some l
  | a :: os => let* l := call_step l a in call_run l os
  end.

Definition call_host (hs : list nat) (a : call) : Prop :=
  match a with AListen h _ _ _ _ _ | AStop h => h ∈ hs | AExecute => True end.

(** The commands of a program, in order. *)
Definition commands (os : list call) : list cmd :=
  omap (fun a => match a with
                 | AListen h address port ipProto cb toQueue => Some (ExecuteListen h address ipProto port cb toQueue)
                 | AStop h => Some (CommandStopListening h)
                 | AExecute => None
                 end) os.

(** The requests to listen: address, port, and the promise with its place. *)
Definition listens (cs : list cmd) : list (list Z * Z * option (nat * bool)) :=
  omap (fun c => match c with
                 | ExecuteListen _ address ipProto port onListen toQueue =>
                     Some (listen_address address ipProto, port, (fun p => (p, toQueue)) <$> onListen)
                 | _ => None
                 end) cs.

(** What the promises that are kept in the loop, or in a queue, get when uSockets answered the
    requests with [outs]: whether there is a socket. *)
Definition answers (q : bool) (ls : list (list Z * Z * option (nat * bool))) (outs : list (option nat)) : list (nat * bool) :=
  omap (fun x => match x.1.2 with
                 | Some (p, toQueue) => if Bool.eqb toQueue q then Some (p, match x.2 with Some _ => true | None => false end) else None
                 | None => None
                 end) (zip ls outs).

(** [outs] are the answers of uSockets to these requests, with their addresses and ports. *)
Definition answered_by_us (ls : list (list Z * Z * option (nat * bool))) (outs : list (option nat)) : Prop :=
  length outs = length ls /\ forall i x o, ls !! i = Some x -> outs !! i = Some o -> exists used, o = us_listen i used x.1.1 x.1.2.

(** ** Every promise is kept and every socket is closed *)

(** The sockets of one host and those of the others. *)
Lemma sockets_of_split m h X : m !! h = Some X -> sockets_of m ≡ₚ elements X ++ sockets_of (delete h m).
Proof.
  intros Hh. rewrite <- (insert_delete_id m h X Hh) at 1. unfold sockets_of. rewrite map_to_list_insert by apply lookup_delete_eq. done.
Qed.

Lemma sockets_of_insert m h X : sockets_of (<[h := X]> m) ≡ₚ elements X ++ sockets_of (delete h m).
Proof. rewrite (sockets_of_split _ h X) by apply lookup_insert_eq. by rewrite delete_insert_eq. Qed.

(** [cs]: the commands executed so far; [outs]: the answers of uSockets. *)
Record hosts_ok (hs : gset nat) (s : Hosts) (cs : list cmd) (outs : list (option nat)) : Prop := {
  hk_dom : dom (hosts s) = hs;
  hk_sockets : opened s ≡ₚ closed s ++ listening s;
  hk_opened : opened s = omap (fun o => o) outs;
  hk_calls : calls s = length outs;
  hk_outs : answered_by_us (listens cs) outs;
  hk_fulfilled : fulfilled s = answers false (listens cs) outs;
  hk_queued : queued s = answers true (listens cs) outs
}.

Lemma answers_snoc q ls outs x o : length outs = length ls -> answers q (ls ++ [x]) (outs ++ [o]) = answers q ls outs ++ answers q [x] [o].
Proof. intros Hl. unfold answers. rewrite zip_with_app by done. apply omap_app. Qed.

Lemma answered_snoc ls outs x o : answered_by_us ls outs -> (exists used, o = us_listen (length outs) used x.1.1 x.1.2) -> answered_by_us (ls ++ [x]) (outs ++ [o]).
Proof.
  intros [Hl Ha] Ho. split; [ by rewrite !length_app, Hl | ]. intros i y o' Hi Ho'. destruct (decide (i < length ls)%nat) as [Hlt | Hge].
  - rewrite lookup_app_l in Hi by done. rewrite lookup_app_l in Ho' by lia. by eapply Ha.
  - rewrite lookup_app_r in Hi by lia. rewrite lookup_app_r in Ho' by lia. destruct (i - length ls)%nat eqn:E; [ | by rewrite list_lookup_singleton_Some in Hi; destruct Hi ].
    cbn in Hi. injection Hi as <-. rewrite Hl in Ho', Ho. rewrite E in Ho'. cbn in Ho'. injection Ho' as <-. by assert (i = length ls) as -> by lia.
Qed.

Lemma _InternalListen_spec hs s cs outs h address ipProto port : hosts_ok hs s cs outs -> h ∈ hs ->
  exists s' o, _InternalListen s h address ipProto port = Some (s', match o with Some _ => true | None => false end)
    /\ o = us_listen (calls s) (list_to_set (listening s)) (listen_address address ipProto) port /\ calls s' = S (calls s)
    /\ dom (hosts s') = hs /\ opened s' ≡ₚ closed s' ++ listening s' /\ opened s' = opened s ++ omap (fun o => o) [o]
    /\ fulfilled s' = fulfilled s /\ queued s' = queued s.
Proof.
  intros [Hd Hs _ _ _ _ _] Hh. rewrite <- Hd in Hh. apply elem_of_dom in Hh as [X HX]. unfold _InternalListen. rewrite HX.
  destruct (us_listen _ _ _ _) as [k|] eqn:E; [ | eexists _, None; split; [ done | ]; cbn; rewrite app_nil_r; by split_and! ].
  apply us_listen_fresh in E. eexists _, (Some k). split; [ done | ]. cbn [hosts opened closed fulfilled queued]. split_and!; try done.
  - rewrite dom_insert_L. rewrite <- Hd. apply subseteq_union_1_L. apply singleton_subseteq_l, elem_of_dom. eauto.
  - unfold listening. cbn [hosts]. rewrite Hs. unfold listening in *. rewrite sockets_of_insert, (sockets_of_split _ h X HX).
    assert (k ∉ X) as Hk.
    { intros Hk. apply E. rewrite elem_of_list_to_set. rewrite (sockets_of_split _ h X HX). apply elem_of_app. left. by apply elem_of_elements. }
    rewrite elements_union_singleton by done. rewrite <- !app_assoc. cbn. solve_Permutation.
Qed.

Lemma _InternalStopListening_spec s h X : hosts s !! h = Some X -> opened s ≡ₚ closed s ++ listening s ->
  exists s', _InternalStopListening s h = Some s' /\ hosts s' = <[h := ∅]> (hosts s) /\ opened s' ≡ₚ closed s' ++ listening s'
    /\ opened s' = opened s /\ calls s' = calls s /\ fulfilled s' = fulfilled s /\ queued s' = queued s.
Proof.
  intros HX Hs. unfold _InternalStopListening. rewrite HX. eexists. split; [ done | ]. cbn [hosts opened closed fulfilled queued].
  split_and!; try done. unfold listening in *. cbn [hosts]. rewrite Hs, sockets_of_insert, (sockets_of_split _ h X HX), elements_empty.
  by rewrite <- app_assoc.
Qed.

(** The commands that the calls enqueue, on hosts of the loop. *)
Definition cmd_host (hs : gset nat) (c : cmd) : Prop :=
  match c with ExecuteListen h _ _ _ _ _ | CommandStopListening h => h ∈ hs | CommandDestroyHosts => False end.

Lemma listens_app a b : listens (a ++ b) = listens a ++ listens b.
Proof. apply omap_app. Qed.

Lemma listen_command_ok hs s cs outs h address ip port cb toQ : hosts_ok hs s cs outs -> h ∈ hs ->
  exists s' o, ExecuteListen_Execute s h address ip port cb toQ = Some s' /\ hosts_ok hs s' (cs ++ [ExecuteListen h address ip port cb toQ]) (outs ++ [o]).
Proof.
  intros Hok Hh. destruct (_InternalListen_spec hs s cs outs h address ip port Hok Hh) as (s' & o & E & Eo & Ec & Hd & Hs & Hop & Hf & Hq).
  destruct Hok as [_ _ Hop0 Hc0 Ho0 Hf0 Hq0]. unfold ExecuteListen_Execute. rewrite E. cbn [mbind option_bind].
  assert (answered_by_us (listens (cs ++ [ExecuteListen h address ip port cb toQ])) (outs ++ [o])) as Ha.
  { rewrite listens_app. apply answered_snoc; [ done | ]. cbn. rewrite <- Hc0. eauto. }
  assert (opened s' = omap (fun o => o) (outs ++ [o])) as Hop' by (by rewrite omap_app, Hop, Hop0).
  assert (calls s' = length (outs ++ [o])) as Hc' by (rewrite length_app; cbn; lia).
  destruct Ho0 as [Hl _]. exists (match cb with
    | None => s'
    | Some p => if toQ then mkHosts (hosts s') (fulfilled s') (queued s' ++ [(p, match o with Some _ => true | None => false end)]) (opened s') (closed s') (calls s')
                else mkHosts (hosts s') (fulfilled s' ++ [(p, match o with Some _ => true | None => false end)]) (queued s') (opened s') (closed s') (calls s') end), o.
  split; [ by destruct cb as [p|]; [ destruct toQ | ] | ].
  destruct cb as [p|]; [ destruct toQ | ]; split; cbn [hosts opened closed calls fulfilled queued]; try done;
    rewrite listens_app; cbn [listens omap list_omap]; rewrite answers_snoc by done; rewrite ?Hf, ?Hq, ?Hf0, ?Hq0; cbn; by rewrite ?app_nil_r.
Qed.

Lemma stop_ok hs s cs outs h : hosts_ok hs s cs outs -> h ∈ hs ->
  exists s', _InternalStopListening s h = Some s' /\ hosts_ok hs s' (cs ++ [CommandStopListening h]) outs.
Proof.
  intros [Hd Hs Hop0 Hc0 Ho0 Hf0 Hq0] Hh. rewrite <- Hd in Hh. apply elem_of_dom in Hh as [X HX].
  destruct (_InternalStopListening_spec s h X HX Hs) as (s' & -> & Eh & Hs' & Hop & Hc & Hf & Hq). eexists. split; [ done | ].
  assert (listens (cs ++ [CommandStopListening h]) = listens cs) as El by (rewrite listens_app; cbn; by rewrite app_nil_r).
  split; [ | done | .. ]; rewrite ?El, ?Hf, ?Hq, ?Hf0, ?Hq0, ?Hop, ?Hc; try done.
  rewrite Eh, dom_insert_L, <- Hd. apply subseteq_union_1_L. apply singleton_subseteq_l, elem_of_dom. eauto.
Qed.

Lemma execute_one_ok hs s cs outs c : hosts_ok hs s cs outs -> cmd_host hs c ->
  exists s' outs', execute_queue s [c] = Some s' /\ hosts_ok hs s' (cs ++ [c]) outs'.
Proof.
  intros Hok Hc. destruct c as [h address ip port cb toQ | h | ]; cbn [execute_queue cmd_host] in *; [ | | done ].
  - destruct (listen_command_ok hs s cs outs h address ip port cb toQ Hok Hc) as (s' & o & -> & H'). by eexists s', _.
  - destruct (stop_ok hs s cs outs h Hok Hc) as (s' & -> & H'). by eexists s', _.
Qed.

Lemma execute_queue_cons s c q : c <> CommandDestroyHosts -> execute_queue s (c :: q) = (let* s := execute_queue s [c] in execute_queue s q).
Proof. intros Hc. destruct c; cbn [execute_queue]; [ by destruct (ExecuteListen_Execute _ _ _ _ _ _ _) | by destruct (_InternalStopListening _ _) | done ]. Qed.

Lemma execute_queue_ok hs rest tail : forall s cs outs, hosts_ok hs s cs outs -> Forall (cmd_host hs) rest ->
  exists s' outs', execute_queue s (rest ++ tail) = execute_queue s' tail /\ hosts_ok hs s' (cs ++ rest) outs'.
Proof.
  induction rest as [|c rest IH]; intros s cs outs Hok Hr; [ exists s, outs; by rewrite app_nil_r | ].
  apply Forall_cons in Hr as [Hc Hr]. cbn [app]. rewrite execute_queue_cons by (by intros ->).
  destruct (execute_one_ok hs s cs outs c Hok Hc) as (s1 & o1 & -> & H1). destruct (IH s1 _ _ H1 Hr) as (s' & o' & E & H').
  exists s', o'. cbn [mbind option_bind]. split; [ done | ]. by rewrite <- app_assoc in H'.
Qed.

(** Destroying the hosts closes what still listens. *)
Lemma destroy_hosts_spec fuel : forall s, (size (hosts s) <= fuel)%nat -> opened s ≡ₚ closed s ++ listening s ->
  exists s', destroy_hosts fuel s = Some s' /\ hosts s' = ∅ /\ opened s' ≡ₚ closed s'
    /\ opened s' = opened s /\ fulfilled s' = fulfilled s /\ queued s' = queued s.
Proof.
  assert (forall s, map_to_list (hosts s) = [] -> opened s ≡ₚ closed s ++ listening s -> hosts s = ∅ /\ opened s ≡ₚ closed s) as Hend.
  { intros s E Hs. split; [ by apply map_to_list_empty_iff | ]. unfold listening, sockets_of in Hs. rewrite E in Hs. by rewrite app_nil_r in Hs. }
  induction fuel as [|fuel IH]; intros s Hf Hs; cbn [destroy_hosts]; destruct (map_to_list (hosts s)) as [|[h X] l] eqn:E.
  1, 3: destruct (Hend s E Hs); by exists s.
  - apply (f_equal length) in E. rewrite length_map_to_list in E. simpl in E. lia.
  - assert (hosts s !! h = Some X) as HX by (apply elem_of_map_to_list; rewrite E; by left).
    unfold _InternalDestroy. destruct (_InternalStopListening_spec s h X HX Hs) as (s1 & -> & Eh & Hs1 & Ho1 & _ & Hf1 & Hq1).
    destruct (IH (mkHosts (delete h (hosts s1)) (fulfilled s1) (queued s1) (opened s1) (closed s1) (calls s1))) as (s' & E' & Hs').
    + cbn [hosts]. rewrite Eh, delete_insert_eq. rewrite map_size_delete_Some by eauto. lia.
    + cbn [opened closed]. unfold listening in *. cbn [hosts]. rewrite Eh in *. rewrite delete_insert_eq. rewrite Hs1, sockets_of_insert.
      by rewrite elements_empty.
    + exists s'. cbn [opened fulfilled queued] in Hs'. rewrite Ho1, Hf1, Hq1 in Hs'. done.
Qed.

(** Executing the next command of a queue that may end with the command of [Destroy]. *)
Lemma execute_next_ok hs s c q tail cs outs : hosts_ok hs s cs outs -> cmd_host hs c ->
  exists s' outs', execute_next (mkLoop s (c :: q ++ tail)) = Some (mkLoop s' (q ++ tail)) /\ hosts_ok hs s' (cs ++ [c]) outs'.
Proof.
  intros Hok Hc. destruct (execute_one_ok hs s cs outs c Hok Hc) as (s' & o' & E & H'). exists s', o'. split; [ | done ].
  unfold execute_next. cbn [queue state]. destruct c; [ by rewrite E | by rewrite E | done ].
Qed.

(** What has been executed and what waits make up the program's commands. *)
Lemma call_run_ok hs os : Forall (call_host hs) os -> forall l cs outs, hosts_ok (list_to_set hs) (state l) cs outs ->
  Forall (cmd_host (list_to_set hs)) (queue l) ->
  exists l' cs' outs', call_run l os = Some l' /\ hosts_ok (list_to_set hs) (state l') cs' outs' /\ Forall (cmd_host (list_to_set hs)) (queue l')
    /\ cs' ++ queue l' = cs ++ queue l ++ commands os.
Proof.
  induction 1 as [|a os Ha _ IH]; intros l cs outs Hok Hq; cbn [call_run]; [ exists l, cs, outs; by rewrite app_nil_r | ].
  assert (exists l1 cs1 o1, call_step l a = Some l1 /\ hosts_ok (list_to_set hs) (state l1) cs1 o1 /\ Forall (cmd_host (list_to_set hs)) (queue l1)
    /\ cs1 ++ queue l1 = cs ++ queue l ++ commands [a]) as (l1 & cs1 & o1 & -> & Hok1 & Hq1 & E1).
  { destruct a as [h address port ip cb toQ | h | ]; cbn [call_step call_host] in *.
    - eexists _, cs, outs. split_and!; [ done | done | | done ]. apply Forall_app. split; [ done | ]. apply Forall_singleton. cbn. by apply elem_of_list_to_set.
    - eexists _, cs, outs. split_and!; [ done | done | | done ]. apply Forall_app. split; [ done | ]. apply Forall_singleton. cbn. by apply elem_of_list_to_set.
    - destruct l as [s q]. cbn [queue state] in *. destruct q as [|c q]; [ exists (mkLoop s []), cs, outs; split_and!; (done || by constructor) | ].
      apply Forall_cons in Hq as [Hc Hq]. destruct (execute_next_ok _ s c q [] cs outs Hok Hc) as (s1 & o1 & E & H1). rewrite app_nil_r in E.
      eexists _, _, o1. split_and!; [ exact E | exact H1 | done | ]. cbn [queue]. rewrite <- app_assoc. cbn. by rewrite ?app_nil_r. }
  destruct (IH l1 cs1 o1 Hok1 Hq1) as (l' & cs' & o' & -> & Hok' & Hq' & E'). exists l', cs', o'. split_and!; try done.
  rewrite E', app_assoc, E1. change (a :: os) with ([a] ++ os). unfold commands. rewrite omap_app. by rewrite <- !app_assoc.
Qed.

(** After the end: every command [cs] was executed and nothing listens. *)
Record ended (s : Hosts) (cs : list cmd) (outs : list (option nat)) : Prop := {
  en_hosts : hosts s = ∅;
  en_closed : opened s ≡ₚ closed s;
  en_opened : opened s = omap (fun o => o) outs;
  en_outs : answered_by_us (listens cs) outs;
  en_fulfilled : fulfilled s = answers false (listens cs) outs;
  en_queued : queued s = answers true (listens cs) outs
}.

Lemma execute_end_ok hs s q cs outs : hosts_ok hs s cs outs -> Forall (cmd_host hs) q ->
  exists s' outs', execute_queue s (q ++ [CommandDestroyHosts]) = Some s' /\ ended s' (cs ++ q) outs'.
Proof.
  intros Hok Hq. destruct (execute_queue_ok hs q [CommandDestroyHosts] s cs outs Hok Hq) as (s1 & o1 & E & [Hd Hs Hop Hc Ho Hf Hqu]).
  cbn [execute_queue mbind option_bind] in E. destruct (destroy_hosts_spec (size (hosts s1)) s1 ltac:(done) Hs) as (s' & E' & Hh & Hcl & Eo & Ef & Eq).
  exists s', o1. rewrite E, E'. split; [ done | ]. split; rewrite ?Eo, ?Ef, ?Eq; try done. by rewrite <- Eo.
Qed.

(** However many commands the loop's thread executes before the caller does the rest. *)
Lemma destroy_host_ok hs n : forall s q cs outs, hosts_ok hs s cs outs -> Forall (cmd_host hs) q ->
  exists s' outs', (let* l := execute_some n (mkLoop s (q ++ [CommandDestroyHosts])) in let* s := execute_queue (state l) (queue l) in Some (mkLoop s []))
    = Some (mkLoop s' []) /\ ended s' (cs ++ q) outs'.
Proof.
  induction n as [|n IH]; intros s q cs outs Hok Hq; cbn [execute_some mbind option_bind state queue].
  { destruct (execute_end_ok hs s q cs outs Hok Hq) as (s' & o' & -> & He). by exists s', o'. }
  destruct q as [|c q].
  - destruct (execute_end_ok hs s [] cs outs Hok Hq) as (s' & o' & E & He). cbn [app] in *. exists s', o'. split; [ | done ].
    unfold execute_next at 1. cbn [queue state]. rewrite E. cbn [mbind option_bind]. clear. induction n as [|n IH]; [ done | exact IH ].
  - apply Forall_cons in Hq as [Hc Hq]. destruct (execute_next_ok hs s c q [CommandDestroyHosts] cs outs Hok Hc) as (s1 & o1 & E & H1).
    cbn [app]. rewrite E. cbn [mbind option_bind]. destruct (IH s1 q _ _ H1 Hq) as (s' & o' & E' & He). exists s', o'. split; [ exact E' | ].
    by rewrite <- app_assoc in He.
Qed.

Lemma Hosts_init_ok hs : hosts_ok (list_to_set hs) (Hosts_init hs) [] [].
Proof.
  split; try done.
  - unfold Hosts_init. cbn [hosts]. rewrite dom_list_to_map_L. f_equal. rewrite <- list_fmap_compose. apply list_fmap_id.
  - unfold listening, Hosts_init. cbn [opened closed hosts app].
    assert (forall m : gmap nat (gset nat), (forall h X, m !! h = Some X -> X = ∅) -> sockets_of m = []) as Hm.
    { intros m Hm. unfold sockets_of. assert (Forall (fun e => e.2 = ∅) (map_to_list m)) as Hf.
      { apply Forall_forall. intros [h X] HX%elem_of_map_to_list. by apply Hm in HX. }
      induction Hf as [|[h X] l HX _ IHl]; [ done | ]. cbn in *. by rewrite HX, elements_empty, IHl. }
    rewrite Hm; [ done | ]. intros h X HX. apply elem_of_list_to_map_2 in HX. apply list_elem_of_fmap in HX as (h' & [= -> ->] & _). done.
Qed.

(** C22: whatever a thread asks of the hosts of a loop ([ListenOnPort], [StopListening]),
    whichever of it the loop has executed when the thread destroys the loop, and however many
    commands the loop's thread executes while [Destroy] waits, destroying the loop ends. Every
    request to listen was made to uSockets once, in the order of the calls, with its address and
    port; every callback and promise given to [ListenOnPort] has got the result of its own
    request exactly once, true if and only if uSockets returned a socket, in the loop or in the
    queue that the caller named; no host is left, and every listening socket that was opened has
    been closed once. *)
Theorem destroyed_loop_has_answered_everything hs os n :
  Forall (call_host hs) os ->
  exists l l' outs, call_run (mkLoop (Hosts_init hs) []) os = Some l /\ Loop_Destroy l n = Some l'
    /\ hosts (state l') = ∅ /\ queue l' = [] /\ answered_by_us (listens (commands os)) outs
    /\ opened (state l') = omap (fun o => o) outs /\ opened (state l') ≡ₚ closed (state l')
    /\ fulfilled (state l') = answers false (listens (commands os)) outs /\ queued (state l') = answers true (listens (commands os)) outs.
Proof.
  intros Hos. destruct (call_run_ok hs os Hos (mkLoop (Hosts_init hs) []) [] [] (Hosts_init_ok hs)) as (l & cs & outs & E & Hok & Hq & Ecs); [ by constructor | ].
  destruct (destroy_host_ok _ n _ _ _ _ Hok Hq) as (s' & o' & E' & [He1 He2 He3 He4 He5 He6]). cbn in Ecs. rewrite Ecs in *. by exists l, (mkLoop s' []), o'.
Qed.

End Host.

(** ** Witnesses *)

(** Every address but the one of the last call can be listened on. *)
#[local, refine] Instance counting : Listening := {
  us_listen n used _ port := if port =? 80 then None else Some (fresh used)
}.
Proof. intros n used a port s. destruct (_ =? _); [ done | ]. intros [= <-]. apply is_fresh. Defined.

Definition sample_calls : list call :=
  [AListen 1 [] 7000 IPv4 (Some 10%nat) false; AExecute; AListen 2 [] 7000 IPv6 (Some 11%nat) true; AStop 1;
   AListen 1 [] 80 IPv4 (Some 12%nat) false; AListen 2 [] 7001 IPv4 None false].

Lemma destroyed_loop_has_answered_everything_witness :
  exists l l' outs, call_run (mkLoop (Hosts_init [1%nat; 2%nat]) []) sample_calls = Some l /\ Loop_Destroy l 2 = Some l'
    /\ hosts (state l') = ∅ /\ opened (state l') ≡ₚ closed (state l')
    /\ fulfilled (state l') = answers false (listens (commands sample_calls)) outs /\ fulfilled (state l') = [(10%nat, true); (12%nat, false)]
    /\ queued (state l') = [(11%nat, true)].
Proof.
  destruct (destroyed_loop_has_answered_everything [1%nat; 2%nat] sample_calls 2) as (l & l' & outs & E & E' & Hh & _ & _ & _ & Hc & Hf & _).
  - unfold sample_calls. rewrite !Forall_cons, Forall_nil. split_and!; cbn; (exact I || set_solver).
  - exists l, l', outs. refine (conj E (conj E' (conj Hh (conj Hc (conj Hf _))))).
    vm_compute in E. injection E as <-. vm_compute in E'. injection E' as <-. split; vm_compute; reflexivity.
Defined.

End HostCommands.
