(* ===== verification/UdpHost.v ===== *)
(** * The experimental UDP side of a host (src/HostUStcpUdp.cpp)

    Packets that wait to be sent lie in the slots from [firstFilledSendPacketId] to
    [lastFilledSendPacketId] of a buffer of uSockets; a new packet goes in front of the first
    one when there is room there and behind the last one otherwise. Peers are found by a
    receiving identity, a number that is not zero and not in use. The socket is an interface:
    it sends some packets from the beginning of the range. Receiving is not implemented in the
    source ([_InternalOnUdpPacket] throws), and the only code that calls the sending functions,
    in PeerUStcpUdp.cpp, is commented out: the README lists UDP as not implemented yet. *)

From S2P Require Import Prelude.

Module UdpHost.

(** [us_udp_socket_send_range]: how many of [n] packets are sent, negative for an error. *)
Class UdpSocket (Sock : Type) := {
  send_range : Sock -> Z -> Sock * Z;
  send_range_le : forall s n, 0 <= n -> (send_range s n).2 <= n
}.

(** The slots of a packet buffer of uSockets. *)
Definition UDP_MAX_NUM : Z := 1024.

Section Ring.
Context {Sock : Type} `{UdpSocket Sock} {P : Type}.

(** [slots]: the packets by their slot; [sent]: the packets sent so far. *)
Record Host := mkHost {
  udpSocket : Sock;
  slots : gmap Z P;
  firstFilledSendPacketId : Z;
  lastFilledSendPacketId : Z;
  sent : list P
}.

Definition Host_init (s : Sock) : Host := mkHost s ∅ 0 0 [].

Definition _InternalCanSendMorePackets (h : Host) : bool :=
  u32 (lastFilledSendPacketId h - firstFilledSendPacketId h) <? 1000.

(** The slot of the next packet, as [_InternalGetNextPacketDataPointer] and
    [_InternalFinishSendingPacket] compute it. *)
Definition next_slot (h : Host) : Z :=
  i32 (if 0 <? firstFilledSendPacketId h then u32 (firstFilledSendPacketId h - 1) else lastFilledSendPacketId h).

(** The pointer to a slot; [Some None] is the null pointer, [None] a slot that does not exist. *)
Definition _InternalGetNextPacketDataPointer (h : Host) : option (option Z) :=
  if 0 <=? next_slot h then assert* next_slot h <? UDP_MAX_NUM in Some (Some (next_slot h)) else Some None.

(** The packets in the slots from [i] on. *)
Definition range (h : Host) (i n : Z) : list P :=
  omap (fun k => slots h !! k) (seqZ i n).

Definition _InternalPerformSend (h : Host) : Host :=
  let n := u32 (lastFilledSendPacketId h - firstFilledSendPacketId h) in
  if n =? 0 then h
  else
    let '(s, sentPackets) := send_range (udpSocket h) n in
    if 0 <? sentPackets then
      mkHost s (slots h) (u32 (firstFilledSendPacketId h + sentPackets)) (lastFilledSendPacketId h)
        (sent h ++ range h (firstFilledSendPacketId h) sentPackets)
    else mkHost s (slots h) (firstFilledSendPacketId h) (lastFilledSendPacketId h) (sent h).

(** [p]: the packet the caller has written to the slot. *)
Definition _InternalFinishSendingPacket (h : Host) (p : P) : option Host :=
  let currentSendPacketId := next_slot h in
  assert* (0 <=? currentSendPacketId) && (currentSendPacketId <? UDP_MAX_NUM) in
  let sl := <[currentSendPacketId := p]> (slots h) in
  let h := if u32 currentSendPacketId =? lastFilledSendPacketId h
           then mkHost (udpSocket h) sl (firstFilledSendPacketId h) (u32 (lastFilledSendPacketId h + 1)) (sent h)
           else mkHost (udpSocket h) sl (u32 (firstFilledSendPacketId h - 1)) (lastFilledSendPacketId h) (sent h) in
  Some (if 50 <? u32 (lastFilledSendPacketId h - firstFilledSendPacketId h) then _InternalPerformSend h else h).

(** What a caller does who keeps to the order of the three functions, as the commented-out
    caller in PeerUStcpUdp.cpp does: it asks for room, fills the slot and finishes; and the
    iterations of the loop and the drain event send. *)
Inductive udp_op := USend (p : P) | UPerform.

Definition udp_step (h : Host) (o : udp_op) : option Host :=
  match o with
  | USend p =>
      if _InternalCanSendMorePackets h then
        let* slot := _InternalGetNextPacketDataPointer h in
        match slot with Some _ => _InternalFinishSendingPacket h p | None => None end
      else Some h
  | UPerform => Some (_InternalPerformSend h)
  end.

(** The state and the packets for which there was room. *)
Fixpoint udp_run (h : Host) (os : list udp_op) : option (Host * list P) :=
  match os with
  | [] => Some (h, [])
  | o :: os =>
      let took := match o with USend p => if _InternalCanSendMorePackets h then [p] else [] | UPerform => [] end in
      let* h := udp_step h o in
      let* (h, ps) := udp_run h os in
      Some (h, took ++ ps)
  end.

(** ** Every packet is sent once *)

Definition waiting (h : Host) : list P :=
  range h (firstFilledSendPacketId h) (lastFilledSendPacketId h - firstFilledSendPacketId h).

Record ring_ok (h : Host) (ps : list P) : Prop := {
  ro_first : 0 <= firstFilledSendPacketId h <= lastFilledSendPacketId h;
  ro_last : lastFilledSendPacketId h <= 1000;
  ro_slots : forall k, firstFilledSendPacketId h <= k < lastFilledSendPacketId h -> is_Some (slots h !! k);
  ro_packets : sent h ++ waiting h ≡ₚ ps
}.

Lemma range_split h i a b : 0 <= a -> 0 <= b -> range h i (a + b) = range h i a ++ range h (i + a) b.
Proof. intros Ha Hb. unfold range. rewrite seqZ_app by done. apply omap_app. Qed.

Lemma range_slots h h' i n : (forall k, i <= k < i + n -> slots h' !! k = slots h !! k) -> range h' i n = range h i n.
Proof.
  intros Hk. unfold range. assert (forall l : list Z, (forall k, k ∈ l -> i <= k < i + n) -> omap (fun k => slots h' !! k) l = omap (fun k => slots h !! k) l) as Hl.
  { induction l as [|k l IH]; intros Hl; [ done | ]. cbn. rewrite Hk by (apply Hl; by left). rewrite IH; [ done | ]. intros k' Hk'. apply Hl. by right. }
  apply Hl. intros k Hin. apply elem_of_seqZ in Hin. lia.
Qed.

Lemma range_one h i p : slots h !! i = Some p -> range h i 1 = [p].
Proof. intros Hi. unfold range. rewrite seqZ_cons by lia. rewrite seqZ_nil by lia. cbn. by rewrite Hi. Qed.

Lemma perform_ok h ps : ring_ok h ps -> ring_ok (_InternalPerformSend h) ps.
Proof.
  intros [Hf Hl Hs Hp]. unfold _InternalPerformSend. rewrite u32_small by (unfold is_u32; lia).
  set (n := lastFilledSendPacketId h - firstFilledSendPacketId h) in *. destruct (Z.eqb_spec n 0) as [E | E]; [ done | ].
  pose proof (send_range_le (udpSocket h) n ltac:(lia)) as Hle. destruct (send_range (udpSocket h) n) as [s k]. cbn [snd] in Hle.
  destruct (Z.ltb_spec 0 k) as [Hk | Hk]; [ | done ]. rewrite u32_small by (unfold is_u32; lia).
  split; cbn [firstFilledSendPacketId lastFilledSendPacketId slots sent]; [ lia | lia | intros j Hj; apply Hs; lia | ].
  rewrite <- Hp, <- app_assoc. apply Permutation_app_head. unfold waiting. cbn [firstFilledSendPacketId lastFilledSendPacketId].
  fold n. replace n with (k + (n - k)) at 1 by lia. rewrite range_split by lia. apply Permutation_app_head. unfold range. cbn [slots].
  by replace (lastFilledSendPacketId h - (firstFilledSendPacketId h + k)) with (n - k) by lia.
Qed.

(** The new packet takes a slot next to the range. *)
Lemma finish_ok h ps p : ring_ok h ps -> _InternalCanSendMorePackets h = true ->
  (exists k, _InternalGetNextPacketDataPointer h = Some (Some k) /\ 0 <= k < 1000
     /\ ~ firstFilledSendPacketId h <= k < lastFilledSendPacketId h)
  /\ exists h', _InternalFinishSendingPacket h p = Some h' /\ ring_ok h' (ps ++ [p]).
Proof.
  intros [Hf Hl Hs Hp] Hc. unfold _InternalCanSendMorePackets in Hc. apply Z.ltb_lt in Hc. rewrite u32_small in Hc by (unfold is_u32; lia).
  assert (next_slot h = if 0 <? firstFilledSendPacketId h then firstFilledSendPacketId h - 1 else lastFilledSendPacketId h) as En.
  { unfold next_slot, i32. destruct (Z.ltb_spec 0 (firstFilledSendPacketId h)); rewrite ?u32_small by (unfold is_u32; rewrite ?u32_small; unfold is_u32; lia); cmp. }
  unfold _InternalGetNextPacketDataPointer, _InternalFinishSendingPacket. rewrite En.
  assert (forall h', ring_ok h' (ps ++ [p]) ->
    ring_ok (if 50 <? u32 (lastFilledSendPacketId h' - firstFilledSendPacketId h') then _InternalPerformSend h' else h') (ps ++ [p])) as Hsend
    by (intros h' Hh'; destruct (50 <? _); [ by apply perform_ok | done ]).
  destruct (Z.ltb_spec 0 (firstFilledSendPacketId h)) as [H0 | H0].
  - set (k := firstFilledSendPacketId h - 1) in *.
    rewrite (proj2 (Z.leb_le 0 k)), (proj2 (Z.ltb_lt k UDP_MAX_NUM)) by (unfold UDP_MAX_NUM; lia). cbn [andb]. split; [ exists k; split_and!; [ done | lia.. ] | ].
    rewrite !(u32_small k) by (unfold is_u32; lia). rewrite (proj2 (Z.eqb_neq k _)) by lia. eexists. split; [ done | ]. apply Hsend.
    split; cbn [firstFilledSendPacketId lastFilledSendPacketId slots sent]; [ lia | lia | | ].
    + intros j Hj. destruct (decide (j = k)) as [-> | Hne]; [ rewrite lookup_insert_eq; eauto | ]. rewrite lookup_insert_ne by done. apply Hs. lia.
    + unfold waiting. cbn [firstFilledSendPacketId lastFilledSendPacketId]. fold k.
      replace (lastFilledSendPacketId h - k) with (1 + (lastFilledSendPacketId h - firstFilledSendPacketId h)) by lia. rewrite range_split by lia.
      rewrite (range_one _ k p) by apply lookup_insert_eq. rewrite (range_slots h); [ | cbn [slots]; intros j Hj; rewrite lookup_insert_ne by lia; done ].
      rewrite <- Hp. unfold waiting. replace (k + 1) with (firstFilledSendPacketId h) by lia. solve_Permutation.
  - assert (firstFilledSendPacketId h = 0) as E0 by lia. set (k := lastFilledSendPacketId h) in *.
    rewrite (proj2 (Z.leb_le 0 k)), (proj2 (Z.ltb_lt k UDP_MAX_NUM)) by (unfold UDP_MAX_NUM; lia). cbn [andb]. split; [ exists k; split_and!; [ done | lia.. ] | ].
    rewrite (u32_small k), (u32_small (k + 1)) by (unfold is_u32; lia). rewrite Z.eqb_refl. eexists. split; [ done | ]. apply Hsend.
    split; cbn [firstFilledSendPacketId lastFilledSendPacketId slots sent]; [ lia | lia | | ].
    + intros j Hj. destruct (decide (j = k)) as [-> | Hne]; [ rewrite lookup_insert_eq; eauto | ]. rewrite lookup_insert_ne by done. apply Hs. lia.
    + unfold waiting. cbn [firstFilledSendPacketId lastFilledSendPacketId]. fold k.
      replace (k + 1 - firstFilledSendPacketId h) with ((k - firstFilledSendPacketId h) + 1) by lia. rewrite range_split by lia.
      replace (firstFilledSendPacketId h + (k - firstFilledSendPacketId h)) with k by lia.
      rewrite (range_one _ k p) by apply lookup_insert_eq. rewrite (range_slots h); [ | cbn [slots]; intros j Hj; rewrite lookup_insert_ne by lia; done ].
      rewrite <- Hp. unfold waiting. fold k. solve_Permutation.
Qed.

Lemma udp_run_ok os : forall h ps, ring_ok h ps -> exists h' ps', udp_run h os = Some (h', ps') /\ ring_ok h' (ps ++ ps').
Proof.
  induction os as [|o os IH]; intros h ps Hh; cbn [udp_run]; [ exists h, []; by rewrite app_nil_r | ].
  assert (exists h1, udp_step h o = Some h1 /\ ring_ok h1 (ps ++ match o with USend p => if _InternalCanSendMorePackets h then [p] else [] | UPerform => [] end))
    as (h1 & -> & Hh1).
  { destruct o as [p|]; cbn [udp_step]; [ | eexists; split; [ done | rewrite app_nil_r; by apply perform_ok ] ].
    destruct (_InternalCanSendMorePackets h) eqn:Hc; [ | exists h; by rewrite app_nil_r ].
    destruct (finish_ok h ps p Hh Hc) as ((k & -> & _) & h' & -> & Hh'). by exists h'. }
  destruct (IH h1 _ Hh1) as (h' & ps' & -> & Hh'). eexists _, _. split; [ done | ]. by rewrite app_assoc.
Qed.

(** If the caller asks for room first ([udp_step]): whatever packets are passed to the UDP side of a host and whatever the socket sends,
    every slot that is used lies inside of the packet buffer, no packet that waits is
    overwritten, and the packets for which there was room are those sent so far and those that
    wait, each once. *)
Theorem udp_packets_are_sent_once s os :
  exists h ps, udp_run (Host_init s) os = Some (h, ps) /\ sent h ++ waiting h ≡ₚ ps
    /\ 0 <= firstFilledSendPacketId h <= lastFilledSendPacketId h /\ lastFilledSendPacketId h <= 1000.
Proof.
  destruct (udp_run_ok os (Host_init s) []) as (h & ps & E & [Hf Hl _ Hp]).
  - split; cbn; [ lia | lia | lia | done ].
  - exists h, ps. done.
Qed.

End Ring.

(** ** Receiving identities *)

(** The loop; [used] are the identities in [peerByReceivingIdentity]. *)
Fixpoint find_identity (fuel : nat) (used : gset Z) (firstFree : Z) : option Z :=
  match fuel with
  | O => None
  | S fuel =>
      if (firstFree =? 0) || bool_decide (firstFree ∈ used) then find_identity fuel used (u32 (firstFree + 1)) else Some firstFree
  end.

(** The identity, the new map and the new counter, which stays at the identity. One candidate
    more than there are identities in use, and zero. *)
Definition GenerateNewReceivingIdentityForPeer {Peer} (peerByReceivingIdentity : gmap Z Peer) (firstFree : Z) (peer : Peer)
  : option (Z * gmap Z Peer) :=
  let* i := find_identity (size (dom peerByReceivingIdentity) + 2) (dom peerByReceivingIdentity) firstFree in
  Some (i, <[i := peer]> peerByReceivingIdentity).

(** The candidates of the loop, in order. *)
Definition candidates (n : nat) (firstFree : Z) : list Z := (fun k => u32 (firstFree + k)) <$> seqZ 0 (Z.of_nat n).

Lemma find_identity_spec used fuel : forall f, is_u32 f ->
  match find_identity fuel used f with
  | Some i => is_u32 i /\ i <> 0 /\ i ∉ used
  | None => forall c, c ∈ candidates fuel f -> c = 0 \/ c ∈ used
  end.
Proof.
  induction fuel as [|fuel IH]; intros f Hf; cbn [find_identity]; [ by intros c ?%elem_of_nil | ].
  destruct (Z.eqb_spec f 0) as [E0 | E0]; [ | destruct (bool_decide_reflect (f ∈ used)) as [Hu | Hu]; [ | done ] ]; cbn [orb].
  all: specialize (IH (u32 (f + 1)) ltac:(apply Z.mod_pos_bound; lia)); destruct (find_identity fuel used (u32 (f + 1))) as [i|]; [ done | ].
  all: intros c Hc; unfold candidates in Hc; apply list_elem_of_fmap in Hc as (k & -> & Hk%elem_of_seqZ); destruct (decide (k = 0)) as [-> | Hne].
  1, 3: rewrite Z.add_0_r, u32_small by done; tauto.
  all: apply IH; unfold candidates; apply list_elem_of_fmap; exists (k - 1); split; [ | apply elem_of_seqZ; lia ].
  all: unfold u32; rewrite Zplus_mod_idemp_l; f_equal; lia.
Qed.

Lemma candidates_NoDup n f : Z.of_nat n <= 2 ^ 32 -> NoDup (candidates n f).
Proof.
  intros Hn. unfold candidates. apply NoDup_fmap_2_strong; [ | apply NoDup_seqZ ].
  intros a b Ha%elem_of_seqZ Hb%elem_of_seqZ E. unfold u32 in E.
  pose proof (Z.div_mod (f + a) (2 ^ 32) ltac:(lia)). pose proof (Z.div_mod (f + b) (2 ^ 32) ltac:(lia)). rewrite E in *. nia.
Qed.

(** There is a free identity while the table is not full. *)
Lemma identity_fresh {Peer} (m : gmap Z Peer) firstFree peer :
  is_u32 firstFree -> Z.of_nat (size (dom m)) < 2 ^ 32 - 2 ->
  exists i, GenerateNewReceivingIdentityForPeer m firstFree peer = Some (i, <[i := peer]> m) /\ is_u32 i /\ i <> 0 /\ m !! i = None.
Proof.
  intros Hf Hs. unfold GenerateNewReceivingIdentityForPeer. set (n := (size (dom m) + 2)%nat).
  pose proof (find_identity_spec (dom m) n firstFree Hf) as H. destruct (find_identity n (dom m) firstFree) as [i|].
  - destruct H as (Hi & H0 & Hu). exists i. split_and!; try done. by apply not_elem_of_dom.
  - exfalso. assert (list_to_set (candidates n firstFree) ⊆ ({[0]} ∪ dom m : gset Z)) as Hsub by (intros c Hc%elem_of_list_to_set; apply H in Hc; set_solver).
    apply subseteq_size in Hsub. rewrite size_list_to_set in Hsub by (apply candidates_NoDup; subst n; lia).
    unfold candidates in Hsub. rewrite length_fmap, length_seqZ in Hsub.
    pose proof (size_union_alt ({[0]} : gset Z) (dom m)) as Hu. rewrite size_singleton in Hu.
    pose proof (subseteq_size (dom m ∖ {[0]}) (dom m) ltac:(set_solver)). subst n. lia.
Qed.

(** As long as there are fewer than [2^32 - 2] peers, the search for a receiving identity
    ends; it gives an identity that is not zero and belongs to no peer, whatever the counter
    was before, and registers the peer under it. *)
Theorem receiving_identity_is_fresh {Peer} (m : gmap Z Peer) firstFree peer :
  is_u32 firstFree -> Z.of_nat (size (dom m)) < 2 ^ 32 - 2 ->
  exists i, GenerateNewReceivingIdentityForPeer m firstFree peer = Some (i, <[i := peer]> m) /\ is_u32 i /\ i <> 0 /\ m !! i = None.
Proof. apply identity_fresh. Qed.

(** ** Witnesses *)

(** A socket that sends up to three packets at a time and fails every other time. *)
Definition send_three (b : bool) (n : Z) : bool * Z := (negb b, if b then Z.min 3 n else -1).

Lemma send_three_le b n : 0 <= n -> (send_three b n).2 <= n.
Proof. destruct b; cbn; lia. Qed.

#[export] Instance three_at_a_time : UdpSocket bool := { send_range := send_three; send_range_le := send_three_le }.

(** Five packets; three of them are sent, and the one that comes then overtakes the others. *)
Example udp_packets_example :
  exists h ps, udp_run (Host_init true) [USend 1%nat; USend 2%nat; USend 3%nat; USend 4%nat; UPerform; UPerform; USend 5%nat; UPerform] = Some (h, ps)
    /\ sent h = [1; 2; 3; 5; 4]%nat /\ waiting h = [] /\ ps = [1; 2; 3; 4; 5]%nat.
Proof. eexists _, _. split; [ vm_compute; reflexivity | ]. split_and!; reflexivity. Qed.

Lemma udp_packets_are_sent_once_witness :
  exists h ps, udp_run (Host_init true) [USend 7%nat; UPerform; USend 8%nat] = Some (h, ps) /\ sent h ++ waiting h ≡ₚ ps
    /\ 0 <= firstFilledSendPacketId h <= lastFilledSendPacketId h /\ lastFilledSendPacketId h <= 1000.
Proof. apply (udp_packets_are_sent_once true [USend 7%nat; UPerform; USend 8%nat]). Defined.

Lemma receiving_identity_is_fresh_witness :
  exists i, GenerateNewReceivingIdentityForPeer (<[2 ^ 32 - 1 := 7%nat]> (<[1 := 8%nat]> ∅)) (2 ^ 32 - 1) 9%nat
      = Some (i, <[i := 9%nat]> (<[2 ^ 32 - 1 := 7%nat]> (<[1 := 8%nat]> ∅)))
    /\ is_u32 i /\ i <> 0 /\ (<[2 ^ 32 - 1 := 7%nat]> (<[1 := 8%nat]> ∅) : gmap Z nat) !! i = None.
Proof. apply (receiving_identity_is_fresh (<[2 ^ 32 - 1 := 7%nat]> (<[1 := 8%nat]> ∅)) (2 ^ 32 - 1) 9%nat); [ split; lia | vm_compute; reflexivity ]. Defined.

End UdpHost.
