(* ===== verification/LoopIteration.v ===== *)
(** * One iteration of a loop (src/Loop.cpp, src/Host.cpp, src/RPCEnvironment.cpp)

    [_InternalSingleLoopIteration] executes the commands of the loop's queue, lets every host
    do its part, flushes the peers that have something to send, and looks at one waiting
    callback of a random peer of a random host. It joins the ways to send (SendPaths.v), the
    queue (CommandQueue.v), the flushing of peers (LoopFlush.v), the sockets (PeerSend.v) and
    the waiting callbacks (RpcCalls.v). The commands of the queue here are those of SendPaths.v,
    from one thread. The first theorem follows frames from the thread that sends them to the
    wire; the others say what the check for timeouts and an iteration do to the callbacks. *)

From S2P Require Import Prelude MemoryPool ByteBuffer PeersToFlush PeerManager PeerSend LoopFlush Hash FlatHashMap RpcCalls CommandsBuffer CommandQueue BatchWriter SendPaths.

Module LoopIteration.
Import PeerManager PeerSend LoopFlush SendPaths.

Section Iteration.
Context `{Allocator} {Sock : Type} `{Socket Sock}.
Context {T : Type} {MI : MapImpl T Z RpcCalls.OnReturnCallback}.

(** ** The queue of the loop *)

(** The peers the commands act on ([None] when a command stopped the program), the commands
    in the queue, and those that were executed. *)
Record Queue := mkQueue {
  target : option (@LoopState Sock);
  commands : list cmd;
  executed : list cmd
}.

(** [bulk q n]: how many commands the concurrent queue hands out when [n] are asked for. The
    commands of this queue come from one thread, so that they are handed out in their order. *)
Context (bulk : list cmd -> Z -> nat).

Definition bulk_size (q : list cmd) (n : Z) : nat := Nat.min (bulk q n) (Z.to_nat n).

#[export] Instance loop_queue : ConcurrentQueue Queue cmd := {|
  producer _ := 0%nat;
  CommandQueue.pending := commands;
  done := executed;
  try_dequeue_bulk q n :=
    (take (bulk_size (commands q) n) (commands q),
     mkQueue (target q) (drop (bulk_size (commands q) n) (commands q)) (executed q));
  run c q := mkQueue (let* s := target q in exec_cmd s c) (commands q) (executed q ++ [c])
|}.

#[export] Instance loop_queue_laws : QueueLaws Queue cmd.
Proof.
  split.
  - intros q n Hn. cbn [loop_queue try_dequeue_bulk CommandQueue.pending done fst snd commands executed]. rewrite take_drop.
    split_and!; try done; [ | by intros p; rewrite <- CommandQueue.of_producer_app, take_drop ]. unfold zlen, bulk_size. rewrite length_take. lia.
  - intros c q. split; [ done | ]. exists []. by rewrite app_nil_r.
Qed.

(** ** Random peers *)

(** [Host::_InternalGetRandomPeer]; [r] is the result of [rand()]. *)
Definition Host_GetRandomPeer (s : LoopState) (h : Z) (r : Z) : option PeerHandle :=
  let ps := refs_of (@world Sock s) h in
  if zlen ps =? 0 then Some PeerHandle_default
  else
    let* d := vget ps (r mod zlen ps) in
    let* pd := wst (world s) !! d in
    Some (peerHandle pd).

(** The loop over the hosts, [i] counts them. *)
Fixpoint pick_host (s : LoopState) (hosts : list (Z * bool)) (i r r' : Z) : option PeerHandle :=
  match hosts with
  | [] => Some PeerHandle_default
  | (h, _) :: hosts => if i =? r then Host_GetRandomPeer s h r' else pick_host s hosts (i + 1) r r'
  end.

(** [Loop::_InternalGetRandomPeer]; [r] and [r'] are the results of [rand()]. *)
Definition Loop_GetRandomPeer (s : LoopState) (hosts : list (Z * bool)) (r r' : Z) : option PeerHandle :=
  if zlen hosts =? 0 then Some PeerHandle_default
  else pick_host s hosts 0 (r mod zlen hosts) r'.

(** [Host::ForEachPeer]: the handles the function is called with, in order. *)
Definition ForEachPeer (s : LoopState) (h : Z) : option (list PeerHandle) :=
  mapM (fun d => peerHandle <$> wst (@world Sock s) !! d) (refs_of (world s) h).

(** ** The iteration *)

(** The random numbers of one check: the host, the peer, the entry of its map. *)
Record Draw := mkDraw { r_host : Z; r_peer : Z; r_entry : nat }.

Abbreviation Calls := (gmap nat (@RpcCalls.PeerCalls T)).

(** [RPCEnvironment::CheckForTimeoutFunctionCalls(loop, maxChecks)]. *)
Fixpoint RPCEnvironment_CheckForTimeoutFunctionCalls (s : LoopState) (hosts : list (Z * bool)) (calls : Calls)
  (draws : list Draw) (now : Z) (maxChecks : nat) : option Calls :=
  match maxChecks with
  | O => Some calls
  | S n =>
      let r := hd (mkDraw 0 0 0) draws in
      let* peer := Loop_GetRandomPeer s hosts (r_host r) (r_peer r) in
      if handle_valid peer then
        let* o := GetLocalPeerData (wm (@world Sock s)) peer in
        let* d := o in
        let* c := calls !! d in
        let* c := RpcCalls.CheckForTimeoutFunctionCalls c (RpcCalls.draw c (r_entry r)) now in
        RPCEnvironment_CheckForTimeoutFunctionCalls s hosts (<[d := c]> calls) (tl draws) now n
      else Some calls
  end.

(** [hosts]: the hosts in the order of the loop's set, and whether they have an
    [rpcEnvironment]; [calls]: the waiting callbacks of the peer objects. *)
Record Loop := mkIter {
  peers_of : @LoopState Sock;
  hosts : list (Z * bool);
  calls : Calls;
  commandQueue : list cmd;
  loopSmallIterations : Z
}.

(** [Host::_InternalSingleLoopIteration]: its assertion. *)
Definition Host_InternalSingleLoopIteration (h : Z * bool) : bool := h.2.

Definition _InternalSingleLoopIteration (L : Loop) (draws : list Draw) (now : Z) : option Loop :=
  assert* loopSmallIterations L + 1 <? 2 ^ 63 in
  let* (n, q) := CommandQueue.Execute (1024 * 1024) (mkQueue (Some (peers_of L)) (commandQueue L) []) in
  let* s := target q in
  assert* forallb Host_InternalSingleLoopIteration (hosts L) in
  let* s := FlushPendingPeers s in
  let* cs := RPCEnvironment_CheckForTimeoutFunctionCalls s (hosts L) (calls L) draws now 1 in
  Some (mkIter s (hosts L) cs (commands q) (loopSmallIterations L + 1)).

(** ** What executing commands does *)

Definition send_fits (l : Z) (o : PeerHandle * list Z) : Prop :=
  (handle_valid o.1 = true -> loop o.1 = l) /\ 0 <= id (hid o.1) /\ zlen o.2 < 2 ^ 31.

Definition cmd_fits (l : Z) (c : cmd) : Prop :=
  match c with
  | CSendFrame h f => send_fits l (h, f)
  | CBatchSend l' data => l' = l /\ batch_ok data
  | CDisconnect h => (handle_valid h = true -> loop h = l) /\ 0 <= id (hid h)
  end.

Definition cmd_weight (c : cmd) : Z :=
  match c with CSendFrame _ _ => 1 | CBatchSend _ data => zlen data | CDisconnect _ => 0 end.

Definition cmds_weight (cs : list cmd) : Z := foldr (fun c n => cmd_weight c + n) 0 cs.

Lemma cmd_weight_nonneg c : 0 <= cmd_weight c.
Proof. destruct c; cbn [cmd_weight]; try lia. apply zlen_nonneg. Qed.

Lemma cmds_weight_nonneg cs : 0 <= cmds_weight cs.
Proof. induction cs as [|c cs IH]; cbn; [ lia | ]. change (0 <= cmd_weight c + cmds_weight cs). pose proof (cmd_weight_nonneg c). lia. Qed.

Lemma cmds_weight_app a b : cmds_weight (a ++ b) = cmds_weight a + cmds_weight b.
Proof. induction a as [|c a IH]; cbn; [ done | ]. change (cmd_weight c + cmds_weight (a ++ b) = cmd_weight c + cmds_weight a + cmds_weight b). lia. Qed.

(** The frames for object [d]. *)
Definition frames_for (s : @LoopState Sock) (d : nat) (os : list (PeerHandle * list Z)) : list Z :=
  concat ((fun o : PeerHandle * list Z =>
    if handle_valid o.1 && bool_decide (GetLocalPeerData (wm (world s)) o.1 = Some (Some d)) then o.2 else []) <$> os).

Lemma frames_for_same s s' d os : same_slots s s' -> frames_for s' d os = frames_for s d os.
Proof.
  intros Hss. unfold frames_for. f_equal. apply list_fmap_ext. intros _ o _. by rewrite (same_slots_resolve s s' _ Hss).
Qed.

Lemma frames_for_cons s d o os : frames_for s d (o :: os) = frames_for s d [o] ++ frames_for s d os.
Proof. unfold frames_for. cbn [fmap list_fmap concat]. by rewrite app_nil_r. Qed.

(** What a peer object looks like after [n] frames, with the bytes [b], were given to it. *)
Record given (n : Z) (b : list Z) (p p' : PeerSend.Peer Sock) : Prop := {
  gv_flags : peerFlags p' = peerFlags p;
  gv_count : queue_length p' <= queue_length p + n;
  gv_stream : stream p' = stream p ++ (if has_flag p BIT_DISCONNECTING then [] else b)
}.

Lemma given_none n p : 0 <= n -> given n [] p p.
Proof. intros Hn. split; [ done | lia | ]. by destruct (has_flag _ _); rewrite app_nil_r. Qed.

Lemma given_trans n m a b p p1 p2 : given n a p p1 -> given m b p1 p2 -> given (n + m) (a ++ b) p p2.
Proof.
  intros [F1 C1 S1] [F2 C2 S2]. split; [ congruence | lia | ]. rewrite S2, S1. unfold has_flag in *. rewrite F1.
  destruct (negb _); by rewrite ?app_nil_r, <- ?app_assoc.
Qed.

Lemma send_one_spec c s o : loop_ok c s -> c + 1 < 2 ^ 31 -> send_fits (pm_loop (wm (world s))) o ->
  exists s', ExecutePeerSendFrame s o.1 (Some o.2) = Some s' /\ loop_ok (c + 1) s' /\ same_slots s s'
    /\ forall d p, sends s !! d = Some p -> exists p', sends s' !! d = Some p' /\ given 1 (frames_for s d [o]) p p'.
Proof.
  intros Hs Hc (Hl & Hid & Hf). destruct o as [h f]. cbn [fst snd] in *. unfold ExecutePeerSendFrame, frames_for.
  cbn [fmap list_fmap concat fst snd].
  assert (loop_ok (c + 1) s) as Hsame by (apply (loop_ok_mono c); [ lia | done ]).
  destruct (handle_valid h) eqn:Hv; cbn [andb].
  2:{ exists s. split_and!; try done. intros d p Hp. exists p. split; [ done | ]. by apply given_none. }
  destruct (handle_cases c s h Hs) as [E | (d & p & E & Hat)]; [ split; [ by apply Hl | done ] | | ].
  - rewrite E. exists s. split_and!; try done. intros d p Hp. exists p. split; [ done | ].
    rewrite bool_decide_eq_false_2 by done. by apply given_none.
  - rewrite E. destruct (PeerData_Send_spec c s _ d p f Hs Hc Hat Hf) as (s' & -> & Hs' & [Hss Hpeer Hother Hcount]).
    exists s'. split_and!; try done. intros d' p0 Hp0. destruct (decide (d' = d)) as [-> | Hne].
    + destruct (Hpeer p0 Hp0) as (q & Hq & Hfl & Hst). exists q. split; [ done | ].
      rewrite bool_decide_eq_true_2, app_nil_r by done. split; [ done | by apply Hcount | done ].
    + exists p0. rewrite Hother by done. split; [ done | ]. rewrite bool_decide_eq_false_2 by congruence. by apply given_none.
Qed.

Lemma send_each_spec os : forall c s, loop_ok c s -> c + zlen os < 2 ^ 31 -> Forall (send_fits (pm_loop (wm (world s)))) os ->
  exists s', send_each s os = Some s' /\ loop_ok (c + zlen os) s' /\ same_slots s s'
    /\ forall d p, sends s !! d = Some p -> exists p', sends s' !! d = Some p' /\ given (zlen os) (frames_for s d os) p p'.
Proof.
  induction os as [|o os IH]; intros c s Hs Hc Hos.
  { exists s. rewrite zlen_nil, Z.add_0_r. split_and!; try done. intros d p Hp. exists p. split; [ done | ]. by apply given_none. }
  apply Forall_cons in Hos as [Ho Hos]. rewrite zlen_cons in Hc |- *. pose proof (zlen_nonneg os).
  destruct (send_one_spec c s o Hs ltac:(lia) Ho) as (s1 & E1 & Hs1 & Hss & Hg).
  destruct (IH (c + 1) s1 Hs1 ltac:(lia)) as (s' & E & Hs' & Hss' & Hg'); [ by rewrite (ss_loop _ _ Hss) | ].
  exists s'. destruct o as [h f]. cbn [send_each fst snd] in *. rewrite E1, E. split_and!; [ done | by rewrite Z.add_assoc | by etrans | ].
  intros d p Hp. destruct (Hg d p Hp) as (p1 & Hp1 & G1). destruct (Hg' d p1 Hp1) as (p' & Hp' & G2).
  exists p'. split; [ done | ]. rewrite frames_for_cons. rewrite (frames_for_same s s1 d os Hss) in G2. by eapply given_trans.
Qed.

(** Any command of the queue. *)
Lemma exec_cmd_spec c (s : @LoopState Sock) x : loop_ok c s -> c + cmd_weight x < 2 ^ 31 -> cmd_fits (pm_loop (wm (world s))) x ->
  exists s', exec_cmd s x = Some s' /\ loop_ok (c + cmd_weight x) s' /\ same_slots s s'.
Proof.
  intros Hs Hc Hx. destruct x as [h f | l data | h]; cbn [exec_cmd cmd_weight cmd_fits] in *.
  - destruct (send_one_spec c s (h, f) Hs Hc Hx) as (s' & ? & ? & ? & _). by exists s'.
  - destruct Hx as [-> Hb]. destruct (CommandBatchSend_spec data c s Hs Hc Hb) as (s' & ? & ? & ? & _). by exists s'.
  - destruct Hx as [Hl Hid]. rewrite Z.add_0_r. unfold ExecuteDisconnect.
    destruct (handle_valid h) eqn:Hv; [ | by exists s ].
    destruct (handle_cases c s h Hs) as [-> | (d & p & -> & [Hi Hp])]; [ split; [ by apply Hl | done ] | by exists s | ].
    rewrite Hp. eexists. split; [ done | ]. split; [ | by split ]. destruct (lo_peers _ _ Hs d p Hp) as [Hok _].
    by apply (quiet_event_ok c s d p); [ | | apply disconnect_ok | .. ].
Qed.

Lemma exec_cmds_spec cs : forall c (s : @LoopState Sock), loop_ok c s -> c + cmds_weight cs < 2 ^ 31 -> Forall (cmd_fits (pm_loop (wm (world s)))) cs ->
  exists s', exec_cmds s cs = Some s' /\ loop_ok (c + cmds_weight cs) s' /\ same_slots s s'.
Proof.
  induction cs as [|x cs IH]; intros c s Hs Hc Hcs; [ exists s; cbn; by rewrite Z.add_0_r | ].
  apply Forall_cons in Hcs as [Hx Hcs]. change (cmds_weight (x :: cs)) with (cmd_weight x + cmds_weight cs) in *.
  pose proof (cmd_weight_nonneg x). pose proof (cmds_weight_nonneg cs).
  destruct (exec_cmd_spec c s x Hs ltac:(lia) Hx) as (s1 & E1 & Hs1 & Hss).
  destruct (IH (c + cmd_weight x) s1 Hs1 ltac:(lia)) as (s' & E & Hs' & Hss'); [ by rewrite (ss_loop _ _ Hss) | ].
  exists s'. cbn [exec_cmds]. rewrite E1. split_and!; [ done | by rewrite Z.add_assoc | by etrans ].
Qed.

(** [Execute] on the queue of the loop: it ends, and the commands it took from the front of
    the queue were executed on the peers. *)
Lemma loop_queue_execute s q n : 0 <= n < 2 ^ 31 ->
  exists t q', CommandQueue.Execute n (mkQueue (Some s) q []) = Some (t, q')
    /\ target q' = exec_cmds s (executed q') /\ q = executed q' ++ commands q' /\ 0 <= t <= n.
Proof.
  intros Hn. unfold CommandQueue.Execute.
  destruct (CommandQueue.execute_loop_spec (S (Z.to_nat (n + 512))) n 512 0 (mkQueue (Some s) q [])) as (t & q' & E & Ht & _);
    [ lia.. | ]. rewrite Z.add_0_l in E. exists t, q'. rewrite E.
  pose proof (CommandQueue.execute_loop_history (fun _ _ => eq_refl) _ n _ _ _ _ _ ltac:(lia) E 0%nat) as Eq.
  rewrite !CommandQueue.of_one_producer in Eq by done. cbn in Eq. split_and!; try done; try lia.
  apply (CommandQueue.execute_loop_keeps (fun q' => target q' = exec_cmds s (executed q'))) in E; try done.
  intros x q1 E1. cbn [run loop_queue target executed]. rewrite exec_cmds_app, E1. by destruct (exec_cmds s (executed q1)) as [s1|]; cbn; [ destruct (exec_cmd s1 x) | ].
Qed.

(** When no other thread uses the queue, all of up to a million commands are executed. *)
Definition quiet : Prop := forall q n, bulk q n = length q.

Lemma loop_queue_drained s q n t q' : quiet -> zlen q <= n < 2 ^ 31 ->
  CommandQueue.Execute n (mkQueue (Some s) q []) = Some (t, q') -> commands q' = [].
Proof.
  intros Hq Hn E. pose proof (zlen_nonneg q). unfold CommandQueue.Execute in E.
  refine (CommandQueue.execute_loop_drains _ (fun _ _ => eq_refl) _ _ _ _ _ _ _ _ _ E); [ | lia | done || (cbn; lia) ].
  intros q1 m Hm. cbn. unfold zlen, bulk_size. rewrite Hq, length_take. lia.
Qed.

(** ** Random peers *)

Lemma host_random_peer c s h r : loop_ok c s ->
  exists peer, Host_GetRandomPeer s h r = Some peer /\ (peer = PeerHandle_default \/
    exists d, GetLocalPeerData (wm (world s)) peer = Some (Some d) /\ is_Some (wst (world s) !! d)).
Proof.
  intros Hs. unfold Host_GetRandomPeer. pose proof (zlen_nonneg (refs_of (world s) h)).
  destruct (Z.eqb_spec (zlen (refs_of (world s) h)) 0); [ by eexists; split; [ | left ] | ].
  destruct (vget_is_Some (refs_of (world s) h) (r mod zlen (refs_of (world s) h))) as [d Hd];
    [ pose proof (Z.mod_pos_bound r (zlen (refs_of (world s) h))); lia | ]. rewrite Hd.
  destruct (inv_refs _ (lo_world _ _ Hs) _ _ _ Hd) as (i & pd & Hi & _ & Hpd & _). rewrite Hpd.
  destruct (slot_sends c s i d Hs Hi) as (p & Hat & _).
  destruct (own_handle c s i d p Hs Hat) as (pd' & Hpd' & _ & Hg). assert (pd' = pd) as -> by congruence.
  eexists. split; [ done | right ]. exists d. by rewrite Hpd.
Qed.

Lemma pick_host_random c s hs : loop_ok c s -> forall i r r',
  exists peer, pick_host s hs i r r' = Some peer /\ (peer = PeerHandle_default \/
    exists d, GetLocalPeerData (wm (world s)) peer = Some (Some d) /\ is_Some (wst (world s) !! d)).
Proof.
  intros Hs. induction hs as [|[h b] hs IH]; intros i r r'; cbn [pick_host]; [ by eexists; split; [ | left ] | ].
  destruct (i =? r); [ by eapply host_random_peer | apply IH ].
Qed.

Lemma loop_random_peer c s hs r r' : loop_ok c s ->
  exists peer, Loop_GetRandomPeer s hs r r' = Some peer /\ (peer = PeerHandle_default \/
    exists d, GetLocalPeerData (wm (world s)) peer = Some (Some d) /\ is_Some (wst (world s) !! d)).
Proof.
  intros Hs. unfold Loop_GetRandomPeer. destruct (_ =? _); [ by eexists; split; [ | left ] | by eapply pick_host_random ].
Qed.

(** Every host and every peer can be drawn. *)
Lemma pick_host_at s hs h b r' : forall i j, hs !! i = Some (h, b) ->
  pick_host s hs j (j + Z.of_nat i) r' = Host_GetRandomPeer s h r'.
Proof.
  induction hs as [|[h0 b0] hs IH]; intros [|i] j Hi; cbn [pick_host]; try done.
  - injection Hi as <- <-. by rewrite (proj2 (Z.eqb_eq _ _)) by lia.
  - rewrite (proj2 (Z.eqb_neq _ _)) by lia. replace (j + Z.of_nat (S i)) with (j + 1 + Z.of_nat i) by lia. by apply IH.
Qed.

Lemma draw_peer c s hs h b d : loop_ok c s -> (h, b) ∈ hs -> d ∈ refs_of (world s) h ->
  exists r r' peer, Loop_GetRandomPeer s hs r r' = Some peer /\ handle_valid peer = true
    /\ GetLocalPeerData (wm (world s)) peer = Some (Some d).
Proof.
  intros Hs [i Hi]%list_elem_of_lookup [k Hk]%list_elem_of_lookup.
  pose proof (lookup_lt_Some _ _ _ Hi). pose proof (lookup_lt_Some _ _ _ Hk).
  exists (Z.of_nat i), (Z.of_nat k). unfold Loop_GetRandomPeer.
  rewrite (proj2 (Z.eqb_neq _ _)), Z.mod_small by (unfold zlen; lia).
  rewrite <- (Z.add_0_l (Z.of_nat i)), (pick_host_at s hs h b _ i 0 Hi). unfold Host_GetRandomPeer.
  rewrite (proj2 (Z.eqb_neq _ _)), Z.mod_small, vget_lookup, Hk by (unfold zlen; lia).
  rewrite <- vget_lookup in Hk. destruct (inv_refs _ (lo_world _ _ Hs) _ _ _ Hk) as (j & pd & Hj & _ & Hpd & _). rewrite Hpd.
  destruct (slot_sends c s j d Hs Hj) as (p & Hat & _).
  destruct (own_handle c s j d p Hs Hat) as (pd' & Hpd' & _ & Hg). assert (pd' = pd) as -> by congruence.
  eexists. split_and!; [ done | | done ].
  destruct (live_version _ _ _ (lo_world _ _ Hs) Hj) as [v Hv]. destruct (inv_live _ (lo_world _ _ Hs) _ _ _ Hj Hv) as [h' Hd'].
  rewrite Hpd in Hd'. injection Hd' as ->. unfold handle_valid, slot_handle. cbn [peerHandle hid loop version].
  pose proof (inv_version _ (lo_world _ _ Hs) _ _ Hv). pose proof (inv_loop _ (lo_world _ _ Hs)).
  by rewrite (proj2 (Z.eqb_neq v 0)), (proj2 (Z.eqb_neq (pm_loop _) 0)) by lia.
Qed.

(** Every callback can be drawn. *)
Lemma draw_entry (c : @RpcCalls.PeerCalls T) k cb : RpcCalls.waiting c !! k = Some cb -> exists r, RpcCalls.draw c r = Some k.
Proof.
  intros Hk. pose proof Hk as [r Hr]%elem_of_map_to_list%list_elem_of_lookup. exists r. unfold RpcCalls.draw.
  pose proof (lookup_lt_Some _ _ _ Hr) as Hlt. rewrite <- length_map_to_list, Nat.mod_small by done. by rewrite Hr.
Qed.

(** ** The check for timeouts *)

(** Every peer object has its callbacks. *)
Definition calls_known (s : @LoopState Sock) (cs : Calls) : Prop :=
  (forall d, is_Some (wst (world s) !! d) -> is_Some (cs !! d)) /\ map_Forall (fun _ c => RpcCalls.calls_ok c) cs.

(** One callback of [c] that was over at [now] was removed and told about its timeout. *)
Definition timed_out (now : Z) (c c' : @RpcCalls.PeerCalls T) : Prop :=
  exists k cb, RpcCalls.waiting c !! k = Some cb /\ RpcCalls.IsExpired cb now = true
    /\ RpcCalls.waiting c' = delete k (RpcCalls.waiting c)
    /\ RpcCalls.events c' = RpcCalls.events c ++ [RpcCalls.TimedOut cb] /\ RpcCalls.frames c' = RpcCalls.frames c.

Lemma draw_check c r now : RpcCalls.calls_ok c ->
  exists c', RpcCalls.CheckForTimeoutFunctionCalls c (RpcCalls.draw c r) now = Some c' /\ RpcCalls.calls_ok c'
    /\ (c' = c \/ timed_out now c c').
Proof.
  intros Hc. unfold RpcCalls.draw. destruct (map_to_list (RpcCalls.waiting c) !! _) as [[k cb]|] eqn:El; cbn [fmap option_fmap option_map fst];
    [ | by eexists; split_and!; [ | | left ] ].
  apply list_elem_of_lookup_2, elem_of_map_to_list in El as Ek.
  destruct (RpcCalls.CheckForTimeout_spec c k cb now Hc Ek) as (c' & E & Hc' & Hf & Hw & He).
  exists c'. split_and!; try done. destruct (RpcCalls.IsExpired cb now) eqn:Ex.
  - right. by exists k, cb.
  - left. unfold RpcCalls.CheckForTimeoutFunctionCalls in E. rewrite map_get_ok in E by apply Hc.
    unfold RpcCalls.waiting in Ek. rewrite Ek, Ex in E. by injection E.
Qed.

Lemma check_timeouts_spec c s hs cs draws now : loop_ok c s -> calls_known s cs ->
  exists cs', RPCEnvironment_CheckForTimeoutFunctionCalls s hs cs draws now 1 = Some cs' /\ calls_known s cs'
    /\ (cs' = cs \/ exists d c c', cs !! d = Some c /\ cs' = <[d := c']> cs /\ timed_out now c c').
Proof.
  intros Hs [Hk Hok]. cbn [RPCEnvironment_CheckForTimeoutFunctionCalls].
  destruct (loop_random_peer c s hs (r_host (hd (mkDraw 0 0 0) draws)) (r_peer (hd (mkDraw 0 0 0) draws)) Hs) as (peer & -> & Hp).
  destruct (handle_valid peer) eqn:Hv; [ | by exists cs; split_and!; [ | | left ] ].
  destruct Hp as [-> | (d & -> & Hd)]; [ done | ]. destruct (Hk d Hd) as [ca Eca]. rewrite Eca.
  destruct (draw_check ca (r_entry (hd (mkDraw 0 0 0) draws)) now (Hok d ca Eca)) as (c' & -> & Hc' & Hcase).
  eexists. split; [ done | ]. split.
  - split; [ | by apply map_Forall_insert_2 ]. intros d' Hd'. destruct (decide (d' = d)) as [-> | Hne].
    + rewrite lookup_insert_eq. by eexists.
    + rewrite lookup_insert_ne by done. by apply Hk.
  - destruct Hcase as [-> | Ht]; [ left; by apply insert_id | right; by exists d, ca, c' ].
Qed.

(** Any number of checks. A removed callback is given by its peer, its key and itself. *)
Abbreviation Removed := (nat * Z * RpcCalls.OnReturnCallback)%type.

(** What the removed callbacks [log] are for the peer [d]: they were waiting and expired; exactly
    they are gone; each was told once, in the order of [log]; nothing was sent. *)
Record checked (now : Z) (log : list Removed) (d : nat) (c c' : @RpcCalls.PeerCalls T) : Prop := {
  ck_expired : forall k cb, (d, k, cb) ∈ log -> RpcCalls.waiting c !! k = Some cb /\ RpcCalls.IsExpired cb now = true;
  ck_waiting : forall k, RpcCalls.waiting c' !! k = if bool_decide ((d, k) ∈ log.*1) then None else RpcCalls.waiting c !! k;
  ck_told : RpcCalls.events c' = RpcCalls.events c ++ (RpcCalls.TimedOut <$> (filter (fun x : Removed => x.1.1 = d) log).*2);
  ck_frames : RpcCalls.frames c' = RpcCalls.frames c
}.

Lemma checked_nil now d c : checked now [] d c c.
Proof. split; [ by intros k cb ?%elem_of_nil | done | cbn; by rewrite app_nil_r | done ]. Qed.

Lemma checked_other now d0 k0 cb0 log d c c' : d0 <> d -> checked now log d c c' -> checked now ((d0, k0, cb0) :: log) d c c'.
Proof.
  intros Hne [H1 H2 H3 H4]. split; [ | | by rewrite filter_cons_False | done ].
  - intros k cb [[= <- _ _] | Hin]%elem_of_cons; [ done | by apply H1 ].
  - intros k. rewrite H2. f_equal. cbn [fmap list_fmap fst]. by rewrite (bool_decide_ext ((d, k) ∈ (d0, k0) :: log.*1) ((d, k) ∈ log.*1)) by (rewrite elem_of_cons; naive_solver).
Qed.

Lemma checked_cons now k0 cb0 log d c c1 c' : RpcCalls.waiting c !! k0 = Some cb0 -> RpcCalls.IsExpired cb0 now = true ->
  RpcCalls.waiting c1 = delete k0 (RpcCalls.waiting c) -> RpcCalls.events c1 = RpcCalls.events c ++ [RpcCalls.TimedOut cb0] -> RpcCalls.frames c1 = RpcCalls.frames c ->
  checked now log d c1 c' -> checked now ((d, k0, cb0) :: log) d c c' /\ (d, k0) ∉ log.*1.
Proof.
  intros Hk Hx Hw He Hf [H1 H2 H3 H4]. split; [ split | ].
  - intros k cb [[= -> ->] | Hin]%elem_of_cons; [ done | ]. destruct (H1 k cb Hin) as [Hk1 Hx1]. split; [ | done ]. rewrite Hw in Hk1. by apply lookup_delete_Some in Hk1 as [_ ?].
  - intros k. rewrite H2, Hw. cbn [fmap list_fmap fst]. destruct (decide (k = k0)) as [-> | Hne].
    + rewrite lookup_delete_eq, (bool_decide_true ((d, k0) ∈ (d, k0) :: _)) by (by constructor). by case_bool_decide.
    + rewrite lookup_delete_ne by done. by rewrite (bool_decide_ext ((d, k) ∈ (d, k0) :: log.*1) ((d, k) ∈ log.*1)) by (rewrite elem_of_cons; naive_solver).
  - rewrite H3, He, filter_cons_True, <- app_assoc by done. done.
  - congruence.
  - intros ([[d1 k1] cb] & [= <- <-] & Hin)%list_elem_of_fmap. destruct (H1 k0 cb Hin) as [Hk1 _]. by rewrite Hw, lookup_delete_eq in Hk1.
Qed.

Lemma checks_spec c s hs now n : loop_ok c s -> forall cs draws, calls_known s cs ->
  exists cs' log, RPCEnvironment_CheckForTimeoutFunctionCalls s hs cs draws now n = Some cs' /\ (length log <= n)%nat /\ NoDup log.*1
    /\ dom cs' = dom cs /\ forall d c, cs !! d = Some c -> exists c', cs' !! d = Some c' /\ checked now log d c c'.
Proof.
  intros Hs. induction n as [|n IH]; intros cs draws Hk; cbn [RPCEnvironment_CheckForTimeoutFunctionCalls].
  { exists cs, []. split_and!; try done; [ constructor | ]. intros d c0 Hd. exists c0. split; [ done | apply checked_nil ]. }
  destruct (check_timeouts_spec c s hs cs draws now Hs Hk) as (cs1 & E1 & Hk1 & Hcase). cbn [RPCEnvironment_CheckForTimeoutFunctionCalls] in E1.
  destruct (loop_random_peer c s hs (r_host (hd (mkDraw 0 0 0) draws)) (r_peer (hd (mkDraw 0 0 0) draws)) Hs) as (peer & E & Hp). rewrite E in *. cbn [mbind option_bind] in *.
  destruct (handle_valid peer) eqn:Hv.
  2:{ exists cs, []. split_and!; try done; [ cbn; lia | constructor | ]. intros d c0 Hd. exists c0. split; [ done | apply checked_nil ]. }
  destruct Hp as [-> | (d & Eg & Hd)]; [ done | ]. rewrite Eg in *. destruct (proj1 Hk d Hd) as [ca Eca]. rewrite Eca in *. cbn [mbind option_bind] in *.
  destruct (RpcCalls.CheckForTimeoutFunctionCalls ca _ now) as [ca'|]; [ | done ]. cbn [mbind option_bind] in *. injection E1 as E1. rewrite E1.
  destruct (IH cs1 (tl draws) Hk1) as (cs' & log & -> & Hlen & Hnd & Hdom & Hall).
  destruct Hcase as [-> | (d0 & c0 & c1 & Hc0 & -> & (k0 & cb0 & Hk0 & Hx0 & Hw0 & He0 & Hf0))]; [ exists cs', log; split_and!; try done; lia | ].
  destruct (Hall d0 c1) as (c' & Hc' & Hck); [ by rewrite lookup_insert_eq | ]. destruct (checked_cons now k0 cb0 log d0 c0 c1 c' Hk0 Hx0 Hw0 He0 Hf0 Hck) as [Hck' Hnin].
  exists cs', ((d0, k0, cb0) :: log). split_and!; [ done | cbn; lia | by constructor | | ].
  - rewrite Hdom. apply dom_insert_lookup_L. by eexists.
  - intros d1 x Hx. destruct (decide (d1 = d0)) as [-> | Hne]; [ exists c'; split; [ done | ]; by assert (x = c0) as -> by congruence | ].
    destruct (Hall d1 x) as (x' & Hx' & Hckx); [ by rewrite lookup_insert_ne | ]. exists x'. split; [ done | by apply checked_other ].
Qed.

(** ** The states of a loop *)

(** A loop as programs of LoopFlush.v leave it ([n] bounds its objects and queued frames),
    with hosts that are initialised. *)
Record loop_reached (l n : Z) (L : Loop) : Prop := {
  lr_run : exists ops, loop_run (Loop_init l) ops = Some (peers_of L) /\ Forall op_fits ops /\ weight ops <= n;
  lr_hosts : forallb Host_InternalSingleLoopIteration (hosts L) = true;
  lr_calls : calls_known (peers_of L) (calls L);
  lr_count : 0 <= loopSmallIterations L < 2 ^ 63 - 1
}.

Lemma reached_ok l n L : l <> 0 -> usable 4096 < 2 ^ 30 -> n < 2 ^ 31 -> loop_reached l n L ->
  loop_ok n (peers_of L) /\ pm_loop (wm (world (peers_of L))) = l.
Proof.
  intros Hl Hu Hn [(ops & E & Hops & Hw) _ _ _].
  destruct (loop_run_ok ops 0 (Loop_init l) Hu (Loop_init_ok l Hl)) as (s & E' & Hs & El); [ lia | lia | done | ].
  rewrite E in E'. injection E' as <-. split; [ by apply (loop_ok_mono (0 + weight ops)); [ lia | ] | done ].
Qed.

(** The parts of an iteration, when the commands [q] executed do not stop the program. *)
Lemma loop_iteration_spec l n L draws now t q s : loop_reached l n L ->
  CommandQueue.Execute (1024 * 1024) (mkQueue (Some (peers_of L)) (commandQueue L) []) = Some (t, q) ->
  target q = Some s -> loop_ok (2 ^ 31) s -> same_slots (peers_of L) s ->
  exists L', _InternalSingleLoopIteration L draws now = Some L' /\ commandQueue L' = commands q
    /\ FlushPendingPeers s = Some (peers_of L') /\ hosts L' = hosts L /\ calls_known (peers_of L') (calls L')
    /\ (calls L' = calls L \/ exists d c c', calls L !! d = Some c /\ calls L' = <[d := c']> (calls L) /\ timed_out now c c').
Proof.
  intros [_ Hh Hc Hcnt] Eq Et Hs Hss. unfold _InternalSingleLoopIteration.
  rewrite (proj2 (Z.ltb_lt _ _)) by lia. rewrite Eq, Et, Hh.
  destruct (FlushPendingPeers_spec _ s Hs) as (s' & Ef & Hs' & Hss' & _). rewrite Ef.
  assert (calls_known s' (calls L)) as Hk.
  { destruct Hc as [Hc1 Hc2]. split; [ | done ]. intros d. rewrite (ss_store _ _ Hss'), (ss_store _ _ Hss). apply Hc1. }
  destruct (check_timeouts_spec _ s' (hosts L) (calls L) draws now Hs' Hk) as (cs' & -> & Hk' & Hcase).
  by eexists.
Qed.

Lemma drained_wire p : eager -> peer_ok p -> queue_length p <= 384 ->
  has_flag p BIT_READY = true -> has_flag p BIT_DISCONNECTING = false -> has_flag p BIT_CLOSED = false ->
  PeerSend.pending (visited p) = [] /\ wire (visited p) = stream p.
Proof.
  intros He Hp Hq H1 H2 H3. unfold visited. destruct (_InternalOnWritable_spec p Hp) as (p' & r & E & Hk & Hd).
  destruct (Hd He) as [_ Hpend]; try done.
  { unfold queue_length, zlen in Hq. unfold queued_local. rewrite length_drop. lia. }
  destruct (idle p) eqn:Hid.
  - destruct (idle_on_writable p Hid) as [r' E']. rewrite E' in E. injection E as <- _. split; [ done | ].
    unfold stream. by rewrite Hpend, app_nil_r.
  - rewrite E. split; [ done | ]. destruct Hk as [_ Hst _ _]. unfold stream in Hst. by rewrite Hpend, app_nil_r in Hst.
Qed.

(** ** Properties *)

(** From the sending thread to the wire: frames sent to the peers of a loop, in whichever
    lawful way, and flushed, are on the wire after one iteration of the loop. With a queue
    that no other thread uses at the moment and sockets that accept what they are offered,
    the iteration does not fail, executes every command, and leaves nothing pending in any
    peer that is ready and has at most 384 frames: its wire carries what it was given before,
    followed by exactly the new frames of its handle, in order. *)
Theorem frames_reach_the_wire {St} (R : SendRoute St) l n L os st st' draws now :
  l <> 0 -> usable 4096 < 2 ^ 30 -> loop_reached l n L -> 0 <= n -> n + zlen os < 2 ^ 31 ->
  Forall (send_fits l) os -> @LawfulRoute Sock l St R ->
  route_send_all route_init os = Some st -> route_flush st = Some st' -> queue_of st' = Some (commandQueue L) ->
  zlen (commandQueue L) <= 1024 * 1024 -> quiet -> @eager Sock _ ->
  exists L', _InternalSingleLoopIteration L draws now = Some L' /\ commandQueue L' = []
    /\ forall i d p, at_slot (peers_of L) i d p ->
         has_flag p BIT_READY = true -> has_flag p BIT_DISCONNECTING = false -> has_flag p BIT_CLOSED = false ->
         queue_length p + zlen os <= 384 ->
         exists p', sends (peers_of L') !! d = Some p' /\ PeerSend.pending p' = []
           /\ wire p' = stream p ++ frames_for (peers_of L) d os.
Proof.
  intros Hl Hu HL Hn0 Hn Hos HR Est Efl Equ Hlen Hq He. destruct (reached_ok l n L Hl Hu) as [Hok Hpl]; [ pose proof (zlen_nonneg os); lia | done | ].
  destruct (HR os) as (st1 & st1' & cs & E1 & E2 & E3 & Hcs); [ eapply Forall_impl; [ exact Hos | by intros ? [] ] | ].
  assert (cs = commandQueue L) as -> by congruence. clear E1 E2 E3.
  destruct (loop_queue_execute (peers_of L) (commandQueue L) (1024 * 1024)) as (t & q & Eq & Et & Eh & Ht); [ lia | ].
  assert (commands q = []) as Eno by (apply (loop_queue_drained _ _ _ t q Hq) in Eq; [ done | lia ]). rewrite Eno, app_nil_r in Eh. rewrite <- Eh, Hcs in Et.
  destruct (send_each_spec os n (peers_of L) Hok Hn) as (s & Es & Hs & Hss & Hg); [ by rewrite Hpl | ].
  destruct (loop_iteration_spec l n L draws now t q s HL Eq) as (L' & E & Ec & Ef & _); [ by rewrite Et | apply (loop_ok_mono (n + zlen os)); [ lia | done ] | done | ].
  exists L'. rewrite Ec. split_and!; [ done | done | ]. intros i d p [Hi Hp] H1 H2 H3 Hcnt.
  destruct (Hg d p Hp) as (p1 & Hp1 & [G1 G2 G3]). destruct (FlushPendingPeers_spec _ s Hs) as (s' & Ef' & _ & _ & _ & Hv).
  rewrite Ef in Ef'. injection Ef' as <-. exists (visited p1). unfold has_flag in *. rewrite <- G1 in H1, H2, H3.
  destruct (drained_wire p1 He) as [D1 D2]; [ by apply (lo_peers _ _ Hs d p1) | lia | done | done | done | ].
  split_and!; [ | done | ].
  - apply (Hv i d p1). split; [ by rewrite (ss_peers _ _ Hss) | done ].
  - rewrite D2, G3. rewrite G1 in H2. by rewrite H2.
Qed.

(** An iteration whose queue holds commands that send, send a batch or disconnect, however few of
    them the queue hands out at a time, does not fail: it executes some of them from the front,
    flushes the peers, and at most one waiting callback is removed, of one peer; that callback
    was expired and is told so. *)
Theorem iteration_times_out_only_expired_calls l n L draws now :
  l <> 0 -> usable 4096 < 2 ^ 30 -> loop_reached l n L -> n + cmds_weight (commandQueue L) < 2 ^ 31 ->
  Forall (cmd_fits l) (commandQueue L) ->
  exists L' ran s, _InternalSingleLoopIteration L draws now = Some L' /\ commandQueue L = ran ++ commandQueue L'
    /\ exec_cmds (peers_of L) ran = Some s /\ FlushPendingPeers s = Some (peers_of L')
    /\ (calls L' = calls L \/
        exists d c c', calls L !! d = Some c /\ calls L' = <[d := c']> (calls L) /\ timed_out now c c').
Proof.
  intros Hl Hu HL Hn Hfit. pose proof (cmds_weight_nonneg (commandQueue L)).
  destruct (reached_ok l n L Hl Hu) as [Hok Hpl]; [ lia | done | ].
  destruct (loop_queue_execute (peers_of L) (commandQueue L) (1024 * 1024)) as (t & q & Eq & Et & Eh & Ht); [ lia | ].
  rewrite Eh in Hn, Hfit. rewrite cmds_weight_app in Hn. apply Forall_app in Hfit as [Hfit _].
  pose proof (cmds_weight_nonneg (commands q)). pose proof (cmds_weight_nonneg (executed q)).
  destruct (exec_cmds_spec (executed q) n (peers_of L) Hok) as (s & Es & Hs & Hss); [ lia | by rewrite Hpl | ].
  destruct (loop_iteration_spec l n L draws now t q s HL Eq) as (L' & E & Ec & Ef & _ & _ & Hcase);
    [ by rewrite Et | apply (loop_ok_mono (n + cmds_weight (executed q))); [ lia | done ] | done | ].
  exists L', (executed q), s. by rewrite Ec.
Qed.

(** The check can reach every callback: for each peer of each host of the loop and each of its
    waiting callbacks that is expired there are random numbers with which the check times out
    this callback. *)
Lemma every_expired_call_can_time_out l n L h d c k cb now :
  l <> 0 -> usable 4096 < 2 ^ 30 -> n < 2 ^ 31 -> loop_reached l n L ->
  (h, true) ∈ hosts L -> d ∈ refs_of (world (peers_of L)) h -> calls L !! d = Some c ->
  RpcCalls.waiting c !! k = Some cb -> RpcCalls.IsExpired cb now = true ->
  exists r c', RPCEnvironment_CheckForTimeoutFunctionCalls (peers_of L) (hosts L) (calls L) [r] now 1 = Some (<[d := c']> (calls L))
    /\ RpcCalls.waiting c' = delete k (RpcCalls.waiting c)
    /\ RpcCalls.events c' = RpcCalls.events c ++ [RpcCalls.TimedOut cb].
Proof.
  intros Hl Hu Hn HL Hh Hd Hc Hk Hx. destruct (reached_ok l n L Hl Hu Hn HL) as [Hok _].
  destruct (draw_peer n (peers_of L) (hosts L) h true d Hok Hh Hd) as (r & r' & peer & Ep & Hv & Hg).
  destruct (draw_entry c k cb Hk) as [e He].
  destruct (RpcCalls.CheckForTimeout_spec c k cb now) as (c' & Ec & _ & _ & Hw & Hev); [ by apply (lr_calls _ _ _ HL) in Hc | done | ].
  rewrite Hx in Hw, Hev. exists (mkDraw r r' e), c'. split; [ | done ].
  cbn [RPCEnvironment_CheckForTimeoutFunctionCalls hd tl r_host r_peer r_entry]. by rewrite Ep, Hv, Hg, Hc, He, Ec.
Qed.

(** C25: the check for timeouts touches expired callbacks only, and can reach every one. For
    every loop that its operations lead to, every number of checks and whatever the random
    numbers are, [CheckForTimeoutFunctionCalls] does not fail; at most as many callbacks are
    removed as checks were asked for, no one twice; each of them was waiting and expired, and is
    told its timeout once; all other callbacks of all peers still wait, nothing else was told and
    nothing was sent. Conversely each expired callback of a peer of a host of the loop is
    removed and told by a check with suitable random numbers. *)
Theorem timeout_checks_remove_only_expired_calls l n L draws now maxChecks :
  l <> 0 -> usable 4096 < 2 ^ 30 -> n < 2 ^ 31 -> loop_reached l n L ->
  (exists cs' log, RPCEnvironment_CheckForTimeoutFunctionCalls (peers_of L) (hosts L) (calls L) draws now maxChecks = Some cs'
     /\ (length log <= maxChecks)%nat /\ NoDup log.*1 /\ dom cs' = dom (calls L)
     /\ forall d c, calls L !! d = Some c -> exists c', cs' !! d = Some c' /\ checked now log d c c')
  /\ forall h d c k cb, (h, true) ∈ hosts L -> d ∈ refs_of (world (peers_of L)) h -> calls L !! d = Some c ->
       RpcCalls.waiting c !! k = Some cb -> RpcCalls.IsExpired cb now = true ->
       exists r c', RPCEnvironment_CheckForTimeoutFunctionCalls (peers_of L) (hosts L) (calls L) [r] now 1 = Some (<[d := c']> (calls L))
         /\ RpcCalls.waiting c' = delete k (RpcCalls.waiting c)
         /\ RpcCalls.events c' = RpcCalls.events c ++ [RpcCalls.TimedOut cb].
Proof.
  intros Hl Hu Hn HL. split.
  - destruct (reached_ok l n L Hl Hu Hn HL) as [Hok _]. apply (checks_spec n); [ done | apply HL ].
  - intros h d c k cb. by apply (every_expired_call_can_time_out l n).
Qed.

(** [ForEachPeer] calls the function with the handle of each peer of the host once, and every
    handle resolves to its peer. *)
Theorem for_each_peer_visits_each_once l n L h :
  l <> 0 -> usable 4096 < 2 ^ 30 -> n < 2 ^ 31 -> loop_reached l n L ->
  exists hs, ForEachPeer (peers_of L) h = Some hs /\ NoDup hs
    /\ Forall2 (fun d peer => GetLocalPeerData (wm (world (peers_of L))) peer = Some (Some d)) (refs_of (world (peers_of L)) h) hs.
Proof.
  intros Hl Hu Hn HL. destruct (reached_ok l n L Hl Hu Hn HL) as [Hok _]. unfold ForEachPeer.
  assert (forall d, d ∈ refs_of (world (peers_of L)) h -> exists peer, (peerHandle <$> wst (world (peers_of L)) !! d) = Some peer
    /\ GetLocalPeerData (wm (world (peers_of L))) peer = Some (Some d)) as Href.
  { intros d [k Hk]%elem_vget. destruct (inv_refs _ (lo_world _ _ Hok) _ _ _ Hk) as (j & pd & Hj & _ & Hpd & _).
    destruct (slot_sends n _ j d Hok Hj) as (p & Hat & _). destruct (own_handle n _ j d p Hok Hat) as (pd' & Hpd' & _ & Hg).
    exists (peerHandle pd'). by rewrite Hpd'. }
  pose proof (refs_NoDup _ h (lo_world _ _ Hok)) as Hnd. induction Hnd as [|d ds Hd Hnd IH]; [ by exists []; split_and!; try constructor | ].
  destruct (Href d) as (peer & Ep & Hg); [ by constructor | ]. destruct IH as (hs & Es & Hnd' & Hall); [ intros d' Hd'; apply Href; by constructor | ].
  exists (peer :: hs). cbn [mapM]. rewrite Ep. cbn. unfold mapM in *. rewrite Es. split_and!; [ done | | by constructor ].
  constructor; [ | done ]. intros [k Hk]%list_elem_of_lookup. destruct (Forall2_lookup_r _ _ _ _ _ Hall Hk) as (d' & Hd' & Hg').
  rewrite Hg in Hg'. injection Hg' as <-. by apply Hd, (list_elem_of_lookup_2 _ k).
Qed.

End Iteration.
(** ** Witnesses *)

#[local] Existing Instances RpcCalls.callbacks_map.

(** A loop with one ready peer of one host; its calls and the commands of its queue. *)
Definition sample_ops : list (@loop_op unit) := [LOpen 0 5 tt; LReady 0].

Abbreviation sample_map := (FHM.FlatHashMap Z RpcCalls.OnReturnCallback).

Definition sample_loop (s : @LoopState unit) (c : @RpcCalls.PeerCalls sample_map) (q : list cmd) : @Loop unit sample_map :=
  mkIter s [(5, true)] {[0%nat := c]} q 0.

Lemma sample_reached s c q : loop_run (Loop_init 100) sample_ops = Some s -> RpcCalls.calls_ok c ->
  loop_reached 100 1 (sample_loop s c q).
Proof.
  intros E Hc. constructor.
  - exists sample_ops. split; [ exact E | ]. split; [ | vm_compute; discriminate ].
    unfold sample_ops. rewrite !Forall_cons, Forall_nil. exact (conj I (conj I I)).
  - reflexivity.
  - assert (wst (world s) = {[0%nat := mkData 5 (mkHandle (mkId 0 1) 100) (mkHandle (mkId 0 1) 100)]}) as Ew
      by (vm_compute in E; injection E as <-; reflexivity).
    split; [ | by apply map_Forall_singleton ]. cbn [peers_of calls sample_loop]. rewrite Ew.
    intros d [x [<- _]%lookup_singleton_Some]. rewrite lookup_singleton_eq. by eexists.
  - cbn [loopSmallIterations sample_loop]. lia.
Qed.

Lemma sample_sends_fit : Forall (send_fits 100) sample_sends.
Proof.
  unfold sample_sends. rewrite !Forall_cons, Forall_nil. unfold send_fits. cbn [fst snd].
  split_and!; try done; intros Hv; vm_compute in Hv; discriminate Hv.
Qed.

Lemma sample_eager : @eager unit _.
Proof. intros s n more _. reflexivity. Qed.

#[local] Instance sample_route : SendRoute Batched := batched_route BatchWriter.sample_index BatchWriter.doubling 100 true.

Definition sample_queue : list cmd := [CBatchSend 100 [([1; 2], mkId 0 1); ([4], mkId 0 1)]].

Lemma frames_reach_the_wire_witness :
  exists s L' p', loop_run (Loop_init 100) sample_ops = Some s
    /\ _InternalSingleLoopIteration (fun q n => length q) (sample_loop s RpcCalls.no_calls sample_queue) [] 7 = Some L'
    /\ commandQueue L' = [] /\ sends (peers_of L') !! 0%nat = Some p' /\ wire p' = [1; 2; 4].
Proof.
  destruct (loop_run (Loop_init 100) sample_ops) as [s|] eqn:E; [ | vm_compute in E; discriminate E ].
  assert (exists p, at_slot s 0 0%nat p /\ stream p = [] /\ queue_length p = 0 /\ peerFlags p = 1
    /\ frames_for s 0 sample_sends = [1; 2; 4]) as (p & Hat & Hst & Hq & Hf & Hfr).
  { vm_compute in E. injection E as <-. eexists. split_and!; [ split; reflexivity | reflexivity.. ]. }
  destruct (route_send_all route_init sample_sends) as [st|] eqn:E1; [ | vm_compute in E1; discriminate E1 ].
  destruct (route_flush st) as [st'|] eqn:E2; [ | discriminate E2 ].
  assert (queue_of st' = Some sample_queue) as E3.
  { vm_compute in E1. injection E1 as <-. vm_compute in E2. injection E2 as <-. reflexivity. }
  destruct (frames_reach_the_wire (fun q n => length q) sample_route 100 1 (sample_loop s RpcCalls.no_calls sample_queue)
    sample_sends st st' [] 7) as (L' & EL & Ec & Hw);
    [ lia | reflexivity | apply sample_reached; [ exact E | apply RpcCalls.no_calls_spec ] | lia | reflexivity
    | apply sample_sends_fit | | exact E1 | exact E2 | exact E3 | vm_compute; discriminate | intros q n; reflexivity
    | apply sample_eager | ].
  - apply (batched_lawful BatchWriter.sample_live); [ apply BatchWriter.sample_nonzero | apply BatchWriter.sample_range | apply BatchWriter.sample_inj | apply BatchWriter.doubling_ge | by left ].
  - destruct (Hw 0 0%nat p Hat) as (p' & Hp' & _ & Hwire); [ unfold has_flag; by rewrite Hf.. | rewrite Hq; vm_compute; discriminate | ].
    exists s, L', p'. refine (conj eq_refl (conj EL (conj Ec (conj Hp' _)))). rewrite Hwire, Hst. exact Hfr.
Defined.

(** One command at a time, and a disconnection behind a frame. *)
Definition sample_commands : list cmd :=
  [CSendFrame (mkHandle (mkId 0 1) 100) [8; 9]; CDisconnect (mkHandle (mkId 0 1) 100); CSendFrame PeerHandle_default [1]].

Lemma sample_commands_fit : Forall (cmd_fits 100) sample_commands.
Proof.
  repeat constructor; cbn [fst snd id hid loop PeerHandle_default]; try lia; try (vm_compute; congruence).
Qed.

(** A peer with one call that is over at time 100: a check at time 101 tells it. *)
#[local] Existing Instances RpcCalls.le_codec.

Lemma timeout_checks_remove_only_expired_calls_witness :
  exists s c k r c', loop_run (Loop_init 100) sample_ops = Some s /\ RpcCalls.Call RpcCalls.no_calls [1; 2; 3] (RpcCalls.mkCallback 7 false 100) 1 = Some c
    /\ RPCEnvironment_CheckForTimeoutFunctionCalls s [(5, true)] (calls (sample_loop s c [])) [r] 101 1 = Some (<[0%nat := c']> (calls (sample_loop s c [])))
    /\ RpcCalls.waiting c !! k = Some (RpcCalls.mkCallback 7 false 100) /\ RpcCalls.waiting c' = ∅
    /\ RpcCalls.events c' = RpcCalls.events c ++ [RpcCalls.TimedOut (RpcCalls.mkCallback 7 false 100)].
Proof.
  destruct (loop_run (Loop_init 100) sample_ops) as [s|] eqn:E; [ | vm_compute in E; discriminate E ].
  destruct (RpcCalls.Call_spec RpcCalls.no_calls [1; 2; 3] (RpcCalls.mkCallback 7 false 100) 1) as (c & k & frm & Ec & Hc & _ & _ & _ & Hw & _);
    [ apply RpcCalls.no_calls_spec | intros Ez; vm_compute in Ez; discriminate Ez
    | rewrite (proj2 RpcCalls.no_calls_spec), map_size_empty; reflexivity | rewrite (proj2 RpcCalls.no_calls_spec), map_size_empty; reflexivity | ].
  rewrite (proj2 RpcCalls.no_calls_spec), insert_empty in Hw.
  destruct (timeout_checks_remove_only_expired_calls 100 1 (sample_loop s c []) [] 101 1) as [_ Hr];
    [ lia | reflexivity | lia | apply sample_reached; [ exact E | exact Hc ] | ].
  destruct (Hr 5 0%nat c k (RpcCalls.mkCallback 7 false 100)) as (r & c' & Er & Hd & He).
  - left.
  - vm_compute in E. injection E as <-. vm_compute. left.
  - apply lookup_singleton_eq.
  - rewrite Hw. apply lookup_singleton_eq.
  - reflexivity.
  - exists s, c, k, r, c'. refine (conj eq_refl (conj Ec (conj Er (conj _ (conj _ He))))).
    + rewrite Hw. apply lookup_singleton_eq.
    + rewrite Hd, Hw. apply delete_singleton_eq.
Defined.

Lemma iteration_times_out_only_expired_calls_witness :
  exists s L' ran s', loop_run (Loop_init 100) sample_ops = Some s
    /\ _InternalSingleLoopIteration (fun q n => 1%nat) (sample_loop s RpcCalls.no_calls sample_commands) [mkDraw 3 4 5] 7 = Some L'
    /\ sample_commands = ran ++ commandQueue L' /\ exec_cmds s ran = Some s' /\ FlushPendingPeers s' = Some (peers_of L').
Proof.
  destruct (loop_run (Loop_init 100) sample_ops) as [s|] eqn:E; [ | vm_compute in E; discriminate E ].
  destruct (iteration_times_out_only_expired_calls (fun q n => 1%nat) 100 1 (sample_loop s RpcCalls.no_calls sample_commands) [mkDraw 3 4 5] 7)
    as (L' & ran & s' & EL & Er & Es & Ef & _);
    [ lia | reflexivity | apply sample_reached; [ exact E | apply RpcCalls.no_calls_spec ] | reflexivity | | ].
  - apply sample_commands_fit.
  - exists s, L', ran, s'. exact (conj eq_refl (conj EL (conj Er (conj Es Ef)))).
Defined.

End LoopIteration.
