(* ===== verification/Delivery.v ===== *)
(** * From one process to the other

    The path of a message through the library, from the thread that sends it to the callback
    of the receiver: the frame of the message (FramingProtocol.v), one of the ways to send
    (SendPaths.v), the queue, the iteration of the loop and the flush of its peers
    (LoopIteration.v), the socket (PeerSend.v), the network, which delivers the bytes in
    pieces, and the decoder of the receiver (FrameDecoder.v). *)

From S2P Require Import Prelude MemoryPool ByteBuffer FramingProtocol FrameDecoder PeersToFlush PeerManager PeerSend LoopFlush Hash FlatHashMap RpcCalls BatchWriter CommandsBuffer CommandQueue SendPaths LoopIteration.

Module Delivery.
Import PeerManager PeerSend LoopFlush SendPaths LoopIteration FrameDecoder FramingProtocol.

Section Delivery.
Context `{Allocator} {Sock : Type} `{Socket Sock}.
Context {T : Type} {MI : MapImpl T Z RpcCalls.OnReturnCallback}.

(** Messages and the handles of the peers they are for. *)
Implicit Types ms : list (PeerHandle * message).

Definition frames_of ms : list (PeerHandle * list Z) := (fun m => (m.1, frame_of m.2)) <$> ms.

(** The messages for object [d], in order. *)
Definition messages_for (s : @LoopState Sock) (d : nat) ms : list message :=
  snd <$> filter (fun m : PeerHandle * message =>
    handle_valid m.1 = true /\ GetLocalPeerData (wm (world s)) m.1 = Some (Some d)) ms.

Lemma frames_for_messages s d ms : frames_for s d (frames_of ms) = concat (frame_of <$> messages_for s d ms).
Proof.
  unfold frames_for, frames_of, messages_for. induction ms as [|[h m] ms IH]; [ done | ].
  cbn [fmap list_fmap concat fst snd]. rewrite filter_cons. cbn [fst].
  destruct (decide (handle_valid h = true /\ GetLocalPeerData (wm (world s)) h = Some (Some d))) as [[Hv Hg] | Hn].
  - rewrite Hv, bool_decide_eq_true_2 by done. cbn [andb fmap list_fmap concat snd]. by f_equal.
  - destruct (handle_valid h); cbn [andb]; [ | exact IH ]. rewrite bool_decide_eq_false_2 by (intros ?; by apply Hn). exact IH.
Qed.

Lemma messages_for_ok s d ms : Forall (fun m => message_ok m.2) ms -> Forall message_ok (messages_for s d ms).
Proof.
  intros Hms. apply Forall_fmap, Forall_forall. intros m [_ Hm]%list_elem_of_filter. by apply (proj1 (Forall_forall _ _) Hms m Hm).
Qed.

(** A message that fits: its handle is of the loop, or of none; its frame is not too long. *)
Definition message_fits (l : Z) (m : PeerHandle * message) : Prop :=
  (handle_valid m.1 = true -> loop m.1 = l) /\ 0 <= id (hid m.1) /\ message_ok m.2.

Lemma frames_fit l ms : Forall (message_fits l) ms -> Forall (send_fits l) (frames_of ms).
Proof.
  intros Hms. apply Forall_fmap. eapply Forall_impl; [ exact Hms | ]. intros [h m] (Hl & Hid & Hm). cbn [fst snd] in *.
  split_and!; try done. destruct (frame_of_spec m Hm) as (header & Ef & Hz & _ & _ & _ & _ & Hhs). destruct Hm as [Hm _].
  cbn [fst snd]. rewrite Ef, zlen_app. lia.
Qed.

(** ** Delivery *)

Context {Env : Type} (sole : Env -> bool) (onPacket : option (Env -> list Z -> Z -> Env * fate)).
Context (bulk : list cmd -> Z -> nat).

(** C3: messages of 1 to [2^28] bytes sent by one thread to the peers of a loop, as commands,
    through a commands buffer or through a batch writer, arrive as long as the sockets take
    what they are given. The queue of the loop holds the commands of these messages, at most
    [1024 * 1024], and nothing else, and no other thread adds to it meanwhile; the sockets
    accept all bytes they are offered ([eager]; under back-pressure the rest waits in the
    peer, see [send_path_keeps_the_stream]). Then one iteration of the loop empties the queue
    and, for every peer that is ready, not closing and not closed, has with the new frames at
    most 384 frames in its queue and was sent whole frames before, puts the frames of its
    messages on its wire: whatever pieces the network delivers these bytes in, a new decoder
    on the other side calls the callback once for each message of that peer, those sent before
    and the new ones, in order, with body and type as they were sent, and keeps nothing back.
    Messages for peers that are gone or with invalid handles are ignored and disturb no other;
    valid handles are of this loop. The loop has had fewer than [2^31] peers and frames. *)
Theorem messages_are_delivered {St} (R : SendRoute St) l n L ms st st' draws now :
  l <> 0 -> usable 4096 < 2 ^ 30 -> loop_reached l n L -> 0 <= n -> n + zlen ms < 2 ^ 31 ->
  Forall (message_fits l) ms -> @LawfulRoute Sock l St R ->
  route_send_all route_init (frames_of ms) = Some st -> route_flush st = Some st' -> queue_of st' = Some (commandQueue L) ->
  zlen (commandQueue L) <= 1024 * 1024 -> quiet bulk -> @eager Sock _ ->
  exists L', _InternalSingleLoopIteration bulk L draws now = Some L' /\ commandQueue L' = []
    /\ forall i d p before, at_slot (peers_of L) i d p ->
         has_flag p BIT_READY = true -> has_flag p BIT_DISCONNECTING = false -> has_flag p BIT_CLOSED = false ->
         queue_length p + zlen ms <= 384 ->
         Forall message_ok before -> stream p = concat (frame_of <$> before) ->
         exists p', sends (peers_of L') !! d = Some p'
           /\ forall chunks e, concat chunks = wire p' -> Forall (fun c => zlen c < 2 ^ 32) chunks ->
              exists dec dec', FrameDecoder_init = Some dec
                /\ push_chunks sole onPacket dec chunks e =
                     Some (dec', deliver onPacket e ((fun m => (frame_of m, frame_header_size m)) <$> before ++ messages_for (peers_of L) d ms))
                /\ contents (_writable_buffer dec') = []
                /\ Forall (fun m => drop (Z.to_nat (frame_header_size m)) (frame_of m) = m.1
                        /\ GetPacketFlags (frame_of m) 0 = Some (Z.land m.2 6)) (before ++ messages_for (peers_of L) d ms).
Proof.
  intros Hl Hu HL Hn0 Hn Hms HR E1 E2 E3 Hlen Hq He.
  assert (zlen (frames_of ms) = zlen ms) as Ez by (unfold frames_of, zlen; by rewrite length_fmap).
  destruct (frames_reach_the_wire bulk R l n L (frames_of ms) st st' draws now) as (L' & EL & Ec & Hw);
    try done; [ lia | by apply frames_fit | ].
  exists L'. split_and!; [ done | done | ]. intros i d p before Hat H1 H2 H3 Hcnt Hb Est.
  destruct (Hw i d p Hat H1 H2 H3) as (p' & Hp' & _ & Hwire); [ lia | ]. exists p'. split; [ done | ].
  intros chunks e Ech Hch. rewrite Hwire, Est, frames_for_messages, <- concat_app, <- fmap_app in Ech.
  destruct (push_frames_spec sole onPacket (before ++ messages_for (peers_of L) d ms) chunks e) as (dec & dec' & D1 & D2 & D3 & _ & D4);
    [ | done | done | ].
  { apply Forall_app. split; [ done | ]. apply messages_for_ok. eapply Forall_impl; [ exact Hms | by intros ? (? & ? & ?) ]. }
  by exists dec, dec'.
Qed.

End Delivery.

(** ** Witness *)

#[local] Existing Instances RpcCalls.callbacks_map sample_route.

Definition sample_messages : list (PeerHandle * message) :=
  [(mkHandle (mkId 0 1) 100, ([7; 8], 2)); (PeerHandle_default, ([3], 0)); (mkHandle (mkId 0 1) 100, ([9], 0))].

Definition sample_delivery : list cmd := [CBatchSend 100 [([0x14; 7; 8], mkId 0 1); ([0x00; 9], mkId 0 1)]].

Lemma sample_messages_fit : Forall (message_fits 100) sample_messages.
Proof. repeat constructor; cbn [fst snd id hid loop PeerHandle_default]; try lia; vm_compute; congruence. Qed.

Lemma messages_are_delivered_witness :
  exists s L' p', loop_run (Loop_init 100) sample_ops = Some s
    /\ _InternalSingleLoopIteration (fun q n => length q) (sample_loop s RpcCalls.no_calls sample_delivery) [] 7 = Some L'
    /\ sends (peers_of L') !! 0%nat = Some p'
    /\ forall chunks, concat chunks = wire p' -> Forall (fun c => zlen c < 2 ^ 32) chunks ->
       exists dec dec', FrameDecoder_init = Some dec
         /\ push_chunks (fun _ => true) (Some record_frames) dec chunks [] = Some (dec', [[0x14; 7; 8]; [0x00; 9]]).
Proof.
  destruct (loop_run (Loop_init 100) sample_ops) as [s|] eqn:E; [ | vm_compute in E; discriminate E ].
  assert (exists p, at_slot s 0 0%nat p /\ stream p = [] /\ queue_length p = 0 /\ peerFlags p = 1
    /\ messages_for s 0 sample_messages = [([7; 8], 2); ([9], 0)]) as (p & Hat & Hst & Hq & Hf & Hfr).
  { vm_compute in E. injection E as <-. eexists. split_and!; [ split; reflexivity | reflexivity.. ]. }
  destruct (route_send_all route_init (frames_of sample_messages)) as [st|] eqn:E1; [ | vm_compute in E1; discriminate E1 ].
  destruct (route_flush st) as [st'|] eqn:E2; [ | discriminate E2 ].
  assert (queue_of st' = Some sample_delivery) as E3.
  { vm_compute in E1. injection E1 as <-. vm_compute in E2. injection E2 as <-. reflexivity. }
  destruct (messages_are_delivered (fun _ => true) (Some record_frames) (fun q n => length q) sample_route 100 1
    (sample_loop s RpcCalls.no_calls sample_delivery) sample_messages st st' [] 7) as (L' & EL & _ & Hd);
    [ lia | reflexivity | apply sample_reached; [ exact E | apply RpcCalls.no_calls_spec ] | lia | reflexivity
    | apply sample_messages_fit | | exact E1 | exact E2 | exact E3 | vm_compute; discriminate | intros q n; reflexivity
    | apply sample_eager | ].
  - apply (batched_lawful BatchWriter.sample_live); [ apply BatchWriter.sample_nonzero | apply BatchWriter.sample_range | apply BatchWriter.sample_inj | apply BatchWriter.doubling_ge | by left ].
  - destruct (Hd 0 0%nat p [] Hat) as (p' & Hp' & Hc);
      [ unfold has_flag; by rewrite Hf.. | rewrite Hq; vm_compute; discriminate | apply Forall_nil; exact I | exact Hst | ].
    exists s, L', p'. refine (conj eq_refl (conj EL (conj Hp' _))). intros chunks Ech Hch.
    destruct (Hc chunks [] Ech Hch) as (dec & dec' & D1 & D2 & _). exists dec, dec'. split; [ exact D1 | ].
    cbn [peers_of sample_loop] in D2. rewrite D2, Hfr. reflexivity.
Defined.

End Delivery.
