(* ===== verification/ReturnCallback.v ===== *)
(** * The functions a program passes to a call (OnReturnCallback.hpp, OnReturnCallback.cpp)

    RpcCalls.v decides which waiting callback gets which answer, or times out. This file says
    what the callback then does: [OnReturnCallback::Make] stores the functions of the user in a
    command object; [Execute] and [ExecuteTimeout] fill in the answer or the timeout, move the
    object into an execution queue or run it at once, and the object calls one of the two
    functions. A callback whose object was moved out is null: using it again stops the program.
    The theorem composes both: no callback is used twice, and the user's functions are called
    with what was received. *)

From S2P Require Import Prelude Hash FlatHashMap MemoryPool ByteBuffer FramingProtocol PeersToFlush PeerManager RpcCalls.

Module ReturnCallback.
Import PeerManager.

Section Callbacks.
(** The result type and how bitscpp reads it. *)
Context {V : Type} (read_value : list Z -> V).

(** [ExecuteReturnCallbackStdfunction<Tret>], or its specialisation for [void]; the functions
    of the user are named by numbers, an empty [std::function] is [None]. *)
Record Command := mkCommand {
  peer : PeerHandle;
  reader : list Z;
  flags : Z;
  timedOut : bool;
  returns_void : bool;
  onReturned : option nat;
  onTimeout : option nat
}.

(** The calls of the user's functions. *)
Inductive user_call :=
| UReturned (f : nat) (p : PeerHandle) (fl : Z) (v : option V)
| UTimeout (f : nat) (p : PeerHandle).

Definition ExecuteOnReturn (c : Command) (v : option V) : list user_call :=
  match onReturned c with Some f => [UReturned f (peer c) (flags c) v] | None => [] end.

Definition ExecuteTimeout_command (c : Command) : list user_call :=
  match onTimeout c with Some f => [UTimeout f (peer c)] | None => [] end.

(** [ExecuteReturnCallback<Tret>::Execute] and [ExecuteReturnCallback<void>::Execute]. *)
Definition Execute_command (c : Command) : list user_call :=
  if timedOut c then ExecuteTimeout_command c
  else if returns_void c then ExecuteOnReturn c None
  else ExecuteOnReturn c (Some (read_value (reader c))).

(** [OnReturnCallback]: the owned command, the queue to run it in, the time limit, and the
    object it keeps alive ([std::shared_ptr<void>], [None] is null). *)
Record OnReturnCallback := mkOnReturn {
  callback : option Command;
  executionQueue : option Z;
  timeoutTimePoint : Z;
  pointerHolder : option nat
}.

(** The functions called so far, the commands in the queues, the warnings in the log. *)
Record World := mkWorld {
  calls : list user_call;
  queues : gmap Z (list Command);
  warnings : Z
}.

(** [OnReturnCallback::Make] at time [now] (nanoseconds). *)
Definition Make (void : bool) (onReturned onTimeout : option nat) (timeoutMilliseconds : Z) (p : PeerHandle)
  (queue : option Z) (holder : option nat) (now : Z) : OnReturnCallback :=
  mkOnReturn (Some (mkCommand p [] 0 false void onReturned onTimeout)) queue (now + timeoutMilliseconds * 1000000) holder.

(** [IsExpired]. *)
Definition IsExpired (o : OnReturnCallback) (t : Z) : bool := timeoutTimePoint o <? t.

(** The move constructor and [operator=]: the target, and what is left of the source. An
    assignment to a callback that still owns a command keeps that command. *)
Definition move_callback (o : OnReturnCallback) : OnReturnCallback * OnReturnCallback :=
  (mkOnReturn (callback o) (executionQueue o) (timeoutTimePoint o) (pointerHolder o), mkOnReturn None None (timeoutTimePoint o) None).

Definition assign_callback (this o : OnReturnCallback) : OnReturnCallback * OnReturnCallback :=
  match callback this with
  | Some c => (mkOnReturn (Some c) (executionQueue o) (timeoutTimePoint o) (pointerHolder o), mkOnReturn (callback o) None (timeoutTimePoint o) None)
  | None => (mkOnReturn (callback o) (executionQueue o) (timeoutTimePoint o) (pointerHolder o), mkOnReturn None None (timeoutTimePoint o) None)
  end.

(** The end of [Execute] and [ExecuteTimeout]: the command is moved into the queue or run; the
    handle is null afterwards. *)
Definition hand_over (w : World) (o : OnReturnCallback) (c : Command) : World * OnReturnCallback :=
  (match executionQueue o with
   | Some q => mkWorld (calls w) (<[q := default [] (queues w !! q) ++ [c]]> (queues w)) (warnings w)
   | None => mkWorld (calls w ++ Execute_command c) (queues w) (warnings w)
   end, mkOnReturn None (executionQueue o) (timeoutTimePoint o) (pointerHolder o)).

Definition Execute (w : World) (o : OnReturnCallback) (peerHandle : PeerHandle) (fl : Z) (r : list Z)
  : option (World * OnReturnCallback) :=
  let* c := callback o in
  let w := if negb (bool_decide (peerHandle = peer c)) then mkWorld (calls w) (queues w) (warnings w + 1) else w in
  Some (hand_over w o (mkCommand (peer c) r fl false (returns_void c) (onReturned c) (onTimeout c))).

Definition ExecuteTimeout (w : World) (o : OnReturnCallback) : option (World * OnReturnCallback) :=
  let* c := callback o in
  Some (hand_over w o (mkCommand (peer c) (reader c) (flags c) true (returns_void c) (onReturned c) (onTimeout c))).

(** ** The events of a peer *)

Abbreviation Store := (gmap nat OnReturnCallback).

(** What RpcCalls.v records as an event, on the callback objects; [p] is the handle of the
    peer that got the answer. *)
Definition run_event (p : PeerHandle) (s : World * Store) (e : RpcCalls.event) : option (World * Store) :=
  let '(w, st) := s in
  let t := RpcCalls.token (RpcCalls.event_callback e) in
  let* o := st !! t in
  let* (w, o) := match e with
                 | RpcCalls.Returned _ fl answer => Execute w o p fl answer
                 | RpcCalls.TimedOut _ => ExecuteTimeout w o
                 end in
  Some (w, <[t := o]> st).

Fixpoint run_events (p : PeerHandle) (s : World * Store) (es : list RpcCalls.event) : option (World * Store) :=
  match es with
  | [] => Some s
  | e :: es => let* s := run_event p s e in run_events p s es
  end.

(** ** What the user sees *)

(** The function of [o] an event is about, called with what was received. *)
Definition sees (o : OnReturnCallback) (e : RpcCalls.event) : list user_call :=
  match callback o, e with
  | Some c, RpcCalls.Returned _ fl answer =>
      match onReturned c with
      | Some f => [UReturned f (peer c) fl (if returns_void c then None else Some (read_value answer))]
      | None => []
      end
  | Some c, RpcCalls.TimedOut _ => match onTimeout c with Some f => [UTimeout f (peer c)] | None => [] end
  | None, _ => []
  end.

(** What the events of the callbacks with the queue [q] make the user see, in order. *)
Definition seen (st : Store) (q : option Z) (es : list RpcCalls.event) : list user_call :=
  concat ((fun e => match st !! RpcCalls.token (RpcCalls.event_callback e) with
                    | Some o => if decide (executionQueue o = q) then sees o e else []
                    | None => []
                    end) <$> es).

(** What is called at once, and what the commands of a queue call when they are executed. *)
Definition observed (w : World) (q : option Z) : list user_call :=
  match q with
  | None => calls w
  | Some q => concat (Execute_command <$> default [] (queues w !! q))
  end.

Lemma hand_over_observed w o c q :
  observed (hand_over w o c).1 q = observed w q ++ (if decide (executionQueue o = q) then Execute_command c else []).
Proof.
  unfold hand_over, observed. destruct (executionQueue o) as [q'|]; destruct q as [q|]; cbn [fst calls queues].
  - destruct (decide (Some q' = Some q)) as [[= ->] | Hne].
    + rewrite lookup_insert_eq. cbn. rewrite fmap_app, concat_app. cbn. by rewrite app_nil_r.
    + rewrite lookup_insert_ne, app_nil_r by congruence. done.
  - rewrite decide_False by done. by rewrite app_nil_r.
  - rewrite decide_False by done. by rewrite app_nil_r.
  - by rewrite decide_True.
Qed.

Lemma run_event_spec p w st e o : st !! RpcCalls.token (RpcCalls.event_callback e) = Some o -> is_Some (callback o) ->
  exists w', run_event p (w, st) e = Some (w', <[RpcCalls.token (RpcCalls.event_callback e)
       := mkOnReturn None (executionQueue o) (timeoutTimePoint o) (pointerHolder o)]> st)
    /\ forall q, observed w' q = observed w q ++ seen st q [e].
Proof.
  intros Ho [c Hc]. unfold run_event, seen. rewrite Ho. cbn [fmap list_fmap concat]. rewrite Ho.
  destruct e as [cb fl answer | cb]; cbn [RpcCalls.event_callback] in *; unfold Execute, ExecuteTimeout, sees; rewrite Hc.
  - eexists (hand_over _ o _).1. split; [ reflexivity | ]. intros q. rewrite hand_over_observed, app_nil_r. f_equal; [ by destruct (negb _), q | ].
    unfold Execute_command, ExecuteOnReturn. cbn. by destruct (decide _), (returns_void c), (onReturned c).
  - eexists (hand_over _ o _).1. split; [ reflexivity | ]. intros q. rewrite hand_over_observed, app_nil_r. f_equal.
Qed.

Lemma seen_cons st q e es : seen st q (e :: es) = seen st q [e] ++ seen st q es.
Proof. unfold seen. cbn [fmap list_fmap concat]. by rewrite app_nil_r. Qed.

(** Callbacks of other events do not matter. *)
Lemma seen_other st q t o es : t ∉ (RpcCalls.token <$> (RpcCalls.event_callback <$> es)) -> seen (<[t := o]> st) q es = seen st q es.
Proof.
  intros Ht. unfold seen. f_equal. apply list_fmap_ext. intros i e He. rewrite lookup_insert_ne; [ done | ].
  intros ->. apply Ht. by apply list_elem_of_fmap_2, list_elem_of_fmap_2, (list_elem_of_lookup_2 _ i).
Qed.

(** Events of different callbacks that still own their commands. *)
Lemma run_events_spec p es : forall w st,
  NoDup (RpcCalls.token <$> (RpcCalls.event_callback <$> es)) ->
  Forall (fun e => exists o, st !! RpcCalls.token (RpcCalls.event_callback e) = Some o /\ is_Some (callback o)) es ->
  exists w' st', run_events p (w, st) es = Some (w', st')
    /\ (forall q, observed w' q = observed w q ++ seen st q es)
    /\ forall t, t ∉ (RpcCalls.token <$> (RpcCalls.event_callback <$> es)) -> st' !! t = st !! t.
Proof.
  induction es as [|e es IH]; intros w st Hnd Hown; cbn [run_events].
  { exists w, st. split_and!; try done. intros q. by rewrite app_nil_r. }
  apply NoDup_cons in Hnd as [Hnew Hnd]. apply Forall_cons in Hown as [(o & Ho & Hc) Hown].
  destruct (run_event_spec p w st e o Ho Hc) as (w1 & -> & Hobs).
  destruct (IH w1 (<[RpcCalls.token (RpcCalls.event_callback e) := mkOnReturn None (executionQueue o) (timeoutTimePoint o) (pointerHolder o)]> st) Hnd)
    as (w' & st' & -> & Hobs' & Hkeep).
  { apply Forall_forall. intros e' He'. destruct (proj1 (Forall_forall _ _) Hown e' He') as (o' & Ho' & Hc').
    exists o'. rewrite lookup_insert_ne; [ done | ]. intros E. apply Hnew. rewrite E. by apply list_elem_of_fmap_2, list_elem_of_fmap_2. }
  exists w', st'. split_and!; [ done | | ].
  - intros q. rewrite Hobs', Hobs, seen_other, <- app_assoc by done. by rewrite <- seen_cons.
  - intros t Ht. cbn [fmap list_fmap] in Ht. apply not_elem_of_cons in Ht as [Hne Ht]. rewrite Hkeep, lookup_insert_ne by done. done.
Qed.

(** A callback made with a time limit is not expired before it, and expired from the next
    nanosecond on; moving it changes nothing but the owner. *)
Theorem made_callback_expires_after_its_limit void f g ms p q holder now t :
  let o := Make void f g ms p q holder now in
  IsExpired o t = bool_decide (now + ms * 1000000 < t)
  /\ (move_callback o).1 = o /\ callback (move_callback o).2 = None
  /\ assign_callback (move_callback o).2 o = move_callback o.
Proof.
  intros o. split_and!; try done. unfold IsExpired, o, Make. cbn [timeoutTimePoint].
  destruct (Z.ltb_spec (now + ms * 1000000) t); case_bool_decide; (done || lia).
Qed.

(** A callback with a queue moves its command there, but keeps the object it holds: the
    command runs without it, after the callback itself is gone. *)
Theorem queued_command_leaves_its_holder w void f g ms p q h now fl answer :
  let o := Make void f g ms p (Some q) (Some h) now in
  exists w' o' c, Execute w o p fl answer = Some (w', o') /\ queues w' !! q = Some (default [] (queues w !! q) ++ [c])
    /\ calls w' = calls w /\ callback o' = None /\ pointerHolder o' = Some h.
Proof.
  intros o. unfold Execute, o, Make. cbn [callback]. rewrite bool_decide_eq_true_2 by done. cbn.
  eexists _, _, _. split_and!; [ reflexivity | cbn; by rewrite lookup_insert_eq | done | done | done ].
Qed.

Context `{Allocator} `{U32Codec} {T : Type} {MI : MapImpl T Z RpcCalls.OnReturnCallback}.

(** C26: in every sequence of calls, answers and timeout checks on a peer, no callback object
    is used after its command was moved out, so no null command is executed; the functions
    the user passed are called at most once per call, at once or when the commands of the
    chosen queue are executed, in the order of the events, [onReturned] with the flags and
    the value that was received, [onTimeout] for a timeout; callbacks that still wait are
    untouched. *)
Theorem user_functions_are_called_once (p0 : @RpcCalls.PeerCalls T) os (st : Store) peerHandle :
  RpcCalls.calls_ok p0 -> RpcCalls.waiting p0 = ∅ -> RpcCalls.events p0 = [] -> Forall RpcCalls.call_small os ->
  Z.of_nat (length os) <= map_limit -> Z.of_nat (length os) < 2 ^ 32 - 1 ->
  NoDup (RpcCalls.token <$> RpcCalls.issued os) ->
  Forall (fun c => exists o, st !! RpcCalls.token c = Some o /\ is_Some (callback o)) (RpcCalls.issued os) ->
  exists p w st', RpcCalls.call_run p0 os = Some p
    /\ run_events peerHandle (mkWorld [] ∅ 0, st) (RpcCalls.events p) = Some (w, st')
    /\ (forall q, observed w q = seen st q (RpcCalls.events p))
    /\ NoDup (RpcCalls.token <$> (RpcCalls.event_callback <$> RpcCalls.events p))
    /\ forall k c, RpcCalls.waiting p !! k = Some c -> st' !! RpcCalls.token c = st !! RpcCalls.token c.
Proof.
  intros Hp Hw He Hos Hlim Hs Hnd Hown.
  destruct (RpcCalls.call_run_spec os p0 Hp Hos) as (p & E & _ & Hperm); [ rewrite Hw, map_size_empty; lia .. | ].
  unfold RpcCalls.all_callbacks in Hperm. rewrite Hw, He, map_to_list_empty, app_nil_r in Hperm.
  rewrite <- Hperm in Hnd, Hown. rewrite fmap_app in Hnd. apply NoDup_app in Hnd as (_ & Hdis & Hnd).
  apply Forall_app in Hown as [_ Hown]. rewrite Forall_fmap in Hown.
  destruct (run_events_spec peerHandle (RpcCalls.events p) (mkWorld [] ∅ 0) st Hnd Hown) as (w & st' & Er & Hobs & Hkeep).
  exists p, w, st'. split_and!; try done.
  - intros q. rewrite Hobs. by destruct q as [q|].
  - intros k c Hk. apply Hkeep, Hdis. apply list_elem_of_fmap_2. apply list_elem_of_fmap. exists (k, c).
    split; [ done | by apply elem_of_map_to_list ].
Qed.

End Callbacks.

(** ** Witness *)

#[local] Existing Instances RpcCalls.callbacks_map RpcCalls.le_codec.

(** The first call is answered at once, the second one times out in queue 9. *)
Definition sample_store : gmap nat OnReturnCallback :=
  {[1%nat := Make false (Some 11%nat) (Some 12%nat) 10 PeerHandle_default None None 0;
    2%nat := Make true (Some 21%nat) (Some 22%nat) 20 PeerHandle_default (Some 9) None 0]}.

Lemma user_functions_are_called_once_witness :
  exists p w st', RpcCalls.call_run RpcCalls.no_calls RpcCalls.sample_calls = Some p
    /\ run_events le_load PeerHandle_default (mkWorld [] ∅ 0, sample_store) (RpcCalls.events p) = Some (w, st')
    /\ observed le_load w None = [UReturned 11 PeerHandle_default 5 (Some 9)]
    /\ observed le_load w (Some 9) = [UTimeout 22 PeerHandle_default].
Proof.
  destruct (user_functions_are_called_once le_load RpcCalls.no_calls RpcCalls.sample_calls sample_store PeerHandle_default)
    as (p & w & st' & E & Er & Hobs & _);
    [ apply RpcCalls.no_calls_spec | apply RpcCalls.no_calls_spec | reflexivity | | vm_compute; congruence | reflexivity | | | ].
  - repeat constructor; vm_compute; congruence.
  - apply (bool_decide_unpack _). vm_compute. exact I.
  - repeat constructor; (eexists; split; [ vm_compute; reflexivity | by eexists ]).
  - exists p, w, st'. split; [ exact E | ]. split; [ exact Er | ]. rewrite !Hobs.
    vm_compute in E. injection E as <-. split; vm_compute; reflexivity.
Defined.

End ReturnCallback.
