(* ===== verification/RpcSend.v ===== *)
(** * Calls that want no answer, from end to end (include/icon7/RPCEnvironment.hpp)

    [RPCEnvironment::Send] serialises the name of a remote function and its arguments behind
    room for a header, writes the header and hands the frame to the loop of the peer: as a
    command, through a commands buffer or through a batch writer. The theorem follows such
    calls through the loop and the network (LoopIteration.v, Delivery.v) to the functions of
    the other process (RpcDispatch.v). The bytes of an argument are what bitscpp writes for
    it; the functions read them back with their own readers. *)

From S2P Require Import Prelude MemoryPool ByteBuffer FramingProtocol FrameDecoder PeersToFlush PeerManager PeerSend LoopFlush Hash FlatHashMap RpcCalls RpcRegistry RpcDispatch BatchWriter CommandsBuffer CommandQueue SendPaths LoopIteration Delivery.

Module RpcSend.
Import PeerManager LoopFlush SendPaths LoopIteration Delivery FrameDecoder FramingProtocol.

Section Send.
Context `{Allocator} `{NameCodec}.

(** ** Serialisation *)

Definition InitializeSerializeSend (buf : ByteBufferWritable) (name : RpcRegistry.RpcName) : option ByteBufferWritable :=
  assert* RpcRegistry.name_bool name in
  let* nb := RpcDispatch.RpcName_write name in
  append buf nb.

(** [(writer.op(args), ...)]: one argument after the other. *)
Fixpoint op_args (buf : ByteBufferWritable) (args : list (list Z)) : option ByteBufferWritable :=
  match args with
  | [] => Some buf
  | a :: args => let* buf := append buf a in op_args buf args
  end.

Definition FinalizeSerializeSend (buf : ByteBufferWritable) (flags : Z) : option ByteBufferWritable :=
  let flags := Z.lor flags FLAGS_CALL_NO_FEEDBACK in
  WriteHeaderIntoBuffer buf flags.

Definition SerializeSend (flags : Z) (name : RpcRegistry.RpcName) (args : list (list Z)) : option (list Z) :=
  let* buf := InitializeSerializeSend ByteBufferWritable_default name in
  let* buf := op_args buf args in
  let* buf := FinalizeSerializeSend buf flags in
  Some (contents buf).

(** ** The overloads of [Send] *)

Definition Send (q : list cmd) (peer : PeerHandle) (flags : Z) (name : RpcRegistry.RpcName) (args : list (list Z))
  : option (list cmd) :=
  let* frame := SerializeSend flags name args in
  Peer_Send q peer (Some frame).

Definition Send_buffered (st : Buffered) (peer : PeerHandle) (flags : Z) (name : RpcRegistry.RpcName) (args : list (list Z))
  : option Buffered :=
  let* frame := SerializeSend flags name args in
  Peer_Send_buffered st peer (Some frame).

Definition Send_batched (index : Z -> Z) (grow : Z -> Z -> Z) (st : Batched) (peer : PeerHandle) (flags : Z)
  (name : RpcRegistry.RpcName) (args : list (list Z)) : option Batched :=
  let* frame := SerializeSend flags name args in
  Peer_Send_batched index grow st peer (Some frame).

(** ** What is written *)

(** One use of [Send]. *)
Record invocation := mkInvocation {
  target : PeerHandle;
  iflags : Z;
  iname : RpcRegistry.RpcName;
  iargs : list (list Z)
}.

Definition name_of (v : invocation) : list Z := default [] (RpcDispatch.RpcName_write (iname v)).
Definition body (v : invocation) : list Z := name_of v ++ concat (iargs v).
Definition message_of (v : invocation) : PeerHandle * message := (target v, (body v, Z.lor (iflags v) FLAGS_CALL_NO_FEEDBACK)).

(** The name is a name, bytes are bytes, and the frame is not too long. *)
Record invocation_ok (v : invocation) : Prop := {
  io_name : RpcRegistry.name_ok (iname v);
  io_short : zlen (RpcRegistry.str (iname v)) < 2 ^ 28;
  io_str : Forall is_u8 (RpcRegistry.str (iname v));
  io_args : Forall is_u8 (concat (iargs v));
  io_size : 1 <= zlen (body v) <= 2 ^ 28;
  io_flags : Z.land (iflags v) 6 = 0
}.

Lemma op_args_spec args : forall w, wf w -> _size w + zlen (concat args) <= MAX_RESERVE ->
  exists w', op_args w args = Some w' /\ wf w' /\ contents w' = contents w ++ concat args
    /\ _size w' = _size w + zlen (concat args) /\ (_offset w' = _offset w \/ _offset w' = INITIAL_DATA_OFFSET).
Proof.
  induction args as [|a args IH]; intros w Hw Hs; cbn [op_args concat].
  { exists w. rewrite zlen_nil, app_nil_r, Z.add_0_r. by split_and!; [ .. | left ]. }
  cbn [concat] in Hs. rewrite zlen_app in Hs |- *. pose proof (zlen_nonneg (concat args)). pose proof (zlen_nonneg a).
  destruct (append_spec w a Hw) as (w1 & -> & [W1 C1 S1 _ _ O1]); [ lia | ].
  destruct (IH w1 W1) as (w' & -> & W' & C' & S' & O'); [ lia | ].
  exists w'. split_and!; [ done | done | by rewrite C', C1, <- app_assoc | lia | ]. destruct O1, O'; (left; congruence) || (right; congruence).
Qed.

Lemma write_name v : invocation_ok v ->
  RpcDispatch.RpcName_write (iname v) = Some (name_of v) /\ RpcRegistry.name_bool (iname v) = true
  /\ (forall more e, RpcDispatch.RpcName_read (RpcDispatch.mkReader (name_of v ++ more) e) = (iname v, RpcDispatch.mkReader more e))
  /\ Forall is_u8 (body v).
Proof.
  intros [Hn Hz Hs Ha _ _]. unfold name_of, body, name_of.
  destruct (RpcDispatch.RpcName_round_trip_spec (iname v) Hn Hz) as (nb & E & Hread). rewrite E. cbn [default].
  split_and!; [ done | apply (RpcRegistry.name_ok_cases _ Hn) | done | ].
  apply Forall_app. split; [ | done ]. by eapply RpcDispatch.name_bytes.
Qed.

Lemma SerializeSend_spec v : invocation_ok v -> SerializeSend (iflags v) (iname v) (iargs v) = Some (frame_of (message_of v).2).
Proof.
  intros Hv. pose proof (io_size _ Hv) as Hsz. unfold body in Hsz. rewrite zlen_app in Hsz.
  destruct (write_name v Hv) as (Ew & Hb & _ & _). pose proof (zlen_nonneg (name_of v)). pose proof (zlen_nonneg (concat (iargs v))).
  unfold SerializeSend, InitializeSerializeSend. rewrite Hb, Ew.
  destruct (append_spec ByteBufferWritable_default (name_of v)) as (w1 & -> & [W1 C1 S1 _ _ O1]);
    [ done | unfold MAX_RESERVE, INITIAL_DATA_OFFSET; simpl; lia | ]. cbn in C1, S1.
  destruct (op_args_spec (iargs v) w1 W1) as (w2 & -> & W2 & C2 & S2 & O2); [ unfold MAX_RESERVE, INITIAL_DATA_OFFSET; lia | ].
  assert (_size w2 = zlen (body v)) as Es by (unfold body; rewrite zlen_app; lia).
  destruct (wf_valid w2 W2) as [Hv2 Hv2']. pose proof (wf_size w2 W2).
  rewrite (proj2 (Z.eqb_neq (_capacity w2) 0)) in Hv2 by lia. rewrite Hv2 in Hv2'. symmetry in Hv2'. apply negb_true_iff, Z.eqb_neq in Hv2'.
  assert (_offset w2 = 32) as Ho by (unfold INITIAL_DATA_OFFSET in *; cbn in O1; destruct O1, O2; congruence).
  unfold FinalizeSerializeSend.
  destruct (WriteHeaderIntoBuffer_in_place w2 (Z.lor (iflags v) FLAGS_CALL_NO_FEEDBACK) W2 Hv2 Ho) as (w3 & header & -> & Eh & _ & C3 & _);
    [ rewrite Es; apply Hv | ].
  f_equal. unfold frame_of, message_of, frame. cbn [fst snd]. rewrite <- Es, Eh. cbn [default]. by rewrite C3, C2, C1.
Qed.

(** Every overload, for a valid handle, is the corresponding way to send of SendPaths.v. *)
Definition sends_like {St} `{SendRoute St} (send : St -> PeerHandle -> Z -> RpcRegistry.RpcName -> list (list Z) -> option St) : Prop :=
  forall st v, invocation_ok v -> handle_valid (target v) = true ->
    send st (target v) (iflags v) (iname v) (iargs v) = route_send st (target v) (Some (frame_of (message_of v).2)).

Lemma Send_like : sends_like (H2 := direct_route) Send.
Proof. intros st v Hv Ht. unfold Send. rewrite SerializeSend_spec by done. cbn. unfold PeerHandle_Send. by rewrite Ht. Qed.

Lemma Send_buffered_like t0 times : sends_like (H2 := buffered_route t0 times) Send_buffered.
Proof. intros st v Hv Ht. unfold Send_buffered. rewrite SerializeSend_spec by done. cbn. unfold PeerHandle_Send_buffered. by rewrite Ht. Qed.

Lemma Send_batched_like index grow l writer : sends_like (H2 := batched_route index grow l writer) (Send_batched index grow).
Proof. intros st v Hv Ht. unfold Send_batched. rewrite SerializeSend_spec by done. cbn. unfold PeerHandle_Send_batched. by rewrite Ht. Qed.

Fixpoint send_invocations {St} (send : St -> PeerHandle -> Z -> RpcRegistry.RpcName -> list (list Z) -> option St)
  (st : St) (vs : list invocation) : option St :=
  match vs with
  | [] => Some st
  | v :: vs => let* st := send st (target v) (iflags v) (iname v) (iargs v) in send_invocations send st vs
  end.

Lemma send_invocations_route {St} (R : SendRoute St) send vs : sends_like send ->
  Forall (fun v => invocation_ok v /\ handle_valid (target v) = true) vs -> forall st,
  send_invocations send st vs = route_send_all st (frames_of (message_of <$> vs)).
Proof.
  intros Hs. induction 1 as [|v vs [Hv Ht] _ IH]; intros st; [ done | ].
  cbn [send_invocations fmap list_fmap frames_of route_send_all fst snd]. rewrite Hs by done. cbn [message_of fst].
  destruct (route_send st (target v) _); [ apply IH | done ].
Qed.

(** ** The other process *)

Context {T : Type} {MI : MapImpl T Z RpcCalls.OnReturnCallback} {V : Type}.
Context (sole : option (@RpcDispatch.Peer T V) -> bool).

Abbreviation Environment := (@RpcRegistry.RPCEnvironment (@RpcDispatch.Function V)).
Abbreviation Receiver := (@RpcDispatch.Peer T V).

(** The function registered under the name of [v], without a queue of its own, reads the
    arguments [xs] from the bytes of [v] without an error. *)
Definition understands (e : Environment) (p : Receiver) (v : invocation) (xs : list RpcDispatch.ArgValue) : Prop :=
  exists ptr c r, RpcRegistry.FindConverter e (iname v) = Some (Some ptr) /\ RpcRegistry.heap e !! ptr = Some c
    /\ RpcRegistry.name c = iname v
    /\ RpcDispatch._executionQueue (RpcRegistry.fn c) = None /\ RpcDispatch.getExecutionQueue (RpcRegistry.fn c) = None
    /\ RpcDispatch.read_args p (RpcDispatch.loopQueue p) 1 (RpcDispatch.mkReader (concat (iargs v)) 0) (RpcDispatch.args (RpcRegistry.fn c)) = (xs, r)
    /\ RpcDispatch.errors r = 0.

(** Only the handle, the host and the queue of the peer matter. *)
Record same_peer (p p' : Receiver) : Prop := {
  sp_host : RpcDispatch.host p' = RpcDispatch.host p;
  sp_handle : RpcDispatch.peerHandle p' = RpcDispatch.peerHandle p;
  sp_queue : RpcDispatch.loopQueue p' = RpcDispatch.loopQueue p
}.

Lemma read_args_same p p' q fl ks : same_peer p p' -> forall r, RpcDispatch.read_args p' q fl r ks = RpcDispatch.read_args p q fl r ks.
Proof.
  intros [E1 E2 _]. induction ks as [|k ks IH]; intros r; [ done | ]. cbn [RpcDispatch.read_args].
  replace (RpcDispatch.ReadType p' q fl r k) with (RpcDispatch.ReadType p q fl r k) by (destruct k; cbn; congruence).
  destruct (RpcDispatch.ReadType p q fl r k) as [x r']. by rewrite IH.
Qed.

Lemma understands_same e p p' v xs : same_peer p p' -> understands e p v xs -> understands e p' v xs.
Proof.
  intros Hp (ptr & c & r & ? & ? & ? & ? & ? & Hargs & ?). exists ptr, c, r. by rewrite (read_args_same p p' _ _ _ Hp), (sp_queue _ _ Hp).
Qed.

(** One frame: the function runs, nothing is sent back. *)
Lemma receive_invocation e p v xs : invocation_ok v -> understands e p v xs ->
  RpcDispatch._InternalOnPacket e p (frame_of (message_of v).2) (frame_header_size (message_of v).2)
  = Some (RpcDispatch.add_executed (RpcDispatch.count p RpcDispatch.add_frame) (iname v, xs), Released).
Proof.
  intros Hv Hu. destruct (RpcDispatch.frame_packet (T := T) (V := V) (body v) (Z.lor (iflags v) FLAGS_CALL_NO_FEEDBACK)) as (frm & Ef & Hp);
    [ apply Hv | ]. unfold frame_of, frame_header_size, message_of. cbn [fst snd]. rewrite Ef. cbn [default].
  change FLAGS_CALL_NO_FEEDBACK with 0 in *. rewrite Z.lor_0_r in *. rewrite (io_flags _ Hv) in Hp. rewrite Hp by done.
  apply (understands_same e p (RpcDispatch.count p RpcDispatch.add_frame)) in Hu; [ | done ].
  destruct Hu as (ptr & c & r & Hf & Hh & Hc & Hq & Hg & Hargs & Herr). destruct (write_name v Hv) as (_ & Hb & Hread & _).
  unfold RpcDispatch.OnReceive_reader, RpcDispatch.OnReceiveCall. cbn [RpcDispatch.errors]. change (Z.lor 1 0) with 1. change (Z.land 1 6) with 0.
  change (0 =? 0) with true. change (0 =? FLAGS_CALL) with false. change (0 =? FLAGS_CALL_NO_FEEDBACK) with true. cbn [orb].
  unfold body. rewrite Hread, Hf, Hh. unfold RpcDispatch.ExecuteGetQueue, RpcDispatch.DeserializeAndExecute.
  rewrite Hc, Hb, Hq, Hg, Hargs, Herr. cbn [negb Z.eqb]. unfold RpcDispatch.MessageReturnExecutor_Execute. cbn [negb andb Z.eqb]. by rewrite Hc.
Qed.

Lemma deliver_invocations e vxs : forall p,
  Forall (fun vx => invocation_ok vx.1 /\ understands e p vx.1 vx.2) vxs ->
  exists p', deliver (Some (RpcDispatch._Internal_static_OnPacket e)) (Some p)
      ((fun m => (frame_of m, frame_header_size m)) <$> ((fun vx => (message_of vx.1).2) <$> vxs)) = Some p'
    /\ RpcDispatch.executed p' = RpcDispatch.executed p ++ ((fun vx => (iname vx.1, vx.2)) <$> vxs)
    /\ RpcDispatch.calls p' = RpcDispatch.calls p.
Proof.
  induction vxs as [|[v xs] vxs IH]; intros p Hall; [ exists p; by rewrite app_nil_r | ].
  apply Forall_cons in Hall as [[Hv Hu] Hall]. cbn [fst snd] in *. unfold deliver. cbn [fmap list_fmap fold_left fst snd].
  unfold RpcDispatch._Internal_static_OnPacket at 2. rewrite (receive_invocation e p v xs Hv Hu). cbn [fst].
  set (p1 := RpcDispatch.add_executed (RpcDispatch.count p RpcDispatch.add_frame) (iname v, xs)).
  destruct (IH p1) as (p' & E & Hx & Hc).
  { eapply Forall_impl; [ exact Hall | ]. intros vx [? ?]. split; [ done | ]. by apply (understands_same e p). }
  exists p'. split_and!; [ exact E | rewrite Hx; unfold p1; cbn; by rewrite <- app_assoc | by rewrite Hc ].
Qed.

Lemma message_of_ok v : invocation_ok v -> message_ok (message_of v).2.
Proof. intros Hv. split; [ apply Hv | ]. by destruct (write_name v Hv) as (_ & _ & _ & ?). Qed.

(** Invocations in pieces of any sizes. *)
Lemma receive_invocations e dec p vxs chunks :
  decoder_ok dec [] -> Forall (fun vx => invocation_ok vx.1 /\ understands e p vx.1 vx.2) vxs ->
  concat chunks = concat (frame_of <$> ((fun vx => (message_of vx.1).2) <$> vxs)) -> RpcDispatch.short chunks ->
  exists dec' p', RpcDispatch.on_data_chunks sole e dec p chunks = Some (dec', p') /\ decoder_ok dec' []
    /\ RpcDispatch.executed p' = RpcDispatch.executed p ++ ((fun vx => (iname vx.1, vx.2)) <$> vxs)
    /\ RpcDispatch.calls p' = RpcDispatch.calls p.
Proof.
  intros Hd Hall Ech Hsh.
  assert (Forall message_ok ((fun vx : invocation * list RpcDispatch.ArgValue => (message_of vx.1).2) <$> vxs)) as Hm.
  { apply Forall_fmap. eapply Forall_impl; [ exact Hall | ]. intros vx [? _]. by apply message_of_ok. }
  assert (Forall is_u8 (concat chunks)) as Hu.
  { rewrite Ech. apply Forall_concat, Forall_fmap. eapply Forall_impl; [ exact Hm | ]. intros m Hx. by destruct (frame_of_spec m Hx) as (? & ? & ? & ? & _). }
  pose proof (RpcDispatch.on_data_chunks_spec sole e chunks dec [] p) as Hs. cbn [app] in Hs.
  rewrite Ech, (parse_frames _ Hm) in Hs. cbn [fst snd] in Hs.
  destruct (deliver_invocations e vxs p Hall) as (p' & E & Hx & Hc). rewrite E in Hs.
  destruct Hs as (dec' & E' & Hd'); [ apply Forall_and; split; [ done | by apply Forall_concat ] | done | ].
  destruct (RpcDispatch.count_chunks_fields chunks p') as [Ec Ee].
  eexists dec', _. split_and!; [ exact E' | done | by rewrite Ee | by rewrite Ec ].
Qed.

(** ** From the call to the function *)

Context {Sock : Type} `{Socket Sock} (bulk : list cmd -> Z -> nat).

(** The invocations for object [d], in order. *)
Definition invocations_for (s : @LoopState Sock) (d : nat) (vs : list invocation) : list invocation :=
  filter (fun v => handle_valid (target v) = true /\ GetLocalPeerData (wm (world s)) (target v) = Some (Some d)) vs.

Lemma messages_of_invocations s d vs :
  messages_for s d (message_of <$> vs) = (fun v => (message_of v).2) <$> invocations_for s d vs.
Proof.
  unfold messages_for, invocations_for. induction vs as [|v vs IH]; [ done | ]. cbn [fmap list_fmap]. rewrite !filter_cons.
  cbn [message_of fst]. destruct (decide (handle_valid (target v) = true /\ GetLocalPeerData (wm (world s)) (target v) = Some (Some d)));
    cbn [fmap list_fmap]; [ by f_equal | exact IH ].
Qed.

(** An invocation of a peer of loop [l]. *)
Definition invocation_fits (l : Z) (v : invocation) : Prop :=
  invocation_ok v /\ handle_valid (target v) = true /\ loop (target v) = l /\ 0 <= id (hid (target v)).

(** C2: remote functions called without an answer run once, as long as the sockets take what
    they are given. One thread calls functions of peers of a loop (valid handles of this loop,
    calls of at most [2^28] bytes) with [RPCEnvironment::Send], through any of its overloads,
    and flushes; the queue of the loop holds the resulting commands, at most [1024 * 1024],
    and nothing else, and no other thread adds to it meanwhile. The sockets accept all bytes
    they are offered ([eager]; the bytes a socket refuses wait in the peer, see
    [send_path_keeps_the_stream]). Then one iteration of the loop empties the queue and, for
    every peer that is ready, not closing and not closed, that has with the new frames at most
    384 frames in its queue and was sent nothing before, puts the calls on its wire: however
    the network splits these bytes, the other process, with a new decoder, executes exactly
    the functions that were called for this peer, each once, in the order of the calls, with
    the arguments read from the bytes that were written, and sends nothing back, provided that
    it knows the functions, can read their arguments and executes them without a queue. The
    loop has had fewer than [2^31] peers and frames. *)
Theorem remote_functions_run_once {St} (R : SendRoute St) send l n L vs xs_of st st' draws now :
  l <> 0 -> usable 4096 < 2 ^ 30 -> loop_reached l n L -> 0 <= n -> n + zlen vs < 2 ^ 31 ->
  Forall (invocation_fits l) vs -> @LawfulRoute Sock l St R -> sends_like send ->
  send_invocations send route_init vs = Some st -> route_flush st = Some st' -> queue_of st' = Some (commandQueue L) ->
  zlen (commandQueue L) <= 1024 * 1024 -> quiet bulk -> @PeerSend.eager Sock _ ->
  exists L', _InternalSingleLoopIteration bulk L draws now = Some L' /\ commandQueue L' = []
    /\ forall i d p, at_slot (peers_of L) i d p ->
         PeerSend.has_flag p PeerSend.BIT_READY = true -> PeerSend.has_flag p PeerSend.BIT_DISCONNECTING = false ->
         PeerSend.has_flag p PeerSend.BIT_CLOSED = false -> queue_length p + zlen vs <= 384 -> PeerSend.stream p = [] ->
         exists p', sends (peers_of L') !! d = Some p'
           /\ forall e dec srv chunks, decoder_ok dec [] ->
                Forall (fun v => understands e srv v (xs_of v)) (invocations_for (peers_of L) d vs) ->
                concat chunks = PeerSend.wire p' -> RpcDispatch.short chunks ->
                exists dec' srv', RpcDispatch.on_data_chunks sole e dec srv chunks = Some (dec', srv')
                  /\ RpcDispatch.executed srv' = RpcDispatch.executed srv
                       ++ ((fun v => (iname v, xs_of v)) <$> invocations_for (peers_of L) d vs)
                  /\ RpcDispatch.calls srv' = RpcDispatch.calls srv.
Proof.
  intros Hl Hu HL Hn0 Hn Hvs HR Hsend E1 E2 E3 Hlen Hq He.
  assert (zlen (frames_of (message_of <$> vs)) = zlen vs) as Ez by (unfold frames_of, zlen; by rewrite !length_fmap).
  rewrite (send_invocations_route R send vs Hsend) in E1 by (eapply Forall_impl; [ exact Hvs | by intros v (? & ? & _) ]).
  destruct (frames_reach_the_wire bulk R l n L (frames_of (message_of <$> vs)) st st' draws now) as (L' & EL & Ec & Hw);
    try done; [ lia | | ].
  { apply frames_fit, Forall_fmap. eapply Forall_impl; [ exact Hvs | ]. intros v (Hv & _ & Hvl & Hid).
    split_and!; [ done | done | by apply message_of_ok ]. }
  exists L'. split_and!; [ done | done | ]. intros i d p Hat F1 F2 F3 Hcnt Est.
  destruct (Hw i d p Hat F1 F2 F3) as (p' & Hp' & _ & Hwire); [ lia | ]. exists p'. split; [ done | ].
  intros e dec srv chunks Hdec Hun Ech Hsh. rewrite Hwire, Est, frames_for_messages, messages_of_invocations in Ech. cbn [app] in Ech.
  set (us := invocations_for (peers_of L) d vs) in *.
  destruct (receive_invocations e dec srv ((fun v => (v, xs_of v)) <$> us) chunks Hdec) as (dec' & srv' & E & _ & Hx & Hc).
  - apply Forall_fmap, Forall_forall. intros v Hv. split; [ | by apply (proj1 (Forall_forall _ _) Hun v Hv) ].
    apply list_elem_of_filter in Hv as [_ Hv]. by destruct (proj1 (Forall_forall _ _) Hvs v Hv).
  - rewrite Ech. do 2 f_equal. apply (list_fmap_compose (fun v => (v, xs_of v)) (fun vx => (message_of vx.1).2) us).
  - done.
  - exists dec', srv'. split_and!; [ done | by rewrite Hx, <- list_fmap_compose | done ].
Qed.

End Send.

(** ** Witness *)

#[local] Existing Instances PeerSend.eager_socket RpcCalls.callbacks_map RpcCalls.le_codec RpcDispatch.tagged_codec direct_route.

(** Two calls of [ping], as commands of their own. *)
Definition sample_invocations : list invocation :=
  [mkInvocation (mkHandle (mkId 0 1) 100) 1 RpcRegistry.ping [[41]]; mkInvocation (mkHandle (mkId 0 1) 100) 1 RpcRegistry.ping [[7]; []]].

Definition sample_frames : list cmd :=
  [CSendFrame (mkHandle (mkId 0 1) 100) [0x90; 2; 4; 0; 0; 0; 112; 105; 110; 103; 41];
   CSendFrame (mkHandle (mkId 0 1) 100) [0x90; 2; 4; 0; 0; 0; 112; 105; 110; 103; 7]].

(** The byte behind the name. *)
Definition sample_args (v : invocation) : list (@RpcDispatch.ArgValue Z) :=
  [RpcDispatch.AFlags 1; RpcDispatch.AValue (hd 0 (concat (iargs v)))].

Lemma sample_invocations_fit : Forall (invocation_fits 100) sample_invocations.
Proof.
  unfold sample_invocations. rewrite !Forall_cons, Forall_nil. unfold invocation_fits. cbn [target iflags iname iargs].
  split_and!; try reflexivity; try (cbn; lia); try exact I; (constructor;
    [ left; split; [ discriminate | reflexivity ] | reflexivity | repeat (constructor; [ by split | ]); constructor
    | repeat (constructor; [ by split | ]); constructor | vm_compute; split; congruence | reflexivity ]).
Qed.

Lemma sample_understood : Forall (fun v => understands (RpcDispatch.sample_registry None) (RpcDispatch.sample_peer true) v (sample_args v)) sample_invocations.
Proof.
  unfold sample_invocations. rewrite !Forall_cons, Forall_nil. split_and!; try exact I; eexists _, _, _; split_and!; vm_compute; reflexivity.
Qed.

Lemma remote_functions_run_once_witness :
  exists s L' p', loop_run (Loop_init 100) sample_ops = Some s
    /\ _InternalSingleLoopIteration (fun q n => length q) (sample_loop s RpcCalls.no_calls sample_frames) [] 7 = Some L'
    /\ sends (peers_of L') !! 0%nat = Some p'
    /\ forall chunks, concat chunks = PeerSend.wire p' -> RpcDispatch.short chunks ->
       exists dec' srv', RpcDispatch.on_data_chunks RpcDispatch.never_sole (RpcDispatch.sample_registry None) RpcDispatch.sample_decoder
           (RpcDispatch.sample_peer true) chunks = Some (dec', srv')
         /\ RpcDispatch.executed srv' = [(RpcRegistry.ping, [RpcDispatch.AFlags 1; RpcDispatch.AValue 41]);
              (RpcRegistry.ping, [RpcDispatch.AFlags 1; RpcDispatch.AValue 7])].
Proof.
  destruct (loop_run (Loop_init 100) sample_ops) as [s|] eqn:E; [ | vm_compute in E; discriminate E ].
  assert (exists p, at_slot s 0 0%nat p /\ PeerSend.stream p = [] /\ queue_length p = 0 /\ PeerSend.peerFlags p = 1
    /\ invocations_for s 0 sample_invocations = sample_invocations) as (p & Hat & Hst & Hq & Hf & Hfr).
  { vm_compute in E. injection E as <-. eexists. split_and!; [ split; reflexivity | reflexivity.. ]. }
  destruct (remote_functions_run_once RpcDispatch.never_sole (fun q n => length q) direct_route Send 100 1
    (sample_loop s RpcCalls.no_calls sample_frames) sample_invocations sample_args sample_frames sample_frames [] 7) as (L' & EL & _ & Hd);
    [ lia | reflexivity | apply sample_reached; [ exact E | apply RpcCalls.no_calls_spec ] | lia | reflexivity
    | apply sample_invocations_fit | apply direct_lawful | apply Send_like | vm_compute; reflexivity | reflexivity | reflexivity
    | vm_compute; discriminate | intros q n; reflexivity | apply sample_eager | ].
  destruct (Hd 0 0%nat p Hat) as (p' & Hp' & Hc);
    [ unfold PeerSend.has_flag; by rewrite Hf.. | rewrite Hq; vm_compute; discriminate | exact Hst | ].
  exists s, L', p'. refine (conj eq_refl (conj EL (conj Hp' _))). intros chunks Ech Hch. cbn [peers_of sample_loop] in Hc. rewrite Hfr in Hc.
  destruct (Hc (RpcDispatch.sample_registry None) RpcDispatch.sample_decoder (RpcDispatch.sample_peer true) chunks
    RpcDispatch.sample_decoder_ok sample_understood Ech Hch) as (dec' & srv' & D1 & D2 & _).
  exists dec', srv'. split; [ exact D1 | ]. rewrite D2. reflexivity.
Defined.

End RpcSend.
