(* ===== verification/ConnectCommands.v ===== *)
(** * Connecting (src/Host.cpp, src/HostUStcp.cpp, src/Command.cpp)

    [Host::Connect] may be called from any thread: it enqueues a command to the loop, with what
    to do when the connection attempt was started, a command of the user or the promise of
    [ConnectPromise]. The loop executes the command: it asks uSockets for a socket, makes the
    peer (HostLifecycle.v) and runs the completion, at once or in the queue of the caller.
    uSockets is an interface: a socket that is not in use, or none. *)

From S2P Require Import Prelude PeersToFlush PeerManager HostLifecycle.

Module ConnectCommands.
Import PeerManager HostLifecycle.

(** The [n]-th call of [us_socket_context_connect] when the sockets [used] exist. *)
Class Connecting := {
  us_connect : nat -> gset nat -> list Z -> Z -> option nat;
  us_connect_fresh : forall n used address port s, us_connect n used address port = Some s -> s ∉ used
}.

Section Connect.
Context `{Connecting}.

(** [CommandHandle<ExecuteOnPeer>]: the promise of [ConnectPromise] or a command of the user,
    by their numbers. *)
Inductive completion := CommandConnectPromise (promise : nat) | UserCommand (c : nat).

Record ExecuteConnect := mkConnect {
  address : list Z;
  port : Z;
  executionQueue : option Z;
  onConnected : option completion
}.

(** [promises]: the promises that were set, with their values; [executed]: the commands of the
    user that were executed, with their peers; [enqueued]: the completions that were moved into
    queues of callers. *)
Record State := mkState {
  host : HostState;
  loopQueue : list ExecuteConnect;
  promises : list (nat * PeerHandle);
  executed : list (nat * PeerHandle);
  enqueued : list (Z * completion * PeerHandle);
  attempts : nat
}.

(** ** Calls of other threads *)

(** [Host::Connect(address, port, onConnected, queue)]. *)
Definition Connect (s : State) (address : list Z) (port : Z) (onConnected : option completion) (queue : option Z) : State :=
  mkState (host s) (loopQueue s ++ [mkConnect address port queue onConnected]) (promises s) (executed s) (enqueued s) (attempts s).

(** [Host::Connect(address, port)]: an empty handle. *)
Definition Connect_default (s : State) (address : list Z) (port : Z) : State := Connect s address port None None.

(** [Host::ConnectPromise] for the promise [p]. *)
Definition ConnectPromise (s : State) (address : list Z) (port : Z) (p : nat) : State :=
  Connect s address port (Some (CommandConnectPromise p)) None.

(** ** The loop *)

(** [Execute] of a completion whose field [peer] was set. *)
Definition run_completion (s : State) (c : completion) (peer : PeerHandle) : State :=
  match c with
  | CommandConnectPromise p =>
      let value := if handle_valid peer then peer else PeerHandle_default in
      mkState (host s) (loopQueue s) (promises s ++ [(p, value)]) (executed s) (enqueued s) (attempts s)
  | UserCommand c => mkState (host s) (loopQueue s) (promises s) (executed s ++ [(c, peer)]) (enqueued s) (attempts s)
  end.

(** [Host::_InternalConnect_Finish]. *)
Definition _InternalConnect_Finish (s : State) (com : ExecuteConnect) (peer : PeerHandle) : State :=
  match onConnected com with
  | None => s
  | Some c =>
      match executionQueue com with
      | Some q => mkState (host s) (loopQueue s) (promises s) (executed s) (enqueued s ++ [(q, c, peer)]) (attempts s)
      | None => run_completion s c peer
      end
  end.

(** [ExecuteConnect::Execute]: [_InternalConnect] of HostLifecycle.v dereferences the handle of
    the completion and leaves the peer it stores there at the end of [results]. *)
Definition ExecuteConnect_Execute (s : State) (com : ExecuteConnect) : option State :=
  let socket := us_connect (attempts s) (dom (sockets (host s))) (address com) (port com) in
  let* h := HostLifecycle._InternalConnect (host s) socket (bool_decide (is_Some (onConnected com))) in
  let* peer := last (results h) in
  Some (_InternalConnect_Finish (mkState h (loopQueue s) (promises s) (executed s) (enqueued s) (S (attempts s)))
          com (default PeerHandle_default peer)).

(** The commands of the loop's queue, in order. *)
Fixpoint execute_connects (s : State) (cs : list ExecuteConnect) : option State :=
  match cs with
  | [] => Some s
  | c :: cs => let* s := ExecuteConnect_Execute s c in execute_connects s cs
  end.

Definition execute_queue (s : State) : option State :=
  let* s' := execute_connects s (loopQueue s) in
  Some (mkState (host s') [] (promises s') (executed s') (enqueued s') (attempts s')).

(** ** Lemmas *)

(** A handle leads to a peer of the host. *)
Definition leads (s : HostState) (h : PeerHandle) (d : nat) : Prop :=
  loop h = pm_loop (wm (world s)) /\ 0 <= id (hid h) /\ GetLocalPeerData (wm (world s)) h = Some (Some d).

(** A new peer leaves the other handles alone. *)
Lemma MakePeer_keeps s k s' d h h' d' : host_ok s -> Z.of_nat (size (wst (world s))) < 2 ^ 31 - 1 ->
  MakePeer s k = Some (s', d, h) -> leads s h' d' -> leads s' h' d'.
Proof.
  intros Hs Hn E (Hl & Hid & Hg). unfold MakePeer in E. set (x := fresh (dom (wst (world s)))) in *.
  assert (wst (world s) !! x = None) as Hx by (apply not_elem_of_dom, is_fresh).
  destruct (world_open_spec (world s) x (this s) (ho_inv _ Hs) Hx Hn) as (w & i & v & Ew & Hw & Hnl & Hp & Hvs & _ & _ & _ & Hlw & _).
  rewrite Ew in E. injection E as <- <- <-. unfold leads. cbn [world]. split_and!; [ congruence | done | ].
  destruct (GetLocalPeerData_spec (world s) h' (ho_inv _ Hs) Hl Hid) as (r & Er & Hr). rewrite Er in Hg. injection Hg as ->.
  destruct (proj1 (Hr d') eq_refl) as [Hi Hv].
  destruct (GetLocalPeerData_spec w h' Hw ltac:(congruence) Hid) as (r' & -> & Hr'). f_equal. apply Hr'.
  rewrite Hp, Hvs. destruct (Z.eqb_spec (id (hid h')) i) as [Ei | _]; [ rewrite Ei in Hi; by destruct (Hnl d') | done ].
Qed.

(** What the [n]-th attempt, with the sockets [used], must give: without a socket an empty
    handle, with the socket [k] a valid handle of the peer that [k] belongs to. *)
Definition outcome (n : nat) (used : gset nat) (com : ExecuteConnect) (s : HostState) (h : PeerHandle) : Prop :=
  match us_connect n used (address com) (port com) with
  | None => h = PeerHandle_default
  | Some k => handle_valid h = true /\ exists d, leads s h d /\ sockets s !! k = Some (Some d)
  end.

(** What later attempts leave alone. *)
Record kept (s s' : HostState) : Prop := {
  kp_leads : forall h d, leads s h d -> leads s' h d;
  kp_sockets : forall k d, sockets s !! k = Some (Some d) -> sockets s' !! k = Some (Some d)
}.

Lemma outcome_kept n used com s s' h : kept s s' -> outcome n used com s h -> outcome n used com s' h.
Proof.
  intros [K1 K2]. unfold outcome. destruct (us_connect n used _ _) as [k|]; [ | done ].
  intros [Hv (d & Hd & Hk)]. split; [ done | ]. exists d. split; [ by apply K1 | by apply K2 ].
Qed.

Lemma outcome_valid n used com s h : outcome n used com s h -> h = PeerHandle_default \/ handle_valid h = true.
Proof. unfold outcome. destruct (us_connect n used _ _); naive_solver. Qed.

Lemma connect_spec s com c : host_ok (host s) -> Z.of_nat (size (wst (world (host s)))) < 2 ^ 31 - 1 -> onConnected com = Some c ->
  exists s1 h, ExecuteConnect_Execute s com = Some (_InternalConnect_Finish s1 com h)
    /\ promises s1 = promises s /\ executed s1 = executed s /\ enqueued s1 = enqueued s
    /\ host_ok (host s1) /\ (size (wst (world (host s1))) <= S (size (wst (world (host s)))))%nat
    /\ outcome (attempts s) (dom (sockets (host s))) com (host s1) h /\ kept (host s) (host s1) /\ attempts s1 = S (attempts s).
Proof.
  intros Hs Hn Hc. unfold outcome. unfold ExecuteConnect_Execute, HostLifecycle._InternalConnect. rewrite Hc, bool_decide_eq_true_2 by done.
  assert (forall h r, host_ok h -> host_ok (mkHost (world h) (this h) (sockets h) (peer_socket h) (peerFlags h) (connected h) (disconnected h)
    r (disconnectedTotal h) (disconnectedLocal h) (disconnectedRemote h) (connectionsFailed h) (timeouts h) (fatal h))) as Hres
    by (intros h r [H1 H2 H3 H4 H5 H6 H7 H8 H9 H10]; by split).
  destruct (us_connect (attempts s) _ (address com) (port com)) as [k|] eqn:Ek.
  - apply us_connect_fresh, not_elem_of_dom in Ek.
    destruct (MakePeer_spec (host s) k Hs Ek Hn) as (h1 & d & h & Em & Hh1 & Hlive & Est & Esock & _ & _ & Hz & Hg). rewrite Em.
    cbn [results]. rewrite last_snoc. eexists _, h. split; [ reflexivity | ]. cbn [host promises executed enqueued attempts world sockets].
    split_and!; [ done | done | done | by apply Hres | lia | | | | done ].
    + destruct (live_handle h1 d Hh1 Hlive) as (i & v & E1 & H0 & _ & _ & _ & Hv). cbv zeta in *. rewrite E1 in Est. by injection Est as _ <- _.
    + destruct (live_handle h1 d Hh1 Hlive) as (i & v & E1 & H0 & _ & _ & _ & Hv). cbv zeta in *. rewrite E1 in Est. injection Est as _ <- _.
      exists d. split; [ by split_and! | ]. by rewrite Esock, lookup_insert_eq.
    + split; cbn [sockets]; [ intros h' d' Hl'; by apply (MakePeer_keeps (host s) k h1 d h h' d' Hs Hn Em) | ].
      intros k' d' Hk'. rewrite Esock, lookup_insert_ne; [ done | congruence ].
  - cbn [results]. rewrite last_snoc. eexists _, _. split; [ reflexivity | ]. cbn [host promises executed enqueued attempts world default].
    split_and!; [ done | done | done | by apply Hres | lia | done | by split | done ].
Qed.

(** What the completions of the commands [cs] become when they end with the handles [hs]. *)
Definition promised (x : ExecuteConnect * PeerHandle) : option (nat * PeerHandle) :=
  match executionQueue x.1, onConnected x.1 with
  | None, Some (CommandConnectPromise p) => Some (p, x.2)
  | _, _ => None
  end.

Definition commanded (x : ExecuteConnect * PeerHandle) : option (nat * PeerHandle) :=
  match executionQueue x.1, onConnected x.1 with
  | None, Some (UserCommand c) => Some (c, x.2)
  | _, _ => None
  end.

Definition handed_over (x : ExecuteConnect * PeerHandle) : option (Z * completion * PeerHandle) :=
  match executionQueue x.1, onConnected x.1 with
  | Some q, Some c => Some (q, c, x.2)
  | _, _ => None
  end.

Record answered (s s' : State) (xs : list (ExecuteConnect * PeerHandle)) : Prop := {
  an_promises : promises s' = promises s ++ omap promised xs;
  an_executed : executed s' = executed s ++ omap commanded xs;
  an_enqueued : enqueued s' = enqueued s ++ omap handed_over xs
}.

Lemma answered_cons s s1 s2 x xs : answered s s1 [x] -> answered s1 s2 xs -> answered s s2 (x :: xs).
Proof.
  intros [P1 E1 Q1] [P2 E2 Q2]. change (x :: xs) with ([x] ++ xs). split; rewrite omap_app, app_assoc; congruence.
Qed.

Lemma finish_answered s s1 com c h : promises s1 = promises s -> executed s1 = executed s -> enqueued s1 = enqueued s ->
  onConnected com = Some c -> (h = PeerHandle_default \/ handle_valid h = true) ->
  answered s (_InternalConnect_Finish s1 com h) [(com, h)]
  /\ host (_InternalConnect_Finish s1 com h) = host s1 /\ attempts (_InternalConnect_Finish s1 com h) = attempts s1.
Proof.
  intros P E Q Hc Hh. unfold _InternalConnect_Finish. rewrite Hc.
  split; [ split; cbn [omap list_omap]; unfold promised, commanded, handed_over; cbn [fst snd]; rewrite Hc | split ];
    destruct (executionQueue com) as [q|], c as [p | u]; cbn; rewrite ?app_nil_r, ?P, ?E, ?Q; try done.
  destruct Hh as [-> | ->]; done.
Qed.

(** The outcomes of attempts with consecutive numbers. *)
Fixpoint outcomes (n : nat) (s : HostState) (xs : list (ExecuteConnect * PeerHandle)) : Prop :=
  match xs with
  | [] => True
  | (com, h) :: xs => (exists used, outcome n used com s h) /\ outcomes (S n) s xs
  end.

Lemma execute_connects_spec cs : forall s, host_ok (host s) -> Z.of_nat (size (wst (world (host s)))) + zlen cs < 2 ^ 31 ->
  Forall (fun com => is_Some (onConnected com)) cs ->
  exists s' hs, execute_connects s cs = Some s' /\ length hs = length cs /\ answered s s' (zip cs hs)
    /\ kept (host s) (host s') /\ outcomes (attempts s) (host s') (zip cs hs).
Proof.
  induction cs as [|com cs IH]; intros s Hs Hn Hc; cbn [execute_connects].
  { exists s, []. split_and!; try done. split; by rewrite app_nil_r. }
  apply Forall_cons in Hc as [[c Ec] Hc]. rewrite zlen_cons in Hn. pose proof (zlen_nonneg cs).
  destruct (connect_spec s com c Hs ltac:(lia) Ec) as (s1 & h & -> & P & E & Q & Hs1 & Hz & Ho & [K1 K2] & Ha1).
  destruct (finish_answered s s1 com c h P E Q Ec) as (Ha & Eh & Eat); [ by eapply outcome_valid | ].
  destruct (IH (_InternalConnect_Finish s1 com h)) as (s' & hs & -> & Hlen & Ha' & Hk' & Hhs); [ by rewrite Eh | rewrite Eh; lia | done | ].
  rewrite Eh in Hk'. rewrite Eat, Ha1 in Hhs. pose proof Hk' as [K3 K4].
  exists s', (h :: hs). split_and!; [ done | cbn; by rewrite Hlen | by eapply answered_cons | split; by eauto | ].
  split; [ | done ]. eexists. by eapply outcome_kept.
Qed.

(** C23: connection requests are answered once. After any history of the host, the loop
    executes all queued requests that have a completion without failing, and each completion
    gets one handle: the promises of [ConnectPromise] and the commands of the user without a
    queue in the order of the requests, the others in their queues. The handle is empty when
    uSockets gave no socket for the request; when it gave one, the handle is valid and leads,
    at the end, to the peer of this socket. *)
Theorem connects_are_answered_once loop this es s :
  loop <> 0 -> zlen es + zlen (loopQueue s) < 2 ^ 31 -> host_run (Host_init loop this) es = Some (host s) ->
  Forall (fun com => is_Some (onConnected com)) (loopQueue s) ->
  exists s' hs, execute_queue s = Some s' /\ loopQueue s' = [] /\ length hs = length (loopQueue s)
    /\ promises s' = promises s ++ omap promised (zip (loopQueue s) hs)
    /\ executed s' = executed s ++ omap commanded (zip (loopQueue s) hs)
    /\ enqueued s' = enqueued s ++ omap handed_over (zip (loopQueue s) hs)
    /\ outcomes (attempts s) (host s') (zip (loopQueue s) hs).
Proof.
  intros Hl Hn Hrun Hc. destruct (host_run_ok es (Host_init loop this) (host s) (Host_init_ok loop this Hl)) as (Hh & Hz);
    [ change (size (wst (world (Host_init loop this)))) with 0%nat; pose proof (zlen_nonneg (loopQueue s)); lia | done | ].
  change (size (wst (world (Host_init loop this)))) with 0%nat in Hz.
  destruct (execute_connects_spec (loopQueue s) s Hh) as (s' & hs & E & Hlen & [] & _ & Hhs); [ unfold zlen in *; lia | done | ].
  unfold execute_queue. rewrite E. by eexists _, hs.
Qed.

(** A request without a completion, which [Connect(address, port)] enqueues, stops the program
    when the loop executes it, with and without a socket. *)
Theorem connect_without_completion_stops loop this es s a p :
  loop <> 0 -> zlen es + 1 < 2 ^ 31 -> host_run (Host_init loop this) es = Some (host s) -> loopQueue s = [] ->
  execute_queue (Connect_default s a p) = None.
Proof.
  intros Hl Hn Hrun Hq. destruct (host_run_ok es (Host_init loop this) (host s) (Host_init_ok loop this Hl)) as (Hh & Hz);
    [ change (size (wst (world (Host_init loop this)))) with 0%nat; lia | done | ].
  unfold execute_queue, Connect_default, Connect. cbn [loopQueue]. rewrite Hq. cbn [app execute_connects].
  unfold ExecuteConnect_Execute, HostLifecycle._InternalConnect. cbn [onConnected host attempts address port].
  rewrite bool_decide_eq_false_2 by (by intros [? ?]). destruct (us_connect _ _ _ _) as [k|]; [ | done ].
  by destruct (MakePeer (host s) k) as [[[h1 d] h2]|].
Qed.

End Connect.

(** ** Witness *)

(** Sockets are numbered; port 0 fails. *)
#[local, refine] Instance numbered_sockets : Connecting := {
  us_connect n used address port := if port =? 0 then None else Some (fresh used)
}.
Proof. intros n used a p s. destruct (p =? 0); [ done | ]. intros [= <-]. apply is_fresh. Defined.

Definition sample_state : State :=
  Connect (ConnectPromise (ConnectPromise (mkState (Host_init 1 5) [] [] [] [] 0) [97] 80 1) [98] 0 2) [99] 81 (Some (UserCommand 3)) (Some 9).

Lemma connects_are_answered_once_witness :
  exists s' h h', execute_queue sample_state = Some s' /\ promises s' = [(1%nat, h); (2%nat, PeerHandle_default)]
    /\ enqueued s' = [(9, UserCommand 3, h')] /\ handle_valid h = true /\ exists d, leads (host s') h d.
Proof.
  destruct (connects_are_answered_once 1 5 [] sample_state) as (s' & hs & E & _ & Hlen & Hp & _ & Hq & Hhs);
    [ lia | reflexivity | reflexivity | repeat constructor; by eexists | ].
  destruct hs as [|h [|h2 [|h' [|]]]]; try discriminate Hlen.
  destruct Hhs as [[u1 [Hv [d [Hd _]]]] [[u2 ->] _]]. exists s', h, h'. split; [ exact E | ].
  split; [ exact Hp | ]. split; [ exact Hq | ]. split; [ exact Hv | ]. exists d. exact Hd.
Defined.

End ConnectCommands.
