(* ===== verification/UsLoop.v ===== *)
(** * The loop on uSockets (src/LoopUS.cpp, src/HostUStcp.cpp)

    The uSockets loop calls back into the library: before and after each wait, when another
    thread wakes it up, when its timer expires and when something happens on a socket. All but
    the last run an iteration of LoopIteration.v. This file has the object that owns the
    uSockets loop: its creation, the hosts and their socket contexts, a big iteration and the
    end. uSockets is not part of the repository: what its functions return and which callbacks
    they make, in which order, are inputs of the operations, and so is what other threads
    enqueue in between. *)

From S2P Require Import Prelude MemoryPool ByteBuffer PeersToFlush PeerManager PeerSend LoopFlush Hash FlatHashMap RpcCalls CommandsBuffer CommandQueue BatchWriter SendPaths LoopIteration.

Module UsLoop.
Import PeerManager PeerSend LoopFlush SendPaths LoopIteration.

(** ** Socket contexts *)

Inductive handler :=
| on_open | on_close | on_data | on_writable | on_timeout | on_long_timeout | on_connect_error | on_end.

(** What uSockets keeps of a context: the host in its extension area, and the handlers that
    were set, with the value of their parameter [SSL]. *)
Record Context := mkContext { ext_host : option Z; handlers : list (handler * bool) }.

Definition set_handler (ssl : bool) (c : Context) (h : handler) : Context :=
  mkContext (ext_host c) (handlers c ++ [(h, ssl)]).

Definition SetUSocketContextCallbacks (ssl : bool) (c : Context) : Context :=
  fold_left (set_handler ssl)
    [on_open; on_close; on_data; on_writable; on_timeout; on_long_timeout; on_connect_error; on_end] c.

Section Loop.
Context `{Allocator} {Sock : Type} `{Socket Sock}.
Context {T : Type} {MI : MapImpl T Z RpcCalls.OnReturnCallback}.

(** The answers of the concurrent queue; the order of the set of hosts after an insertion; the
    callbacks of a new peer. *)
Context (bulk : list cmd -> Z -> nat).
Context (rehash : list (Z * bool) -> list (Z * bool)).
Context (new_calls : @RpcCalls.PeerCalls T).

(** [base]: the object of the base class. [us_loop], [timerWakeup]: the pointers; [loop_ext],
    [timer_ext]: the uSockets loops and timers with this object in their extension area;
    [timerRepeat]: the period of the timer. [hostsBySocketContext] is the map of the code,
    [socketContext] the field of the hosts, [contexts] what uSockets keeps of them. *)
Record Loop := mkUs {
  base : @LoopIteration.Loop Sock T;
  us_loop : option nat;
  loop_ext : gset nat;
  timerWakeup : option nat;
  timer_ext : gset nat;
  timerRepeat : Z;
  noWaitLoop : bool;
  hostsBySocketContext : gmap nat Z;
  socketContext : gmap Z nat;
  contexts : gmap nat Context;
  loopBigIterations : Z;
  loopWakeups : Z;
  loopTimerWakeups : Z
}.

Definition set_base (u : Loop) (b : @LoopIteration.Loop Sock T) : Loop :=
  mkUs b (us_loop u) (loop_ext u) (timerWakeup u) (timer_ext u) (timerRepeat u) (noWaitLoop u) (hostsBySocketContext u)
    (socketContext u) (contexts u) (loopBigIterations u) (loopWakeups u) (loopTimerWakeups u).

Definition set_counts (u : Loop) (big wakeups timer : Z) : Loop :=
  mkUs (base u) (us_loop u) (loop_ext u) (timerWakeup u) (timer_ext u) (timerRepeat u) (noWaitLoop u) (hostsBySocketContext u)
    (socketContext u) (contexts u) big wakeups timer.



Definition set_queue (b : @LoopIteration.Loop Sock T) (q : list cmd) : @LoopIteration.Loop Sock T :=
  mkIter (peers_of b) (hosts b) (calls b) q (loopSmallIterations b).

(** A loop object with index [l] before [Init]. *)
Definition Loop_new (l : Z) : Loop :=
  mkUs (mkIter (Loop_init l) [] ∅ [] 0) None ∅ None ∅ 0 false ∅ ∅ ∅ 0 0 0.

(** ** Creation *)

Definition _LocalSetTimerRepeat (u : Loop) (timerWakeupRepeatMs : Z) : option Loop :=
  let* t := timerWakeup u in
  Some (mkUs (base u) (us_loop u) (loop_ext u) (Some t) (timer_ext u) timerWakeupRepeatMs (noWaitLoop u) (hostsBySocketContext u)
          (socketContext u) (contexts u) (loopBigIterations u) (loopWakeups u) (loopTimerWakeups u)).

Definition _LocalSetNoWaitLoop (u : Loop) (value : bool) : Loop :=
  mkUs (base u) (us_loop u) (loop_ext u) (timerWakeup u) (timer_ext u) (timerRepeat u) value (hostsBySocketContext u)
    (socketContext u) (contexts u) (loopBigIterations u) (loopWakeups u) (loopTimerWakeups u).

(** [created] and [timer]: what [us_create_loop] and [us_create_timer] returned. *)
Definition Init (u : Loop) (created timer : option nat) (timerWakeupRepeatMs : Z) : option (Loop * bool) :=
  match created with
  | None =>
      Some (mkUs (base u) None (loop_ext u) (timerWakeup u) (timer_ext u) (timerRepeat u) (noWaitLoop u) (hostsBySocketContext u)
              (socketContext u) (contexts u) (loopBigIterations u) (loopWakeups u) (loopTimerWakeups u), false)
  | Some k =>
      let* t := timer in
      let u := mkUs (base u) (Some k) ({[k]} ∪ loop_ext u) (Some t) ({[t]} ∪ timer_ext u) (timerRepeat u) (noWaitLoop u)
                 (hostsBySocketContext u) (socketContext u) (contexts u) (loopBigIterations u) (loopWakeups u) (loopTimerWakeups u) in
      let* u := _LocalSetTimerRepeat u timerWakeupRepeatMs in
      Some (u, true)
  end.




(** ** Callbacks *)

(** The random numbers and the time of one iteration. *)
Record Env := mkEnv { e_draws : list Draw; e_now : Z }.

Definition iterate (u : Loop) (e : Env) : option Loop :=
  let* b := _InternalSingleLoopIteration bulk (base u) (e_draws e) (e_now e) in Some (set_base u b).

(** The object of a uSockets loop: the extension area must have been written. *)
Definition LoopFromUsLoop (u : Loop) (loop : nat) : option Loop := assert* bool_decide (loop ∈ loop_ext u) in Some u.

Definition _Internal_wakeup_cb (u : Loop) (loop : nat) (e : Env) : option Loop :=
  let* u := LoopFromUsLoop u loop in
  iterate (set_counts u (loopBigIterations u) (loopWakeups u + 1) (loopTimerWakeups u)) e.

Definition _Internal_pre_cb (u : Loop) (loop : nat) (e : Env) : option Loop :=
  let* u := LoopFromUsLoop u loop in iterate u e.

Definition _Internal_post_cb (u : Loop) (loop : nat) (e : Env) : option Loop :=
  let* u := LoopFromUsLoop u loop in
  if noWaitLoop u then Some u else iterate u e.

Definition _InternalOnTimerWakup (u : Loop) (timer : nat) (e : Env) : option Loop :=
  assert* bool_decide (timer ∈ timer_ext u) in
  iterate (set_counts u (loopBigIterations u) (loopWakeups u) (loopTimerWakeups u + 1)) e.

Definition WakeUp (u : Loop) : option Loop := let* k := us_loop u in Some u.

(** [Loop::EnqueueCommand], of a command that is not empty. *)
Definition EnqueueCommand (u : Loop) (c : cmd) : option Loop :=
  WakeUp (set_base u (set_queue (base u) (commandQueue (base u) ++ [c]))).

(** A callback of HostUStcp.cpp on a socket, as an operation of LoopFlush.v; a new peer has no
    waiting callbacks. *)
Definition socket_callback (u : Loop) (o : loop_op) : option Loop :=
  let b := base u in
  let* s := loop_step (peers_of b) o in
  let cs := match o with
            | LOpen d _ _ => if bool_decide (is_Some (wst (world (peers_of b)) !! d)) then calls b else <[d := new_calls]> (calls b)
            | _ => calls b
            end in
  Some (set_base u (mkIter s (hosts b) cs (commandQueue b) (loopSmallIterations b))).

(** What happens while uSockets has control: its callbacks, what the program changes in them,
    and commands of other threads. *)
Inductive happening :=
| OnWakeup (e : Env)
| OnTimer (timer : nat) (e : Env)
| OnSocket (o : @loop_op Sock)
| OnThread (c : cmd)
| OnNoWait (value : bool)
| OnTimerRepeat (ms : Z).

Definition happen (u : Loop) (h : happening) : option Loop :=
  match h with
  | OnWakeup e => let* k := us_loop u in _Internal_wakeup_cb u k e
  | OnTimer t e => _InternalOnTimerWakup u t e
  | OnSocket o => socket_callback u o
  | OnThread c => EnqueueCommand u c
  | OnNoWait b => Some (_LocalSetNoWaitLoop u b)
  | OnTimerRepeat ms => _LocalSetTimerRepeat u ms
  end.

Fixpoint happen_all (u : Loop) (hs : list happening) : option Loop :=
  match hs with
  | [] => Some u
  | h :: hs => let* u := happen u h in happen_all u hs
  end.

(** One turn of the uSockets loop: the callback before the wait, what is ready, and the
    callback after. *)
Record Tick := mkTick { before : Env; ready : list happening; after : Env }.

Definition us_loop_run_once (u : Loop) (t : Tick) : option Loop :=
  let* k := us_loop u in
  let* u := _Internal_pre_cb u k (before t) in
  let* u := happen_all u (ready t) in
  _Internal_post_cb u k (after t).

(** [us_loop_run] of uSockets makes turns as long as the loop has something to poll. How many
    it makes is not known here: the turns up to its return are an input. What is proved of a
    run is what its turns do; that it returns is not claimed. *)
Fixpoint us_loop_run (u : Loop) (ts : list Tick) : option Loop :=
  match ts with
  | [] => Some u
  | t :: ts => let* u := us_loop_run_once u t in us_loop_run u ts
  end.

(** [icon7::Loop::SingleLoopIteration]. *)
Definition counted (u : Loop) : Loop := set_counts u (loopBigIterations u + 1) (loopWakeups u) (loopTimerWakeups u).

(** [once]: the turn of [us_loop_run_once]; [ts]: the turns of [us_loop_run]. *)
Definition SingleLoopIteration (u : Loop) (once : Tick) (ts : list Tick) (e : Env) : option Loop :=
  let u := counted u in
  let* k := us_loop u in
  let* u := if noWaitLoop u then us_loop_run_once u once else us_loop_run u ts in
  iterate u e.

(** ** The end *)














(** ** Traces *)

(** What a loop does to its peers, one step at a time. *)
Inductive atom := ACommand (c : cmd) | ASocket (o : @loop_op Sock) | AFlush | ADisconnect (d : nat).

Definition exec_atom (s : LoopState) (a : atom) : option (@LoopState Sock) :=
  match a with
  | ACommand c => exec_cmd s c
  | ASocket o => loop_step s o
  | AFlush => FlushPendingPeers s
  | ADisconnect d => let* p := sends s !! d in Some (set_send s d (_InternalDisconnect p))
  end.

Fixpoint exec_atoms (s : LoopState) (tr : list atom) : option (@LoopState Sock) :=
  match tr with
  | [] => Some s
  | a :: tr => let* s := exec_atom s a in exec_atoms s tr
  end.

Definition commands_of (tr : list atom) : list cmd := omap (fun a => match a with ACommand c => Some c | _ => None end) tr.
Definition sockets_of (tr : list atom) : list (@loop_op Sock) := omap (fun a => match a with ASocket o => Some o | _ => None end) tr.

(** What other threads enqueue, and what happens on sockets, in some happenings. *)
Definition enqueued (hs : list happening) : list cmd := omap (fun h => match h with OnThread c => Some c | _ => None end) hs.
Definition socket_ops (hs : list happening) : list (@loop_op Sock) := omap (fun h => match h with OnSocket o => Some o | _ => None end) hs.

(** Everything but the peers, their calls, the queue and the counters is the same. *)
Record kept (u u' : Loop) : Prop := {
  kp_loop : us_loop u' = us_loop u;
  kp_ext : loop_ext u' = loop_ext u;
  kp_timer : timerWakeup u' = timerWakeup u;
  kp_timer_ext : timer_ext u' = timer_ext u;
  kp_hosts : hosts (base u') = hosts (base u);
  kp_by_context : hostsBySocketContext u' = hostsBySocketContext u;
  kp_context : socketContext u' = socketContext u;
  kp_contexts : contexts u' = contexts u;
  kp_big : loopBigIterations u' = loopBigIterations u
}.

#[export] Instance kept_PreOrder : PreOrder kept.
Proof. split; [ by split | ]. intros u v w [] []. split; congruence. Qed.

(** From [u] to [u'] the loop executed commands in the order in which they were enqueued,
    [new] came in, and the events on sockets were [os]; the rest were flushes. *)
Record moved (new : list cmd) (os : list (@loop_op Sock)) (u u' : Loop) : Prop := {
  mv_trace : exists tr, exec_atoms (peers_of (base u)) tr = Some (peers_of (base u'))
    /\ commandQueue (base u) ++ new = commands_of tr ++ commandQueue (base u') /\ sockets_of tr = os;
  mv_kept : kept u u'
}.

Lemma enqueued_app a b : enqueued (a ++ b) = enqueued a ++ enqueued b.
Proof. apply omap_app. Qed.

Lemma socket_ops_app a b : socket_ops (a ++ b) = socket_ops a ++ socket_ops b.
Proof. apply omap_app. Qed.

Lemma exec_atoms_app s a b : exec_atoms s (a ++ b) = let* s := exec_atoms s a in exec_atoms s b.
Proof. revert s. induction a as [|x a IH]; intros s; [ done | ]. cbn [app exec_atoms]. by destruct (exec_atom s x). Qed.

Lemma moved_refl u : moved [] [] u u.
Proof. split; [ | done ]. exists []. by rewrite app_nil_r. Qed.

Lemma moved_trans new1 new2 os1 os2 u u1 u2 : moved new1 os1 u u1 -> moved new2 os2 u1 u2 -> moved (new1 ++ new2) (os1 ++ os2) u u2.
Proof.
  intros [(t1 & E1 & Q1 & S1) K1] [(t2 & E2 & Q2 & S2) K2]. split; [ | by etrans ].
  exists (t1 ++ t2). rewrite exec_atoms_app, E1. split_and!; [ done | | ].
  - unfold commands_of in *. rewrite omap_app, app_assoc, Q1, <- !app_assoc. f_equal. exact Q2.
  - unfold sockets_of in *. rewrite omap_app. congruence.
Qed.

(** From [u] to [u'] the loop executed commands in the order in which they were enqueued, and
    [new] came in. *)
Definition ran (new : list cmd) (u u' : Loop) : Prop :=
  exists tr, exec_atoms (peers_of (base u)) tr = Some (peers_of (base u')) /\ commandQueue (base u) ++ new = commands_of tr ++ commandQueue (base u').


Lemma ran_same u u' : peers_of (base u') = peers_of (base u) -> commandQueue (base u') = commandQueue (base u) -> ran [] u u'.
Proof. intros Ep Eq. exists []. cbn. by rewrite Ep, Eq, app_nil_r. Qed.

Lemma ran_trans new1 new2 u u1 u2 : ran new1 u u1 -> ran new2 u1 u2 -> ran (new1 ++ new2) u u2.
Proof.
  intros (t1 & E1 & Q1) (t2 & E2 & Q2). exists (t1 ++ t2). rewrite exec_atoms_app, E1. split; [ done | ].
  unfold commands_of in *. rewrite omap_app, app_assoc, Q1, <- !app_assoc. f_equal. exact Q2.
Qed.

Lemma ran_trans_0 u u1 u2 : ran [] u u1 -> ran [] u1 u2 -> ran [] u u2.
Proof. apply (ran_trans [] []). Qed.

Lemma exec_commands s cs : exec_atoms s (ACommand <$> cs) = exec_cmds s cs.
Proof. revert s. induction cs as [|c cs IH]; intros s; [ done | ]. cbn. by destruct (exec_cmd s c). Qed.

Lemma commands_of_commands cs : commands_of (ACommand <$> cs) = cs.
Proof. unfold commands_of. induction cs as [|c cs IH]; cbn; [ done | by f_equal ]. Qed.

Lemma sockets_of_commands cs : sockets_of (ACommand <$> cs) = [].
Proof. unfold sockets_of. induction cs as [|c cs IH]; cbn; done. Qed.

(** ** The invariant *)

(** [n] bounds the peers and frames of the loop and those its queue can still add. *)
Record us_ok (l n : Z) (u : Loop) : Prop := {
  uo_peers : exists m, 0 <= m /\ loop_ok m (peers_of (base u)) /\ m + cmds_weight (commandQueue (base u)) <= n;
  uo_index : pm_loop (wm (world (peers_of (base u)))) = l;
  uo_fits : Forall (cmd_fits l) (commandQueue (base u));
  uo_hosts : forallb Host_InternalSingleLoopIteration (hosts (base u)) = true;
  uo_calls : calls_known (peers_of (base u)) (calls (base u));
  uo_small : 0 <= loopSmallIterations (base u)
}.

(** The uSockets loop [k] and its timer [t] belong to this object. *)
Record alive (k t : nat) (u : Loop) : Prop := {
  al_loop : us_loop u = Some k;
  al_ext : k ∈ loop_ext u;
  al_timer : timerWakeup u = Some t;
  al_timer_ext : t ∈ timer_ext u
}.

Lemma alive_kept k t u u' : kept u u' -> alive k t u -> alive k t u'.
Proof. intros [L X W Y _ _ _ _ _] [A1 A2 A3 A4]. split; congruence. Qed.

Lemma alive_moved k t new os u u' : moved new os u u' -> alive k t u -> alive k t u'.
Proof. intros [_ Hk]. by apply alive_kept. Qed.

Lemma moved_queue new os u u' : moved new os u u' ->
  zlen (commandQueue (base u')) <= zlen (commandQueue (base u)) + zlen new
  /\ (new = [] -> commandQueue (base u) = [] -> commandQueue (base u') = []).
Proof.
  intros [(tr & _ & E & _) _]. split.
  - apply (f_equal zlen) in E. rewrite !zlen_app in E. pose proof (zlen_nonneg (commands_of tr)). lia.
  - intros -> Eq. rewrite Eq in E. by symmetry in E; apply app_eq_nil in E as [_ ?].
Qed.


(** Executing commands of the queue. *)
Lemma execute_commands_spec l n u N : 0 <= N < 2 ^ 31 -> n < 2 ^ 31 -> us_ok l n u ->
  exists t q s m, @CommandQueue.Execute _ _ (loop_queue bulk) N (mkQueue (Some (peers_of (base u))) (commandQueue (base u)) []) = Some (t, q)
    /\ target q = Some s /\ commandQueue (base u) = executed q ++ commands q /\ exec_cmds (peers_of (base u)) (executed q) = Some s
    /\ 0 <= m /\ loop_ok m s /\ m + cmds_weight (commands q) <= n /\ same_slots (peers_of (base u)) s.
Proof.
  intros HN Hn [(m & Hm & Hok & Hw) Hl Hf _ _ _].
  destruct (loop_queue_execute bulk (peers_of (base u)) (commandQueue (base u)) N HN) as (t & q & Eq & Et & Eh & _).
  rewrite Eh in Hw, Hf. rewrite cmds_weight_app in Hw. apply Forall_app in Hf as [Hf _].
  pose proof (cmds_weight_nonneg (executed q)). pose proof (cmds_weight_nonneg (commands q)).
  destruct (exec_cmds_spec (executed q) m (peers_of (base u)) Hok) as (s & Es & Hs & Hss); [ lia | by rewrite Hl | ].
  exists t, q, s, (m + cmds_weight (executed q)). rewrite Et. split_and!; try done; lia.
Qed.

Lemma calls_known_same (s s' : @LoopState Sock) (cs : gmap nat (@RpcCalls.PeerCalls T)) : same_slots s s' -> calls_known s cs -> calls_known s' cs.
Proof. intros Hss [H1 H2]. split; [ | done ]. intros d. rewrite (ss_store _ _ Hss). apply H1. Qed.

Lemma iterate_spec l n u e : n < 2 ^ 31 -> loopSmallIterations (base u) + 1 < 2 ^ 63 -> us_ok l n u ->
  exists u', iterate u e = Some u' /\ us_ok l n u' /\ moved [] [] u u'
    /\ loopSmallIterations (base u') = loopSmallIterations (base u) + 1 /\ noWaitLoop u' = noWaitLoop u
    /\ (quiet bulk -> zlen (commandQueue (base u)) <= 1024 * 1024 -> commandQueue (base u') = []).
Proof.
  intros Hn Hc Hu. destruct (execute_commands_spec l n u (1024 * 1024) ltac:(lia) Hn Hu) as (t & q & s & m & Eq & Et & Eh & Es & Hm & Hok & Hw & Hss).
  destruct Hu as [_ Hl Hf Hh Hk Hsm]. unfold iterate, _InternalSingleLoopIteration.
  rewrite (proj2 (Z.ltb_lt _ _)) by lia. rewrite Eq, Et, Hh.
  destruct (FlushPendingPeers_spec _ s Hok) as (s' & Ef & Hs' & Hss' & _). rewrite Ef.
  destruct (check_timeouts_spec _ s' (hosts (base u)) (calls (base u)) (e_draws e) (e_now e) Hs') as (cs' & -> & Hk' & _);
    [ by apply (calls_known_same (peers_of (base u))); [ etrans | ] | ].
  eexists. split; [ done | ]. split_and!; try done.
  - split; cbn [base set_base peers_of hosts calls commandQueue loopSmallIterations]; try done; try lia.
    + by exists m.
    + by rewrite (ss_loop _ _ Hss'), (ss_loop _ _ Hss).
    + rewrite Eh in Hf. by apply Forall_app in Hf as [_ ?].
  - split; [ | done ]. exists ((ACommand <$> executed q) ++ [AFlush]). rewrite exec_atoms_app, exec_commands, Es. cbn [exec_atoms exec_atom].
    rewrite Ef. unfold commands_of, sockets_of. rewrite !omap_app. fold (commands_of (ACommand <$> executed q)) (sockets_of (ACommand <$> executed q)).
    rewrite commands_of_commands, sockets_of_commands, !app_nil_r. done.
  - intros Hq Hz. cbn [base set_base commandQueue]. by apply (loop_queue_drained bulk _ _ _ t q Hq) in Eq; [ | lia ].
Qed.

(** Only an opening adds a peer object, and none goes away. *)
Lemma loop_step_store c (s s' : @LoopState Sock) o : loop_ok c s -> c + op_weight o < 2 ^ 31 -> op_fits o -> loop_ok (c + op_weight o) s' ->
  loop_step s o = Some s' ->
  forall d, is_Some (wst (world s') !! d) <-> is_Some (wst (world s) !! d) \/ exists h k, o = LOpen d h k.
Proof.
  intros Hs Hn Ho Hs' E d.
  assert ((forall h k, o <> LOpen d h k) -> (is_Some (wst (world s') !! d) <-> is_Some (wst (world s) !! d)) ->
    (is_Some (wst (world s') !! d) <-> is_Some (wst (world s) !! d) \/ exists h k, o = LOpen d h k)) as Hsame.
  { intros Hne ->. split; [ by left | ]. intros [? | (h & k & ->)]; [ done | by destruct (Hne h k) ]. }
  assert (s = s' -> is_Some (wst (world s') !! d) <-> is_Some (wst (world s) !! d)) as Heq by (by intros ->).
  assert (forall x, cmd_weight x = op_weight o -> cmd_fits (pm_loop (wm (world s))) x -> exec_cmd s x = Some s' ->
    (is_Some (wst (world s') !! d) <-> is_Some (wst (world s) !! d))) as Hcmd.
  { intros x Hw Hx Ex. destruct (exec_cmd_spec c s x Hs ltac:(lia) Hx) as (s1 & Ex1 & _ & Hss). rewrite Ex in Ex1. injection Ex1 as <-.
    by rewrite (ss_store _ _ Hss). }
  destruct o as [d0 h k | h | d0 | d0 | h f | data | h | ]; cbn [loop_step op_fits] in *; [ | apply Hsame; [ done | ].. ].
  - case_bool_decide as Hb.
    + injection E as <-. split; [ by left | ]. intros [? | (? & ? & [= -> _ _])]; done.
    + unfold open_peer in E. inv_bind E. destruct p0 as [w hd]. injection E as <-.
      rewrite !(lo_known _ _ Hs'), (lo_known _ _ Hs). cbn [sends]. destruct (decide (d = d0)) as [-> | Hne].
      * rewrite lookup_insert_eq. split; [ right; by eexists _, _ | by eexists ].
      * rewrite lookup_insert_ne by done. split; [ by left | ]. intros [? | (? & ? & [= E' _ _])]; [ done | by destruct (Hne (eq_sym E')) ].
  - destruct (loop h =? _); [ | apply Heq; congruence ]. unfold close_peer in E. inv_bind E. destruct p as [w hd]. injection E as <-.
    by rewrite !(lo_known _ _ Hs'), (lo_known _ _ Hs).
  - case_bool_decide; [ | apply Heq; congruence ]. unfold on_ready in E. inv_bind E. by injection E as <-.
  - case_bool_decide; [ | apply Heq; congruence ]. unfold LoopFlush.on_writable in E. inv_bind E. destruct p0. by injection E as <-.
  - destruct (Z.eqb_spec (loop h) (pm_loop (wm (world s)))); [ | apply Heq; congruence ].
    apply (Hcmd (CSendFrame h f)); [ done | | done ]. split; [ done | exact Ho ].
  - by apply (Hcmd (CBatchSend (pm_loop (wm (world s))) data)).
  - destruct (Z.eqb_spec (loop h) (pm_loop (wm (world s)))); [ | apply Heq; congruence ]. by apply (Hcmd (CDisconnect h)).
  - destruct (FlushPendingPeers_spec _ s Hs) as (s1 & E1 & _ & Hss & _). rewrite E in E1. injection E1 as <-. by rewrite (ss_store _ _ Hss).
Qed.

(** ** Callbacks keep the invariant *)

Section Steps.
Context (Hpage : usable 4096 < 2 ^ 30) (Hnew : RpcCalls.calls_ok new_calls).
Context (l : Z) (k t : nat).

Lemma socket_callback_spec n u o : us_ok l n u -> op_fits o -> n + op_weight o < 2 ^ 31 ->
  exists u', socket_callback u o = Some u' /\ us_ok l (n + op_weight o) u' /\ moved [] [o] u u'
    /\ loopSmallIterations (base u') = loopSmallIterations (base u) /\ commandQueue (base u') = commandQueue (base u)
    /\ (forall d, is_Some (wst (world (peers_of (base u))) !! d) -> is_Some (wst (world (peers_of (base u'))) !! d)).
Proof.
  intros [(m & Hm & Hok & Hw) Hl Hf Hh Hk Hsm] Ho Hn. pose proof (cmds_weight_nonneg (commandQueue (base u))).
  destruct (loop_step_ok m (peers_of (base u)) o Hpage Hok Hm) as (s & E & Hs & El); [ lia | done | ].
  unfold socket_callback. rewrite E. eexists. split; [ done | ]. split_and!; [ | | done | done | ].
  - split; cbn [base set_base peers_of hosts calls commandQueue loopSmallIterations]; try done; try congruence.
    + exists (m + op_weight o). assert (0 <= op_weight o) by (destruct o; cbn; try lia; apply zlen_nonneg). split_and!; (done || lia).
    + pose proof (loop_step_store m _ s o Hok ltac:(lia) Ho Hs E) as Hst. destruct Hk as [Hk1 Hk2].
      assert ((forall d h0 k0, o <> LOpen d h0 k0) -> calls_known s (calls (base u))) as Hsame.
      { intros Hne. split; [ | done ]. intros d Hd. destruct (proj1 (Hst d) Hd) as [Hd' | (h0 & k0 & E')]; [ by apply Hk1 | by destruct (Hne d h0 k0) ]. }
      destruct o as [d0 h0 k0 | | | | | | | ]; try (by apply Hsame). clear Hsame.
      cbn [loop_step] in E. case_bool_decide as Hb; [ injection E as <-; by split | ].
      split; [ | by apply map_Forall_insert_2 ]. intros d Hd. destruct (decide (d = d0)) as [-> | Hne]; [ rewrite lookup_insert_eq; by eexists | ].
      rewrite lookup_insert_ne by done. destruct (proj1 (Hst d) Hd) as [Hd' | (? & ? & [= E' _ _])]; [ by apply Hk1 | by destruct (Hne (eq_sym E')) ].
  - split; [ | done ]. exists [ASocket o]. cbn [exec_atoms exec_atom]. rewrite E. by rewrite app_nil_r.
  - intros d Hd. apply (loop_step_store m _ s o Hok ltac:(lia) Ho Hs E). by left.
Qed.

Definition h_weight (h : happening) : Z :=
  match h with OnSocket o => op_weight o | OnThread c => cmd_weight c | _ => 0 end.

Definition h_fits (h : happening) : Prop :=
  match h with OnSocket o => op_fits o | OnThread c => cmd_fits l c | OnTimer t' _ => t' = t | _ => True end.

Lemma h_weight_nonneg h : 0 <= h_weight h.
Proof. destruct h as [ | | o | c | | ]; cbn [h_weight]; try lia; [ destruct o; cbn; try lia; apply zlen_nonneg | apply cmd_weight_nonneg ]. Qed.

Lemma happen_spec n u h : alive k t u -> us_ok l n u -> h_fits h -> n + h_weight h < 2 ^ 31 ->
  loopSmallIterations (base u) + 1 < 2 ^ 63 ->
  exists u', happen u h = Some u' /\ us_ok l (n + h_weight h) u' /\ moved (enqueued [h]) (socket_ops [h]) u u'
    /\ loopSmallIterations (base u') <= loopSmallIterations (base u) + 1.
Proof.
  intros [A1 A2 A3 A4] Hu Hh Hn Hc. destruct h as [e | t' e | o | c | b | ms]; cbn [happen h_weight h_fits] in *; rewrite ?Z.add_0_r in *.
  - rewrite A1. unfold _Internal_wakeup_cb, LoopFromUsLoop. rewrite bool_decide_eq_true_2 by done.
    destruct (iterate_spec l n (set_counts u (loopBigIterations u) (loopWakeups u + 1) (loopTimerWakeups u)) e) as (u' & -> & Hu' & Hmv & Hsm & _);
      [ lia | done | by destruct Hu | ]. exists u'. split_and!; [ done | done | by destruct Hmv as [? []] | by rewrite Hsm ].
  - subst t'. unfold _InternalOnTimerWakup. rewrite bool_decide_eq_true_2 by done.
    destruct (iterate_spec l n (set_counts u (loopBigIterations u) (loopWakeups u) (loopTimerWakeups u + 1)) e) as (u' & -> & Hu' & Hmv & Hsm & _);
      [ lia | done | by destruct Hu | ]. exists u'. split_and!; [ done | done | by destruct Hmv as [? []] | by rewrite Hsm ].
  - destruct (socket_callback_spec n u o Hu Hh Hn) as (u' & -> & Hu' & Hmv & Hsm & _). exists u'. split_and!; try done. lia.
  - unfold EnqueueCommand, WakeUp. cbn [us_loop set_base]. rewrite A1. eexists. split; [ done | ]. split_and!; [ | | cbn; lia ].
    + destruct Hu as [(m & Hm & Hok & Hw) Hl Hf Hhs Hk Hsm]. split; cbn [base set_base set_queue peers_of hosts calls commandQueue loopSmallIterations]; try done.
      * exists m. rewrite cmds_weight_app. cbn. split_and!; try done. lia.
      * apply Forall_app. split; [ done | by apply Forall_singleton ].
    + split; [ | done ]. exists []. done.
  - eexists. split; [ done | ]. split_and!; [ by destruct Hu | split; [ exact (mv_trace _ _ _ _ (moved_refl u)) | done ] | cbn; lia ].
  - unfold _LocalSetTimerRepeat. rewrite A3. eexists. split; [ done | ].
    split_and!; [ by destruct Hu | split; [ exact (mv_trace _ _ _ _ (moved_refl u)) | done ] | cbn; lia ].
Qed.

Definition hs_weight (hs : list happening) : Z := foldr (fun h n => h_weight h + n) 0 hs.

Lemma hs_weight_nonneg hs : 0 <= hs_weight hs.
Proof. induction hs as [|h hs IH]; cbn; [ lia | ]. change (0 <= h_weight h + hs_weight hs). pose proof (h_weight_nonneg h). lia. Qed.

Lemma happen_all_spec hs : forall n u, alive k t u -> us_ok l n u -> Forall h_fits hs -> n + hs_weight hs < 2 ^ 31 ->
  loopSmallIterations (base u) + zlen hs < 2 ^ 63 ->
  exists u', happen_all u hs = Some u' /\ us_ok l (n + hs_weight hs) u' /\ moved (enqueued hs) (socket_ops hs) u u'
    /\ loopSmallIterations (base u') <= loopSmallIterations (base u) + zlen hs.
Proof.
  induction hs as [|h hs IH]; intros n u Ha Hu Hhs Hn Hc.
  { exists u. change (hs_weight []) with 0. change (zlen (@nil happening)) with 0. rewrite !Z.add_0_r. split_and!; try done. apply moved_refl. }
  apply Forall_cons in Hhs as [Hh Hhs]. rewrite zlen_cons in Hc |- *. change (hs_weight (h :: hs)) with (h_weight h + hs_weight hs) in *.
  pose proof (zlen_nonneg hs). pose proof (hs_weight_nonneg hs). cbn [happen_all].
  destruct (happen_spec n u h Ha Hu Hh) as (u1 & -> & Hu1 & M1 & C1); [ lia | lia | ].
  destruct (IH (n + h_weight h) u1) as (u' & -> & Hu' & M & C); [ by eapply alive_moved | done | done | lia | lia | ].
  exists u'. split_and!; [ done | by rewrite Z.add_assoc | | lia ].
  pose proof (moved_trans _ _ _ _ _ _ _ M1 M) as M2. by rewrite <- enqueued_app, <- socket_ops_app in M2.
Qed.

(** ** Turns of the uSockets loop *)

Definition tick_ok (x : Tick) : Prop := Forall h_fits (ready x).

Lemma run_once_spec n u x : alive k t u -> us_ok l n u -> tick_ok x -> n + hs_weight (ready x) < 2 ^ 31 ->
  loopSmallIterations (base u) + (zlen (ready x) + 2) < 2 ^ 63 ->
  exists u', us_loop_run_once u x = Some u' /\ us_ok l (n + hs_weight (ready x)) u' /\ moved (enqueued (ready x)) (socket_ops (ready x)) u u'
    /\ loopSmallIterations (base u') <= loopSmallIterations (base u) + (zlen (ready x) + 2)
    /\ (quiet bulk -> zlen (commandQueue (base u)) <= 1024 * 1024 -> enqueued (ready x) = [] -> commandQueue (base u') = []).
Proof.
  intros Ha Hu Hx Hn Hc. pose proof (zlen_nonneg (ready x)). pose proof (hs_weight_nonneg (ready x)).
  unfold us_loop_run_once. rewrite (al_loop _ _ _ Ha). unfold _Internal_pre_cb, LoopFromUsLoop. rewrite bool_decide_eq_true_2 by apply Ha.
  destruct (iterate_spec l n u (before x)) as (u1 & -> & Hu1 & M1 & C1 & _ & D1); [ lia | lia | done | ].
  assert (alive k t u1) as Ha1 by (by eapply alive_moved).
  destruct (happen_all_spec (ready x) n u1 Ha1 Hu1 Hx) as (u2 & -> & Hu2 & M2 & C2); [ lia | lia | ].
  assert (alive k t u2) as Ha2 by (by eapply alive_moved).
  pose proof (moved_trans _ _ _ _ _ _ _ M1 M2) as M. cbn [app] in M.
  assert (quiet bulk -> zlen (commandQueue (base u)) <= 1024 * 1024 -> enqueued (ready x) = [] -> commandQueue (base u2) = []) as D2.
  { intros Hq Hz He. apply (moved_queue _ _ _ _ M2); auto. }
  unfold _Internal_post_cb, LoopFromUsLoop. rewrite bool_decide_eq_true_2 by apply Ha2.
  destruct (noWaitLoop u2); [ exists u2; split_and!; (done || lia) | ].
  destruct (iterate_spec l (n + hs_weight (ready x)) u2 (after x)) as (u3 & -> & Hu3 & M3 & C3 & _); [ lia | lia | done | ].
  exists u3. split_and!; [ done | done | | lia | ].
  - pose proof (moved_trans _ _ _ _ _ _ _ M M3) as M4. by rewrite !app_nil_r in M4.
  - intros. apply (moved_queue _ _ _ _ M3); auto.
Qed.

Definition all_ready (ts : list Tick) : list happening := concat (ready <$> ts).

Lemma all_ready_cons x ts : all_ready (x :: ts) = ready x ++ all_ready ts.
Proof. done. Qed.

Lemma hs_weight_app a b : hs_weight (a ++ b) = hs_weight a + hs_weight b.
Proof. induction a as [|h a IH]; cbn; [ done | ]. change (h_weight h + hs_weight (a ++ b) = h_weight h + hs_weight a + hs_weight b). lia. Qed.

(** How many iterations some turns make at most. *)
Definition turns (ts : list Tick) : Z := zlen (all_ready ts) + 2 * zlen ts.

Lemma turns_cons x ts : turns (x :: ts) = zlen (ready x) + 2 + turns ts.
Proof. unfold turns. rewrite all_ready_cons, zlen_app, zlen_cons. lia. Qed.

Lemma turns_nonneg ts : 0 <= turns ts.
Proof. unfold turns. pose proof (zlen_nonneg ts). pose proof (zlen_nonneg (all_ready ts)). lia. Qed.

Lemma run_spec ts : forall n u, alive k t u -> us_ok l n u -> Forall tick_ok ts -> n + hs_weight (all_ready ts) < 2 ^ 31 ->
  loopSmallIterations (base u) + turns ts < 2 ^ 63 ->
  exists u', us_loop_run u ts = Some u' /\ us_ok l (n + hs_weight (all_ready ts)) u'
    /\ moved (enqueued (all_ready ts)) (socket_ops (all_ready ts)) u u'
    /\ loopSmallIterations (base u') <= loopSmallIterations (base u) + turns ts.
Proof.
  induction ts as [|x ts IH]; intros n u Ha Hu Hts Hn Hc.
  { exists u. change (hs_weight (all_ready [])) with 0. change (turns []) with 0. rewrite !Z.add_0_r. split_and!; try done. apply moved_refl. }
  apply Forall_cons in Hts as [Hx Hts]. rewrite turns_cons in Hc |- *. rewrite all_ready_cons in *. rewrite hs_weight_app in *.
  pose proof (turns_nonneg ts). pose proof (hs_weight_nonneg (all_ready ts)). cbn [us_loop_run].
  destruct (run_once_spec n u x Ha Hu Hx) as (u1 & -> & Hu1 & M1 & C1 & _); [ lia | lia | ].
  destruct (IH (n + hs_weight (ready x)) u1) as (u' & -> & Hu' & M & C); [ by eapply alive_moved | done | done | lia | lia | ].
  exists u'. split_and!; [ done | by rewrite Z.add_assoc | | lia ].
  pose proof (moved_trans _ _ _ _ _ _ _ M1 M) as M2. by rewrite <- enqueued_app, <- socket_ops_app in M2.
Qed.

(** ** Executing the rest of the queue *)




(** ** Destroying hosts *)


(** A step of the destruction: only peers and their calls change. *)
Record quietly (u u' : Loop) : Prop := {
  qu_kept : kept u u';
  qu_ran : ran [] u u';
  qu_queue : commandQueue (base u') = commandQueue (base u);
  qu_small : loopSmallIterations (base u') = loopSmallIterations (base u);
  qu_store : forall d, is_Some (wst (world (peers_of (base u))) !! d) -> is_Some (wst (world (peers_of (base u'))) !! d)
}.

#[export] Instance quietly_PreOrder : PreOrder quietly.
Proof.
  split; [ intros u; split; try done; by apply ran_same | ]. intros u v w [] []. split; [ by etrans | by eapply ran_trans_0 | congruence.. | auto ].
Qed.




(** ** Hosts and contexts *)

(** Each host of the loop has one context, found from each other; a context has all eight
    handlers, of its host. *)
Record tables_ok (u : Loop) : Prop := {
  to_nodup : NoDup (hosts (base u)).*1;
  to_dom : forall h, is_Some (socketContext u !! h) <-> h ∈ (hosts (base u)).*1;
  to_match : forall h c, socketContext u !! h = Some c <-> hostsBySocketContext u !! c = Some h;
  to_contexts : forall c x, contexts u !! c = Some x ->
    exists h ssl, hostsBySocketContext u !! c = Some h /\ x = SetUSocketContextCallbacks ssl (mkContext (Some h) []);
  to_known : forall c, is_Some (hostsBySocketContext u !! c) -> is_Some (contexts u !! c)
}.








(** ** The end of the loop *)





(** ** Programs *)





(** The turns of a big iteration. *)
Definition turns_of (u : Loop) (once : Tick) (ts : list Tick) : list Tick := if noWaitLoop u then [once] else ts.










Lemma us_loop_run_one u x : us_loop_run u [x] = us_loop_run_once u x.
Proof. cbn. by destruct (us_loop_run_once u x). Qed.

Lemma SingleLoopIteration_spec n u once ts e : alive k t u -> us_ok l n u -> Forall tick_ok (turns_of u once ts) ->
  n + hs_weight (all_ready (turns_of u once ts)) < 2 ^ 31 -> loopSmallIterations (base u) + (turns (turns_of u once ts) + 1) < 2 ^ 63 ->
  exists u', SingleLoopIteration u once ts e = Some u' /\ us_ok l (n + hs_weight (all_ready (turns_of u once ts))) u'
    /\ moved (enqueued (all_ready (turns_of u once ts))) (socket_ops (all_ready (turns_of u once ts))) (counted u) u'
    /\ loopSmallIterations (base u') <= loopSmallIterations (base u) + (turns (turns_of u once ts) + 1)
    /\ (quiet bulk -> zlen (commandQueue (base u)) + zlen (enqueued (all_ready (turns_of u once ts))) <= 1024 * 1024 -> commandQueue (base u') = []).
Proof.
  intros Ha Hu Hts Hn Hc. unfold SingleLoopIteration.
  assert (alive k t (counted u)) as Ha1 by (by destruct Ha; split). assert (us_ok l n (counted u)) as Hu1 by (by destruct Hu; split).
  rewrite (al_loop _ _ _ Ha1). change (noWaitLoop (counted u)) with (noWaitLoop u). rewrite <- us_loop_run_one.
  assert ((if noWaitLoop u then us_loop_run (counted u) [once] else us_loop_run (counted u) ts) = us_loop_run (counted u) (turns_of u once ts)) as ->
    by (unfold turns_of; by destruct (noWaitLoop u)).
  destruct (run_spec (turns_of u once ts) n (counted u) Ha1 Hu1 Hts Hn) as (u2 & -> & Hu2 & M2 & C2); [ cbn [counted set_counts base]; lia | ].
  change (base (counted u)) with (base u) in *. destruct (moved_queue _ _ _ _ M2) as [Z2 _]. change (base (counted u)) with (base u) in Z2.
  destruct (iterate_spec l _ u2 e Hn) as (u' & -> & Hu' & M' & C' & _ & D'); [ lia | done | ]. exists u'. split_and!; [ done | done | | lia | ].
  - pose proof (moved_trans _ _ _ _ _ _ _ M2 M') as M. by rewrite !app_nil_r in M.
  - intros Hq Hz. apply D'; [ done | lia ].
Qed.



Lemma us_Init_spec ms : l <> 0 -> exists u, Init (Loop_new l) (Some k) (Some t) ms = Some (u, true) /\ alive k t u /\ us_ok l 0 u /\ tables_ok u
  /\ loopSmallIterations (base u) = 0 /\ loop_ext u = {[k]} /\ timer_ext u = {[t]}.
Proof.
  intros Hl. eexists. split; [ done | ]. cbn [loop_ext timer_ext Loop_new]. split_and!; try done; [ | | | set_solver | set_solver ].
  - split; cbn [us_loop loop_ext timerWakeup timer_ext]; try done; set_solver.
  - split; cbn [base Loop_new peers_of hosts calls commandQueue loopSmallIterations]; try done.
    + exists 0. split_and!; [ done | by apply Loop_init_ok | done ].
    + split; [ | apply map_Forall_empty ]. intros d. cbn. by intros [].
  - split; cbn [base Loop_new hosts socketContext hostsBySocketContext contexts].
    + apply NoDup_nil_2.
    + intros h. rewrite lookup_empty. split; [ by intros [] | by intros ?%elem_of_nil ].
    + intros h c. by rewrite !lookup_empty.
    + intros c x. by rewrite lookup_empty.
    + intros c. rewrite lookup_empty. by intros [].
Qed.

End Steps.

(** ** Properties *)

(** A big iteration of a loop on uSockets in which uSockets makes finitely many turns returns,
    whichever callbacks it makes in them. For commands of one thread that send, send a batch or
    disconnect, what the iteration does to the peers is a sequence of commands, events of sockets
    and flushes: the commands are executed in the order in which they were enqueued, each once,
    and the events of sockets are handled in their order. The hosts and their contexts stay as
    they are. When the queue hands out what it has and holds up to 1024 * 1024 commands, none is
    left at the end. *)
Theorem big_iteration_executes_in_order l k t n u once ts e :
  usable 4096 < 2 ^ 30 -> RpcCalls.calls_ok new_calls -> alive k t u -> us_ok l n u -> Forall (tick_ok l t) (turns_of u once ts) ->
  n + hs_weight (all_ready (turns_of u once ts)) < 2 ^ 31 -> loopSmallIterations (base u) + (turns (turns_of u once ts) + 1) < 2 ^ 63 ->
  exists u', SingleLoopIteration u once ts e = Some u' /\ us_ok l (n + hs_weight (all_ready (turns_of u once ts))) u'
    /\ (exists tr, exec_atoms (peers_of (base u)) tr = Some (peers_of (base u'))
          /\ commandQueue (base u) ++ enqueued (all_ready (turns_of u once ts)) = commands_of tr ++ commandQueue (base u')
          /\ sockets_of tr = socket_ops (all_ready (turns_of u once ts)))
    /\ kept (counted u) u'
    /\ (quiet bulk -> zlen (commandQueue (base u)) + zlen (enqueued (all_ready (turns_of u once ts))) <= 1024 * 1024 -> commandQueue (base u') = []).
Proof.
  intros Hpage Hnew Ha Hu Hts Hn Hc. destruct (SingleLoopIteration_spec Hpage Hnew l k t n u once ts e Ha Hu Hts Hn Hc) as (u' & E & Hu' & [Htr Hk] & _ & D).
  exists u'. split_and!; done.
Qed.


End Loop.

(** ** Witnesses *)

#[local] Existing Instances RpcCalls.callbacks_map.

Definition sample_env : Env := mkEnv [mkDraw 3 4 5] 7.

Definition sample_handle : PeerHandle := mkHandle (mkId 0 1) 100.

(** A connection opens and gets ready, another thread sends it a frame and wakes the loop up,
    and the timer expires. *)
Definition sample_tick : @Tick unit :=
  mkTick sample_env [OnSocket (LOpen 0 5 tt); OnSocket (LReady 0); OnThread (CSendFrame sample_handle [8; 9]); OnWakeup sample_env; OnTimer 2 sample_env] sample_env.

(** Another thread sends after the loop was asked to end. *)
Definition late_tick : @Tick unit := mkTick sample_env [OnNoWait true; OnThread (CSendFrame sample_handle [1])] sample_env.

Definition empty_tick : @Tick unit := mkTick sample_env [] sample_env.

Lemma sample_ticks_ok : Forall (tick_ok 100 2) [sample_tick; late_tick; empty_tick].
Proof.
  unfold tick_ok. rewrite !Forall_cons, Forall_nil. cbn [sample_tick late_tick empty_tick ready]. rewrite !Forall_cons, !Forall_nil.
  cbn [h_fits op_fits cmd_fits]. unfold send_fits. cbn [fst snd sample_handle loop hid PeerManager.id]. split_and!; try exact I; try reflexivity; intros; (reflexivity || lia).
Qed.

Abbreviation sample_new l := (Loop_new (Sock := unit) (T := sample_map) l).

Lemma big_iteration_executes_in_order_witness :
  exists u u', Init (sample_new 100) (Some 1%nat) (Some 2%nat) 1 = Some (u, true)
    /\ SingleLoopIteration (fun q n => length q) RpcCalls.no_calls u empty_tick [sample_tick; empty_tick] sample_env = Some u'
    /\ commandQueue (base u') = [] /\ loopBigIterations u' = 1.
Proof.
  assert (usable 4096 < 2 ^ 30) as Hpage by reflexivity.
  destruct (us_Init_spec (Sock := unit) RpcCalls.no_calls Hpage (proj1 RpcCalls.no_calls_spec) 100 1 2 1 ltac:(lia)) as (u & E & Ha & Hu & _ & C & _).
  assert (noWaitLoop u = false /\ loopBigIterations u = 0 /\ commandQueue (base u) = []) as (Ew & Eb & Eq)
    by (cbn in E; injection E as <-; exact (conj eq_refl (conj eq_refl eq_refl))).
  assert (turns_of u empty_tick [sample_tick; empty_tick] = [sample_tick; empty_tick]) as Et by (unfold turns_of; rewrite Ew; reflexivity).
  destruct (big_iteration_executes_in_order (fun q n => length q) RpcCalls.no_calls 100 1 2 0 u empty_tick [sample_tick; empty_tick] sample_env)
    as (u' & E' & _ & _ & K & D); rewrite ?Et; [ reflexivity | apply RpcCalls.no_calls_spec | exact Ha | exact Hu | | reflexivity | rewrite C; reflexivity | ].
  - pose proof sample_ticks_ok as Hs. rewrite !Forall_cons in Hs. rewrite !Forall_cons. destruct Hs as (? & ? & ? & ?). split_and!; assumption.
  - exists u, u'. refine (conj E (conj E' (conj _ _))).
    + apply D; [ intros q n; reflexivity | rewrite Eq, Et; vm_compute; discriminate ].
    + rewrite (kp_big _ _ K). cbn [counted set_counts loopBigIterations]. rewrite Eb. reflexivity.
Defined.



End UsLoop.
