(* ===== verification/ChatServer.v ===== *)
(** * The chat server (examples/chat_server.cpp)

    A program on top of the library: clients set nicknames, broadcast messages and send
    messages to a nickname. The table of nicknames is a global map; the nickname of a peer is a
    string on the heap, which the user pointer of the peer's shared object leads to. The
    functions are registered without a queue, so they and the disconnect callback run in the
    loop's thread, one after the other; the messages they send are commands for the loop.
    The peers are those of HostLifecycle.v, [rpc.Send] is that of RpcSend.v. Printing and the
    reading of the console are left out. *)

From Stdlib Require Import Ascii String.
From S2P Require Import Prelude CString MemoryPool ByteBuffer FramingProtocol FrameDecoder PeersToFlush PeerManager HostLifecycle Hash FlatHashMap PeerSend LoopFlush RpcCalls RpcRegistry RpcDispatch BatchWriter CommandsBuffer CommandQueue SendPaths LoopIteration Delivery RpcSend.

Module ChatServer.
Import CString PeerManager HostLifecycle SendPaths RpcSend.

Section Server.
Context `{Allocator} `{NameCodec}.

(** [peers]: the table; [userPointer]: the pointers of the shared objects that are not null;
    [strings]: the strings on the heap; [commandQueue]: what was sent to the loop. *)
Record Server := mkServer {
  host : HostState;
  peers : gmap (list Z) PeerHandle;
  userPointer : gmap nat nat;
  strings : gmap nat (list Z);
  commandQueue : list cmd
}.

Definition Server_init (loop this : Z) : Server := mkServer (Host_init loop this) ∅ ∅ ∅ [].

Definition set_host (s : Server) (h : HostState) : Server := mkServer h (peers s) (userPointer s) (strings s) (commandQueue s).

(** [peer.GetSharedPeer()->]: the object of a handle; a null pointer stops the program. *)
Definition GetSharedPeer (s : Server) (peer : PeerHandle) : option nat :=
  let* p := GetLocalPeerData (wm (world (host s))) peer in p.

(** The nickname is taken out of the table and its string is deleted. *)
Definition forget_name (s : Server) (d : nat) : option Server :=
  match userPointer s !! d with
  | None => Some s
  | Some p =>
      let* oldName := strings s !! p in
      Some (mkServer (host s) (delete oldName (peers s)) (delete d (userPointer s)) (delete p (strings s)) (commandQueue s))
  end.

(** ["SetNickname"]. *)
Definition SetNickname (s : Server) (peer : PeerHandle) (nickname : list Z) : option (Server * bool) :=
  let* d := GetSharedPeer s peer in
  let* s := forget_name s d in
  if bool_decide (nickname = []) then Some (s, true)
  else if bool_decide (is_Some (peers s !! nickname)) then Some (s, false)
  else
    let p : nat := base.fresh (dom (strings s)) in
    Some (mkServer (host s) (<[nickname := peer]> (peers s)) (<[d := p]> (userPointer s)) (<[p := nickname]> (strings s)) (commandQueue s), true).

(** The nickname of a peer, empty when it has none. *)
Definition nickname_of (s : Server) (d : nat) : option (list Z) :=
  match userPointer s !! d with
  | None => Some []
  | Some p => strings s !! p
  end.

Definition send (s : Server) (peer : PeerHandle) (name : string) (nickname message : list Z) : option Server :=
  let* n := RpcRegistry.RpcName_string (chars name) in
  let* q := Send (commandQueue s) peer FramingProtocol.FLAG_RELIABLE n [put_str nickname; put_str message] in
  Some (mkServer (host s) (peers s) (userPointer s) (strings s) q).

(** The loop of [ForEachPeer] with the function of ["Broadcast"]. *)
Fixpoint broadcast_to (s : Server) (ds : list nat) (peer : PeerHandle) (nickname message : list Z) : option Server :=
  match ds with
  | [] => Some s
  | d :: ds =>
      let* pd := wst (world (host s)) !! d in
      let p2 := peerHandle pd in
      let* s :=
        if bool_decide (p2 = peer) then Some s
        else
          let* d2 := GetSharedPeer s p2 in
          let* on := nickname_of s d2 in
          send s p2 "Broadcasted" nickname message in
      broadcast_to s ds peer nickname message
  end.

(** ["Broadcast"]. *)
Definition Broadcast (s : Server) (peer : PeerHandle) (message : list Z) : option Server :=
  let* d := GetSharedPeer s peer in
  let* nickname := nickname_of s d in
  let* pd := wst (world (host s)) !! d in
  broadcast_to s (refs_of (world (host s)) (PeerManager.host pd)) peer nickname message.

(** ["Msg"]. *)
Definition Msg (s : Server) (peer : PeerHandle) (nickname message : list Z) : option (Server * bool) :=
  let* d := GetSharedPeer s peer in
  let* srcNickname := nickname_of s d in
  match peers s !! nickname with
  | Some p => let* s := send s p "Msg" srcNickname message in Some (s, true)
  | None => Some (s, false)
  end.

(** The function given to [SetOnDisconnect]. *)
Definition OnDisconnect (s : Server) (peer : PeerHandle) : option Server :=
  let* d := GetSharedPeer s peer in forget_name s d.

(** ** Programs *)

Inductive server_event :=
| SHost (e : event)
| SSetNickname (peer : PeerHandle) (nickname : list Z)
| SBroadcast (peer : PeerHandle) (message : list Z)
| SMsg (peer : PeerHandle) (nickname message : list Z).

(** The library calls the functions with the handle of a peer that it has stored. *)
Definition calls_from (s : Server) (peer : PeerHandle) : bool :=
  (loop peer =? pm_loop (wm (world (host s)))) && (0 <=? PeerManager.id (hid peer)) && bool_decide (is_Some (GetSharedPeer s peer)).

(** An event of a socket; when it closes a peer, the callback is called before the peer is
    released. *)
Definition host_event (s : Server) (e : event) : option Server :=
  let* s :=
    if event_ok (host s) e then
      match closes (host s) e with
      | Some d => let* pd := wst (world (host s)) !! d in OnDisconnect s (peerHandle pd)
      | None => Some s
      end
    else Some s in
  let* h := host_step (host s) e in
  Some (set_host s h).

Definition server_step (s : Server) (x : server_event) : option Server :=
  match x with
  | SHost e => host_event s e
  | SSetNickname peer nickname => if calls_from s peer then let* (s, _) := SetNickname s peer nickname in Some s else Some s
  | SBroadcast peer message => if calls_from s peer then Broadcast s peer message else Some s
  | SMsg peer nickname message => if calls_from s peer then let* (s, _) := Msg s peer nickname message in Some s else Some s
  end.

Fixpoint server_run (s : Server) (xs : list server_event) : option Server :=
  match xs with
  | [] => Some s
  | x :: xs => let* s := server_step s x in server_run s xs
  end.

(** ** The invariant *)

(** [h] is the handle of the live peer [d]. *)
Definition handle_of (hs : HostState) (d : nat) (h : PeerHandle) : Prop :=
  live hs d /\ exists pd, wst (world hs) !! d = Some pd /\ peerHandle pd = h.

(** Texts of bytes, whose encoding is not longer than 64 MiB. *)
Definition text_ok (t : list Z) : Prop := Forall is_u8 t /\ zlen (put_str t) <= 2 ^ 26.

(** A nickname belongs to one peer, which is connected and knows it; every string on the heap
    is the nickname of a peer. *)
Record server_ok (s : Server) : Prop := {
  sv_host : host_ok (host s);
  sv_named : forall d p, userPointer s !! d = Some p ->
    exists name h, strings s !! p = Some name /\ name <> [] /\ text_ok name /\ peers s !! name = Some h /\ handle_of (host s) d h;
  sv_peers : forall name h, peers s !! name = Some h ->
    exists d p, userPointer s !! d = Some p /\ strings s !! p = Some name /\ handle_of (host s) d h;
  sv_strings : forall p, is_Some (strings s !! p) -> exists d, userPointer s !! d = Some p
}.

Lemma handle_of_spec hs d h : host_ok hs -> handle_of hs d h ->
  GetLocalPeerData (wm (world hs)) h = Some (Some d) /\ handle_valid h = true /\ loop h = pm_loop (wm (world hs)) /\ 0 <= PeerManager.id (hid h).
Proof.
  intros Hs [Hl (pd & Hpd & <-)]. destruct (live_handle hs d Hs Hl) as (i & v & Est & Hi & _ & _ & Hg & Hv). cbv zeta in *.
  rewrite Hpd in Est. injection Est as ->. cbn [peerHandle]. split_and!; done.
Qed.

Lemma handle_of_inj hs d1 d2 h : host_ok hs -> handle_of hs d1 h -> handle_of hs d2 h -> d1 = d2.
Proof. intros Hs [E1 _]%(handle_of_spec _ _ _ Hs) [E2 _]%(handle_of_spec _ _ _ Hs). congruence. Qed.

Lemma handle_of_fun hs d h1 h2 : handle_of hs d h1 -> handle_of hs d h2 -> h1 = h2.
Proof. intros [_ (pd1 & E1 & <-)] [_ (pd2 & E2 & <-)]. congruence. Qed.

(** A handle that resolves is the one of its peer. *)
Lemma resolved_handle hs h d : host_ok hs -> loop h = pm_loop (wm (world hs)) -> 0 <= PeerManager.id (hid h) ->
  GetLocalPeerData (wm (world hs)) h = Some (Some d) -> handle_of hs d h.
Proof.
  intros Hs Hl Hi Hg. destruct (GetLocalPeerData_spec (world hs) h (ho_inv _ Hs) Hl Hi) as (r & E & Hr). rewrite Hg in E. injection E as <-.
  destruct (proj1 (Hr d) eq_refl) as [Hp Hv]. split; [ by exists (PeerManager.id (hid h)) | ].
  destruct (inv_live _ (ho_inv _ Hs) _ _ _ Hp Hv) as [x Hx]. eexists. split; [ exact Hx | ]. cbn [peerHandle]. unfold slot_handle. rewrite <- Hl.
  destruct h as [[i v] l]. reflexivity.
Qed.

(** ** The handlers keep it *)

Lemma userPointer_inj s d1 d2 p : server_ok s -> userPointer s !! d1 = Some p -> userPointer s !! d2 = Some p -> d1 = d2.
Proof.
  intros Hs H1' H2'. destruct (sv_named _ Hs d1 p H1') as (n1 & h1 & S1 & _ & _ & P1 & D1). destruct (sv_named _ Hs d2 p H2') as (n2 & h2 & S2 & _ & _ & P2 & D2).
  assert (n1 = n2) as -> by congruence. assert (h1 = h2) as -> by congruence. by eapply handle_of_inj; [ apply Hs | .. ].
Qed.

Lemma no_empty_name s : server_ok s -> peers s !! [] = None.
Proof.
  intros Hs. destruct (peers s !! []) as [h|] eqn:E; [ | done ]. destruct (sv_peers _ Hs _ _ E) as (d & p & Hu & Hp & _).
  destruct (sv_named _ Hs d p Hu) as (name & ? & Hn & Hne & _). congruence.
Qed.

Lemma nickname_of_spec s d : server_ok s -> exists n, nickname_of s d = Some n /\ (n <> [] -> text_ok n).
Proof.
  intros Hs. unfold nickname_of. destruct (userPointer s !! d) as [p|] eqn:E; [ | by exists [] ].
  destruct (sv_named _ Hs d p E) as (name & h & -> & _ & Ht & _). by exists name.
Qed.

Lemma forget_name_spec s d : server_ok s ->
  exists s' old, forget_name s d = Some s' /\ server_ok s' /\ host s' = host s /\ commandQueue s' = commandQueue s /\ userPointer s' !! d = None
    /\ nickname_of s d = Some old /\ peers s' = delete old (peers s).
Proof.
  intros Hs. unfold forget_name, nickname_of. destruct (userPointer s !! d) as [p|] eqn:E.
  2:{ exists s, []. split_and!; try done. by rewrite delete_id by (by apply no_empty_name). }
  destruct (sv_named _ Hs d p E) as (old & h & Ep & Hne & Ht & Eh & Hd). rewrite Ep. eexists _, old. split; [ done | ].
  split_and!; try done; [ | cbn [userPointer]; apply lookup_delete_eq ].
  split; cbn [host userPointer strings peers].
  - apply Hs.
  - intros d' p' [Hne' Hd']%lookup_delete_Some. destruct (sv_named _ Hs d' p' Hd') as (n' & h' & Ep' & Hn' & Ht' & Eh' & Hh'). exists n', h'.
    rewrite !lookup_delete_ne; [ split_and!; done | .. ].
    + intros <-. assert (h' = h) as -> by congruence. by apply Hne', (handle_of_inj (host s) d d' h); [ apply Hs | .. ].
    + intros <-. by apply Hne', (userPointer_inj s d d' p).
  - intros n' h' [Hne' Hn']%lookup_delete_Some. destruct (sv_peers _ Hs n' h' Hn') as (d' & p' & Hu & Hp & Hh). exists d', p'.
    assert (d' <> d) as Hdd by (intros ->; congruence). rewrite !lookup_delete_ne; [ done | | done ].
    intros <-. by apply Hdd, (userPointer_inj s d' d p).
  - intros p' [x [Hne' Hx]%lookup_delete_Some]. destruct (sv_strings _ Hs p') as [d' Hd']; [ by eexists | ]. exists d'. rewrite lookup_delete_ne; [ done | ].
    intros <-. congruence.
Qed.

Lemma GetSharedPeer_handle s d h : server_ok s -> handle_of (host s) d h -> GetSharedPeer s h = Some d.
Proof. intros Hs Hh. unfold GetSharedPeer. by destruct (handle_of_spec _ _ _ (sv_host _ Hs) Hh) as [-> _]. Qed.

(** The table after a peer with the nickname [old] asked for [nickname]. *)
Definition renamed (table : gmap (list Z) PeerHandle) (old nickname : list Z) (peer : PeerHandle) : gmap (list Z) PeerHandle * bool :=
  let rest := delete old table in
  if bool_decide (nickname = []) then (rest, true)
  else if bool_decide (is_Some (rest !! nickname)) then (rest, false)
  else (<[nickname := peer]> rest, true).

Lemma SetNickname_spec s d peer nickname : server_ok s -> handle_of (host s) d peer -> (nickname <> [] -> text_ok nickname) ->
  exists s' r old, SetNickname s peer nickname = Some (s', r) /\ server_ok s' /\ host s' = host s /\ commandQueue s' = commandQueue s
    /\ nickname_of s d = Some old /\ renamed (peers s) old nickname peer = (peers s', r).
Proof.
  intros Hs Hd Ht. unfold SetNickname. rewrite (GetSharedPeer_handle s d peer Hs Hd).
  destruct (forget_name_spec s d Hs) as (s1 & old & -> & Hs1 & Eh & Eq & Eu & En & Ep).
  assert (renamed (peers s) old nickname peer = if bool_decide (nickname = []) then (peers s1, true)
    else if bool_decide (is_Some (peers s1 !! nickname)) then (peers s1, false) else (<[nickname := peer]> (peers s1), true)) as Er by (by rewrite Ep).
  revert Er. case_bool_decide as H1'; [ by exists s1, true, old | ]. case_bool_decide as H2'; intros Er; [ by exists s1, false, old | ].
  eexists _, true, old. split; [ done | ]. split_and!; try done.
  set (p := base.fresh (dom (strings s1))) in *. assert (strings s1 !! p = None) as Hp by (apply not_elem_of_dom, is_fresh).
  rewrite <- Eh in Hd. apply eq_None_not_Some in H2'.
  split; cbn [host userPointer strings peers].
  - apply Hs1.
  - intros d' p'. destruct (decide (d' = d)) as [-> | Hne].
    + rewrite lookup_insert_eq. intros [= <-]. exists nickname, peer. rewrite !lookup_insert_eq. split_and!; auto.
    + rewrite lookup_insert_ne by done. intros Hd'. destruct (sv_named _ Hs1 d' p' Hd') as (n' & h' & Ep' & Hn' & Ht' & Eh' & Hh'). exists n', h'.
      rewrite !lookup_insert_ne by congruence. done.
  - intros n' h'. destruct (decide (n' = nickname)) as [-> | Hne].
    + rewrite lookup_insert_eq. intros [= <-]. exists d, p. by rewrite !lookup_insert_eq.
    + rewrite lookup_insert_ne by done. intros Hn'. destruct (sv_peers _ Hs1 n' h' Hn') as (d' & p' & Hu & Hp' & Hh'). exists d', p'.
      rewrite !lookup_insert_ne by congruence. done.
  - intros p'. destruct (decide (p' = p)) as [-> | Hne]; [ intros _; exists d; by rewrite lookup_insert_eq | ].
    rewrite lookup_insert_ne by done. intros Hx. destruct (sv_strings _ Hs1 p' Hx) as [d' Hd']. exists d'. rewrite lookup_insert_ne by congruence. done.
Qed.

(** ** Sending *)

(** What the clients' functions get, and the frame with it. *)
Definition call_to (h : PeerHandle) (name : string) (nickname message : list Z) : invocation :=
  mkInvocation h FramingProtocol.FLAG_RELIABLE (RpcRegistry.mkName (chars name) 0) [put_str nickname; put_str message].

Definition call_frame (name : string) (nickname message : list Z) : list Z :=
  FrameDecoder.frame_of (message_of (call_to PeerHandle_default name nickname message)).2.

(** The names of the clients' functions are short when encoded. *)
Definition name_fits (name : string) : Prop := chars name <> [] /\ text_ok (chars name).

Lemma put_str_not_nil x : put_str x <> [].
Proof.
  intros E. destruct (put_str_next x (put_uint 0)) as [E1 _]. rewrite E in E1. cbn [app] in E1. pose proof (put_uint_next 0 []) as E2.
  rewrite app_nil_r in E2. congruence.
Qed.

Lemma call_ok h name nickname message : name_fits name -> zlen (chars name) < 2 ^ 28 -> Forall is_u8 nickname -> zlen (put_str nickname) <= 2 ^ 26 ->
  text_ok message -> invocation_ok (call_to h name nickname message).
Proof.
  intros [Hne [Hb Hz]] Hl Hn Hnz [Hm Hmz]. unfold call_to. split; cbn [iname iargs iflags RpcRegistry.str RpcRegistry.uint].
  - left. by split.
  - done.
  - done.
  - cbn. rewrite app_nil_r. apply Forall_app. split; by apply put_str_bytes.
  - unfold body, name_of, RpcDispatch.RpcName_write. cbn [iname iargs RpcRegistry.str RpcRegistry.uint]. rewrite bool_decide_eq_false_2 by done.
    cbn. rewrite app_nil_r, !zlen_app. pose proof (zlen_nonneg (put_str nickname)). pose proof (zlen_nonneg (put_str message)).
    assert (zlen (put_str (chars name)) <> 0) by (intros E%zlen_0_nil; by apply (put_str_not_nil (chars name))).
    pose proof (zlen_nonneg (put_str (chars name))). lia.
  - done.
Qed.

Definition set_queue (s : Server) (q : list cmd) : Server := mkServer (host s) (peers s) (userPointer s) (strings s) q.

Lemma send_spec s h name nickname message : handle_valid h = true -> name_fits name -> zlen (chars name) < 2 ^ 28 ->
  Forall is_u8 nickname -> zlen (put_str nickname) <= 2 ^ 26 -> text_ok message ->
  send s h name nickname message = Some (set_queue s (commandQueue s ++ [CSendFrame h (call_frame name nickname message)])).
Proof.
  intros Hv Hf Hl Hn Hnz Hm. pose proof (call_ok h name nickname message Hf Hl Hn Hnz Hm) as Hok. unfold send, RpcRegistry.RpcName_string.
  rewrite bool_decide_eq_false_2 by apply Hf. cbn [negb]. unfold Send.
  pose proof (SerializeSend_spec _ Hok) as E. unfold call_to in E at 1 2 3. cbn [iflags iname iargs] in E. rewrite E. unfold Peer_Send.
  rewrite (proj2 (Z.eqb_neq _ _)) by (by apply handle_valid_loop). done.
Qed.

(** The handles of some peers, without [peer]. *)
Definition others (hs : HostState) (ds : list nat) (peer : PeerHandle) : list PeerHandle :=
  filter (fun h => h <> peer) (omap (fun d => peerHandle <$> wst (world hs) !! d) ds).

Lemma broadcast_to_spec peer nickname message : name_fits "Broadcasted" -> Forall is_u8 nickname -> zlen (put_str nickname) <= 2 ^ 26 -> text_ok message ->
  forall ds s, server_ok s -> Forall (live (host s)) ds ->
  broadcast_to s ds peer nickname message =
    Some (set_queue s (commandQueue s ++ ((fun h => CSendFrame h (call_frame "Broadcasted" nickname message)) <$> others (host s) ds peer))).
Proof.
  intros Hf Hn Hnz Hm. induction ds as [|d ds IH]; intros s Hs Hds; cbn [broadcast_to].
  { unfold others. cbn. rewrite app_nil_r. by destruct s. }
  apply Forall_cons in Hds as [Hd Hds]. destruct (live_handle (host s) d (sv_host _ Hs) Hd) as (i & v & Est & _). cbv zeta in Est. rewrite Est. cbn [peerHandle].
  set (h := slot_handle _ _ _) in *. assert (handle_of (host s) d h) as Hh by (split; [ done | by eexists ]).
  unfold others. cbn [omap list_omap]. rewrite Est. cbn [fmap option_fmap option_map peerHandle]. rewrite filter_cons.
  case_bool_decide as Hc; [ rewrite decide_False by (intros ?; done); by apply IH | ]. rewrite decide_True by done. cbn [fmap list_fmap].
  rewrite (GetSharedPeer_handle s d h Hs Hh). destruct (nickname_of_spec s d Hs) as (on & -> & _).
  rewrite send_spec; try done; [ | by apply (handle_of_spec _ _ _ (sv_host _ Hs) Hh) ].
  rewrite IH; [ | by destruct Hs; split | done ]. cbn [set_queue host peers userPointer strings commandQueue]. by rewrite <- app_assoc.
Qed.

(** The other peers of the host, each once. *)
Lemma others_spec hs peer : host_ok hs ->
  NoDup (others hs (refs_of (world hs) (this hs)) peer)
  /\ forall h, h ∈ others hs (refs_of (world hs) (this hs)) peer <-> h <> peer /\ exists d, handle_of hs d h.
Proof.
  intros Hs. assert (forall d, d ∈ refs_of (world hs) (this hs) <-> live hs d) as Href.
  { intros d. split.
    - intros [k Hk]%elem_vget. destruct (inv_refs _ (ho_inv _ Hs) _ _ _ Hk) as (i & pd & Hi & _). by exists i.
    - intros Hd. destruct (live_handle hs d Hs Hd) as (i & v & Est & _ & Hi & _). cbv zeta in *.
      destruct (inv_offs _ (ho_inv _ Hs) i d _ Hi Est) as (k & _ & Hk). cbn [PeerManager.host] in Hk. by eapply vget_elem. }
  split.
  - apply NoDup_filter. pose proof (refs_NoDup _ (this hs) (ho_inv _ Hs)) as Hnd. assert (Forall (live hs) (refs_of (world hs) (this hs))) as Hl
      by (apply Forall_forall; intros d; apply Href).
    revert Hnd Hl. generalize (refs_of (world hs) (this hs)). induction l as [|d ds IH]; intros Hnd Hl; [ apply NoDup_nil_2 | ].
    apply NoDup_cons in Hnd as [Hd Hnd]. apply Forall_cons in Hl as [Hld Hl]. cbn [omap list_omap].
    destruct (live_handle hs d Hs Hld) as (i & v & Est & _). cbv zeta in Est. rewrite Est. cbn [fmap option_fmap option_map peerHandle].
    apply NoDup_cons. split; [ | by apply IH ]. intros (d' & Hd' & E)%list_elem_of_omap. apply fmap_Some in E as (pd & Hpd & E).
    assert (d' = d) as ->; [ | done ]. apply (handle_of_inj hs d' d (peerHandle pd) Hs).
    + split; [ by apply (proj1 (Forall_forall _ _) Hl) | by eexists ].
    + split; [ done | ]. rewrite <- E. by eexists.
  - intros h. unfold others. rewrite list_elem_of_filter, list_elem_of_omap. split.
    + intros [Hne (d & Hd & E)]. split; [ done | ]. exists d. apply fmap_Some in E as (pd & Hpd & ->). split; [ by apply Href | by eexists ].
    + intros [Hne (d & Hl & pd & Hpd & <-)]. split; [ done | ]. exists d. split; [ by apply Href | by rewrite Hpd ].
Qed.

(** ** Runs *)

(** The server accepts connections and makes none, so no connect error is reported on its
    sockets; the texts fit into a string. *)
Definition event_fits (x : server_event) : Prop :=
  match x with
  | SHost (EConnectError _) => False
  | SHost _ => True
  | SSetNickname _ nickname => nickname <> [] -> text_ok nickname
  | SBroadcast _ message => text_ok message
  | SMsg _ _ message => text_ok message
  end.

(** What the encoding promises for the texts the server writes itself. *)
Definition codec_fits : Prop := name_fits "Broadcasted" /\ name_fits "Msg" /\ zlen (put_str []) <= 2 ^ 26.

Lemma nickname_text s d : codec_fits -> server_ok s ->
  exists n, nickname_of s d = Some n /\ Forall is_u8 n /\ zlen (put_str n) <= 2 ^ 26.
Proof.
  intros (_ & _ & Hz) Hs. destruct (nickname_of_spec s d Hs) as (n & E & Hn). exists n. split; [ done | ].
  destruct n as [|x n]; [ by split | ]. by apply Hn.
Qed.

Lemma calls_from_handle s peer : server_ok s -> calls_from s peer = true -> exists d, handle_of (host s) d peer.
Proof.
  intros Hs. unfold calls_from. intros [[Hl%Z.eqb_eq Hi%Z.leb_le]%andb_true_iff [d Hd]%bool_decide_eq_true_1]%andb_true_iff. exists d.
  unfold GetSharedPeer in Hd. inv_bind Hd. subst. by apply resolved_handle; [ apply Hs | .. ].
Qed.

Lemma Broadcast_spec s d peer message : codec_fits -> server_ok s -> handle_of (host s) d peer -> text_ok message ->
  exists nickname, nickname_of s d = Some nickname
    /\ Broadcast s peer message = Some (set_queue s (commandQueue s
         ++ ((fun h => CSendFrame h (call_frame "Broadcasted" nickname message)) <$> others (host s) (refs_of (world (host s)) (this (host s))) peer))).
Proof.
  intros Hc Hs Hd Hm. destruct (nickname_text s d Hc Hs) as (n & En & Hn & Hz). exists n. split; [ done | ]. unfold Broadcast.
  rewrite (GetSharedPeer_handle s d peer Hs Hd), En. destruct Hd as [Hl (pd & Hpd & _)]. rewrite Hpd, (ho_host _ (sv_host _ Hs) d pd Hpd).
  apply broadcast_to_spec; try done; [ apply Hc | ]. apply Forall_forall. intros d' [k Hk]%elem_vget.
  destruct (inv_refs _ (ho_inv _ (sv_host _ Hs)) _ _ _ Hk) as (i & pd' & Hi & _). by exists i.
Qed.

Lemma Msg_spec s d peer nickname message : codec_fits -> server_ok s -> handle_of (host s) d peer -> text_ok message ->
  exists src, nickname_of s d = Some src
    /\ Msg s peer nickname message =
         match peers s !! nickname with
         | Some h => Some (set_queue s (commandQueue s ++ [CSendFrame h (call_frame "Msg" src message)]), true)
         | None => Some (s, false)
         end.
Proof.
  intros Hc Hs Hd Hm. destruct (nickname_text s d Hc Hs) as (n & En & Hn & Hz). exists n. split; [ done | ]. unfold Msg.
  rewrite (GetSharedPeer_handle s d peer Hs Hd), En. destruct (peers s !! nickname) as [h|] eqn:Eh; [ | done ].
  destruct (sv_peers _ Hs _ _ Eh) as (d' & p' & _ & _ & Hh). rewrite send_spec; try done; [ | apply Hc ].
  by apply (handle_of_spec _ _ _ (sv_host _ Hs) Hh).
Qed.

Lemma set_queue_ok s q : server_ok s -> server_ok (set_queue s q).
Proof. intros []. by split. Qed.

(** Peers that an event does not close stay as they are. *)
Lemma set_host_ok s h : server_ok s -> host_ok h ->
  (forall d x, is_Some (userPointer s !! d) -> handle_of (host s) d x -> handle_of h d x) -> server_ok (set_host s h).
Proof.
  intros Hs Hh Hf. split; cbn [set_host host userPointer strings peers]; [ done | | | apply Hs ].
  - intros d p Hd. destruct (sv_named _ Hs d p Hd) as (n & x & H1' & H2' & H3' & H4' & H5'). exists n, x. split_and!; try done.
    apply Hf; [ by eexists | done ].
  - intros n x Hx. destruct (sv_peers _ Hs n x Hx) as (d & p & Hd & Hp & Hh'). exists d, p. split_and!; try done. apply Hf; [ by eexists | done ].
Qed.

Lemma host_event_ok s e : server_ok s -> Z.of_nat (size (wst (world (host s)))) < 2 ^ 31 - 1 -> event_fits (SHost e) ->
  exists s', host_event s e = Some s' /\ server_ok s' /\ (size (wst (world (host s'))) <= S (size (wst (world (host s)))))%nat.
Proof.
  intros Hs Hn Hx. assert (stops (host s) e = false) as Hst by (by destruct e). unfold host_event. destruct (event_ok (host s) e) eqn:Ee.
  2:{ unfold host_step. rewrite Ee. exists (set_host s (host s)). split_and!; [ done | by destruct s | cbn; lia ]. }
  assert (exists s1, (match closes (host s) e with
      | Some d => let* pd := wst (world (host s)) !! d in OnDisconnect s (peerHandle pd)
      | None => Some s
      end) = Some s1 /\ server_ok s1 /\ host s1 = host s /\ forall d, closes (host s) e = Some d -> userPointer s1 !! d = None) as (s1 & -> & Hs1 & Eh & Hu).
  { destruct (closes (host s) e) as [d|] eqn:Ec; [ | by exists s ]. assert (live (host s) d) as Hl.
    { unfold closes in Ec. destruct e as [ | | | k | k | | | ]; try done; destruct (sockets (host s) !! k) as [[d'|]|] eqn:Ek; try done;
        injection Ec as ->; by apply (ho_sock _ (sv_host _ Hs) k d). }
    destruct (live_handle (host s) d (sv_host _ Hs) Hl) as (i & v & Est & _). cbv zeta in Est. rewrite Est. cbn [peerHandle]. unfold OnDisconnect.
    rewrite (GetSharedPeer_handle s d _ Hs) by (split; [ done | rewrite Est; by eexists ]).
    destruct (forget_name_spec s d Hs) as (s1 & old & -> & Hs1 & Eh & _ & Hu & _). exists s1. split_and!; try done. intros d' [= <-]. done. }
  destruct (host_step_ok (host s) e (sv_host _ Hs) Hn Hst) as (h & E & Hh & Hz). rewrite Eh, E. exists (set_host s1 h). split_and!; [ done | | done ].
  destruct (host_step_frame (host s) e h (sv_host _ Hs) Hn E) as [_ Hf]. apply set_host_ok; [ done | done | ].
  rewrite Eh. intros d x [p Hp] [Hl (pd & Hpd & <-)]. destruct (Hf d Hl) as [Hl' Hw]; [ intros Ec; by rewrite (Hu d Ec) in Hp | ].
  split; [ done | ]. rewrite Hw. by eexists.
Qed.

Lemma server_step_ok s x : codec_fits -> server_ok s -> event_fits x -> Z.of_nat (size (wst (world (host s)))) < 2 ^ 31 - 1 ->
  exists s', server_step s x = Some s' /\ server_ok s' /\ (size (wst (world (host s'))) <= S (size (wst (world (host s)))))%nat.
Proof.
  intros Hc Hs Hx Hn. destruct x as [e | peer nickname | peer message | peer nickname message]; cbn [server_step event_fits] in *.
  - by apply host_event_ok.
  - destruct (calls_from s peer) eqn:Ec; [ | exists s; split_and!; (done || lia) ]. destruct (calls_from_handle s peer Hs Ec) as [d Hd].
    destruct (SetNickname_spec s d peer nickname Hs Hd Hx) as (s' & r & old & -> & Hs' & Eh & _). exists s'. rewrite Eh. split_and!; (done || lia).
  - destruct (calls_from s peer) eqn:Ec; [ | exists s; split_and!; (done || lia) ]. destruct (calls_from_handle s peer Hs Ec) as [d Hd].
    destruct (Broadcast_spec s d peer message Hc Hs Hd Hx) as (n & _ & ->). eexists. split_and!; [ done | by apply set_queue_ok | cbn; lia ].
  - destruct (calls_from s peer) eqn:Ec; [ | exists s; split_and!; (done || lia) ]. destruct (calls_from_handle s peer Hs Ec) as [d Hd].
    destruct (Msg_spec s d peer nickname message Hc Hs Hd Hx) as (n & _ & ->). destruct (peers s !! nickname);
      eexists; (split_and!; [ done | try apply set_queue_ok; done | cbn; lia ]).
Qed.

Lemma server_run_ok xs : forall s, codec_fits -> server_ok s -> Forall event_fits xs -> Z.of_nat (size (wst (world (host s)))) + zlen xs < 2 ^ 31 ->
  exists s', server_run s xs = Some s' /\ server_ok s'.
Proof.
  induction xs as [|x xs IH]; intros s Hc Hs Hxs Hn; cbn [server_run]; [ by exists s | ]. apply Forall_cons in Hxs as [Hx Hxs].
  rewrite zlen_cons in Hn. pose proof (zlen_nonneg xs). destruct (server_step_ok s x Hc Hs Hx) as (s1 & -> & Hs1 & Hz); [ lia | ].
  apply IH; try done. lia.
Qed.

Lemma Server_init_ok l this : l <> 0 -> server_ok (Server_init l this).
Proof.
  intros Hl. split; cbn [Server_init host peers userPointer strings].
  - by apply Host_init_ok.
  - intros d p. by rewrite lookup_empty.
  - intros n h. by rewrite lookup_empty.
  - intros p. rewrite lookup_empty. by intros [].
Qed.

Lemma reached_server_ok l this xs s : l <> 0 -> codec_fits -> Forall event_fits xs -> zlen xs < 2 ^ 31 ->
  server_run (Server_init l this) xs = Some s -> server_ok s.
Proof.
  intros Hl Hc Hxs Hn E. destruct (server_run_ok xs (Server_init l this) Hc (Server_init_ok l this Hl) Hxs) as (s' & E' & Hs); [ exact Hn | ].
  rewrite E in E'. by injection E' as <-.
Qed.

(** ** Properties *)

(** C18: whatever connections open and close and whatever the clients call, in any order (the
    texts fit into a string; no connect errors, since the server makes no connections), the
    server never uses a null or deleted object, and its table is exact: a nickname leads to the
    handle of the one connected peer that has it, a peer with a nickname is connected and in
    the table, a peer that is gone has none, and every nickname on the heap belongs to a
    connected peer, so none is leaked. *)
Theorem nicknames_belong_to_connected_peers l this xs :
  l <> 0 -> codec_fits -> Forall event_fits xs -> zlen xs < 2 ^ 31 ->
  exists s, server_run (Server_init l this) xs = Some s
    /\ (forall name h, peers s !! name = Some h <-> name <> [] /\ exists d, nickname_of s d = Some name /\ handle_of (host s) d h)
    /\ (forall d1 d2 name, name <> [] -> nickname_of s d1 = Some name -> nickname_of s d2 = Some name -> d1 = d2)
    /\ (forall d, d ∈ disconnected (host s) -> userPointer s !! d = None)
    /\ (forall p, is_Some (strings s !! p) -> exists d h, userPointer s !! d = Some p /\ handle_of (host s) d h).
Proof.
  intros Hl Hc Hxs Hn. destruct (server_run_ok xs (Server_init l this) Hc (Server_init_ok l this Hl) Hxs) as (s & E & Hs); [ exact Hn | ].
  assert (forall d name, name <> [] -> nickname_of s d = Some name -> exists h, peers s !! name = Some h /\ handle_of (host s) d h) as Hname.
  { intros d name Hne En. unfold nickname_of in En. destruct (userPointer s !! d) as [p|] eqn:Eu; [ | congruence ].
    destruct (sv_named _ Hs d p Eu) as (n & h & Ep & _ & _ & Eh & Hh). assert (n = name) as -> by congruence. by exists h. }
  exists s. split_and!; [ done | | | | ].
  - intros name h. split.
    + intros Hp. split; [ intros ->; by rewrite (no_empty_name s Hs) in Hp | ]. destruct (sv_peers _ Hs _ _ Hp) as (d & p & Hu & Hst & Hh).
      exists d. unfold nickname_of. by rewrite Hu.
    + intros [Hne (d & En & Hh)]. destruct (Hname d name Hne En) as (h' & Hp & Hh'). by rewrite (handle_of_fun _ _ _ _ Hh Hh').
  - intros d1 d2 name Hne E1 E2. destruct (Hname d1 name Hne E1) as (h1 & P1 & D1). destruct (Hname d2 name Hne E2) as (h2 & P2 & D2).
    assert (h1 = h2) as -> by congruence. by eapply handle_of_inj; [ apply Hs | .. ].
  - intros d Hd. destruct (userPointer s !! d) as [p|] eqn:Eu; [ | done ]. destruct (sv_named _ Hs d p Eu) as (_ & _ & _ & _ & _ & _ & [Hlive _]).
    by destruct (ho_dead _ (sv_host _ Hs) d Hd).
  - intros p Hp. destruct (sv_strings _ Hs p Hp) as [d Hd]. destruct (sv_named _ Hs d p Hd) as (_ & h & _ & _ & _ & _ & Hh). by exists d, h.
Qed.

(** ["SetNickname"] of a connected peer: its old nickname is free again in any case; an empty
    nickname only does that; another one is given to the peer unless a different peer has it,
    and then the answer is false and the peer is left without a nickname. Nothing is sent. *)
Theorem set_nickname_answers l this xs s d peer nickname :
  l <> 0 -> codec_fits -> Forall event_fits xs -> zlen xs < 2 ^ 31 -> server_run (Server_init l this) xs = Some s ->
  handle_of (host s) d peer -> (nickname <> [] -> text_ok nickname) ->
  exists s' r old, SetNickname s peer nickname = Some (s', r) /\ nickname_of s d = Some old
    /\ renamed (peers s) old nickname peer = (peers s', r) /\ commandQueue s' = commandQueue s /\ host s' = host s.
Proof.
  intros Hl Hc Hxs Hn E Hd Ht. pose proof (reached_server_ok l this xs s Hl Hc Hxs Hn E) as Hs.
  destruct (SetNickname_spec s d peer nickname Hs Hd Ht) as (s' & r & old & ? & _ & ? & ? & ? & ?). by exists s', r, old.
Qed.

(** A broadcast of a connected peer is sent to every other connected peer of the host once
    and not to the peer itself, with the nickname of the sender; a message to a nickname is
    sent to the connected peer that has it and answered with true, and answered with false and
    not sent when nobody has it. Nothing else changes. *)
Theorem messages_reach_their_readers l this xs s d peer nickname message :
  l <> 0 -> codec_fits -> Forall event_fits xs -> zlen xs < 2 ^ 31 -> server_run (Server_init l this) xs = Some s ->
  handle_of (host s) d peer -> text_ok message ->
  exists src readers, nickname_of s d = Some src
    /\ Broadcast s peer message = Some (set_queue s (commandQueue s ++ ((fun h => CSendFrame h (call_frame "Broadcasted" src message)) <$> readers)))
    /\ NoDup readers /\ (forall h, h ∈ readers <-> h <> peer /\ exists d', handle_of (host s) d' h)
    /\ match peers s !! nickname with
       | Some h => Msg s peer nickname message = Some (set_queue s (commandQueue s ++ [CSendFrame h (call_frame "Msg" src message)]), true)
                   /\ exists d', handle_of (host s) d' h /\ nickname_of s d' = Some nickname
       | None => Msg s peer nickname message = Some (s, false)
       end.
Proof.
  intros Hl Hc Hxs Hn E Hd Hm. pose proof (reached_server_ok l this xs s Hl Hc Hxs Hn E) as Hs.
  destruct (Broadcast_spec s d peer message Hc Hs Hd Hm) as (src & Es & Eb). destruct (Msg_spec s d peer nickname message Hc Hs Hd Hm) as (src' & Es' & Em).
  assert (src' = src) as -> by congruence. destruct (others_spec (host s) peer (sv_host _ Hs)) as [O1 O2].
  eexists src, _. split_and!; [ done | exact Eb | exact O1 | exact O2 | ]. destruct (peers s !! nickname) as [h|] eqn:Ep; [ | done ].
  split; [ done | ]. destruct (sv_peers _ Hs _ _ Ep) as (d' & p & Hu & Hst & Hh). exists d'. unfold nickname_of. by rewrite Hu.
Qed.

End Server.

(** ** Witnesses *)

#[local] Existing Instances RpcCalls.le_codec RpcDispatch.tagged_codec.

Definition alice : list Z := chars "alice".
Definition sample_peer (i : Z) : PeerHandle := mkHandle (mkId i 1) 100.

(** Three peers connect; the third wants a nickname that is taken, and the first leaves. *)
Definition sample_chat : list server_event :=
  [SHost (EAccept 1); SHost (EAccept 2); SHost (EAccept 3); SSetNickname (sample_peer 1) alice; SSetNickname (sample_peer 2) (chars "bob");
   SSetNickname (sample_peer 2) alice; SBroadcast (sample_peer 1) (chars "hi"); SMsg (sample_peer 2) alice (chars "hello"); SHost (EClose 1)].

Lemma text_ok_chars x : Forall is_u8 x -> zlen x < 2 ^ 25 -> text_ok x.
Proof.
  intros Hb Hz. split; [ done | ]. change (put_str x) with (2 :: RpcCalls.le_put (zlen x) ++ x). rewrite zlen_cons, zlen_app.
  change (zlen (RpcCalls.le_put (zlen x))) with 4. lia.
Qed.

Lemma chars_ok x : Forall is_u8 (chars x).
Proof. apply Forall_map, Forall_forall. intros c _. unfold is_u8. pose proof (nat_ascii_bounded c). lia. Qed.

Lemma sample_codec_fits : codec_fits.
Proof. split_and!; [ split; [ discriminate | apply text_ok_chars; [ apply chars_ok | reflexivity ] ] .. | vm_compute; discriminate ]. Qed.

Lemma sample_chat_fits : Forall event_fits sample_chat.
Proof.
  unfold sample_chat. rewrite !Forall_cons, Forall_nil. cbn [event_fits].
  split_and!; try exact I; intros; (apply text_ok_chars; [ apply chars_ok | reflexivity ]).
Qed.

Definition sample_server : Server := default (Server_init 100 5) (server_run (Server_init 100 5) sample_chat).

Lemma sample_run : server_run (Server_init 100 5) sample_chat = Some sample_server.
Proof. vm_compute. reflexivity. Qed.

Lemma nicknames_belong_to_connected_peers_witness :
  exists s, server_run (Server_init 100 5) sample_chat = Some s
    /\ (forall name h, peers s !! name = Some h <-> name <> [] /\ exists d, nickname_of s d = Some name /\ handle_of (host s) d h)
    /\ peers s !! alice = Some (sample_peer 1) /\ zlen (commandQueue s) = 3.
Proof.
  destruct (nicknames_belong_to_connected_peers 100 5 sample_chat) as (s & E & Hp & _);
    [ lia | apply sample_codec_fits | apply sample_chat_fits | reflexivity | ].
  exists s. refine (conj E (conj Hp _)). rewrite sample_run in E. apply Some_inj in E. rewrite <- E. split; vm_compute; reflexivity.
Defined.

Lemma sample_handle_of : handle_of (host sample_server) 1 (sample_peer 1).
Proof. split; [ exists 1; vm_compute; reflexivity | eexists; split; vm_compute; reflexivity ]. Qed.

Lemma set_nickname_answers_witness :
  exists s' r old, SetNickname sample_server (sample_peer 1) alice = Some (s', r) /\ nickname_of sample_server 1 = Some old
    /\ renamed (peers sample_server) old alice (sample_peer 1) = (peers s', r).
Proof.
  destruct (set_nickname_answers 100 5 sample_chat sample_server 1 (sample_peer 1) alice) as (s' & r & old & E1 & E2 & E3 & _);
    [ lia | apply sample_codec_fits | apply sample_chat_fits | reflexivity | apply sample_run | apply sample_handle_of
    | intros _; apply text_ok_chars; [ apply chars_ok | reflexivity ] | ].
  exists s', r, old. exact (conj E1 (conj E2 E3)).
Defined.

Lemma messages_reach_their_readers_witness :
  exists src readers, nickname_of sample_server 1 = Some src
    /\ Broadcast sample_server (sample_peer 1) (chars "bye")
       = Some (set_queue sample_server (commandQueue sample_server ++ ((fun h => CSendFrame h (call_frame "Broadcasted" src (chars "bye"))) <$> readers)))
    /\ NoDup readers.
Proof.
  destruct (messages_reach_their_readers 100 5 sample_chat sample_server 1 (sample_peer 1) alice (chars "bye")) as (src & readers & E1 & E2 & E3 & _);
    [ lia | apply sample_codec_fits | apply sample_chat_fits | reflexivity | apply sample_run | apply sample_handle_of
    | apply text_ok_chars; [ apply chars_ok | reflexivity ] | ].
  exists src, readers. exact (conj E1 (conj E2 E3)).
Defined.

End ChatServer.
