(* ===== verification/ChatClient.v ===== *)
(** * The chat client (examples/chat_client.cpp)

    What the client makes of a line from the console: the remote function it calls with which
    texts. Strings are lists of codes as in CString.v; [npos] is the largest 64-bit integer and
    positions wrap around. The theorems relate a line to the function of the server
    (ChatServer.v) that it is for. *)

From Stdlib Require Import Ascii String.
From S2P Require Import Prelude CString.

Module ChatClient.
Import CString.

Definition npos : Z := 2 ^ 64 - 1.

(** [s.substr(pos, n)] throws when [pos] is behind the end. *)
Definition substr (s : list Z) (pos n : Z) : option (list Z) :=
  assert* pos <=? zlen s in Some (take (Z.to_nat n) (drop (Z.to_nat pos) s)).

(** [s.find(c, pos)]. *)
Fixpoint find_char (s : list Z) (c : Z) (at_ : Z) : Z :=
  match s with
  | [] => npos
  | x :: s => if x =? c then at_ else find_char s c (at_ + 1)
  end.

Definition find_from (s : list Z) (c pos : Z) : Z := find_char (drop (Z.to_nat pos) s) c pos.

(** [rpc.Send] and [rpc.Call], with the name of the function and its texts. *)
Inductive action :=
| Quit
| Send (name : string) (args : list (list Z))
| Call (name : string) (args : list (list Z)) (timeoutMilliseconds : Z).

Definition on_line (str : list Z) : option action :=
  let* first4 := substr str 0 4 in
  let* first5 := substr str 0 5 in
  if bool_decide (first4 = chars "quit") && (zlen str <=? 6) then Some Quit
  else if bool_decide (first5 = chars "nick ") then
    let* nickname := substr str 5 npos in
    Some (Send "SetNickname" [nickname])
  else if bool_decide (first4 = chars "msg ") then
    let end_ := find_from str 32 5 in
    let* recipient := substr str 4 (u64 (end_ - 4)) in
    let* message := substr str (u64 (end_ + 1)) npos in
    Some (Call "Msg" [recipient; message] 10000)
  else Some (Send "Broadcast" [str]).

(** The name shown for a nickname, and what the client's functions print. *)
Definition shown (nickname : list Z) : list Z := if bool_decide (nickname = []) then chars "<anonymus>" else nickname.

Definition Broadcasted (nickname message : list Z) : list Z := chars "broadcast from " ++ shown nickname ++ chars ": " ++ message ++ [10].
Definition Msg (nickname message : list Z) : list Z := chars "private message from " ++ shown nickname ++ chars ": " ++ message ++ [10].

(** The callback of a call of ["Msg"]: what is printed for the answer. *)
Definition on_answer (recipient : list Z) (result : bool) : list Z :=
  if result then [] else chars "No user named '" ++ recipient ++ chars "' found in server" ++ [10].

(** ** Lines *)

(** Memory is smaller than the address space. *)
Definition line_ok (str : list Z) : Prop := zlen str < 2 ^ 63.

Lemma substr_some s pos n : 0 <= pos <= zlen s -> substr s pos n = Some (take (Z.to_nat n) (drop (Z.to_nat pos) s)).
Proof. intros Hp. unfold substr. by rewrite (proj2 (Z.leb_le _ _)) by lia. Qed.

Lemma find_char_absent s c : forall at_, c ∉ s -> find_char s c at_ = npos.
Proof.
  induction s as [|x s IH]; intros at_ Hc; [ done | ]. cbn [find_char]. apply not_elem_of_cons in Hc as [Hx Hs].
  rewrite (proj2 (Z.eqb_neq _ _)) by done. by apply IH.
Qed.

Lemma find_char_app a c b : forall at_, c ∉ a -> find_char (a ++ c :: b) c at_ = at_ + zlen a.
Proof.
  induction a as [|x a IH]; intros at_ Hc; cbn [app find_char].
  - rewrite Z.eqb_refl, zlen_nil. lia.
  - apply not_elem_of_cons in Hc as [Hx Ha]. rewrite (proj2 (Z.eqb_neq _ _)) by done. rewrite IH, zlen_cons by done. lia.
Qed.

(** The place of the character, or [npos]. *)
Lemma find_char_cases s c : forall at_, (c ∉ s /\ find_char s c at_ = npos) \/ (at_ <= find_char s c at_ < at_ + zlen s).
Proof.
  induction s as [|x s IH]; intros at_; cbn [find_char]; [ left; split; [ apply not_elem_of_nil | done ] | ]. rewrite zlen_cons. pose proof (zlen_nonneg s).
  destruct (Z.eqb_spec x c); [ right; lia | ]. destruct (IH (at_ + 1)) as [[Hn ->] | Hr]; [ left | right; lia ].
  split; [ by apply not_elem_of_cons | done ].
Qed.

Lemma prefix_length (s p : list Z) : take (length p) s = p -> (length p <= length s)%nat.
Proof. intros E. apply (f_equal length) in E. rewrite length_take in E. lia. Qed.

(** A line that starts with ["msg "]. *)
Definition after_msg (rest : list Z) : list Z := chars "msg " ++ rest.

Lemma on_line_msg rest : line_ok (after_msg rest) ->
  on_line (after_msg rest) =
    (let end_ := find_char (drop 1 rest) 32 5 in
     let* recipient := substr (after_msg rest) 4 (u64 (end_ - 4)) in
     let* message := substr (after_msg rest) (u64 (end_ + 1)) npos in
     Some (Call "Msg" [recipient; message] 10000)).
Proof.
  intros _. unfold on_line. pose proof (zlen_nonneg (after_msg rest)). rewrite !substr_some by lia.
  rewrite (bool_decide_eq_false_2 (_ = chars "quit")) by discriminate.
  rewrite (bool_decide_eq_false_2 (_ = chars "nick ")) by (destruct rest; discriminate).
  rewrite (bool_decide_eq_true_2 (_ = chars "msg ")) by reflexivity.
  cbn [andb]. unfold find_from. change (Z.to_nat 5) with 5%nat. by change (drop 5 (after_msg rest)) with (drop 1 rest).
Qed.

(** ** Properties *)

(** The client understands every line: no position is behind the end of the line. *)
Theorem every_line_is_understood str : line_ok str -> exists a, on_line str = Some a.
Proof.
  intros Hl. unfold line_ok in Hl. pose proof (zlen_nonneg str). unfold on_line. rewrite !substr_some by lia. cbn [Z.to_nat drop].
  destruct (bool_decide (_ = chars "quit") && _); [ by eexists | ].
  case_bool_decide as H5.
  { apply (prefix_length str (chars "nick ")) in H5. rewrite substr_some; [ by eexists | ]. cbn in H5. unfold zlen. lia. }
  case_bool_decide as H4; [ | by eexists ].
  apply (prefix_length str (chars "msg ")) in H4. cbn in H4. rewrite substr_some by (unfold zlen; lia). unfold find_from.
  destruct (find_char_cases (drop (Z.to_nat 5) str) 32 5) as [[_ ->] | Hr].
  - change (u64 (npos + 1)) with 0. rewrite substr_some by lia. by eexists.
  - rewrite zlen_drop in Hr. rewrite u64_small by (unfold is_u64; lia). rewrite substr_some; [ by eexists | lia ].
Qed.

(** A line "msg NAME TEXT", whose name has no space after its first character, calls "Msg" with
    the name and the text, whatever the text is; one without a space behind the name calls it
    with the whole line as the text, since the position behind [npos] is 0. *)
Theorem msg_line_round_trip name text :
  line_ok (after_msg (name ++ [32] ++ text)) -> name <> [] -> 32 ∉ drop 1 name ->
  on_line (after_msg (name ++ [32] ++ text)) = Some (Call "Msg" [name; text] 10000)
  /\ on_line (after_msg name) = Some (Call "Msg" [name; after_msg name] 10000).
Proof.
  intros Hl Hn Hs. destruct name as [|c name]; [ done | ]. cbn [drop] in Hs. rewrite drop_0 in Hs.
  assert (zlen (after_msg ((c :: name) ++ [32] ++ text)) = 6 + zlen name + zlen text) as Ez.
  { unfold after_msg. rewrite !zlen_app. change (zlen (chars "msg ")) with 4. rewrite zlen_cons. change (zlen [32]) with 1. lia. }
  unfold line_ok in *. pose proof (zlen_nonneg name). pose proof (zlen_nonneg text).
  assert (zlen (after_msg (c :: name)) = 5 + zlen name) as Ez' by (unfold after_msg; rewrite zlen_app; change (zlen (chars "msg ")) with 4; rewrite zlen_cons; lia).
  split.
  - rewrite on_line_msg by done. cbn [app drop]. rewrite drop_0, (find_char_app name 32 text 5) by done. cbv zeta.
    rewrite !u64_small by (unfold is_u64; lia). rewrite !substr_some by (cbn [app] in Ez; rewrite Ez; lia).
    change (Z.to_nat 4) with 4%nat. change (drop 4 (after_msg (c :: name ++ 32 :: text))) with ((c :: name) ++ 32 :: text).
    replace (Z.to_nat (5 + zlen name - 4)) with (length (c :: name)) by (unfold zlen; cbn; lia). rewrite take_app_length.
    replace (after_msg (c :: name ++ 32 :: text)) with ((chars "msg " ++ (c :: name) ++ [32]) ++ text) by (unfold after_msg; rewrite <- !app_assoc; done).
    replace (Z.to_nat (5 + zlen name + 1)) with (length (chars "msg " ++ (c :: name) ++ [32])) by (rewrite !length_app; unfold zlen; cbn; lia).
    rewrite drop_app_length, take_ge; [ done | ]. unfold zlen, npos in *. cbn [app] in *. lia.
  - rewrite on_line_msg by (unfold line_ok; rewrite Ez'; lia). cbn [drop]. rewrite drop_0, find_char_absent by done. cbv zeta.
    change (u64 (npos + 1)) with 0. change (u64 (npos - 4)) with (npos - 4). rewrite !substr_some by (rewrite Ez'; lia).
    change (drop (Z.to_nat 4) (after_msg (c :: name))) with (c :: name). change (drop (Z.to_nat 0) (after_msg (c :: name))) with (after_msg (c :: name)).
    rewrite !take_ge; [ done | .. ]; unfold zlen, npos in *; cbn [length] in *; lia.
Qed.

(** ** Witnesses *)

Lemma every_line_is_understood_witness : exists a, on_line (chars "msg") = Some a.
Proof. apply (every_line_is_understood (chars "msg")). reflexivity. Defined.

Lemma msg_line_round_trip_witness :
  on_line (chars "msg bob hello you") = Some (Call "Msg" [chars "bob"; chars "hello you"] 10000)
  /\ on_line (chars "msg bob") = Some (Call "Msg" [chars "bob"; chars "msg bob"] 10000).
Proof.
  apply (msg_line_round_trip (chars "bob") (chars "hello you")); [ reflexivity | discriminate | ].
  intros Hin. vm_compute in Hin. apply list_elem_of_In in Hin. repeat destruct Hin as [Hin | Hin]; try discriminate Hin; exact Hin.
Defined.

End ChatClient.
