(* ===== verification/PeerStorage.v ===== *)
(** * The frames in the queues of a peer (src/Peer.cpp, src/SendFrameStruct.cpp)

    The queues of a peer hold handles on shared storages (SharedBuffer.v): a frame is moved or
    copied into the queue, its storage is released by hand when the frame has been sent, and
    the destructor of the peer releases what is left by hand, so that the destructors of the
    queues find only null handles. What is sent of a frame is in PeerSend.v; here the answers
    of [_InternalSend] are inputs. *)

From S2P Require Import Prelude MemoryPool ByteBuffer SharedBuffer.

Module PeerStorage.
Import SharedBuffer.

(** The field [data] of the queued frames. *)
Record Queues := mkQueues {
  globalQueue : list handle;
  localQueue : list handle;
  localQueueOffset : nat
}.

Definition Queues_init : Queues := mkQueues [] [] 0.

(** [PeerData::Send(ByteBufferReadable &&)]: the queues and the handle of the caller, which
    stays its own when the peer is disconnecting; an empty frame fails the assertion. *)
Definition Send_move (q : Queues) (disconnecting : bool) (frame : handle) : option (Queues * handle) :=
  assert* bool_decide (is_Some frame) in
  if disconnecting then Some (q, frame)
  else Some (mkQueues (globalQueue q ++ [frame]) (localQueue q) (localQueueOffset q), None).

(** [PeerData::Send(ByteBufferReadable &)]: a copy is sent, and destroyed at the end. *)
Definition Send_copy (h : heap) (q : Queues) (disconnecting : bool) (frame : handle) : option (heap * Queues) :=
  assert* bool_decide (is_Some frame) in
  let* (h, frameLocal) := copy_construct h frame in
  let* (q, frameLocal) := Send_move q disconnecting frameLocal in
  let* h := destroy h frameLocal in
  Some (h, q).

(** The destructors of the elements of a queue. *)
Fixpoint destroy_all (h : heap) (fs : list handle) : option heap :=
  match fs with
  | [] => Some h
  | f :: fs => let* h := destroy h f in destroy_all h fs
  end.

Definition DequeueToLocalQueue (h : heap) (q : Queues) : option (heap * Queues) :=
  if negb (length (localQueue q) =? localQueueOffset q)%nat then Some (h, q)
  else
    let* (h, q) :=
      if negb (localQueueOffset q =? 0)%nat
      then let* h := destroy_all h (localQueue q) in Some (h, mkQueues (globalQueue q) [] 0)
      else Some (h, q) in
    match globalQueue q with
    | [] => Some (h, q)
    | _ => Some (h, mkQueues (localQueue q) (globalQueue q) (localQueueOffset q))
    end.

(** The inner loop of [_InternalFlushQueuedSends] with [n] frames left to send; [sent]: the
    answers of [_InternalSend]. The frames left, the answers left, and whether sending is
    over. *)
Fixpoint flush_inner (n : nat) (h : heap) (q : Queues) (sent : list bool) : option (heap * Queues * nat * list bool * bool) :=
  match n with
  | O => Some (h, q, n, sent, false)
  | S n' =>
      if (length (localQueue q) =? localQueueOffset q)%nat then Some (h, q, n, sent, false)
      else
        match sent with
        | true :: sent =>
            let* f := localQueue q !! localQueueOffset q in
            let* l := f in
            let* h := unref h l in
            flush_inner n' h (mkQueues (globalQueue q) (<[localQueueOffset q := None]> (localQueue q)) (S (localQueueOffset q))) sent
        | _ => Some (h, q, n, sent, true)
        end
  end.

Definition _InternalFlushQueuedSends (h : heap) (q : Queues) (maxPacketsToSend : nat) (sent : list bool) : option (heap * Queues) :=
  let* (h, q) := DequeueToLocalQueue h q in
  let* (h, q, n, sent, over) := flush_inner maxPacketsToSend h q sent in
  if over : bool then Some (h, q)
  else
    let* (h, q) := DequeueToLocalQueue h q in
    let* (h, q, n, sent, over) := flush_inner n h q sent in
    Some (h, q).

(** The loops of the destructor: [if (data.storage) { unref(); storage = nullptr; }]. *)
Fixpoint release_frames (h : heap) (fs : list handle) : option (heap * list handle) :=
  match fs with
  | [] => Some (h, [])
  | f :: fs =>
      let* h := match f with Some l => unref h l | None => Some h end in
      let* (h, fs) := release_frames h fs in
      Some (h, None :: fs)
  end.

(** [PeerData::~PeerData], and then the destructors of its two queues. *)
Definition PeerData_destroy (h : heap) (q : Queues) : option heap :=
  let* (h, locals) := release_frames h (drop (localQueueOffset q) (localQueue q)) in
  let* (h, globals) := release_frames h (globalQueue q) in
  let* h := destroy_all h (take (localQueueOffset q) (localQueue q) ++ locals) in
  destroy_all h globals.

(** ** Programs: a peer, and handles of the program *)

Inductive queue_op :=
| QNew (l : nat) (w : ByteBufferWritable)
| QCopy (i : nat)
| QDestroy (i : nat)
| QSendMove (i : nat) (disconnecting : bool)
| QSendCopy (i : nat) (disconnecting : bool)
| QFlush (maxPacketsToSend : nat) (sent : list bool).

Record State := mkState { memory : heap; table : list handle; queues : Queues }.

(** Sending with an empty handle is left out: it fails the assertion. *)
Definition queue_step (s : State) (o : queue_op) : option State :=
  let '(mkState h hs q) := s in
  match o with
  | QNew l w =>
      if bool_decide (is_Some (h !! l)) then Some s
      else let '(h, r) := from_writable h l w in Some (mkState h (hs ++ [r]) q)
  | QCopy i =>
      match hs !! i with
      | Some o => let* (h, r) := copy_construct h o in Some (mkState h (hs ++ [r]) q)
      | None => Some s
      end
  | QDestroy i =>
      match hs !! i with
      | Some r => let* h := destroy h r in Some (mkState h (<[i := None]> hs) q)
      | None => Some s
      end
  | QSendMove i d =>
      match hs !! i with
      | Some (Some l) => let* (q, r) := Send_move q d (Some l) in Some (mkState h (<[i := r]> hs) q)
      | _ => Some s
      end
  | QSendCopy i d =>
      match hs !! i with
      | Some (Some l) => let* (h, q) := Send_copy h q d (Some l) in Some (mkState h hs q)
      | _ => Some s
      end
  | QFlush n sent => let* (h, q) := _InternalFlushQueuedSends h q n sent in Some (mkState h hs q)
  end.

Fixpoint queue_run (s : State) (os : list queue_op) : option State :=
  match os with
  | [] => Some s
  | o :: os => let* s := queue_step s o in queue_run s os
  end.

(** ** The invariant *)

(** The frames that are still to be sent. *)
Definition queued (q : Queues) : list handle := drop (localQueueOffset q) (localQueue q) ++ globalQueue q.

(** Every storage counts the program's handles and the queued frames; sent frames are null
    handles and the others are not. *)
Record state_ok (s : State) : Prop := {
  so_owned : owned (memory s) (table s ++ queued (queues s));
  so_sent : Forall (fun f => f = None) (take (localQueueOffset (queues s)) (localQueue (queues s)));
  so_full : Forall is_Some (queued (queues s));
  so_offset : (localQueueOffset (queues s) <= length (localQueue (queues s)))%nat
}.

Definition handles (s : State) : Z := zlen (table s) + zlen (queued (queues s)).

Lemma occ_None l fs : Forall (fun f : handle => f = None) fs -> occ l fs = 0.
Proof. induction 1 as [|f fs -> _ IH]; [ done | ]. cbn [occ foldr]. rewrite decide_False by done. exact IH. Qed.

Lemma destroy_all_none h fs : Forall (fun f : handle => f = None) fs -> destroy_all h fs = Some h.
Proof. induction 1 as [|f fs -> _ IH]; [ done | exact IH ]. Qed.

(** One storage is released: one handle less anywhere in the table. *)
Lemma unref_owned h hs l hs' : owned h hs -> Some l ∈ hs -> zlen hs < 2 ^ 32 ->
  (forall l', occ l' hs' = occ l' hs - occ l' [Some l]) -> exists h', unref h l = Some h' /\ owned h' hs'.
Proof.
  intros Ho [i Hi]%list_elem_of_lookup Hn Hocc. destruct (destroy_owned h hs (Some l) i Ho Hi Hn) as (h' & E & Hown & _). exists h'. auto.
Qed.

Lemma dequeue_to_local_spec h hs q : state_ok (mkState h hs q) ->
  exists q', DequeueToLocalQueue h q = Some (h, q') /\ state_ok (mkState h hs q') /\ queued q' = queued q.
Proof.
  intros [Ho Hs Hf Hoff]. cbn [memory table queues] in *. unfold DequeueToLocalQueue.
  destruct (Nat.eqb_spec (length (localQueue q)) (localQueueOffset q)) as [El | _]; cbn [negb]; [ | by exists q ].
  assert (exists q1, (if negb (localQueueOffset q =? 0)%nat then let* h := destroy_all h (localQueue q) in Some (h, mkQueues (globalQueue q) [] 0) else Some (h, q))
    = Some (h, q1) /\ globalQueue q1 = globalQueue q /\ localQueue q1 = [] /\ localQueueOffset q1 = 0%nat) as (q1 & -> & Eg & Eloc & E0).
  { destruct (Nat.eqb_spec (localQueueOffset q) 0) as [E0 | _]; cbn [negb].
    - exists q. split_and!; try done. apply length_zero_iff_nil. lia.
    - rewrite destroy_all_none; [ by eexists | ]. rewrite <- El, take_ge in Hs by done. done. }
  assert (queued q = globalQueue q) as Eq by (unfold queued; by rewrite drop_ge by lia).
  rewrite Eg. destruct (globalQueue q) as [|f gq] eqn:Egq; rewrite ?Egq in Eq.
  - exists q1. assert (queued q1 = []) as Eq1 by (unfold queued; by rewrite Eg, Eloc, E0). split_and!; [ done | | congruence ].
    split; cbn [memory table queues]; rewrite ?Eq1, ?Eloc, ?E0; try done. by rewrite Eq in Ho.
  - eexists. split; [ done | ]. assert (queued (mkQueues (localQueue q1) (f :: gq) (localQueueOffset q1)) = f :: gq) as Eq1
      by (unfold queued; cbn [globalQueue localQueue localQueueOffset]; by rewrite E0, Eloc, drop_0, app_nil_r).
    split; [ | by rewrite Eq1, Eq ]. split; cbn [memory table queues]; rewrite ?Eq1; cbn [localQueue localQueueOffset]; rewrite ?E0; try done.
    + by rewrite <- Eq.
    + by rewrite <- Eq.
    + lia.
Qed.

Lemma queued_next q f : localQueue q !! localQueueOffset q = Some f ->
  let q' := mkQueues (globalQueue q) (<[localQueueOffset q := None]> (localQueue q)) (S (localQueueOffset q)) in
  queued q = f :: queued q' /\ take (S (localQueueOffset q)) (localQueue q') = take (localQueueOffset q) (localQueue q) ++ [None].
Proof.
  intros Hf. cbv zeta. unfold queued. cbn [globalQueue localQueue localQueueOffset]. pose proof (lookup_lt_Some _ _ _ Hf).
  split.
  - rewrite (drop_S _ f) by done. rewrite drop_insert_lt by lia. done.
  - rewrite (take_S_r _ _ None) by (by rewrite list_lookup_insert_eq). by rewrite take_insert_ge by lia.
Qed.

Lemma flush_inner_spec n : forall h hs q sent, state_ok (mkState h hs q) -> zlen hs + zlen (queued q) < 2 ^ 32 ->
  exists h' q' n' sent' over, flush_inner n h q sent = Some (h', q', n', sent', over) /\ state_ok (mkState h' hs q')
    /\ zlen (queued q') <= zlen (queued q).
Proof.
  induction n as [|n IH]; intros h hs q sent Hs Hn; cbn [flush_inner];
    assert (forall (n0 : nat) (sent0 : list bool) (over0 : bool), exists h' q' n' sent' over, Some (h, q, n0, sent0, over0) = Some (h', q', n', sent', over)
      /\ state_ok (mkState h' hs q') /\ zlen (queued q') <= zlen (queued q)) as Hend by (intros; eexists _, _, _, _, _; split_and!; (done || lia));
    [ apply Hend | ].
  destruct (Nat.eqb_spec (length (localQueue q)) (localQueueOffset q)) as [_ | Hne]; [ apply Hend | ].
  destruct sent as [|[] sent]; [ apply Hend | clear Hend | apply Hend ].
  destruct Hs as [Ho Hse Hf Hoff]. cbn [memory table queues] in *.
  destruct (lookup_lt_is_Some_2 (localQueue q) (localQueueOffset q)) as [f Ef]; [ lia | ]. rewrite Ef.
  destruct (queued_next q f Ef) as [Eq Et]. rewrite Eq in Hf. apply Forall_cons in Hf as [[l ->] Hf].
  set (q1 := mkQueues _ _ _) in *. rewrite Eq in Ho. rewrite Eq, zlen_cons in Hn |- *.
  destruct (unref_owned h (hs ++ Some l :: queued q1) l (hs ++ queued q1) Ho) as (h1 & -> & Ho1).
  { apply elem_of_app. right. by left. }
  { rewrite zlen_app, zlen_cons. lia. }
  { intros l'. rewrite cons_middle, !occ_app. lia. }
  destruct (IH h1 hs q1 sent) as (h' & q' & n' & sent' & over & E & Hs' & Hz); [ | lia | ].
  - split; cbn [memory table queues]; try done.
    + change (localQueueOffset q1) with (S (localQueueOffset q)). rewrite Et. apply Forall_app. split; [ done | by apply Forall_singleton ].
    + cbn [q1 localQueue localQueueOffset]. rewrite length_insert. lia.
  - exists h', q', n', sent', over. split_and!; [ done | done | lia ].
Qed.

Lemma flush_spec h hs q n sent : state_ok (mkState h hs q) -> zlen hs + zlen (queued q) < 2 ^ 32 ->
  exists h' q', _InternalFlushQueuedSends h q n sent = Some (h', q') /\ state_ok (mkState h' hs q') /\ zlen (queued q') <= zlen (queued q).
Proof.
  intros Hs Hn. unfold _InternalFlushQueuedSends. destruct (dequeue_to_local_spec h hs q Hs) as (q1 & -> & Hs1 & E1).
  destruct (flush_inner_spec n h hs q1 sent Hs1) as (h2 & q2 & n2 & sent2 & over & -> & Hs2 & Hz2); [ by rewrite E1 | ].
  destruct over; [ exists h2, q2; by rewrite <- E1 | ].
  destruct (dequeue_to_local_spec h2 hs q2 Hs2) as (q3 & -> & Hs3 & E3).
  destruct (flush_inner_spec n2 h2 hs q3 sent2 Hs3) as (h4 & q4 & n4 & sent4 & over4 & -> & Hs4 & Hz4); [ rewrite E3; rewrite E1 in Hz2; lia | ].
  exists h4, q4. split_and!; [ done | done | ]. rewrite E3 in Hz4. rewrite E1 in Hz2. lia.
Qed.

Lemma owned_perm h hs hs' : (forall l, occ l hs' = occ l hs) -> owned h hs -> owned h hs'.
Proof. intros E Ho l. rewrite E. apply Ho. Qed.

(** A frame comes into the queue. *)
Lemma queued_send q f : queued (mkQueues (globalQueue q ++ [f]) (localQueue q) (localQueueOffset q)) = queued q ++ [f].
Proof. unfold queued. cbn [globalQueue localQueue localQueueOffset]. by rewrite app_assoc. Qed.

Lemma send_ok h h' hs hs' q l : state_ok (mkState h hs q) -> owned h' (hs' ++ queued q ++ [Some l]) ->
  state_ok (mkState h' hs' (mkQueues (globalQueue q ++ [Some l]) (localQueue q) (localQueueOffset q))).
Proof.
  intros [_ Hs Hf Hoff] Ho. cbn [memory table queues] in *. split; cbn [memory table queues]; rewrite ?queued_send; try done.
  apply Forall_app. split; [ done | apply Forall_singleton; by eexists ].
Qed.

Lemma Send_copy_spec h hs q i l d : state_ok (mkState h hs q) -> hs !! i = Some (Some l) -> zlen hs + zlen (queued q) < 2 ^ 32 - 1 ->
  exists h' q', Send_copy h q d (Some l) = Some (h', q') /\ state_ok (mkState h' hs q') /\ zlen (queued q') <= zlen (queued q) + 1.
Proof.
  intros Hok Hi Hz. destruct (copy_construct_owned h (hs ++ queued q) (Some l) i) as (h1 & E1 & Ho1);
    [ apply Hok | by rewrite lookup_app_l by (by apply lookup_lt_Some in Hi) | rewrite zlen_app; lia | ].
  assert (owned h1 (hs ++ queued q ++ [Some l])) as Ho2 by (apply Ho1; intros l'; rewrite !occ_app; lia).
  unfold Send_copy, Send_move. rewrite !bool_decide_eq_true_2 by (by eexists). rewrite E1, bool_decide_eq_true_2 by (by eexists). destruct d.
  - destruct (unref_owned h1 (hs ++ queued q ++ [Some l]) l (hs ++ queued q) Ho2) as (h2 & E2 & Ho3).
    { rewrite !elem_of_app. right; right. by left. }
    { rewrite !zlen_app. change (zlen [Some l]) with 1. lia. }
    { intros l'. rewrite !occ_app. lia. }
    cbn [destroy]. rewrite E2. exists h2, q. split_and!; [ done | by destruct Hok; split | lia ].
  - cbn [destroy]. eexists _, _. split; [ done | ]. split; [ by apply (send_ok h h1 hs) | ].
    rewrite queued_send, zlen_app. change (zlen [Some l]) with 1. lia.
Qed.

Lemma queue_step_ok s o : state_ok s -> handles s < 2 ^ 32 - 1 -> exists s', queue_step s o = Some s' /\ state_ok s' /\ handles s' <= handles s + 1.
Proof.
  intros Hs Hn. destruct s as [h hs q]. unfold handles in *. cbn [table queues] in Hn.
  assert (exists s', Some (mkState h hs q) = Some s' /\ state_ok s' /\ zlen (table s') + zlen (queued (queues s')) <= zlen hs + zlen (queued q) + 1) as Hskip
    by (exists (mkState h hs q); split_and!; [ done | done | cbn; lia ]).
  pose proof Hs as [Ho Hse Hf Hoff]. cbn [memory table queues] in *. destruct o as [l w | i | i | i d | i d | n sent]; cbn [queue_step].
  - case_bool_decide as Hl; [ done | ]. apply eq_None_not_Some in Hl. pose proof (from_writable_owned h (hs ++ queued q) l w Ho Hl) as Ho'.
    destruct (from_writable h l w) as [h' r]. cbn [fst snd] in Ho'. eexists. split; [ done | ]. split; [ split; cbn [memory table queues]; try done | ].
    + eapply owned_perm; [ | exact Ho' ]. intros l'. rewrite !occ_app. lia.
    + cbn [table queues]. rewrite zlen_app. change (zlen [r]) with 1. lia.
  - destruct (hs !! i) as [r|] eqn:Hi; [ | done ].
    destruct (copy_construct_owned h (hs ++ queued q) r i) as (h' & -> & Ho'); [ done | by rewrite lookup_app_l by (by apply lookup_lt_Some in Hi) | rewrite zlen_app; lia | ].
    eexists. split; [ done | ]. split; [ split; cbn [memory table queues]; try done | ].
    + apply Ho'. intros l'. rewrite !occ_app. lia.
    + cbn [table queues]. rewrite zlen_app. change (zlen [r]) with 1. lia.
  - destruct (hs !! i) as [r|] eqn:Hi; [ | done ].
    destruct (destroy_owned h (hs ++ queued q) r i) as (h' & -> & Ho' & _); [ done | by rewrite lookup_app_l by (by apply lookup_lt_Some in Hi) | rewrite zlen_app; lia | ].
    eexists. split; [ done | ]. split; [ split; cbn [memory table queues]; try done | cbn [table queues]; rewrite zlen_insert; lia ].
    apply Ho'. intros l'. rewrite !occ_app, (occ_insert_None hs i r l' Hi). lia.
  - destruct (hs !! i) as [[l|]|] eqn:Hi; [ | done | done ]. unfold Send_move. rewrite bool_decide_eq_true_2 by (by eexists). destruct d.
    + rewrite list_insert_id by done. done.
    + eexists. split; [ done | ]. split.
      * apply (send_ok h h hs); [ done | ]. eapply owned_perm; [ | exact Ho ]. intros l'. rewrite !occ_app, (occ_insert_None hs i _ l' Hi). lia.
      * cbn [table queues]. rewrite zlen_insert, queued_send, zlen_app. change (zlen [Some l]) with 1. lia.
  - destruct (hs !! i) as [[l|]|] eqn:Hi; [ | done | done ]. destruct (Send_copy_spec h hs q i l d Hs Hi Hn) as (h' & q' & -> & Hs' & Hz).
    eexists. split; [ done | ]. split; [ done | ]. cbn [table queues]. lia.
  - destruct (flush_spec h hs q n sent Hs) as (h' & q' & -> & Hs' & Hz); [ lia | ]. eexists. split; [ done | ]. split; [ done | ]. cbn [table queues]. lia.
Qed.

Lemma queue_run_ok os : forall s, state_ok s -> handles s + zlen os < 2 ^ 32 - 1 ->
  exists s', queue_run s os = Some s' /\ state_ok s' /\ handles s' <= handles s + zlen os.
Proof.
  induction os as [|o os IH]; intros s Hs Hn; cbn [queue_run].
  { exists s. split_and!; try done. change (zlen (@nil queue_op)) with 0. lia. }
  rewrite zlen_cons in *. pose proof (zlen_nonneg os). destruct (queue_step_ok s o Hs) as (s1 & -> & Hs1 & Hz1); [ lia | ].
  destruct (IH s1 Hs1) as (s' & -> & Hs' & Hz'); [ lia | ]. exists s'. split_and!; [ done | done | lia ].
Qed.

(** The loops of the destructor release one reference for each frame. *)
Lemma release_frames_spec fs : forall h hs, owned h (hs ++ fs) -> Forall is_Some fs -> zlen hs + zlen fs < 2 ^ 32 ->
  exists h' ns, release_frames h fs = Some (h', ns) /\ owned h' hs /\ Forall (fun f => f = None) ns.
Proof.
  induction fs as [|f fs IH]; intros h hs Ho Hf Hn; cbn [release_frames]; [ exists h, []; rewrite app_nil_r in Ho; split_and!; (done || by constructor) | ].
  apply Forall_cons in Hf as [[l ->] Hf]. rewrite zlen_cons in Hn.
  destruct (unref_owned h (hs ++ Some l :: fs) l (hs ++ fs) Ho) as (h1 & -> & Ho1).
  { apply elem_of_app. right. by left. }
  { rewrite zlen_app, zlen_cons. lia. }
  { intros l'. rewrite cons_middle, !occ_app. lia. }
  destruct (IH h1 hs Ho1 Hf) as (h' & ns & -> & Ho' & Hns); [ lia | ]. exists h', (None :: ns). split_and!; [ done | done | by constructor ].
Qed.

Lemma PeerData_destroy_spec s : state_ok s -> handles s < 2 ^ 32 -> exists h', PeerData_destroy (memory s) (queues s) = Some h' /\ owned h' (table s).
Proof.
  intros [Ho Hs Hf Hoff] Hn. unfold handles, queued in *. rewrite zlen_app in Hn. apply Forall_app in Hf as [Hf1 Hf2].
  unfold PeerData_destroy. pose proof (zlen_nonneg (globalQueue (queues s))).
  destruct (release_frames_spec (drop (localQueueOffset (queues s)) (localQueue (queues s))) (memory s) (table s ++ globalQueue (queues s))) as (h1 & ns1 & -> & Ho1 & Hn1);
    [ | done | rewrite zlen_app; lia | ].
  { eapply owned_perm; [ | exact Ho ]. intros l. rewrite !occ_app. lia. }
  destruct (release_frames_spec (globalQueue (queues s)) h1 (table s) Ho1 Hf2) as (h2 & ns2 & -> & Ho2 & Hn2);
    [ pose proof (zlen_nonneg (drop (localQueueOffset (queues s)) (localQueue (queues s)))); lia | ].
  exists h2. rewrite destroy_all_none by (by apply Forall_app). rewrite destroy_all_none by done. done.
Qed.

(** ** Property *)

(** C17: frames are neither leaked nor released twice by a peer: however a program creates,
    copies and destroys its own buffers, moves or copies them into the queues of a peer that
    may be disconnecting, and however many frames the socket takes in each flush, no storage
    is used after it was freed, and each counts the program's handles and the queued frames.
    Destroying the peer releases exactly what is queued: afterwards every storage that is left
    counts the program's handles and has one, so nothing is left when the program has
    none. *)
Theorem peer_releases_its_frames_once os :
  zlen os < 2 ^ 32 - 1 ->
  exists s h, queue_run (mkState ∅ [] Queues_init) os = Some s /\ owned (memory s) (table s ++ queued (queues s))
    /\ PeerData_destroy (memory s) (queues s) = Some h /\ owned h (table s)
    /\ (Forall (fun r => r = None) (table s) -> h = ∅).
Proof.
  intros Hn. destruct (queue_run_ok os (mkState ∅ [] Queues_init)) as (s & E & Hs & Hz); [ | exact Hn | ].
  - split; cbn; by constructor.
  - destruct (PeerData_destroy_spec s Hs) as (h & Eh & Ho). { unfold handles in *. cbn in Hz. change (zlen (@nil handle)) with 0 in Hz. lia. }
    exists s, h. split_and!; [ done | apply Hs | done | done | ]. intros Hnone. apply map_empty. intros l. destruct (Ho l) as [Eo Hp].
    rewrite occ_None in Eo by done. unfold ref_at in Eo. destruct (h !! l) as [st|] eqn:El; [ | done ]. specialize (Hp st eq_refl). cbn in Eo. lia.
Qed.

(** ** Witness *)

Definition sample_block : ByteBufferWritable := mkW (Some (replicate 64 0)) 4 28 32 0.

(** Two buffers, one of which is sent twice; one frame is sent, and the peer is destroyed with
    the others still queued. *)
Definition sample_queue_ops : list queue_op :=
  [QNew 7 sample_block; QNew 9 sample_block; QSendCopy 0 false; QSendMove 0 false; QSendMove 1 false; QFlush 10 [true; false]; QSendCopy 1 true].

Lemma peer_releases_its_frames_once_witness :
  exists s h, queue_run (mkState ∅ [] Queues_init) sample_queue_ops = Some s /\ owned (memory s) (table s ++ queued (queues s))
    /\ PeerData_destroy (memory s) (queues s) = Some h /\ h = ∅ /\ zlen (queued (queues s)) = 2.
Proof.
  destruct (peer_releases_its_frames_once sample_queue_ops) as (s & h & E & Ho & Eh & _ & Hnone); [ reflexivity | ].
  exists s, h. refine (conj E (conj Ho (conj Eh (conj (Hnone _) _)))); vm_compute in E; injection E as <-; [ repeat constructor | reflexivity ].
Defined.

End PeerStorage.
