(* ===== verification/Coroutines.v ===== *)
(** * Coroutines that move between queues (CommandExecutionQueue.hpp, CommandExecutionQueue.cpp, CoroutineHelper.hpp)

    A coroutine that returns [CoroutineSchedulable] starts at once on the thread of its caller.
    [co_await queue.Schedule()] suspends it and enqueues it as a command; the thread that
    executes the queue resumes it, so the rest of the coroutine runs there. The coroutine frame
    is released when the coroutine ends. Threads are modelled as interleaved steps: each queue is
    executed by one thread, and [await_suspend] is three steps, since the coroutine can be
    resumed while the thread that suspended it is still inside. The coroutine machinery of the
    compiler is modelled as far as the code relies on it: where an awaitable lives and when a
    frame is created, resumed and destroyed. The [objectHolder] that an awaitable keeps alive is
    left out, and a coroutine calls no other coroutine. *)

From S2P Require Import Prelude.

Module Coroutines.

(** The body of a coroutine: something it does, or [co_await] of an awaitable; [None] is an
    awaitable without a queue. *)
Inductive instr := Work (x : nat) | Await (queue : option nat).

(** [CoroutineAwaitable]: its field [queue]; [number] tells apart the awaitables of a
    coroutine. *)
Record CoroutineAwaitable := mkAwaitable { number : nat; queue : option nat }.

(** The constructors and [Schedule]; [await_ready]: a [co_await] always suspends. *)
Definition Schedule (n : nat) (q : option nat) : CoroutineAwaitable := mkAwaitable n q.
Definition await_ready : bool := false.

(** A coroutine frame: the rest of the body, the awaitable it is suspended in, the number of
    awaitables so far. [at_]: the queue whose thread is to run the rest. *)
Record Frame := mkFrame { code : list instr; awaitable : option CoroutineAwaitable; awaits : nat; at_ : nat }.

(** What a thread does: nothing, it runs a coroutine, it has built an awaitable, or it is in
    [await_suspend] behind the [EnqueueCommand]. *)
Inductive phase := Idle | Running (h : nat) | Awaiting (h : nat) | Enqueued (h n : nat).

(** [started]: each coroutine with its thread and its body; [log]: what was done, by which
    coroutine and thread; [released]: the frames that were destroyed; [failed]: an assertion
    failed. *)
Record State := mkState {
  frames : gmap nat Frame;
  queues : gmap nat (list nat);
  threads : gmap nat phase;
  started : list (nat * list instr);
  log : list (nat * nat * nat);
  released : list nat;
  failed : bool
}.

Definition initial : State := mkState ∅ ∅ ∅ [] [] [] false.

Definition phase_of (s : State) (t : nat) : phase := default Idle (threads s !! t).
Definition queue_of (s : State) (q : nat) : list nat := default [] (queues s !! q).

Definition set_phase (s : State) (t : nat) (p : phase) : State :=
  mkState (frames s) (queues s) (<[t := p]> (threads s)) (started s) (log s) (released s) (failed s).

Definition set_frame (s : State) (h : nat) (f : Frame) : State :=
  mkState (<[h := f]> (frames s)) (queues s) (threads s) (started s) (log s) (released s) (failed s).

(** A call of a coroutine: the frame is allocated, [initial_suspend] does not suspend. *)
Definition start (s : State) (t : nat) (body : list instr) : State :=
  let h := length (started s) in
  mkState (<[h := mkFrame body None 0 t]> (frames s)) (queues s) (<[t := Running h]> (threads s)) (started s ++ [(t, body)])
    (log s) (released s) (failed s).

(** [CommandExecutionQueue::EnqueueCommand] of a command that is not empty. *)
Definition EnqueueCommand (s : State) (q h : nat) : State :=
  mkState (frames s) (<[q := queue_of s q ++ [h]]> (queues s)) (threads s) (started s) (log s) (released s) (failed s).

(** The queue's thread resumes the next coroutine, [await_resume] does nothing and the
    awaitable is destroyed. [None]: the frame is gone. *)
Definition dequeue (s : State) (t : nat) : option State :=
  match queue_of s t with
  | [] => Some s
  | h :: q =>
      let* f := frames s !! h in
      let s := mkState (frames s) (<[t := q]> (queues s)) (threads s) (started s) (log s) (released s) (failed s) in
      Some (set_phase (set_frame s h (mkFrame (code f) None (awaits f) (at_ f))) t (Running h))
  end.

(** A step of the body. At its end [final_suspend] does not suspend: the frame is destroyed. *)
Definition run_body (s : State) (t h : nat) : option State :=
  let* f := frames s !! h in
  match code f with
  | [] =>
      Some (set_phase (mkState (delete h (frames s)) (queues s) (threads s) (started s) (log s) (released s ++ [h]) (failed s)) t Idle)
  | Work x :: rest =>
      let s := set_frame s h (mkFrame rest (awaitable f) (awaits f) (at_ f)) in
      Some (mkState (frames s) (queues s) (threads s) (started s) (log s ++ [(h, t, x)]) (released s) (failed s))
  | Await q :: rest =>
      if await_ready then Some (set_frame s h (mkFrame rest (awaitable f) (awaits f) (at_ f)))
      else Some (set_phase (set_frame s h (mkFrame rest (Some (Schedule (awaits f) q)) (S (awaits f)) (default (at_ f) q))) t (Awaiting h))
  end.

Definition fail_assertion (s : State) : State :=
  mkState (frames s) (queues s) (threads s) (started s) (log s) (released s) true.

(** The first half of [await_suspend]: its assertion and the [EnqueueCommand]. *)
Definition await_suspend (s : State) (t h : nat) : option State :=
  let* f := frames s !! h in
  let* a := awaitable f in
  match queue a with
  | None => Some (fail_assertion s)
  | Some q => Some (set_phase (EnqueueCommand s q h) t (Enqueued h (number a)))
  end.

(** The second half: [queue = nullptr; objectHolder = nullptr] in the awaitable [n], which
    lies in the frame of [h]. [None]: the write comes too late, when the frame was released or
    the awaitable destroyed because the coroutine has been resumed; its place in the frame may
    then hold the next awaitable. *)
Definition await_suspend_end (s : State) (t h n : nat) : option State :=
  let s := set_phase s t Idle in
  let* f := frames s !! h in
  let* a := awaitable f in
  assert* (number a =? n)%nat in
  Some (set_frame s h (mkFrame (code f) (Some (mkAwaitable (number a) None)) (awaits f) (at_ f))).

(** The scheduler picks a thread, which may call a coroutine when it is idle. *)
Inductive choice := Start (body : list instr) | Continue.

Definition thread_step (s : State) (t : nat) (c : choice) : option State :=
  if failed s then Some s
  else
    match phase_of s t, c with
    | Idle, Start body => Some (start s t body)
    | Idle, Continue => dequeue s t
    | Running h, Continue => run_body s t h
    | Awaiting h, Continue => await_suspend s t h
    | Enqueued h n, Continue => await_suspend_end s t h n
    | _, Start _ => Some s
    end.

Fixpoint run (s : State) (cs : list (nat * choice)) : option State :=
  match cs with
  | [] => Some s
  | (t, c) :: cs => let* s := thread_step s t c in run s cs
  end.

(** ** What a coroutine is to do, and where *)

Fixpoint expected (t : nat) (body : list instr) : list (nat * nat) :=
  match body with
  | [] => []
  | Work x :: body => (t, x) :: expected t body
  | Await q :: body => expected (default t q) body
  end.

Definition done_by (h : nat) (l : list (nat * nat * nat)) : list (nat * nat) :=
  omap (fun e => if decide (e.1.1 = h) then Some (e.1.2, e.2) else None) l.

(** The thread runs the coroutine. *)
Definition runs (p : phase) (h : nat) : Prop := p = Running h \/ p = Awaiting h.

(** Every coroutine is run by at most one thread or waits in one queue, at the place where it
    is to continue; its frame is there until it ends; and what it did and has still to do is
    what it was called for. *)
Record state_ok (s : State) : Prop := {
  ok_run : forall t h, runs (phase_of s t) h -> exists f, frames s !! h = Some f /\ (phase_of s t = Running h -> at_ f = t);
  ok_wait : forall t h, phase_of s t = Awaiting h -> exists f a, frames s !! h = Some f /\ awaitable f = Some a /\ (forall q, queue a = Some q -> at_ f = q);
  ok_one : forall t1 t2 h, runs (phase_of s t1) h -> runs (phase_of s t2) h -> t1 = t2;
  ok_queue : forall q h, h ∈ queue_of s q -> exists f, frames s !! h = Some f /\ at_ f = q;
  ok_nodup : forall q, NoDup (queue_of s q);
  ok_apart : forall t q h, runs (phase_of s t) h -> h ∉ queue_of s q;
  ok_frame : forall h f, frames s !! h = Some f -> exists t body, started s !! h = Some (t, body) /\ expected t body = done_by h (log s) ++ expected (at_ f) (code f);
  ok_ended : forall h t body, started s !! h = Some (t, body) -> frames s !! h = None -> h ∈ released s /\ expected t body = done_by h (log s);
  ok_released : NoDup (released s) /\ forall h, h ∈ released s -> frames s !! h = None /\ (h < length (started s))%nat;
  ok_log : forall h, (length (started s) <= h)%nat -> done_by h (log s) = []
}.

(** ** Steps keep the invariant *)

Lemma default_insert {A} (x : A) (m : gmap nat A) (k : nat) (y : A) (k' : nat) : default x (<[k := y]> m !! k') = if decide (k = k') then y else default x (m !! k').
Proof. destruct (decide (k = k')) as [<- | Hne]; [ by rewrite lookup_insert_eq | by rewrite lookup_insert_ne ]. Qed.

Lemma done_by_app h a b : done_by h (a ++ b) = done_by h a ++ done_by h b.
Proof. apply omap_app. Qed.

Ltac fields := unfold phase_of, queue_of in *; cbn [frames queues threads started log released failed set_phase set_frame start EnqueueCommand fail_assertion] in *.

(** A new phase of one thread that runs what it ran, or less. *)
Lemma idle_ok s t : state_ok s -> state_ok (set_phase s t Idle).
Proof.
  intros [H1 H2 H3 H4 H5 H6 H7 H8 H9 H10].
  assert (forall t' h, runs (phase_of (set_phase s t Idle) t') h -> runs (phase_of s t') h /\ phase_of (set_phase s t Idle) t' = phase_of s t') as Hr.
  { intros t' h. unfold phase_of. cbn [set_phase threads]. rewrite default_insert. destruct (decide (t = t')); [ intros [? | ?]; done | done ]. }
  split; fields; try done.
  - intros t' h Hrun. destruct (Hr t' h Hrun) as [Ha Eb]. rewrite Eb. by apply H1.
  - intros t' h Hrun. destruct (Hr t' h) as [Ha Eb]; [ by right | ]. rewrite Eb in Hrun. by apply (H2 t').
  - intros t1 t2 h Ha Hb. apply (H3 t1 t2 h); [ by apply Hr | by apply Hr ].
  - intros t' q h Ha. apply (H6 t' q h). by apply Hr.
Qed.

(** The awaitable of a frame changes, but not to another queue. *)
Lemma awaitable_ok s h f a : state_ok s -> frames s !! h = Some f -> (forall q, queue a = Some q -> at_ f = q) ->
  state_ok (mkState (<[h := mkFrame (code f) (Some a) (awaits f) (at_ f)]> (frames s)) (queues s) (threads s) (started s) (log s) (released s) (failed s)).
Proof.
  intros [H1 H2 H3 H4 H5 H6 H7 H8 H9 H10] Hf Ha.
  assert (forall h' f', frames s !! h' = Some f' -> exists f'', <[h := mkFrame (code f) (Some a) (awaits f) (at_ f)]> (frames s) !! h' = Some f''
    /\ at_ f'' = at_ f' /\ code f'' = code f') as Hup.
  { intros h' f' Hf'. destruct (decide (h = h')) as [<- | Hne].
    - rewrite lookup_insert_eq. rewrite Hf in Hf'. injection Hf' as <-. by eexists.
    - rewrite lookup_insert_ne by done. by exists f'. }
  assert (forall h' f'', <[h := mkFrame (code f) (Some a) (awaits f) (at_ f)]> (frames s) !! h' = Some f'' -> exists f', frames s !! h' = Some f'
    /\ at_ f'' = at_ f' /\ code f'' = code f') as Hdown.
  { intros h' f''. destruct (decide (h = h')) as [<- | Hne].
    - rewrite lookup_insert_eq. intros [= <-]. by exists f.
    - rewrite lookup_insert_ne by done. by exists f''. }
  split; fields; try done.
  - intros t h' Hr. destruct (H1 t h' Hr) as (f' & Hf' & Hat). destruct (Hup h' f' Hf') as (f'' & -> & E & _). exists f''. split; [ done | ].
    intros Hp. rewrite E. by apply Hat.
  - intros t h' Hp. destruct (H2 t h' Hp) as (f' & a' & Hf' & Ha' & Hq). destruct (decide (h = h')) as [<- | Hne].
    + rewrite lookup_insert_eq. eexists _, a. split_and!; [ done | done | ]. cbn [at_]. done.
    + rewrite lookup_insert_ne by done. by exists f', a'.
  - intros q h' Hq. destruct (H4 q h' Hq) as (f' & Hf' & Hat). destruct (Hup h' f' Hf') as (f'' & -> & E & _). exists f''. split; [ done | congruence ].
  - intros h' f'' Hf''. destruct (Hdown h' f'' Hf'') as (f' & Hf' & -> & ->). by apply H7.
  - intros h' t body Hs Hn. apply H8; [ done | ]. destruct (frames s !! h') as [f'|] eqn:E; [ | done ]. destruct (Hup h' f' E) as (? & E' & _). congruence.
  - split; [ apply H9 | ]. intros h' Hh'. destruct (proj2 H9 h' Hh') as [Hn Hl]. split; [ | done ]. rewrite lookup_insert_ne; [ done | congruence ].
Qed.

Lemma start_ok s t body : state_ok s -> phase_of s t = Idle -> state_ok (start s t body).
Proof.
  intros [H1 H2 H3 H4 H5 H6 H7 H8 H9 H10] Hp. remember (length (started s)) as h eqn:Eh.
  assert (frames s !! h = None) as Hh.
  { destruct (frames s !! h) as [f|] eqn:E; [ | done ]. destruct (H7 h f E) as (t0 & b0 & Hs & _). apply lookup_lt_Some in Hs. lia. }
  assert (forall t' h', runs (phase_of (start s t body) t') h' -> (t' = t /\ h' = h /\ phase_of (start s t body) t' = Running h) \/
    (t' <> t /\ h' <> h /\ runs (phase_of s t') h' /\ phase_of (start s t body) t' = phase_of s t')) as Hr.
  { intros t' h'. unfold phase_of. cbn [start threads]. rewrite <- Eh, default_insert. destruct (decide (t = t')) as [<- | Hne].
    - intros [[= <-] | ?]; [ by left | done ].
    - intros Hr. right. split_and!; try done. intros Ehh. rewrite Ehh in Hr. destruct (H1 t' h Hr) as (f & Hf & _). congruence. }
  split; fields; rewrite <- ?Eh in *; try done.
  - intros t' h' Hrun. destruct (Hr t' h' Hrun) as [(-> & -> & E) | (Hnt & Hnh & Hrun' & E)].
    + rewrite lookup_insert_eq. by eexists.
    + rewrite lookup_insert_ne by done. rewrite E. by apply H1.
  - intros t' h' Hw. destruct (Hr t' h') as [(-> & -> & E) | (Hnt & Hnh & Hrun' & E)]; [ by right | congruence | ].
    rewrite lookup_insert_ne by done. apply (H2 t'). unfold phase_of in *. cbn [start threads] in E. congruence.
  - intros t1 t2 h' Ha Hb. destruct (Hr t1 h' Ha) as [(E1 & E1' & _) | (Hn1 & Hh1 & Hr1 & _)], (Hr t2 h' Hb) as [(E2 & E2' & _) | (Hn2 & Hh2 & Hr2 & _)];
      [ congruence | done | done | by apply (H3 t1 t2 h') ].
  - intros q h' Hq. destruct (H4 q h' Hq) as (f & Hf & Hat). exists f. rewrite lookup_insert_ne; [ done | congruence ].
  - intros t' q h' Hrun Hq. destruct (Hr t' h' Hrun) as [(-> & -> & _) | (_ & _ & Hrun' & _)]; [ destruct (H4 q h Hq) as (f & Hf & _); congruence | ].
    by apply (H6 t' q h').
  - intros h' f'. destruct (decide (h = h')) as [<- | Hne].
    + rewrite lookup_insert_eq. intros [= <-]. exists t, body. rewrite list_lookup_middle by done. by rewrite H10 by lia.
    + rewrite lookup_insert_ne by done. intros Hf'. destruct (H7 h' f' Hf') as (t0 & b0 & Hs & E). exists t0, b0. split; [ | done ].
      rewrite lookup_app_l; [ done | by apply lookup_lt_Some in Hs ].
  - intros h' t0 b0 Hs Hn. apply lookup_insert_None in Hn as [Hn Hne]. apply H8; [ | done ]. rewrite lookup_app_Some in Hs.
    destruct Hs as [Hs | [Hge Hs]]; [ done | ]. apply list_lookup_singleton_Some in Hs as [E _]. lia.
  - split; [ apply H9 | ]. intros h' Hh'. destruct (proj2 H9 h' Hh') as [Hn Hl]. rewrite length_app. cbn [length]. split; [ | lia ].
    rewrite lookup_insert_ne; [ done | lia ].
  - intros h' Hh'. apply H10. rewrite length_app in Hh'. lia.
Qed.

(** The phases when one thread gets a phase that runs [h]: the others run what they ran. *)
Lemma phases_insert (m : gmap nat phase) t p t' h' : runs (default Idle (<[t := p]> m !! t')) h' ->
  (t' = t /\ runs p h' /\ default Idle (<[t := p]> m !! t') = p) \/
  (t' <> t /\ runs (default Idle (m !! t')) h' /\ default Idle (<[t := p]> m !! t') = default Idle (m !! t')).
Proof. rewrite default_insert. destruct (decide (t = t')) as [<- | Hne]; [ by left | right; by split_and! ]. Qed.

Lemma runs_running h h' : runs (Running h) h' -> h' = h.
Proof. by intros [[= <-] | ?]. Qed.

Lemma runs_awaiting h h' : runs (Awaiting h) h' -> h' = h.
Proof. by intros [? | [= <-]]. Qed.

(** A frame that changes its code along with the log, and stays the frame of thread [t]. *)
Lemma frame_ok s t h f c aw n at' l p : state_ok s -> frames s !! h = Some f -> runs (phase_of s t) h ->
  (p = Running h /\ at' = t \/ p = Awaiting h /\ exists a, aw = Some a /\ forall q, queue a = Some q -> at' = q) ->
  (forall h', h' <> h -> done_by h' l = []) -> expected (at_ f) (code f) = done_by h l ++ expected at' c ->
  state_ok (mkState (<[h := mkFrame c aw n at']> (frames s)) (queues s) (<[t := p]> (threads s)) (started s) (log s ++ l) (released s) (failed s)).
Proof.
  intros [H1 H2 H3 H4 H5 H6 H7 H8 H9 H10] Hf Hrun Hp Hl Hexp.
  assert (forall h', runs p h' -> h' = h) as Hph by (intros h'; destruct Hp as [[-> _] | [-> _]]; [ apply runs_running | apply runs_awaiting ]).
  assert (forall t' h', t' <> t -> runs (phase_of s t') h' -> h' <> h) as Hoth by (intros t' h' Hne Hr ->; by apply Hne, (H3 t' t h)).
  split; fields; try done.
  - intros t' h' Hr. destruct (phases_insert _ _ _ _ _ Hr) as [(-> & Hr' & ->) | (Hne & Hr' & ->)].
    + rewrite (Hph h' Hr'), lookup_insert_eq. eexists; split; [ done | ]. cbn [at_]. intros Erun. destruct Hp as [[_ ?] | [E _]]; [ done | congruence ].
    + rewrite lookup_insert_ne by (intros <-; by apply (Hoth t' h Hne)). by apply H1.
  - intros t' h' Hw. destruct (phases_insert _ _ _ _ h' (or_intror Hw)) as [(-> & Hr' & E) | (Hne & Hr' & E)]; rewrite E in Hw.
    + rewrite (Hph h' Hr'), lookup_insert_eq. destruct Hp as [[Ep _] | (_ & a & -> & Ha)]; [ congruence | ]. by eexists _, a.
    + rewrite lookup_insert_ne by (intros <-; by apply (Hoth t' h Hne)). by apply (H2 t').
  - intros t1 t2 h' Ha Hb. destruct (phases_insert _ _ _ _ _ Ha) as [(E1 & Hr1 & _) | (Hn1 & Hr1 & _)], (phases_insert _ _ _ _ _ Hb) as [(E2 & Hr2 & _) | (Hn2 & Hr2 & _)].
    + congruence.
    + destruct (Hoth t2 h' Hn2 Hr2). by apply Hph.
    + destruct (Hoth t1 h' Hn1 Hr1). by apply Hph.
    + by apply (H3 t1 t2 h').
  - intros q h' Hq. rewrite lookup_insert_ne; [ by apply H4 | ]. intros <-. by apply (H6 t q h).
  - intros t' q h' Hr Hq. destruct (phases_insert _ _ _ _ _ Hr) as [(-> & Hr' & _) | (Hne & Hr' & _)].
    + rewrite (Hph h' Hr') in Hq. by apply (H6 t q h).
    + by apply (H6 t' q h').
  - intros h' f'. destruct (decide (h = h')) as [<- | Hne].
    + rewrite lookup_insert_eq. intros [= <-]. destruct (H7 h f Hf) as (t0 & b & Hs & E). exists t0, b. split; [ done | ].
      cbn [at_ code]. by rewrite done_by_app, <- (assoc (++)), <- Hexp.
    + rewrite lookup_insert_ne by done. rewrite done_by_app, Hl, app_nil_r by done. apply H7.
  - intros h' t0 b Hs Hn. apply lookup_insert_None in Hn as [Hn Hne]. rewrite done_by_app, (Hl h'), app_nil_r by done. by apply H8.
  - split; [ apply H9 | ]. intros h' Hh'. destruct (proj2 H9 h' Hh') as [Hn Hlt]. split; [ | done ]. rewrite lookup_insert_ne; [ done | congruence ].
  - intros h' Hh'. rewrite done_by_app, H10 by done. apply Hl. intros ->. destruct (H7 h f Hf) as (t0 & b & Hs & _). apply lookup_lt_Some in Hs. lia.
Qed.

Lemma dequeue_ok s t : state_ok s -> phase_of s t = Idle -> exists s', dequeue s t = Some s' /\ state_ok s'.
Proof.
  intros Hok Hp. pose proof Hok as [H1 H2 H3 H4 H5 H6 H7 H8 H9 H10]. unfold dequeue. destruct (queue_of s t) as [| h q] eqn:Eq; [ by exists s | ].
  destruct (H4 t h) as (f & Hf & Hat); [ rewrite Eq; set_solver | ]. rewrite Hf. cbn [mbind option_bind]. eexists; split; [ done | ].
  assert (forall t' h', runs (phase_of s t') h' -> h' <> h) as Hno by (intros t' h' Hr ->; apply (H6 t' t h Hr); rewrite Eq; set_solver).
  pose proof (H5 t) as Hnd. rewrite Eq in Hnd. apply NoDup_cons in Hnd as [Hnin Hnd].
  assert (forall q' h', h' ∈ default [] (<[t := q]> (queues s) !! q') -> h' ∈ queue_of s q' /\ h' <> h) as Hq.
  { intros q' h'. rewrite default_insert. destruct (decide (t = q')) as [<- | Hne]; intros Hin.
    - split; [ rewrite Eq; set_solver | by intros -> ].
    - split; [ done | ]. intros ->. destruct (H4 q' h Hin) as (f' & Hf' & Hat'). congruence. }
  split; fields; try done.
  - intros t' h' Hr. destruct (phases_insert _ _ _ _ _ Hr) as [(-> & Hr' & ->) | (Hne & Hr' & ->)].
    + rewrite (runs_running _ _ Hr'), lookup_insert_eq. by eexists.
    + rewrite lookup_insert_ne by (intros <-; by apply (Hno t' h Hr')). by apply H1.
  - intros t' h' Hw. destruct (phases_insert _ _ _ _ h' (or_intror Hw)) as [(-> & Hr' & E) | (Hne & Hr' & E)]; rewrite E in Hw; [ done | ].
    rewrite lookup_insert_ne by (intros <-; by apply (Hno t' h Hr')). by apply (H2 t').
  - intros t1 t2 h' Ha Hb. destruct (phases_insert _ _ _ _ _ Ha) as [(E1 & Hr1 & _) | (Hn1 & Hr1 & _)], (phases_insert _ _ _ _ _ Hb) as [(E2 & Hr2 & _) | (Hn2 & Hr2 & _)].
    + congruence.
    + destruct (Hno t2 h' Hr2). by apply runs_running.
    + destruct (Hno t1 h' Hr1). by apply runs_running.
    + by apply (H3 t1 t2 h').
  - intros q' h' Hin. destruct (Hq q' h' Hin) as [Hin' Hne]. rewrite lookup_insert_ne by done. by apply H4.
  - intros q'. rewrite default_insert. destruct (decide (t = q')) as [<- | Hne]; [ done | apply H5 ].
  - intros t' q' h' Hr Hin. destruct (Hq q' h' Hin) as [Hin' Hne]. destruct (phases_insert _ _ _ _ _ Hr) as [(-> & Hr' & _) | (_ & Hr' & _)].
    + by apply Hne, runs_running.
    + by apply (H6 t' q' h').
  - intros h' f'. destruct (decide (h = h')) as [<- | Hne]; [ | rewrite lookup_insert_ne by done; apply H7 ].
    rewrite lookup_insert_eq. intros [= <-]. by apply (H7 h f).
  - intros h' t0 b Hs Hn. apply lookup_insert_None in Hn as [Hn _]. by apply H8.
  - split; [ apply H9 | ]. intros h' Hh'. destruct (proj2 H9 h' Hh') as [Hn Hlt]. split; [ | done ]. rewrite lookup_insert_ne; [ done | congruence ].
Qed.

(** The end of a coroutine. *)
Lemma ended_ok s t h f : state_ok s -> frames s !! h = Some f -> code f = [] -> phase_of s t = Running h ->
  state_ok (mkState (delete h (frames s)) (queues s) (<[t := Idle]> (threads s)) (started s) (log s) (released s ++ [h]) (failed s)).
Proof.
  intros [H1 H2 H3 H4 H5 H6 H7 H8 H9 H10] Hf Hc Hp.
  assert (forall t' h', runs (default Idle (<[t := Idle]> (threads s) !! t')) h' ->
    h' <> h /\ runs (phase_of s t') h' /\ default Idle (<[t := Idle]> (threads s) !! t') = phase_of s t') as Hr.
  { intros t' h' Hr. destruct (phases_insert _ _ _ _ _ Hr) as [(_ & [? | ?] & _) | (Hne & Hr' & E)]; [ done | done | ]. split_and!; [ | done | done ].
    intros ->. apply Hne, (H3 t' t h); [ done | by left ]. }
  split; fields; try done.
  - intros t' h' Hrun. destruct (Hr t' h' Hrun) as (Hne & Hrun' & ->). rewrite lookup_delete_ne by done. by apply H1.
  - intros t' h' Hw. destruct (Hr t' h' (or_intror Hw)) as (Hne & Hrun' & E). rewrite E in Hw. rewrite lookup_delete_ne by done. by apply (H2 t').
  - intros t1 t2 h' Ha Hb. apply (H3 t1 t2 h'); by apply Hr.
  - intros q h' Hq. rewrite lookup_delete_ne; [ by apply H4 | ]. intros <-. apply (H6 t q h); [ by left | done ].
  - intros t' q h' Hrun. apply (H6 t'). by apply Hr.
  - intros h' f' Hf'. apply lookup_delete_Some in Hf' as [_ Hf']. by apply H7.
  - intros h' t0 b Hs Hn. rewrite elem_of_app. destruct (decide (h = h')) as [<- | Hne].
    + split; [ right; set_solver | ]. destruct (H7 h f Hf) as (t1 & b1 & Hs1 & E). rewrite Hc in E. cbn [expected] in E. rewrite app_nil_r in E. congruence.
    + rewrite lookup_delete_ne in Hn by done. destruct (H8 h' t0 b Hs Hn) as [Hin E]. auto.
  - destruct H9 as [Hnd Hrel]. split.
    + apply NoDup_app. split_and!; [ done | | apply NoDup_singleton ]. intros h' Hin ->%list_elem_of_singleton. destruct (Hrel h Hin) as [Hn _]. congruence.
    + intros h' [Hin | ->%list_elem_of_singleton]%elem_of_app.
      * destruct (Hrel h' Hin) as [Hn Hlt]. split; [ | done ]. rewrite lookup_delete_None. by right.
      * split; [ apply lookup_delete_eq | ]. destruct (H7 h f Hf) as (t0 & b & Hs & _). by apply lookup_lt_Some in Hs.
Qed.

Lemma run_body_ok s t h : state_ok s -> phase_of s t = Running h -> exists s', run_body s t h = Some s' /\ state_ok s'.
Proof.
  intros Hok Hp. destruct (ok_run s Hok t h) as (f & Hf & Hat); [ by left | ]. specialize (Hat Hp). unfold run_body. rewrite Hf. cbn [mbind option_bind].
  destruct (code f) as [| [x | q] rest] eqn:Ec; (eexists; split; [ done | ]).
  - by apply (ended_ok s t h f).
  - unfold set_frame. cbn [frames queues threads started log released failed].
    assert (<[t := Running h]> (threads s) = threads s) as Eid.
    { apply insert_id. unfold phase_of in Hp. destruct (threads s !! t) as [p'|]; [ by cbn in Hp; rewrite Hp | done ]. }
    rewrite <- Eid. apply (frame_ok s t h f); [ done | done | by left | by left | | ].
    + intros h' Hne. unfold done_by. cbn. by rewrite decide_False.
    + rewrite Ec, Hat. unfold done_by. cbn. by rewrite decide_True.
  - unfold set_phase, set_frame. cbn [frames queues threads started log released failed].
    rewrite <- (app_nil_r (log s)). apply (frame_ok s t h f); [ done | done | by left | | done | by rewrite Ec ].
    right. split; [ done | ]. eexists; split; [ done | ]. by intros q' [= ->].
Qed.

Lemma failed_ok s : state_ok s -> state_ok (fail_assertion s).
Proof. intros [H1 H2 H3 H4 H5 H6 H7 H8 H9 H10]. by split. Qed.

(** The coroutine leaves the thread for the queue. *)
Lemma await_suspend_ok s t h : state_ok s -> phase_of s t = Awaiting h -> exists s', await_suspend s t h = Some s' /\ state_ok s'.
Proof.
  intros Hok Hp. destruct (ok_wait s Hok t h Hp) as (f & a & Hf & Ha & Hq). unfold await_suspend. rewrite Hf. cbn [mbind option_bind]. rewrite Ha. cbn [mbind option_bind].
  destruct (queue a) as [q|]; [ | eexists; split; [ done | by apply failed_ok ] ]. specialize (Hq q eq_refl). eexists; split; [ done | ].
  destruct Hok as [H1 H2 H3 H4 H5 H6 H7 H8 H9 H10].
  assert (forall t' h', runs (default Idle (<[t := Enqueued h (number a)]> (threads s) !! t')) h' ->
    h' <> h /\ runs (phase_of s t') h' /\ default Idle (<[t := Enqueued h (number a)]> (threads s) !! t') = phase_of s t') as Hr.
  { intros t' h' Hr. destruct (phases_insert _ _ _ _ _ Hr) as [(_ & [? | ?] & _) | (Hne & Hr' & E)]; [ done | done | ]. split_and!; [ | done | done ].
    intros ->. apply Hne, (H3 t' t h); [ done | by right ]. }
  assert (forall q' h', h' ∈ default [] (<[q := default [] (queues s !! q) ++ [h]]> (queues s) !! q') -> h' ∈ queue_of s q' \/ h' = h /\ q' = q) as Hin.
  { intros q' h'. rewrite default_insert. destruct (decide (q = q')) as [<- | Hne]; [ | by left ]. intros [? | ->%list_elem_of_singleton]%elem_of_app; [ by left | by right ]. }
  split; fields; try done.
  - intros t' h' Hrun. destruct (Hr t' h' Hrun) as (Hne & Hrun' & ->). by apply H1.
  - intros t' h' Hw. destruct (Hr t' h' (or_intror Hw)) as (Hne & Hrun' & E). rewrite E in Hw. by apply (H2 t').
  - intros t1 t2 h' Hr1 Hr2. apply (H3 t1 t2 h'); by apply Hr.
  - intros q' h' Hq'. destruct (Hin q' h' Hq') as [? | [-> ->]]; [ by apply H4 | by exists f ].
  - intros q'. rewrite default_insert. destruct (decide (q = q')) as [<- | Hne]; [ | apply H5 ]. apply NoDup_app.
    split_and!; [ apply H5 | | apply NoDup_singleton ]. intros h' Hh' ->%list_elem_of_singleton. apply (H6 t q h); [ by right | done ].
  - intros t' q' h' Hrun Hq'. destruct (Hr t' h' Hrun) as (Hne & Hrun' & _). destruct (Hin q' h' Hq') as [? | [-> _]]; [ by apply (H6 t' q' h') | done ].
Qed.

(** A thread is about to write an awaitable that is gone. *)
Definition late_write (s : State) (t : nat) : Prop :=
  failed s = false /\ exists h n, phase_of s t = Enqueued h n /\ forall f a, frames s !! h = Some f -> awaitable f = Some a -> number a <> n.

Lemma await_suspend_end_ok s t h n : state_ok s ->
  match await_suspend_end s t h n with
  | Some s' => state_ok s'
  | None => forall f a, frames s !! h = Some f -> awaitable f = Some a -> number a <> n
  end.
Proof.
  intros Hok%(fun H => idle_ok s t H). unfold await_suspend_end. change (frames (set_phase s t Idle) !! h) with (frames s !! h).
  destruct (frames s !! h) as [f|] eqn:Hf; [ | done ]. cbn [mbind option_bind]. destruct (awaitable f) as [a|] eqn:Ha; cbn [mbind option_bind]; [ | by intros f' a' [= <-]; rewrite Ha ].
  destruct (Nat.eqb_spec (number a) n); [ by apply (awaitable_ok (set_phase s t Idle) h f) | ]. intros f' a' [= <-]. rewrite Ha. by intros [= <-].
Qed.

Lemma thread_step_ok s t c : state_ok s ->
  (exists s', thread_step s t c = Some s' /\ state_ok s') \/ (thread_step s t c = None /\ c = Continue /\ late_write s t).
Proof.
  intros Hok. unfold thread_step. destruct (failed s) eqn:Hfa; [ left; by exists s | ].
  destruct (phase_of s t) as [| h | h | h n] eqn:Hp, c as [body |]; try (left; by exists s).
  - left. eexists; split; [ done | by apply start_ok ].
  - left. by apply dequeue_ok.
  - left. by apply run_body_ok.
  - left. by apply await_suspend_ok.
  - pose proof (await_suspend_end_ok s t h n Hok) as H. destruct (await_suspend_end s t h n) as [s'|]; [ left; by exists s' | right ].
    split_and!; [ done | done | split; [ done | by exists h, n ] ].
Qed.

(** The schedule leads to such a write. *)
Definition writes_late (s : State) (cs : list (nat * choice)) : Prop :=
  exists cs1 t cs2 s1, cs = cs1 ++ (t, Continue) :: cs2 /\ run s cs1 = Some s1 /\ late_write s1 t.

Lemma run_ok cs : forall s, state_ok s -> (exists s', run s cs = Some s' /\ state_ok s') \/ (run s cs = None /\ writes_late s cs).
Proof.
  induction cs as [| [t c] cs IH]; intros s Hok; [ left; by exists s | ]. cbn [run].
  destruct (thread_step_ok s t c Hok) as [(s1 & E & Hok1) | (E & -> & Hl)]; rewrite E; cbn [mbind option_bind].
  - destruct (IH s1 Hok1) as [H | (H & cs1 & t1 & cs2 & s2 & -> & Er & Hl)]; [ by left | right ]. split; [ done | ].
    exists ((t, c) :: cs1), t1, cs2, s2. split_and!; [ done | | done ]. cbn [run]. by rewrite E.
  - right. split; [ done | ]. by exists [], t, cs, s.
Qed.

Lemma initial_ok : state_ok initial.
Proof.
  split; unfold phase_of, queue_of, initial; cbn [frames queues threads started log released]; intros *; rewrite ?lookup_empty; cbn [default]; try done; try (by intros [? | ?]).
  - intros Hin. by apply not_elem_of_nil in Hin.
  - apply NoDup_nil_2.
  - split; [ apply NoDup_nil_2 | ]. intros h Hin. by apply not_elem_of_nil in Hin.
Qed.

(** Two threads: the coroutine moves from thread 0 to thread 1 and back. *)
Example moves_there_and_back :
  fmap (fun s => (log s, released s, failed s))
    (run initial ((0, Start [Work 5; Await (Some 1); Work 6; Await (Some 0); Work 7]) :: replicate 4 (0, Continue) ++ replicate 5 (1, Continue) ++ replicate 4 (0, Continue))%nat)
  = Some ([(0, 0, 5); (0, 1, 6); (0, 0, 7)]%nat, [0]%nat, false).
Proof. vm_compute. reflexivity. Qed.

(** ** Coroutines that await the queue of the thread they run on *)

Definition awaits_own (t : nat) (i : instr) : Prop := match i with Work _ => True | Await q => q = Some t end.

Definition own_choice (tc : nat * choice) : Prop := match tc.2 with Start body => Forall (awaits_own tc.1) body | Continue => True end.

(** Whoever is in [await_suspend] behind the [EnqueueCommand] finds its awaitable. *)
Record own_ok (s : State) : Prop := {
  own_code : forall h f, frames s !! h = Some f -> Forall (awaits_own (at_ f)) (code f);
  own_wait : forall t h, phase_of s t = Awaiting h -> exists f a, frames s !! h = Some f /\ awaitable f = Some a /\ queue a = Some t;
  own_enqueued : forall t h n, phase_of s t = Enqueued h n -> exists f a, frames s !! h = Some f /\ awaitable f = Some a /\ number a = n /\ h ∈ queue_of s t;
  own_flags : failed s = false
}.

(** A step of thread [t] that touches only the frame of [h], which no other thread awaits. *)
Lemma own_step s s' t h : own_ok s -> (forall t', t' <> t -> phase_of s' t' = phase_of s t') ->
  (forall h', h' <> h -> frames s' !! h' = frames s !! h') -> (forall t' h', t' <> t -> h' ∈ queue_of s t' -> h' ∈ queue_of s' t') ->
  (forall t' n, t' <> t -> phase_of s t' <> Awaiting h /\ phase_of s t' <> Enqueued h n) ->
  (forall f, frames s' !! h = Some f -> Forall (awaits_own (at_ f)) (code f)) ->
  (forall h', phase_of s' t = Awaiting h' -> exists f a, frames s' !! h' = Some f /\ awaitable f = Some a /\ queue a = Some t) ->
  (forall h' n, phase_of s' t = Enqueued h' n -> exists f a, frames s' !! h' = Some f /\ awaitable f = Some a /\ number a = n /\ h' ∈ queue_of s' t) ->
  failed s' = false -> own_ok s'.
Proof.
  intros [O1 O2 O3 O4] Hphase Hframe Hqueue Hother Hcode Hwait Henq Hfa. split; [ | | | done ].
  - intros h' f. destruct (decide (h' = h)) as [-> | Hne]; [ apply Hcode | ]. rewrite Hframe by done. apply O1.
  - intros t' h' Hp. destruct (decide (t' = t)) as [-> | Hne]; [ by apply Hwait | ]. rewrite Hphase in Hp by done.
    rewrite Hframe; [ by apply O2 | ]. intros ->. by destruct (Hother t' 0%nat Hne) as [Hno _].
  - intros t' h' n Hp. destruct (decide (t' = t)) as [-> | Hne]; [ by apply Henq | ]. rewrite Hphase in Hp by done.
    destruct (O3 t' h' n Hp) as (f & a & Hf & Ha & Hn & Hin). exists f, a. rewrite Hframe; [ split_and!; [ done | done | done | by apply Hqueue ] | ].
    intros ->. by destruct (Hother t' n Hne) as [_ Hno].
Qed.

(** A coroutine that is on a thread, in its queue or not yet there is not awaited elsewhere. *)
Lemma not_elsewhere s t h : state_ok s -> own_ok s -> (runs (phase_of s t) h \/ h ∈ queue_of s t \/ frames s !! h = None) ->
  forall t' n, t' <> t -> phase_of s t' <> Awaiting h /\ phase_of s t' <> Enqueued h n.
Proof.
  intros Hok [O1 O2 O3 O4] Hh t' n Hne. split; intros Hp.
  - destruct Hh as [Hr | [Hin | Hn]].
    + apply Hne, (ok_one s Hok t' t h); [ by right | done ].
    + apply (ok_apart s Hok t' t h); [ by right | done ].
    + destruct (O2 t' h Hp) as (f & a & Hf & _). congruence.
  - destruct (O3 t' h n Hp) as (f & a & Hf & _ & _ & Hin'). destruct Hh as [Hr | [Hin | Hn]].
    + by apply (ok_apart s Hok t t' h).
    + destruct (ok_queue s Hok t h Hin) as (f1 & Hf1 & Hat1), (ok_queue s Hok t' h Hin') as (f2 & Hf2 & Hat2). congruence.
    + congruence.
Qed.

Lemma phase_set (m : gmap nat phase) t p : default Idle (<[t := p]> m !! t) = p.
Proof. by rewrite lookup_insert_eq. Qed.

Lemma phase_other (m : gmap nat phase) t p t' : t' <> t -> default Idle (<[t := p]> m !! t') = default Idle (m !! t').
Proof. intros Hne. by rewrite lookup_insert_ne. Qed.

Lemma queue_other (m : gmap nat (list nat)) t l t' : t' <> t -> default [] (<[t := l]> m !! t') = default [] (m !! t').
Proof. intros Hne. by rewrite lookup_insert_ne. Qed.

(** What every step of thread [t] on the frame of [h] leaves alone. *)
Ltac own_step_of s t h Hown :=
  apply (own_step s _ t h Hown); fields; rewrite ?phase_set; try done;
  try (intros t' Hne; by apply phase_other); try (intros h' Hne; by apply lookup_insert_ne); try (intros t' h' Hne; by rewrite queue_other).

Lemma start_own s t body : state_ok s -> own_ok s -> Forall (awaits_own t) body -> own_ok (start s t body).
Proof.
  intros Hok Hown Hc. pose proof Hown as [O1 O2 O3 O4].
  assert (frames s !! length (started s) = None) as Hn.
  { destruct (frames s !! length (started s)) eqn:E; [ | done ]. destruct (ok_frame s Hok _ _ E) as (t0 & b0 & Hl & _). apply lookup_lt_Some in Hl. lia. }
  own_step_of s t (length (started s)) Hown.
  - apply (not_elsewhere s t _ Hok Hown). auto.
  - intros f. rewrite lookup_insert_eq. by intros [= <-].
Qed.

Lemma dequeue_own s t s' : state_ok s -> own_ok s -> dequeue s t = Some s' -> own_ok s'.
Proof.
  intros Hok Hown Hs. pose proof Hown as [O1 O2 O3 O4]. unfold dequeue in Hs. destruct (queue_of s t) as [| h q] eqn:Eq; [ by injection Hs as <- | ].
  assert (h ∈ queue_of s t) as Hin by (rewrite Eq; set_solver). destruct (ok_queue s Hok t h Hin) as (f & Hf & Hat).
  rewrite Hf in Hs. cbn [mbind option_bind] in Hs. injection Hs as <-. own_step_of s t h Hown.
  - apply (not_elsewhere s t h Hok Hown). auto.
  - intros f'. rewrite lookup_insert_eq. intros [= <-]. by apply (O1 h f).
Qed.

Lemma run_body_own s t h s' : state_ok s -> own_ok s -> phase_of s t = Running h -> run_body s t h = Some s' -> own_ok s'.
Proof.
  intros Hok Hown Hp Hs. pose proof Hown as [O1 O2 O3 O4]. destruct (ok_run s Hok t h) as (f & Hf & Hat); [ by left | ].
  specialize (Hat Hp). specialize (O1 h f Hf). unfold run_body in Hs. rewrite Hf in Hs. cbn [mbind option_bind] in Hs.
  assert (forall t' n, t' <> t -> phase_of s t' <> Awaiting h /\ phase_of s t' <> Enqueued h n) as Hnot
    by (apply (not_elsewhere s t h Hok Hown); rewrite Hp; left; by left).
  destruct (code f) as [| [x | q] rest] eqn:Ec; injection Hs as <-; own_step_of s t h Hown.
  - intros h' Hne. by apply lookup_delete_ne.
  - intros f'. by rewrite lookup_delete_eq.
  - intros f'. rewrite lookup_insert_eq. intros [= <-]. by apply Forall_cons in O1 as [_ ?].
  - intros h'. by rewrite Hp.
  - intros h' n. by rewrite Hp.
  - intros f'. rewrite lookup_insert_eq. intros [= <-]. apply Forall_cons in O1 as [Hq O1]. cbn [awaits_own] in Hq. by rewrite Hq.
  - intros h' [= <-]. rewrite lookup_insert_eq. eexists _, _. split_and!; [ done | done | ]. apply Forall_cons in O1 as [Hq _].
    cbn [awaits_own] in Hq. by rewrite Hq, Hat.
Qed.

Lemma await_suspend_own s t h s' : state_ok s -> own_ok s -> phase_of s t = Awaiting h -> await_suspend s t h = Some s' -> own_ok s'.
Proof.
  intros Hok Hown Hp Hs. pose proof Hown as [O1 O2 O3 O4]. destruct (O2 t h Hp) as (f & a & Hf & Ha & Hq).
  unfold await_suspend in Hs. rewrite Hf in Hs. cbn [mbind option_bind] in Hs. rewrite Ha in Hs. cbn [mbind option_bind] in Hs. rewrite Hq in Hs.
  injection Hs as <-. own_step_of s t h Hown.
  - apply (not_elsewhere s t h Hok Hown). left. right. exact Hp.
  - intros f' Hf'. by apply (O1 h).
  - intros h' n [= <- <-]. exists f, a. split_and!; try done. rewrite lookup_insert_eq. cbn. set_solver.
Qed.

Lemma await_suspend_end_own s t h n s' : state_ok s -> own_ok s -> phase_of s t = Enqueued h n -> await_suspend_end s t h n = Some s' -> own_ok s'.
Proof.
  intros Hok Hown Hp Hs. pose proof Hown as [O1 O2 O3 O4]. destruct (O3 t h n Hp) as (f & a & Hf & Ha & Hn & Hin).
  unfold await_suspend_end in Hs. cbn [set_phase frames] in Hs. rewrite Hf in Hs. cbn [mbind option_bind] in Hs. rewrite Ha in Hs. cbn [mbind option_bind] in Hs.
  rewrite Hn, Nat.eqb_refl in Hs. injection Hs as <-. own_step_of s t h Hown.
  - apply (not_elsewhere s t h Hok Hown). auto.
  - intros f'. rewrite lookup_insert_eq. intros [= <-]. by apply (O1 h f).
Qed.

Lemma thread_step_own s t c s' : state_ok s -> own_ok s -> own_choice (t, c) -> thread_step s t c = Some s' -> own_ok s'.
Proof.
  intros Hok Hown Hc Hs. unfold thread_step in Hs. rewrite (own_flags s Hown) in Hs.
  destruct (phase_of s t) as [| h | h | h n] eqn:Hp, c as [body |]; try (by injection Hs as <-).
  - injection Hs as <-. by apply start_own.
  - by apply (dequeue_own s t).
  - by apply (run_body_own s t h).
  - by apply (await_suspend_own s t h).
  - by apply (await_suspend_end_own s t h n).
Qed.

Lemma run_own cs : forall s, state_ok s -> own_ok s -> Forall own_choice cs -> exists s', run s cs = Some s' /\ own_ok s'.
Proof.
  induction cs as [| [t c] cs IH]; intros s Hok Hown Hcs; cbn [run]; [ by exists s | ]. apply Forall_cons in Hcs as [Hc Hcs].
  destruct (thread_step_ok s t c Hok) as [(s1 & Hs1 & Hok1) | (_ & _ & _ & h & n & Hp & Hl)].
  - rewrite Hs1. cbn [mbind option_bind]. apply IH; [ done | by apply (thread_step_own s t c) | done ].
  - destruct (own_enqueued s Hown t h n Hp) as (f & a & Hf & Ha & Hn & _). by destruct (Hl f a Hf Ha).
Qed.

Lemma initial_own : own_ok initial.
Proof. split; unfold phase_of, queue_of, initial; cbn [frames queues threads failed]; intros *; rewrite ?lookup_empty; done. Qed.

(** What every coroutine has done so far, and what became of its frame. *)
Definition coroutines_fine (s : State) : Prop :=
  NoDup (released s) /\ forall h t body, started s !! h = Some (t, body) ->
    exists rest, expected t body = done_by h (log s) ++ rest /\
      (h ∈ released s <-> frames s !! h = None) /\ (h ∈ released s -> rest = []).

Lemma state_fine s : state_ok s -> coroutines_fine s.
Proof.
  intros Hok. destruct (ok_released s Hok) as [Hnd Hrel]. split; [ done | ]. intros h t body Hst. destruct (frames s !! h) as [f|] eqn:Hf.
  - destruct (ok_frame s Hok h f Hf) as (t' & b' & Hst' & E). rewrite Hst in Hst'. injection Hst' as -> ->. exists (expected (at_ f) (code f)).
    split_and!; [ done | split; [ intros Hin; destruct (Hrel h Hin); congruence | done ] | intros Hin; destruct (Hrel h Hin); congruence ].
  - destruct (ok_ended s Hok h t body Hst Hf) as [Hin E]. exists []. by rewrite app_nil_r.
Qed.

(** C16: for every interleaving of the threads, while the queues exist: either the run reaches a
    write of [await_suspend] to an awaitable that is gone, because the coroutine was resumed
    before [await_suspend] ended, and nothing is claimed; or no coroutine is resumed or run
    after its frame was destroyed, every coroutine has done a first part of the work of its
    body, in order, each piece once and on the thread of the queue it last awaited, and its
    frame is released exactly once, when it is at its end. There is no such write, and no
    assertion fails, when coroutines await only the queue that their own thread executes. *)
Theorem coroutine_runs_where_it_awaited cs :
  match run initial cs with Some s => coroutines_fine s | None => writes_late initial cs end
  /\ (Forall own_choice cs -> exists s, run initial cs = Some s /\ failed s = false).
Proof.
  split.
  - destruct (run_ok cs initial initial_ok) as [(s & -> & Hok) | (-> & Hl)]; [ by apply state_fine | done ].
  - intros Hcs. destruct (run_own cs initial initial_ok initial_own Hcs) as (s & E & Hown). exists s. split; [ done | apply Hown ].
Qed.

Lemma coroutine_runs_where_it_awaited_witness :
  exists s, run initial [(3, Start [Await (Some 3); Work 1]); (3, Continue); (3, Continue); (3, Continue)]%nat = Some s /\ failed s = false.
Proof. apply coroutine_runs_where_it_awaited. repeat constructor. Defined.

(** ** A coroutine that moves to another thread races with the thread it left *)

(** The other thread resumes the coroutine and ends it before [await_suspend] clears the
    awaitable, which lies in the frame that is gone. *)
Theorem await_suspend_writes_a_released_frame : exists cs s, run initial cs = Some s /\ late_write s 0 /\ released s = [0%nat].
Proof.
  exists ((0, Start [Await (Some 1)]) :: replicate 2 (0, Continue) ++ replicate 2 (1, Continue))%nat.
  eexists. split; [ vm_compute; reflexivity | ]. split; [ | reflexivity ]. split; [ reflexivity | ].
  exists 0%nat, 0%nat. split; [ reflexivity | ]. intros f a E. vm_compute in E. discriminate E.
Qed.

(** Or the coroutine has built its next awaitable in the same place, which is about to lose its
    queue although it came from a queue: the assertion of the next [await_suspend] would fail. *)
Theorem await_suspend_clears_the_next_awaitable :
  exists cs s f, run initial cs = Some s /\ late_write s 0 /\ phase_of s 0 = Enqueued 0 0 /\ phase_of s 1 = Awaiting 0
    /\ frames s !! 0%nat = Some f /\ awaitable f = Some (mkAwaitable 1 (Some 1%nat)).
Proof.
  exists ((0, Start [Await (Some 1); Await (Some 1); Work 7]) :: replicate 2 (0, Continue) ++ replicate 2 (1, Continue))%nat.
  eexists _, _. split; [ vm_compute; reflexivity | ]. split; [ | split_and!; reflexivity ]. split; [ reflexivity | ].
  exists 0%nat, 0%nat. split; [ reflexivity | ]. intros f a E. vm_compute in E. injection E as <-. vm_compute. intros [= <-]. discriminate.
Qed.

End Coroutines.
