(* ===== verification/PeerCallbacks.v ===== *)
(** * Connect and disconnect callbacks (src/Host.cpp, src/Peer.cpp, src/HostUStcp.cpp)

    A host has a function for new connections and one for closed connections; a peer can have
    its own function for the latter, which another thread sets through a command that names the
    peer by its handle. The handle outlives the connection, and the slot it names is used again:
    this file shows that a late command reaches no other peer. The connections are those of
    HostLifecycle.v; functions of the user are numbers, and their calls are recorded. What a
    function does inside a call, such as a request of its own, is an operation right behind. *)

From S2P Require Import Prelude PeersToFlush PeerManager HostLifecycle.

Module PeerCallbacks.
Import PeerManager HostLifecycle.

(** ** The history of handles *)

(** [shared_handle]: the field [peerHandle] of the [Peer] object, which is never cleared. *)
Definition shared_handle (s : HostState) (d : nat) : option PeerHandle := sharedPeerHandle <$> wst (world s) !! d.

(** What an event does to the peers. *)
Definition changes (s s' : HostState) (closed : option nat) : Prop :=
  match closed with
  | Some d => close_frame s s' d /\ disconnected s' = disconnected s ++ [d]
  | None => disconnected s' = disconnected s
      /\ (world s' = world s \/ exists d h, wst (world s) !! d = None /\ world_open (world s) d (this s) = Some (world s', h))
  end.

Definition closed_by (s : HostState) (e : event) : option nat := if event_ok s e then closes s e else None.

Lemma MakePeer_changes s k s' d h : MakePeer s k = Some (s', d, h) -> disconnected s' = disconnected s
  /\ wst (world s) !! d = None /\ world_open (world s) d (this s) = Some (world s', h).
Proof.
  unfold MakePeer. destruct (world_open _ _ _) as [[w h']|] eqn:E; [ | done ]. intros [= <- <- <-]. split_and!; [ done | | done ].
  apply not_elem_of_dom, is_fresh.
Qed.

Lemma open_finish_changes s h s' : on_open_Finish s h = Some s' -> world s' = world s /\ disconnected s' = disconnected s.
Proof. unfold on_open_Finish. cbn [world]. destruct (GetLocalPeerData _ _) as [[d|]|]; [ by intros [= <-] | by intros [= <-] | done ]. Qed.

Lemma close_changes s b k s' : host_ok s -> close_peer_of (count_disconnect s b) k = Some s' -> changes s s' (mjoin (sockets s !! k)).
Proof.
  intros Hs Ec. destruct (sockets s !! k) as [[d|]|] eqn:Ek; cbn [mjoin option_join].
  - destruct (close_spec (count_disconnect s b) k d (count_disconnect_ok s b Hs) Ek) as (s1 & E1 & _ & _ & Hd & Hf & _).
    rewrite Ec in E1. injection E1 as <-. split; [ | done ]. destruct Hf as [F1 F2 F3]. by split.
  - unfold close_peer_of in Ec. cbn [count_disconnect sockets] in Ec. rewrite Ek in Ec. injection Ec as <-. split; [ done | by left ].
  - unfold close_peer_of in Ec. cbn [count_disconnect sockets] in Ec. by rewrite Ek in Ec.
Qed.

Lemma disconnect_all_changes ds : forall s, disconnected (fold_left _InternalDisconnect ds s) = disconnected s.
Proof.
  induction ds as [|d ds IH]; intros s; [ done | ]. cbn [fold_left]. rewrite IH. unfold _InternalDisconnect. by destruct (peer_socket _ !! d).
Qed.

Lemma host_step_changes s e s' : host_ok s -> host_step s e = Some s' -> changes s s' (closed_by s e).
Proof.
  intros Hs E. destruct (stops s e) eqn:Hst; [ by rewrite (host_step_stops s e Hs Hst) in E | ]. unfold host_step in E. unfold closed_by. destruct (event_ok s e) eqn:Ee; [ | injection E as <-; split; [ done | by left ] ].
  destruct e as [k | [k|] | k | k | k | k | k | ]; cbn [closes changes].
  - unfold on_open in E. destruct (MakePeer s k) as [[[s1 d] h]|] eqn:Em; [ | done ]. destruct (MakePeer_changes _ _ _ _ _ Em) as (Ed & Hd & Eo).
    destruct (open_finish_changes _ _ _ E) as [-> ->]. split; [ done | right; by exists d, h ].
  - unfold _InternalConnect in E. destruct (MakePeer s k) as [[[s1 d] h]|] eqn:Em; [ | done ]. destruct (MakePeer_changes _ _ _ _ _ Em) as (Ed & Hd & Eo).
    injection E as <-. split; [ done | right; by exists d, h ].
  - injection E as <-. split; [ done | by left ].
  - unfold on_open in E. inv_bind E. destruct (open_finish_changes _ _ _ E) as [-> ->]. split; [ done | by left ].
  - by apply (close_changes s true k).
  - by apply (close_changes s false k).
  - unfold on_timeout in E. host_fields. inv_bind E. destruct o as [d|]; injection E as <-; [ | by split; [ | left ] ].
    split; [ unfold _InternalDisconnect; by destruct (peer_socket _ !! d) | left; by rewrite disconnect_world ].
  - cbn [stops] in Hst. apply bool_decide_eq_false in Hst. unfold on_connect_error, on_connect_error_with in E. cbn [sockets] in E.
    destruct (sockets s !! k) as [[d|]|]; [ by destruct Hst; eexists | | done ]. injection E as <-. split; [ done | by left ].
  - injection E as <-. unfold DisconnectAll. destruct (disconnect_all_ok (refs_of (world s) (this s)) s Hs) as [_ ->].
    rewrite disconnect_all_changes. split; [ done | by left ].
Qed.

(** The handle of a closed peer is older than its slot, no two peers have had the same handle,
    and the versions of the slots stay far from their limit. *)
Record history_ok (s : HostState) : Prop := {
  hy_bound : forall i v, vget (versions (wm (world s))) i = Some v -> v <= 1 + zlen (disconnected s);
  hy_loop : forall d h, shared_handle s d = Some h -> of_loop (pm_loop (wm (world s))) h;
  hy_valid : forall d h, shared_handle s d = Some h -> handle_valid h = true;
  hy_slot : forall d h, shared_handle s d = Some h -> exists v, vget (versions (wm (world s))) (id (hid h)) = Some v /\ version (hid h) <= v;
  hy_dead : forall d h v, shared_handle s d = Some h -> d ∈ disconnected s -> vget (versions (wm (world s))) (id (hid h)) = Some v -> version (hid h) < v;
  hy_inj : forall d1 d2 h, shared_handle s d1 = Some h -> shared_handle s d2 = Some h -> d1 = d2
}.

Lemma history_same s s' : world s' = world s -> disconnected s' = disconnected s -> history_ok s -> history_ok s'.
Proof. intros Ew Ed [H1 H2 H3 H4 H5 H6]. split; unfold shared_handle in *; rewrite ?Ew, ?Ed; done. Qed.

(** A peer that is closed is known; a known peer is closed or in a slot. *)
Lemma closed_known s d : host_ok s -> d ∈ disconnected s -> is_Some (shared_handle s d).
Proof. intros Hs Hd. unfold shared_handle. rewrite fmap_is_Some. apply (ho_hist _ Hs). by left. Qed.

Lemma live_shared s d : host_ok s -> live s d -> exists i v, let h := slot_handle (wm (world s)) i v in
  shared_handle s d = Some h /\ vget (peers (wm (world s))) i = Some (Some d) /\ vget (versions (wm (world s))) i = Some v.
Proof.
  intros Hs Hl. destruct (live_handle s d Hs Hl) as (i & v & Est & _ & Hi & Hv & _). exists i, v. cbv zeta in *.
  unfold shared_handle. by rewrite Est.
Qed.

Lemma shared_insert s s' d x d' : wst (world s') = <[d := x]> (wst (world s)) ->
  shared_handle s' d' = if decide (d = d') then Some (sharedPeerHandle x) else shared_handle s d'.
Proof.
  intros E. unfold shared_handle. rewrite E. destruct (decide (d = d')) as [<- | Hne]; [ by rewrite lookup_insert_eq | by rewrite lookup_insert_ne ].
Qed.

Lemma history_open s s' d h : host_ok s -> history_ok s -> Z.of_nat (size (wst (world s))) < 2 ^ 31 - 1 ->
  wst (world s) !! d = None -> world_open (world s) d (this s) = Some (world s', h) -> disconnected s' = disconnected s ->
  history_ok s' /\ (forall d' h', shared_handle s d' = Some h' -> shared_handle s' d' = Some h') /\ shared_handle s' d = Some h.
Proof.
  intros Hs Hy Hn Hd Eo Ed. pose proof (ho_inv _ Hs) as Hw.
  destruct (world_open_spec (world s) d (this s) Hw Hd Hn) as (w & i & v & Eo' & Hw' & Hnl & Hp & Hvs & Hold & Est & _ & Hl & _).
  rewrite Eo in Eo'. injection Eo' as <- ->. destruct Hy as [Y1 Y2 Yv Y3 Y4 Y5].
  assert (shared_handle s d = None) as Hnone by (unfold shared_handle; by rewrite Hd).
  assert (forall j v', vget (versions (wm (world s))) j = Some v' -> vget (versions (wm (world s'))) j = Some v') as Hkeep.
  { intros j v' Hj. rewrite Hvs. destruct (Z.eqb_spec j i) as [-> | _]; [ destruct Hold as [? | [? _]]; congruence | done ]. }
  pose proof (fun d' => shared_insert s s' d _ d' Est) as Hsh. cbn [sharedPeerHandle] in Hsh.
  assert (forall d', shared_handle s d' = Some (slot_handle (wm (world s)) i v) -> False) as Hfresh.
  { intros d' Hd'. destruct (proj1 (ho_hist _ Hs d')) as [Hdis | Hlive].
    - unfold shared_handle in Hd'. destruct (wst (world s) !! d') eqn:E; [ by eexists | done ].
    - destruct (Y3 d' _ Hd') as (v' & Hv' & _). cbn [slot_handle hid id] in Hv'. destruct Hold as [Hv | [Hv _]]; [ | congruence ].
      pose proof (Y4 d' _ v Hd' Hdis Hv) as Hlt. cbn in Hlt. lia.
    - destruct (live_shared s d' Hs Hlive) as (j & vj & Ej & Hj & _). rewrite Hd' in Ej. injection Ej as <- _. by destruct (Hnl d'). }
  split_and!.
  - split; rewrite ?Ed.
    + intros j vj. rewrite Hvs. destruct (Z.eqb_spec j i) as [-> | _]; [ | apply Y1 ]. intros [= <-].
      destruct Hold as [Hv | [_ ->]]; [ by apply (Y1 i) | ]. pose proof (zlen_nonneg (disconnected s)). lia.
    + intros d' h'. rewrite Hsh, Hl. destruct (decide (d = d')); [ | apply Y2 ]. intros [= <-]. split; [ done | ]. cbn [slot_handle hid id].
      destruct (vget_Some_range (versions (wm (world s'))) i v); [ by rewrite Hvs, Z.eqb_refl | done ].
    + intros d' h'. rewrite Hsh. destruct (decide (d = d')); [ | apply Yv ]. intros [= <-]. unfold handle_valid. cbn [slot_handle loop hid version].
      pose proof (inv_loop _ Hw). pose proof (inv_version _ Hw' i v) as Hr. rewrite Hvs, Z.eqb_refl in Hr. specialize (Hr eq_refl).
      by rewrite !(proj2 (Z.eqb_neq _ 0)) by lia.
    + intros d' h'. rewrite Hsh. destruct (decide (d = d')).
      * intros [= <-]. exists v. cbn [slot_handle hid id version]. rewrite Hvs, Z.eqb_refl. split; [ done | lia ].
      * intros Hd'. destruct (Y3 d' h' Hd') as (v' & Hv' & Hle). exists v'. split; [ by apply Hkeep | done ].
    + intros d' h' v' Hd' Hdis Hv'. rewrite Hsh in Hd'. destruct (decide (d = d')) as [<- | Hne]; [ by destruct (closed_known s d Hs Hdis); congruence | ].
      destruct (Y3 d' h' Hd') as (v0 & Hv0 & _). rewrite (Hkeep _ _ Hv0) in Hv'. injection Hv' as <-. by apply (Y4 d').
    + intros d1 d2 h'. rewrite !Hsh. destruct (decide (d = d1)) as [<- | H1], (decide (d = d2)) as [<- | H2]; [ done | | | apply Y5 ].
      * intros [= <-] E2. by destruct (Hfresh d2).
      * intros E1 [= <-]. by destruct (Hfresh d1).
  - intros d' h' Hd'. rewrite Hsh. destruct (decide (d = d')) as [<- | _]; [ congruence | done ].
  - rewrite Hsh. by rewrite decide_True.
Qed.

Lemma history_close s s' d : host_ok s -> history_ok s -> zlen (disconnected s) < 2 ^ 31 -> close_frame s s' d -> disconnected s' = disconnected s ++ [d] ->
  history_ok s' /\ forall d', shared_handle s' d' = shared_handle s d'.
Proof.
  intros Hs Hy Hn [_ Hl (i & v & H0 & Hv & Est & Est' & Hvs)] Ed. cbv zeta in *. destruct Hy as [Y1 Y2 Yv Y3 Y4 Y5].
  set (h := slot_handle (wm (world s)) i v) in *.
  assert (forall d', shared_handle s' d' = shared_handle s d') as Hsh.
  { intros d'. rewrite (shared_insert s s' d _ d' Est'). cbn [sharedPeerHandle]. destruct (decide (d = d')) as [<- | _]; [ | done ]. unfold shared_handle. by rewrite Est. }
  assert (next_version v = v + 1) as Hnext.
  { pose proof (Y1 i v Hv). pose proof (inv_version _ (ho_inv _ Hs) i v Hv) as Hr. destruct (next_version_spec v Hr) as [_ ->].
    rewrite (proj2 (Z.eqb_neq _ _)); [ done | ]. change (2 ^ 31) with 2147483648 in Hn. change (2 ^ 32) with 4294967296. lia. }
  assert (forall j v', vget (versions (wm (world s'))) j = Some v' -> exists v0, vget (versions (wm (world s))) j = Some v0 /\ v' = if j =? i then v0 + 1 else v0) as Hback.
  { intros j v'. rewrite Hvs. destruct (Z.eqb_spec j i) as [-> | _]; intros Hj; [ exists v; split; [ done | congruence ] | by exists v' ]. }
  split; [ | exact Hsh ]. split; rewrite ?Ed, ?zlen_app, ?Hl.
  - intros j v' Hj. destruct (Hback j v' Hj) as (v0 & Hv0 & ->). pose proof (Y1 j v0 Hv0). change (zlen [d]) with 1. destruct (j =? i); lia.
  - intros d' h'. rewrite Hsh. apply Y2.
  - intros d' h'. rewrite Hsh. apply Yv.
  - intros d' h' Hd'. rewrite Hsh in Hd'. destruct (Y3 d' h' Hd') as (v0 & Hv0 & Hle). rewrite Hvs.
    destruct (Z.eqb_spec (id (hid h')) i) as [Ei | _]; [ | by exists v0 ]. exists (next_version v). split; [ done | ]. rewrite Ei in Hv0. assert (v0 = v) by congruence. lia.
  - intros d' h' v' Hd' Hin Hv'. rewrite Hsh in Hd'. destruct (Hback _ _ Hv') as (v0 & Hv0 & ->).
    apply elem_of_app in Hin as [Hin | ->%list_elem_of_singleton].
    + pose proof (Y4 d' h' v0 Hd' Hin Hv0). destruct (_ =? _); lia.
    + unfold shared_handle in Hd'. rewrite Est in Hd'. injection Hd' as <-. cbn [h slot_handle hid id version] in *. rewrite Z.eqb_refl. assert (v0 = v) by congruence. lia.
  - intros d1 d2 h'. rewrite !Hsh. apply Y5.
Qed.

Lemma disconnected_bound s : host_ok s -> zlen (disconnected s) <= Z.of_nat (size (wst (world s))).
Proof.
  intros Hs. unfold zlen. rewrite <- size_dom, <- (size_list_to_set (C := gset nat) (disconnected s)) by apply Hs. apply inj_le, subseteq_size.
  intros d Hd%elem_of_list_to_set. apply elem_of_dom, (ho_hist _ Hs). by left.
Qed.

(** Events keep the history and the handles. *)
Lemma history_step s e s' : host_ok s -> history_ok s -> Z.of_nat (size (wst (world s))) < 2 ^ 31 - 1 -> host_step s e = Some s' ->
  history_ok s' /\ forall d h, shared_handle s d = Some h -> shared_handle s' d = Some h.
Proof.
  intros Hs Hy Hn E. pose proof (host_step_changes s e s' Hs E) as Hc. unfold changes in Hc. destruct (closed_by s e) as [d|].
  - destruct Hc as [Hf Ed]. pose proof (disconnected_bound s Hs). destruct (history_close s s' d Hs Hy) as [Hy' Hsh]; [ lia | done | done | ].
    split; [ done | ]. intros d' h'. by rewrite Hsh.
  - destruct Hc as [Ed [Ew | (d & h & Hd & Eo)]].
    + split; [ by apply (history_same s) | ]. intros d h. unfold shared_handle. by rewrite Ew.
    + destruct (history_open s s' d h Hs Hy Hn Hd Eo Ed) as (Hy' & Hk & _). done.
Qed.

Lemma history_init l this : history_ok (Host_init l this).
Proof.
  split; unfold shared_handle; cbn; intros *; try (by rewrite lookup_empty).
  rewrite vget_nil. done.
Qed.

(** The handle of a peer leads to that peer, and to nothing once it is closed. *)
Lemma resolve_shared s d h : host_ok s -> history_ok s -> shared_handle s d = Some h ->
  GetLocalPeerData (wm (world s)) h = Some (if decide (d ∈ disconnected s) then None else Some d).
Proof.
  intros Hs [Y1 Y2 Yv Y3 Y4 Y5] Hd. destruct (Y2 d h Hd) as [Hl Hid]. destruct (GetLocalPeerData_spec (world s) h (ho_inv _ Hs) Hl Hid) as (r & -> & Hr). f_equal.
  destruct (decide (d ∈ disconnected s)) as [Hin | Hnin].
  - destruct r as [d'|]; [ | done ]. destruct (proj1 (Hr d') eq_refl) as [_ Hv]. pose proof (Y4 d h _ Hd Hin Hv). lia.
  - destruct (proj1 (ho_hist _ Hs d)) as [Hdis | Hlive]; [ unfold shared_handle in Hd; destruct (wst (world s) !! d); [ by eexists | done ] | done | ].
    destruct (live_shared s d Hs Hlive) as (i & v & E & Hi & Hv). cbv zeta in E. rewrite Hd in E. injection E as ->. by apply Hr.
Qed.

(** ** Callbacks *)

(** Commands of Peer.cpp, Host.cpp and Command.cpp. *)
Inductive command :=
| CommandSetOnDisconnect (peer : PeerHandle) (callback : option nat)
| ExecuteDisconnect (peer : PeerHandle)
| CommandDisconnectAll.

(** A call of a function of the user. *)
Inductive call := Connected (f : nat) (peer : PeerHandle) | Disconnected (f : nat) (peer : PeerHandle).

(** [onConnect], [onDisconnect]: the fields of the host, [None] for an empty function;
    [peer_onDisconnect]: the field of the peers, where it is not empty. *)
Record State := mkState {
  hs : HostState;
  onConnect : option nat;
  onDisconnect : option nat;
  peer_onDisconnect : gmap nat nat;
  commandQueue : list command;
  called : list call;
  errorsCount : Z;
  longTimeouts : Z
}.

Definition State_init (l this : Z) : State := mkState (Host_init l this) None None ∅ [] [] 0 0.

Definition set_hs (s : State) (h : HostState) : State :=
  mkState h (onConnect s) (onDisconnect s) (peer_onDisconnect s) (commandQueue s) (called s) (errorsCount s) (longTimeouts s).

Definition add_calls (s : State) (cs : list call) : State :=
  mkState (hs s) (onConnect s) (onDisconnect s) (peer_onDisconnect s) (commandQueue s) (called s ++ cs) (errorsCount s) (longTimeouts s).

Definition EnqueueCommand (s : State) (c : command) : State :=
  mkState (hs s) (onConnect s) (onDisconnect s) (peer_onDisconnect s) (commandQueue s ++ [c]) (called s) (errorsCount s) (longTimeouts s).

(** [Host::SetOnConnect], [Host::SetOnDisconnect]. *)
Definition Host_SetOnConnect (s : State) (callback : option nat) : State :=
  mkState (hs s) callback (onDisconnect s) (peer_onDisconnect s) (commandQueue s) (called s) (errorsCount s) (longTimeouts s).
Definition Host_SetOnDisconnect (s : State) (callback : option nat) : State :=
  mkState (hs s) (onConnect s) callback (peer_onDisconnect s) (commandQueue s) (called s) (errorsCount s) (longTimeouts s).

Definition set_own (m : gmap nat nat) (d : nat) (callback : option nat) : gmap nat nat := partial_alter (fun _ => callback) d m.

(** [PeerData::SetOnDisconnect]. *)
Definition PeerData_SetOnDisconnect (s : State) (d : nat) (callback : option nat) : State :=
  mkState (hs s) (onConnect s) (onDisconnect s) (set_own (peer_onDisconnect s) d callback) (commandQueue s) (called s) (errorsCount s) (longTimeouts s).

Definition IsDisconnecting (flags : Z) : bool := negb (Z.land flags BIT_DISCONNECTING =? 0).

(** [Peer::_InternalErrorSendOnDisconnecting]. *)
Definition count_error (s : State) : State :=
  mkState (hs s) (onConnect s) (onDisconnect s) (peer_onDisconnect s) (commandQueue s) (called s) (errorsCount s + 1) (longTimeouts s).

(** [Peer::SetOnDisconnect], on the shared object of [d]. *)
Definition Peer_SetOnDisconnect (s : State) (d : nat) (callback : option nat) : option State :=
  let* flags := peerFlags (hs s) !! d in
  if IsDisconnecting flags then Some (count_error s)
  else
    let* peerHandle := shared_handle (hs s) d in
    Some (EnqueueCommand s (CommandSetOnDisconnect peerHandle callback)).

(** [Peer::Disconnect], on the shared object of [d]. *)
Definition Peer_Disconnect (s : State) (d : nat) : option State :=
  let s := set_hs s (or_flags (hs s) d BIT_DISCONNECTING) in
  let* peerHandle := shared_handle (hs s) d in
  Some (EnqueueCommand s (ExecuteDisconnect peerHandle)).

Definition DisconnectAllAsync (s : State) : State := EnqueueCommand s CommandDisconnectAll.

(** [Execute] of the commands. *)
Definition Execute (s : State) (c : command) : option State :=
  match c with
  | CommandSetOnDisconnect peer callback =>
      let* data := GetLocalPeerData (wm (world (hs s))) peer in
      match data with
      | Some d => Some (PeerData_SetOnDisconnect s d callback)
      | None => Some s
      end
  | ExecuteDisconnect peer =>
      if handle_valid peer then
        let* data := GetLocalPeerData (wm (world (hs s))) peer in
        match data with
        | Some d => Some (set_hs s (_InternalDisconnect (hs s) d))
        | None => Some s
        end
      else Some s
  | CommandDisconnectAll => Some (set_hs s (DisconnectAll (hs s)))
  end.

Definition execute_next (s : State) : option State :=
  match commandQueue s with
  | [] => Some s
  | c :: q => Execute (mkState (hs s) (onConnect s) (onDisconnect s) (peer_onDisconnect s) q (called s) (errorsCount s) (longTimeouts s)) c
  end.

(** [PeerData::_InternalOnDisconnect]. *)
Definition _InternalOnDisconnect (s : State) (d : nat) : option State :=
  let* pd := wst (world (hs s)) !! d in
  match peer_onDisconnect s !! d with
  | Some f => Some (add_calls s [Disconnected f (peerHandle pd)])
  | None =>
      match onDisconnect s with
      | Some f => Some (add_calls s [Disconnected f (peerHandle pd)])
      | None => Some s
      end
  end.

(** [if (onConnect) onConnect(peer)] for the peers that an event has opened. *)
Definition call_onConnect (s : State) (peers : list PeerHandle) : State :=
  match onConnect s with
  | Some f => add_calls s (Connected f <$> peers)
  | None => s
  end.

(** An event of HostLifecycle.v with its callbacks. *)
Definition host_event (s : State) (e : event) : option State :=
  let* s := match closed_by (hs s) e with Some d => _InternalOnDisconnect s d | None => Some s end in
  let opened := length (connected (hs s)) in
  let* h := host_step (hs s) e in
  Some (call_onConnect (set_hs s h) (drop opened (connected h))).

(** [Host::_Internal_on_long_timeout]. *)
Definition on_long_timeout (s : State) (socket : nat) : option State :=
  let s := mkState (hs s) (onConnect s) (onDisconnect s) (peer_onDisconnect s) (commandQueue s) (called s) (errorsCount s) (longTimeouts s + 1) in
  let* ext := sockets (hs s) !! socket in
  match ext with
  | None => Some s
  | Some d => Some (set_hs s (_InternalDisconnect (hs s) d))
  end.

(** ** Programs *)

Inductive op :=
| OEvent (e : event)
| OLongTimeout (socket : nat)
| OSetOnConnect (callback : option nat)
| OSetOnDisconnect (callback : option nat)
| OPeerSetOnDisconnect (d : nat) (callback : option nat)
| OPeerDisconnect (d : nat)
| ODisconnectAllAsync
| OExecute.

(** Requests are made on peers that exist, timeouts reported on sockets that exist. *)
Definition op_ok (h : HostState) (o : op) : bool :=
  match o with
  | OLongTimeout k => bool_decide (is_Some (sockets h !! k))
  | OPeerSetOnDisconnect d _ | OPeerDisconnect d => bool_decide (is_Some (wst (world h) !! d))
  | _ => true
  end.

Definition step (s : State) (o : op) : option State :=
  if op_ok (hs s) o then
    match o with
    | OEvent e => host_event s e
    | OLongTimeout k => on_long_timeout s k
    | OSetOnConnect f => Some (Host_SetOnConnect s f)
    | OSetOnDisconnect f => Some (Host_SetOnDisconnect s f)
    | OPeerSetOnDisconnect d f => Peer_SetOnDisconnect s d f
    | OPeerDisconnect d => Peer_Disconnect s d
    | ODisconnectAllAsync => Some (DisconnectAllAsync s)
    | OExecute => execute_next s
    end
  else Some s.

Fixpoint run (s : State) (os : list op) : option State :=
  match os with
  | [] => Some s
  | o :: os => let* s := step s o in run s os
  end.

(** A connect error of a socket that leads to a peer stops the program, as in HostLifecycle.v. *)
Definition op_stops (h : HostState) (o : op) : bool := match o with OEvent e => stops h e | _ => false end.

(** The operations contain such an error, after operations that did not stop. *)
Definition run_stops_at (s : State) (os : list op) : Prop :=
  exists os1 k os2 s1 d, os = os1 ++ OEvent (EConnectError k) :: os2 /\ run s os1 = Some s1 /\ sockets (hs s1) !! k = Some (Some d).

(** ** The specification: requests are made to the peers themselves *)

Inductive request := RSet (d : nat) (callback : option nat) | RDisconnect (d : nat) | RDisconnectAll.

Inductive notice := NConnected (f : nat) (peer : PeerHandle) | NDisconnected (f d : nat).

Record Spec := mkSpec {
  sp_host : HostState;
  sp_connect : option nat;
  sp_disconnect : option nat;
  own : gmap nat nat;
  requests : list request;
  notices : list notice
}.

Definition Spec_init (l this : Z) : Spec := mkSpec (Host_init l this) None None ∅ [] [].

Definition ask (t : Spec) (r : request) : Spec := mkSpec (sp_host t) (sp_connect t) (sp_disconnect t) (own t) (requests t ++ [r]) (notices t).

(** The function a closed peer is announced to. *)
Definition announced_to (t : Spec) (d : nat) : option nat := match own t !! d with Some f => Some f | None => sp_disconnect t end.

(** A request is granted while the peer is connected. *)
Definition grant (t : Spec) (r : request) : Spec :=
  match r with
  | RSet d f =>
      if decide (d ∈ disconnected (sp_host t)) then t
      else mkSpec (sp_host t) (sp_connect t) (sp_disconnect t) (set_own (own t) d f) (requests t) (notices t)
  | RDisconnect d =>
      if decide (d ∈ disconnected (sp_host t)) then t
      else mkSpec (_InternalDisconnect (sp_host t) d) (sp_connect t) (sp_disconnect t) (own t) (requests t) (notices t)
  | RDisconnectAll => mkSpec (DisconnectAll (sp_host t)) (sp_connect t) (sp_disconnect t) (own t) (requests t) (notices t)
  end.

Definition spec_event (t : Spec) (e : event) : option Spec :=
  let* h := host_step (sp_host t) e in
  let gone := match closed_by (sp_host t) e with Some d => match announced_to t d with Some f => [NDisconnected f d] | None => [] end | None => [] end in
  let new := match sp_connect t with Some f => NConnected f <$> drop (length (connected (sp_host t))) (connected h) | None => [] end in
  Some (mkSpec h (sp_connect t) (sp_disconnect t) (own t) (requests t) (notices t ++ gone ++ new)).

Definition spec_step (t : Spec) (o : op) : option Spec :=
  if op_ok (sp_host t) o then
    match o with
    | OEvent e => spec_event t e
    | OLongTimeout k =>
        Some (match mjoin (sockets (sp_host t) !! k) with
              | Some d => mkSpec (_InternalDisconnect (sp_host t) d) (sp_connect t) (sp_disconnect t) (own t) (requests t) (notices t)
              | None => t
              end)
    | OSetOnConnect f => Some (mkSpec (sp_host t) f (sp_disconnect t) (own t) (requests t) (notices t))
    | OSetOnDisconnect f => Some (mkSpec (sp_host t) (sp_connect t) f (own t) (requests t) (notices t))
    | OPeerSetOnDisconnect d f =>
        Some (if IsDisconnecting (default 0 (peerFlags (sp_host t) !! d)) then t else ask t (RSet d f))
    | OPeerDisconnect d =>
        Some (ask (mkSpec (or_flags (sp_host t) d BIT_DISCONNECTING) (sp_connect t) (sp_disconnect t) (own t) (requests t) (notices t)) (RDisconnect d))
    | ODisconnectAllAsync => Some (ask t RDisconnectAll)
    | OExecute =>
        match requests t with
        | [] => Some t
        | r :: rs => Some (grant (mkSpec (sp_host t) (sp_connect t) (sp_disconnect t) (own t) rs (notices t)) r)
        end
    end
  else Some t.

Fixpoint spec_run (t : Spec) (os : list op) : option Spec :=
  match os with
  | [] => Some t
  | o :: os => let* t := spec_step t o in spec_run t os
  end.

(** ** The relation *)

Definition names_peer (h : HostState) (c : command) (r : request) : Prop :=
  match c, r with
  | CommandSetOnDisconnect peer f, RSet d f' => shared_handle h d = Some peer /\ f = f'
  | ExecuteDisconnect peer, RDisconnect d => shared_handle h d = Some peer
  | CommandDisconnectAll, RDisconnectAll => True
  | _, _ => False
  end.

Definition tells (h : HostState) (c : call) (n : notice) : Prop :=
  match c, n with
  | Connected f peer, NConnected f' peer' => f = f' /\ peer = peer'
  | Disconnected f peer, NDisconnected f' d => f = f' /\ shared_handle h d = Some peer
  | _, _ => False
  end.

Record refines (s : State) (t : Spec) : Prop := {
  rf_host : hs s = sp_host t;
  rf_connect : onConnect s = sp_connect t;
  rf_disconnect : onDisconnect s = sp_disconnect t;
  rf_own : peer_onDisconnect s = own t;
  rf_queue : Forall2 (names_peer (hs s)) (commandQueue s) (requests t);
  rf_calls : Forall2 (tells (hs s)) (called s) (notices t);
  rf_ok : host_ok (hs s);
  rf_history : history_ok (hs s)
}.

(** ** The simulation *)

Definition keeps_handles (h h' : HostState) : Prop := forall d x, shared_handle h d = Some x -> shared_handle h' d = Some x.

Lemma names_mono h h' c r : keeps_handles h h' -> names_peer h c r -> names_peer h' c r.
Proof. intros Hk. destruct c, r; cbn [names_peer]; naive_solver. Qed.

Lemma tells_mono h h' c n : keeps_handles h h' -> tells h c n -> tells h' c n.
Proof. intros Hk. destruct c, n; cbn [tells]; naive_solver. Qed.

Lemma keeps_same h h' : world h' = world h -> keeps_handles h h'.
Proof. intros Ew d x. unfold shared_handle. by rewrite Ew. Qed.

Ltac callback_fields := cbn [hs onConnect onDisconnect peer_onDisconnect commandQueue called errorsCount longTimeouts set_hs add_calls EnqueueCommand
  sp_host sp_connect sp_disconnect own requests notices ask].

(** Everything but the host is as before. *)
Lemma refines_host s t h : refines s t -> host_ok h -> history_ok h -> keeps_handles (hs s) h ->
  refines (set_hs s h) (mkSpec h (sp_connect t) (sp_disconnect t) (own t) (requests t) (notices t)).
Proof.
  intros [R1 R2 R3 R4 R5 R6 R7 R8] Hok Hhis Hk. split; callback_fields; try done.
  - eapply Forall2_impl; [ exact R5 | ]. intros c r. by apply names_mono.
  - eapply Forall2_impl; [ exact R6 | ]. intros c r. by apply tells_mono.
Qed.

Lemma flags_ok h d bits : host_ok h -> history_ok h -> host_ok (or_flags h d bits) /\ history_ok (or_flags h d bits) /\ keeps_handles h (or_flags h d bits).
Proof. intros Hok Hhis. split_and!; [ by apply or_flags_ok | by apply (history_same h) | by apply keeps_same ]. Qed.

Lemma disconnect_keeps h d : host_ok h -> history_ok h -> host_ok (_InternalDisconnect h d) /\ history_ok (_InternalDisconnect h d) /\ keeps_handles h (_InternalDisconnect h d).
Proof.
  intros Hok Hhis. split_and!; [ by apply host_disconnect_ok | | apply keeps_same, disconnect_world ].
  apply (history_same h); [ apply disconnect_world | apply (disconnect_all_changes [d]) | done ].
Qed.

Lemma disconnect_all_keeps h : host_ok h -> history_ok h -> host_ok (DisconnectAll h) /\ history_ok (DisconnectAll h) /\ keeps_handles h (DisconnectAll h).
Proof.
  intros Hok Hhis. destruct (disconnect_all_ok (refs_of (world h) (this h)) h Hok) as [H1 H2]. split_and!; [ done | | by apply keeps_same ].
  apply (history_same h); [ done | apply disconnect_all_changes | done ].
Qed.

Lemma enqueue_refines s t c r : refines s t -> names_peer (hs s) c r -> refines (EnqueueCommand s c) (ask t r).
Proof. intros [R1 R2 R3 R4 R5 R6 R7 R8] Hn. split; callback_fields; try done. apply Forall2_app; [ done | by apply Forall2_cons ]. Qed.

(** The commands and the requests. *)
Lemma Execute_refines s t c r : refines s t -> names_peer (hs s) c r -> exists s', Execute s c = Some s' /\ refines s' (grant t r) /\ world (hs s') = world (hs s).
Proof.
  intros Hr Hn. pose proof Hr as [R1 R2 R3 R4 R5 R6 R7 R8]. destruct c as [peer f | peer | ], r as [d f' | d | ]; cbn [names_peer] in Hn; try done; cbn [Execute grant].
  - destruct Hn as [Hh <-]. rewrite (resolve_shared _ d peer R7 R8 Hh), <- R1. cbn [mbind option_bind]. destruct (decide (d ∈ disconnected (hs s))); [ by exists s | ].
    eexists. split; [ done | ]. split; [ | done ]. unfold PeerData_SetOnDisconnect. split; callback_fields; try done. by rewrite R4.
  - rewrite (hy_valid _ R8 d peer Hn), (resolve_shared _ d peer R7 R8 Hn), <- R1. cbn [mbind option_bind]. destruct (decide (d ∈ disconnected (hs s))); [ by exists s | ].
    eexists. split; [ done | ]. split; [ by apply refines_host; try apply disconnect_keeps | apply disconnect_world ].
  - eexists. split; [ done | ]. rewrite <- R1. split; [ by apply refines_host; try apply disconnect_all_keeps | ].
    callback_fields. apply disconnect_all_ok, R7.
Qed.

Lemma closed_handle h e d : host_ok h -> closed_by h e = Some d -> exists pd, wst (world h) !! d = Some pd /\ shared_handle h d = Some (peerHandle pd).
Proof.
  intros Hok. unfold closed_by. destruct (event_ok h e); [ | done ]. unfold closes. intros Hc.
  assert (exists k, sockets h !! k = Some (Some d)) as [k Hk].
  { destruct e; try done; destruct (sockets h !! socket) as [[d'|]|] eqn:E; try done; exists socket; rewrite E; by injection Hc as ->. }
  destruct (ho_sock _ Hok k d Hk) as [Hl _]. destruct (live_handle h d Hok Hl) as (i & v & Est & _). cbv zeta in Est. eexists. split; [ done | ].
  unfold shared_handle. by rewrite Est.
Qed.

Lemma host_event_refines s t e : refines s t -> Z.of_nat (size (wst (world (hs s)))) < 2 ^ 31 - 1 -> stops (hs s) e = false ->
  exists s' t', host_event s e = Some s' /\ spec_event t e = Some t' /\ refines s' t' /\ (size (wst (world (hs s'))) <= S (size (wst (world (hs s)))))%nat.
Proof.
  intros [R1 R2 R3 R4 R5 R6 R7 R8] Hn Hst. destruct (host_step_ok (hs s) e R7 Hn Hst) as (h & Eh & Hok & Hz). destruct (history_step (hs s) e h R7 R8 Hn Eh) as [Hhis Hk].
  set (gone := match closed_by (hs s) e with Some d => match announced_to t d with Some f => [NDisconnected f d] | None => [] end | None => [] end).
  assert (exists cs, (match closed_by (hs s) e with Some d => _InternalOnDisconnect s d | None => Some s end) = Some (add_calls s cs) /\ Forall2 (tells (hs s)) cs gone) as (cs & Ec & Hcs).
  { assert (add_calls s [] = s) as Enil by (destruct s; unfold add_calls; callback_fields; by rewrite app_nil_r).
    unfold gone. destruct (closed_by (hs s) e) as [d|] eqn:Ed; [ | exists []; by rewrite Enil ].
    destruct (closed_handle _ _ _ R7 Ed) as (pd & Epd & Hsh). unfold _InternalOnDisconnect, announced_to. rewrite Epd, R4, R3. cbn [mbind option_bind].
    destruct (own t !! d) as [f|]; [ eexists; split; [ done | by apply Forall2_cons ] | ].
    destruct (sp_disconnect t) as [f|]; [ eexists; split; [ done | by apply Forall2_cons ] | exists []; by rewrite Enil ]. }
  unfold host_event, spec_event. rewrite Ec, <- R1. cbn [mbind option_bind]. callback_fields. rewrite Eh. cbn [mbind option_bind]. eexists _, _. split; [ done | ]. split; [ done | ].
  fold gone. unfold call_onConnect. callback_fields. rewrite R2.
  assert (Forall2 (tells h) (called s ++ cs) (notices t ++ gone)) as Hcalls.
  { apply Forall2_app; (eapply Forall2_impl; [ eassumption | ]); intros c n; by apply tells_mono. }
  assert (Forall2 (names_peer h) (commandQueue s) (requests t)) as Hqueue by (eapply Forall2_impl; [ exact R5 | ]; intros c r; by apply names_mono).
  destruct (sp_connect t) as [f|]; (split; [ split; callback_fields; try done | callback_fields; done ]); rewrite (assoc (++)).
  - apply Forall2_app; [ done | ]. rewrite Forall2_fmap. by induction (drop _ _); constructor.
  - by rewrite app_nil_r.
Qed.

(** Where the program stops the specification stops. *)
Lemma stop_refines s t o : refines s t -> op_stops (hs s) o = true -> step s o = None /\ spec_step t o = None.
Proof.
  intros Hr Ho. destruct o as [e | | | | | | | ]; try done. cbn [op_stops] in Ho. pose proof (host_step_stops _ _ (rf_ok _ _ Hr) Ho) as E.
  unfold step, spec_step, host_event, spec_event. cbn [op_ok]. rewrite <- (rf_host _ _ Hr), E. split; [ | done ].
  destruct e; try done. cbn [closed_by closes]. unfold closed_by. cbn [closes]. destruct (event_ok _ _); cbn [mbind option_bind]; by rewrite E.
Qed.

Lemma step_refines s t o : refines s t -> Z.of_nat (size (wst (world (hs s)))) < 2 ^ 31 - 1 -> op_stops (hs s) o = false ->
  exists s' t', step s o = Some s' /\ spec_step t o = Some t' /\ refines s' t' /\ (size (wst (world (hs s'))) <= S (size (wst (world (hs s)))))%nat.
Proof.
  intros Hr Hn Hst. pose proof Hr as [R1 R2 R3 R4 R5 R6 R7 R8]. unfold step, spec_step. rewrite <- R1.
  destruct (op_ok (hs s) o) eqn:Eo; [ | exists s, t; split_and!; try done; lia ].
  destruct o as [e | k | f | f | d f | d | | ]; cbn [op_ok] in Eo; try apply bool_decide_eq_true in Eo.
  - by apply host_event_refines.
  - unfold on_long_timeout. callback_fields. destruct Eo as [[d|] Ek]; rewrite Ek; cbn [mbind option_bind mjoin option_join]; eexists _, _; (split; [ done | ]; split; [ done | ]).
    + split; [ | callback_fields; rewrite disconnect_world; lia ]. by apply (refines_host (mkState (hs s) _ _ _ _ _ _ _) t); try apply disconnect_keeps.
    + split; [ by split | callback_fields; lia ].
  - eexists _, _. split_and!; [ done | done | by split | cbn; lia ].
  - eexists _, _. split_and!; [ done | done | by split | cbn; lia ].
  - destruct (ho_known _ R7 d Eo) as [fl Efl]. unfold Peer_SetOnDisconnect. rewrite Efl. cbn [mbind option_bind from_option]. unfold Datatypes.id.
    destruct (IsDisconnecting fl); [ eexists _, t; split_and!; [ done | done | by split | cbn; lia ] | ].
    destruct Eo as [pd Epd]. unfold shared_handle at 1. rewrite Epd. cbn. eexists _, _. split_and!; [ done | done | | cbn; lia ].
    apply enqueue_refines; [ done | ]. cbn [names_peer]. unfold shared_handle. by rewrite Epd.
  - destruct Eo as [pd Epd]. unfold Peer_Disconnect, shared_handle. callback_fields. cbn [or_flags world]. rewrite Epd. cbn. eexists _, _. split_and!; [ done | done | | cbn; lia ].
    destruct (flags_ok (hs s) d BIT_DISCONNECTING R7 R8) as (F1 & F2 & F3). apply enqueue_refines; [ by apply refines_host | ]. cbn [names_peer]. unfold shared_handle. cbn. by rewrite Epd.
  - eexists _, _. split_and!; [ done | done | by apply enqueue_refines | cbn; lia ].
  - unfold execute_next. inversion R5 as [Ec Er | c r cs rs Hc Hcs Ec Er]; [ exists s, t; split_and!; try done; lia | ].
    destruct (Execute_refines (mkState (hs s) (onConnect s) (onDisconnect s) (peer_onDisconnect s) cs (called s) (errorsCount s) (longTimeouts s))
      (mkSpec (hs s) (sp_connect t) (sp_disconnect t) (own t) rs (notices t)) c r) as (s' & Es' & Hr' & Ew); [ by split | done | ].
    eexists s', _. split_and!; [ done | done | done | ]. rewrite Ew. callback_fields. lia.
Qed.

Lemma run_stops_cons s o s1 os : step s o = Some s1 -> run_stops_at s1 os -> run_stops_at s (o :: os).
Proof.
  intros E (os1 & k & os2 & s2 & d & -> & Er & Hk). exists (o :: os1), k, os2, s2, d. split_and!; [ done | | done ]. cbn [run]. by rewrite E.
Qed.

Lemma op_stops_at s o os : op_stops (hs s) o = true -> run_stops_at s (o :: os).
Proof.
  destruct o as [[k | k | k | k | k | k | k | ] | | | | | | | ]; try done. cbn [op_stops stops]. intros H%bool_decide_eq_true.
  destruct (sockets (hs s) !! k) as [[d|]|] eqn:Ek; try by destruct H. by exists [], k, os, s, d.
Qed.

Lemma run_refines os : forall s t, refines s t -> Z.of_nat (size (wst (world (hs s)))) + zlen os < 2 ^ 31 ->
  (exists s' t', run s os = Some s' /\ spec_run t os = Some t' /\ refines s' t')
  \/ (run s os = None /\ spec_run t os = None /\ run_stops_at s os).
Proof.
  induction os as [|o os IH]; intros s t Hr Hn; [ left; by exists s, t | ]. rewrite zlen_cons in Hn. pose proof (zlen_nonneg os). cbn [run spec_run].
  destruct (op_stops (hs s) o) eqn:Hst.
  - right. destruct (stop_refines s t o Hr Hst) as [-> ->]. split_and!; [ done | done | by apply op_stops_at ].
  - destruct (step_refines s t o Hr) as (s1 & t1 & E1 & E2 & Hr1 & Hz); [ lia | done | ]. rewrite E1, E2. cbn [mbind option_bind].
    destruct (IH s1 t1 Hr1) as [Hok | (Hr1' & Hr2 & Hr3)]; [ lia | by left | right ]. split_and!; [ done | done | by apply (run_stops_cons s o s1) ].
Qed.

Lemma init_refines l this : l <> 0 -> refines (State_init l this) (Spec_init l this).
Proof. intros Hl. split; try done; [ by apply Host_init_ok | apply history_init ]. Qed.

(** ** Who is told of closed peers *)

Definition gone_peer (c : call) : option PeerHandle := match c with Disconnected _ peer => Some peer | Connected _ _ => None end.
Definition gone (n : notice) : option nat := match n with NDisconnected _ d => Some d | NConnected _ _ => None end.
Definition told (t : Spec) : list nat := omap gone (notices t).

(** [b]: the host has a function for closed connections all the time. *)
Definition told_ok (b : bool) (t : Spec) : Prop :=
  told t `sublist_of` disconnected (sp_host t) /\ (b = true -> is_Some (sp_disconnect t) /\ told t = disconnected (sp_host t)).

Definition keeps_function (o : op) : Prop := o <> OSetOnDisconnect None.

Lemma told_same b t t' : told_ok b t -> notices t' = notices t -> sp_disconnect t' = sp_disconnect t -> disconnected (sp_host t') = disconnected (sp_host t) -> told_ok b t'.
Proof. unfold told_ok, told. intros H -> -> ->. done. Qed.

Lemma spec_event_told b t e t' : host_ok (sp_host t) -> told_ok b t -> spec_event t e = Some t' -> told_ok b t'.
Proof.
  intros Hok [H1 H2] Et. unfold spec_event in Et. destruct (host_step (sp_host t) e) as [h|] eqn:Eh; [ | done ]. cbn [mbind option_bind] in Et. injection Et as <-.
  pose proof (host_step_changes _ e h Hok Eh) as Hc. unfold told_ok, told. callback_fields. rewrite !omap_app.
  assert (omap gone (match sp_connect t with Some f => NConnected f <$> drop (length (connected (sp_host t))) (connected h) | None => [] end) = []) as ->
    by (destruct (sp_connect t); [ | done ]; by induction (drop _ _)).
  rewrite app_nil_r. fold (told t). destruct (closed_by (sp_host t) e) as [d|]; cbn [changes] in Hc.
  - destruct Hc as [_ ->]. destruct (announced_to t d) as [f|] eqn:Ea; cbn.
    + split; [ by apply sublist_app | ]. intros Hb. destruct (H2 Hb) as [? ->]. done.
    + rewrite app_nil_r. split; [ by apply sublist_inserts_r | ]. intros Hb. destruct (H2 Hb) as [[f Hf] _]. unfold announced_to in Ea. rewrite Hf in Ea. by destruct (own t !! d).
  - destruct Hc as [-> _]. cbn. by rewrite app_nil_r.
Qed.

Lemma spec_step_told b t o t' : host_ok (sp_host t) -> told_ok b t -> (b = true -> keeps_function o) -> spec_step t o = Some t' -> told_ok b t'.
Proof.
  intros Hok Ht Hb. unfold spec_step. destruct (op_ok (sp_host t) o); [ | by intros [= <-] ].
  destruct o as [e | k | f | f | d f | d | | ].
  - by apply spec_event_told.
  - intros [= <-]. destruct (mjoin _) as [d|]; [ | done ]. apply (told_same b t); try done. apply (disconnect_all_changes [d]).
  - intros [= <-]. by apply (told_same b t).
  - intros [= <-]. destruct Ht as [H1 H2]. split; [ done | ]. intros E. destruct (H2 E) as [_ Hd]. split; [ | done ]. cbn.
    destruct f as [f|]; [ by eexists | by destruct (Hb E) ].
  - intros [= <-]. destruct (IsDisconnecting _); [ done | by apply (told_same b t) ].
  - intros [= <-]. by apply (told_same b t).
  - intros [= <-]. by apply (told_same b t).
  - destruct (requests t) as [| [d f | d | ] rs]; intros [= <-]; [ done | ..]; cbn [grant sp_host].
    + destruct (decide _); by apply (told_same b t).
    + destruct (decide _); [ by apply (told_same b t) | ]. apply (told_same b t); try done. apply (disconnect_all_changes [d]).
    + apply (told_same b t); try done. apply disconnect_all_changes.
Qed.

Lemma run_told b os : forall s t, refines s t -> told_ok b t -> (b = true -> Forall keeps_function os) -> Z.of_nat (size (wst (world (hs s)))) + zlen os < 2 ^ 31 ->
  forall s', run s os = Some s' -> exists t', refines s' t' /\ told_ok b t'.
Proof.
  induction os as [|o os IH]; intros s t Hr Ht Hos Hn s' Er; [ injection Er as <-; by exists t | ]. rewrite zlen_cons in Hn. pose proof (zlen_nonneg os). cbn [run] in Er.
  destruct (op_stops (hs s) o) eqn:Hst; [ by rewrite (proj1 (stop_refines s t o Hr Hst)) in Er | ].
  destruct (step_refines s t o Hr) as (s1 & t1 & E1 & E2 & Hr1 & Hz); [ lia | done | ]. rewrite E1 in Er. cbn [mbind option_bind] in Er. apply (IH s1 t1); [ done | | | lia | done ].
  - apply (spec_step_told b t o); [ rewrite <- (rf_host _ _ Hr); apply Hr | done | | done ]. intros E. by apply (Forall_cons_1 _ _ _ (Hos E)).
  - intros E. by apply (Forall_cons_1 _ _ _ (Hos E)).
Qed.

(** The calls, as the peers they are about. *)
Lemma told_handles h cs ns : Forall2 (tells h) cs ns -> Some <$> omap gone_peer cs = shared_handle h <$> omap gone ns.
Proof.
  induction 1 as [| c n cs ns Hc _ IH]; [ done | ]. destruct c as [f p | f p], n as [f' p' | f' d]; cbn [tells] in Hc; [ exact IH | done | done | ].
  cbn. destruct Hc as [_ ->]. by rewrite <- IH.
Qed.

Lemma handles_nodup h ds (ps : list PeerHandle) : history_ok h -> NoDup ds -> Some <$> ps = shared_handle h <$> ds -> NoDup ps.
Proof.
  intros Hy Hnd E. apply (NoDup_fmap_1 Some). rewrite E. assert (Forall (fun d => is_Some (shared_handle h d)) ds) as Hall.
  { apply Forall_fmap with (f := shared_handle h) (P := is_Some). rewrite <- E. apply Forall_fmap, Forall_true. intros p. by eexists. }
  clear E. induction Hnd as [| d ds Hd Hnd IH]; [ constructor | ]. apply Forall_cons in Hall as [[p Hp] Hall]. cbn. constructor; [ | by apply IH ].
  intros (d' & E & Hd')%list_elem_of_fmap. apply Hd. rewrite Hp in E. by rewrite (hy_inj _ Hy d d' p Hp (eq_sym E)).
Qed.

(** ** Properties *)

(** C12: requests that name a peer by its handle reach that peer and no other one: in every sequence
    of fewer than [2^31] operations nothing fails, unless a connect error is reported for the
    socket of a peer, which stops the program; and the callbacks that are called and the
    functions that the peers have are those of the specification, in which requests are made to
    the peers themselves and are granted exactly while the peer is connected. A request that is
    executed after its peer was closed, when the slot may have another peer, changes nothing. *)
Theorem late_requests_reach_no_other_peer l this os : l <> 0 -> zlen os < 2 ^ 31 ->
  (exists s t, run (State_init l this) os = Some s /\ spec_run (Spec_init l this) os = Some t
    /\ hs s = sp_host t /\ peer_onDisconnect s = own t /\ Forall2 (names_peer (hs s)) (commandQueue s) (requests t)
    /\ Forall2 (tells (hs s)) (called s) (notices t))
  \/ (run (State_init l this) os = None /\ spec_run (Spec_init l this) os = None /\ run_stops_at (State_init l this) os).
Proof.
  intros Hl Hn. destruct (run_refines os (State_init l this) (Spec_init l this) (init_refines l this Hl)) as [(s & t & E1 & E2 & [R1 _ _ R4 R5 R6 _ _]) | H]; [ exact Hn | left | by right ].
  exists s, t. by split_and!.
Qed.

(** No connection is announced as closed twice, and only closed ones are, each with the handle
    the peer had; and when the host has a function from the start and keeps one, the calls
    announce exactly the closed connections, in the order in which they were closed. *)
Theorem closed_connections_are_announced l this f os s : l <> 0 -> zlen os < 2 ^ 31 - 1 ->
  (run (State_init l this) os = Some s -> NoDup (omap gone_peer (called s))
     /\ exists ds, ds `sublist_of` disconnected (hs s) /\ Some <$> omap gone_peer (called s) = shared_handle (hs s) <$> ds)
  /\ (Forall keeps_function os -> run (State_init l this) (OSetOnDisconnect (Some f) :: os) = Some s
     -> Some <$> omap gone_peer (called s) = shared_handle (hs s) <$> disconnected (hs s)).
Proof.
  intros Hl Hn. split.
  - intros Er. destruct (run_told false os _ _ (init_refines l this Hl)) with (s' := s) as (t & Hr & [Ht _]); [ by split | done | change (zlen os < 2 ^ 31); lia | done | ].
    pose proof (told_handles _ _ _ (rf_calls _ _ Hr)) as Eh. fold (told t) in Eh. rewrite <- (rf_host _ _ Hr) in Ht.
    split; [ | by exists (told t) ]. eapply handles_nodup; [ apply Hr | | exact Eh ]. eapply sublist_NoDup; [ apply (ho_once _ (rf_ok _ _ Hr)) | exact Ht ].
  - intros Hos. cbn [run]. change (step (State_init l this) (OSetOnDisconnect (Some f))) with (Some (Host_SetOnDisconnect (State_init l this) (Some f))). cbn [mbind option_bind].
    intros Er. destruct (run_told true os (Host_SetOnDisconnect (State_init l this) (Some f)) (mkSpec (Host_init l this) None (Some f) ∅ [] [])) with (s' := s) as (t & Hr & [_ Ht]).
    + destruct (init_refines l this Hl). by split.
    + split; [ done | ]. intros _. split; [ by eexists | done ].
    + done.
    + change (zlen os < 2 ^ 31). lia.
    + done.
    + pose proof (told_handles _ _ _ (rf_calls _ _ Hr)) as Eh. fold (told t) in Eh. rewrite Eh. destruct (Ht eq_refl) as [_ ->]. by rewrite (rf_host _ _ Hr).
Qed.

(** ** Witnesses *)

(** A peer gets a function of its own and leaves; a second request for it is executed when
    another peer has its slot. *)
Definition sample_os : list op :=
  [OSetOnConnect (Some 1%nat); OEvent (EAccept 7); OPeerSetOnDisconnect 0 (Some 5%nat); OExecute; OPeerSetOnDisconnect 0 (Some 6%nat);
   OEvent (EClose 7); OEvent (EAccept 8); OExecute; OLongTimeout 8; OEvent (EEnd 8); OPeerSetOnDisconnect 1 None].

Example sample_callbacks : fmap (fun s => (called s, peer_onDisconnect s, errorsCount s, longTimeouts s)) (run (State_init 100 3) (OSetOnDisconnect (Some 2%nat) :: sample_os))
  = Some ([Connected 1 (mkHandle (mkId 0 1) 100); Disconnected 5 (mkHandle (mkId 0 1) 100); Connected 1 (mkHandle (mkId 0 2) 100); Disconnected 2 (mkHandle (mkId 0 2) 100)],
      {[0%nat := 5%nat]}, 1, 1).
Proof. vm_compute. reflexivity. Qed.

Lemma late_requests_reach_no_other_peer_witness :
  exists s t, run (State_init 100 3) sample_os = Some s /\ spec_run (Spec_init 100 3) sample_os = Some t
    /\ hs s = sp_host t /\ peer_onDisconnect s = own t /\ Forall2 (names_peer (hs s)) (commandQueue s) (requests t)
    /\ Forall2 (tells (hs s)) (called s) (notices t).
Proof.
  destruct (late_requests_reach_no_other_peer 100 3 sample_os) as [H | [E _]]; [ lia | reflexivity | exact H | vm_compute in E; discriminate E ].
Defined.

Lemma closed_connections_are_announced_witness :
  exists s, run (State_init 100 3) (OSetOnDisconnect (Some 2%nat) :: sample_os) = Some s
    /\ Some <$> omap gone_peer (called s) = shared_handle (hs s) <$> disconnected (hs s).
Proof.
  destruct (run (State_init 100 3) (OSetOnDisconnect (Some 2%nat) :: sample_os)) as [s|] eqn:E; [ | vm_compute in E; discriminate E ].
  exists s. split; [ reflexivity | ]. apply (closed_connections_are_announced 100 3 2 sample_os s); [ lia | reflexivity | | exact E ].
  unfold sample_os, keeps_function. repeat (apply Forall_cons; split; [ discriminate | ]). apply Forall_nil. exact I.
Defined.

End PeerCallbacks.
