(* ===== verification/Converters.v ===== *)
(** * The three kinds of registered functions (include/icon7/MessageConverter.hpp)

    A remote function is a function pointer, an [std::function] or a method of an object; each
    has a class of converters of its own. RpcDispatch.v has the path of a call up to its
    converter and takes the result of the user's function as given; here the functions change
    the objects of the program. An object is not owned by its converter: a method that is
    called when its object is gone stops the program in the model, and so does an empty
    [std::function], which throws. *)

From S2P Require Import Prelude FlatHashMap MemoryPool ByteBuffer FramingProtocol FrameDecoder RpcCalls RpcRegistry RpcDispatch.

Module Converters.
Import FramingProtocol RpcCalls RpcRegistry RpcDispatch.

Section Converters.
Context `{Allocator} `{NameCodec}.
Context {T : Type} {MI : MapImpl T Z OnReturnCallback}.
(** The values of arguments; the objects of the program. *)
Context {V O : Type}.

Notation Objects := (gmap nat O).
Notation Peer := (@RpcDispatch.Peer T V).
Notation ArgValue := (@RpcDispatch.ArgValue V).
Notation ArgKind := (@RpcDispatch.ArgKind V).

(** A function of the user: it changes objects and returns the bytes of its result. *)
Definition Closure : Type := Objects -> list ArgValue -> ByteReader -> Objects * option (list Z).
Definition Method : Type := O -> list ArgValue -> ByteReader -> O * option (list Z).

(** The field [onReceive] of [MessageConverterSpec], [MessageConverterSpecStdFunction] and
    [MessageConverterSpecMethodOfObject]. *)
Inductive Callee :=
| Spec (onReceive : Closure)
| SpecStdFunction (onReceive : option Closure)
| SpecMethodOfObject (object : nat) (onReceive : Method).

Record Converter := mkSpecConverter { cname : RpcName; Targs : list ArgKind; callee : Callee }.

(** [MessageReturnExecutor<Tret>::Execute] behind the call, which returned [ret]. *)
Definition Execute (p : Peer) (n : RpcName) (xs : list ArgValue) (r : ByteReader) (ret : option (list Z)) (flags returnId : Z) : option Peer :=
  MessageReturnExecutor_Execute p (mkConverter n (mkFunction None None [] (fun _ _ => ret))) xs r flags returnId.

(** The three [_InternalCall]. *)
Definition Spec_InternalCall (onReceive : Closure) (n : RpcName) (ks : list ArgKind) (os : Objects) (p : Peer) (q : nat) (flags : Z)
  (r : ByteReader) (returnId : Z) : option (Objects * Peer) :=
  let '(xs, r) := read_args p q flags r ks in
  if negb (errors r =? 0) then Some (os, log p)
  else
    let '(os, ret) := onReceive os xs r in
    let* p := Execute p n xs r ret flags returnId in
    Some (os, p).

Definition SpecStdFunction_InternalCall (onReceive : option Closure) (n : RpcName) (ks : list ArgKind) (os : Objects) (p : Peer) (q : nat) (flags : Z)
  (r : ByteReader) (returnId : Z) : option (Objects * Peer) :=
  let '(xs, r) := read_args p q flags r ks in
  if negb (errors r =? 0) then Some (os, log p)
  else
    let* f := onReceive in
    let '(os, ret) := f os xs r in
    let* p := Execute p n xs r ret flags returnId in
    Some (os, p).

Definition SpecMethodOfObject_InternalCall (object : nat) (onReceive : Method) (n : RpcName) (ks : list ArgKind) (os : Objects) (p : Peer) (q : nat) (flags : Z)
  (r : ByteReader) (returnId : Z) : option (Objects * Peer) :=
  let '(xs, r) := read_args p q flags r ks in
  if negb (errors r =? 0) then Some (os, log p)
  else
    let* o := os !! object in
    let '(o, ret) := onReceive o xs r in
    let* p := Execute p n xs r ret flags returnId in
    Some (<[object := o]> os, p).

(** The virtual [DeserializeAndExecute]. *)
Definition DeserializeAndExecute (c : Converter) (os : Objects) (p : Peer) (q : nat) (r : ByteReader) (flags returnId : Z) : option (Objects * Peer) :=
  assert* name_bool (cname c) in
  match callee c with
  | Spec f => Spec_InternalCall f (cname c) (Targs c) os p q flags r returnId
  | SpecStdFunction f => SpecStdFunction_InternalCall f (cname c) (Targs c) os p q flags r returnId
  | SpecMethodOfObject o m => SpecMethodOfObject_InternalCall o m (cname c) (Targs c) os p q flags r returnId
  end.

(** Calls that reach the converter one after the other. *)
Record Call := mkCall { c_queue : nat; c_reader : ByteReader; c_flags : Z; c_returnId : Z }.

Fixpoint execute_calls (c : Converter) (os : Objects) (p : Peer) (xs : list Call) : option (Objects * Peer) :=
  match xs with
  | [] => Some (os, p)
  | x :: xs =>
      let* (os, p) := DeserializeAndExecute c os p (c_queue x) (c_reader x) (c_flags x) (c_returnId x) in
      execute_calls c os p xs
  end.

(** ** Kinds of functions *)

(** The lambda with which a method could be registered instead. *)
Definition bind_object (object : nat) (m : Method) : Closure := fun os xs r =>
  match os !! object with
  | Some o => let '(o, ret) := m o xs r in (<[object := o]> os, ret)
  | None => (os, None)
  end.

Lemma method_as_function object m n ks (os : Objects) (p : Peer) q r flags id : is_Some (os !! object) ->
  DeserializeAndExecute (mkSpecConverter n ks (SpecMethodOfObject object m)) os p q r flags id
  = DeserializeAndExecute (mkSpecConverter n ks (SpecStdFunction (Some (bind_object object m)))) os p q r flags id.
Proof.
  intros [o Ho]. unfold DeserializeAndExecute. cbn [cname callee Targs]. destruct (name_bool n); [ | done ].
  unfold SpecMethodOfObject_InternalCall, SpecStdFunction_InternalCall, bind_object. destruct (read_args p q flags r ks) as [xs r'].
  destruct (negb _); [ done | ]. rewrite Ho. cbn [mbind option_bind]. by destruct (m o xs r').
Qed.

(** ** Sequences of calls *)

(** The arguments of a call, when they can be read. *)
Definition decode (p : Peer) (ks : list ArgKind) (x : Call) : option (list ArgValue * ByteReader) :=
  let '(xs, r) := read_args p (c_queue x) (c_flags x) (c_reader x) ks in if errors r =? 0 then Some (xs, r) else None.

(** The object after calls with these arguments. *)
Definition after_calls (m : Method) (o : O) (ds : list (list ArgValue * ByteReader)) : O := fold_left (fun o d => (m o d.1 d.2).1) ds o.

(** The peer as the arguments see it does not change. *)
Definition same_peer (p p' : Peer) : Prop := peerHandle p' = peerHandle p /\ RpcDispatch.host p' = RpcDispatch.host p /\ peerAlive p' = peerAlive p.

Lemma read_args_same_peer (p p' : Peer) q flags ks : same_peer p p' -> forall r, read_args p' q flags r ks = read_args p q flags r ks.
Proof.
  intros (Eh & Eo & _). induction ks as [|k ks IH]; intros r; [ done | ]. cbn [read_args].
  replace (ReadType p' q flags r k) with (ReadType p q flags r k) by (destruct k; cbn [ReadType]; congruence).
  destruct (ReadType p q flags r k) as [x r']. by rewrite IH.
Qed.

(** A call that waits for an answer; one that has an id and is not marked as such a call. *)
Definition wants_answer (x : Call) : bool := negb (c_returnId x =? 0) && (Z.land (c_flags x) 6 =? FLAGS_CALL).
Definition mislabelled (x : Call) : bool := negb (c_returnId x =? 0) && negb (Z.land (c_flags x) 6 =? FLAGS_CALL).

(** The answers of one call, with the value its method returns on the object [o]. *)
Definition answer_of (m : Method) (o : O) (x : Call) (d : list ArgValue * ByteReader) : list (Z * list Z) :=
  if wants_answer x then [(c_returnId x, default [] (m o d.1 d.2).2)] else [].

(** The answers of calls, each on the object as the calls before left it. *)
Fixpoint replies (m : Method) (p : Peer) (ks : list ArgKind) (o : O) (xs : list Call) : list (Z * list Z) :=
  match xs with
  | [] => []
  | x :: xs =>
      match decode p ks x with
      | Some d => answer_of m o x d ++ replies m p ks (m o d.1 d.2).1 xs
      | None => replies m p ks o xs
      end
  end.

(** The log entries of calls: one for each that cannot be read, and one for each that has an id
    without being marked as a call with an answer. *)
Definition log_entries (p : Peer) (ks : list ArgKind) (xs : list Call) : Z :=
  zlen (filter (fun x => decode p ks x = None) xs) + zlen (filter (fun x => is_Some (decode p ks x) /\ mislabelled x = true) xs).

(** The answer is sent, and the call recorded, when the peer is there and the result fits. *)
Lemma converter_Execute_spec p n xs r ret x : peerAlive p = true -> zlen (default [] ret) <= 2 ^ 28 - 4 ->
  exists p' frms, Execute p n xs r ret (c_flags x) (c_returnId x) = Some p' /\ same_peer p p' /\ executed p' = executed p ++ [(n, xs)]
    /\ frames (calls p') = frames (calls p) ++ frms /\ Forall2 carries (if wants_answer x then [(c_returnId x, default [] ret)] else []) frms
    /\ warnings p' = warnings p + (if mislabelled x then 1 else 0).
Proof.
  intros Ha Hr. unfold Execute, wants_answer, mislabelled. change FLAGS_CALL with 2. destruct (Z.eqb_spec (c_returnId x) 0) as [E0 | Hid]; cbn [negb andb].
  { unfold MessageReturnExecutor_Execute. rewrite E0. change (negb (0 =? 0)) with false. cbn [andb]. eexists _, []. rewrite app_nil_r, Z.add_0_r. by split_and!. }
  destruct (Z.eqb_spec (Z.land (c_flags x) 6) 2) as [Hf | Hf]; cbn [negb].
  - destruct (MessageExecute_spec p (mkConverter n (mkFunction None None [] (fun _ _ => ret))) xs r (c_flags x) (c_returnId x) Hid Hf) as (ans & F & Ef & HF & ->); [ done | ].
    rewrite Ha. eexists _, [ans]. split_and!; try done; [ | cbn; lia ]. constructor; [ by exists F | constructor ].
  - unfold MessageReturnExecutor_Execute. rewrite (proj2 (Z.eqb_neq _ 0) Hid). change FLAGS_CALL with 2. rewrite (proj2 (Z.eqb_neq _ 2) Hf). cbn [negb andb].
    eexists _, []. rewrite app_nil_r. by split_and!.
Qed.

Definition results_fit (m : Method) : Prop := forall o xs r, zlen (default [] (m o xs r).2) <= 2 ^ 28 - 4.

Lemma one_call object m n ks os p o x : name_bool n = true -> results_fit m -> peerAlive p = true -> os !! object = Some o ->
  exists os' p' frms, DeserializeAndExecute (mkSpecConverter n ks (SpecMethodOfObject object m)) os p (c_queue x) (c_reader x) (c_flags x) (c_returnId x) = Some (os', p')
    /\ same_peer p p' /\ os' !! object = Some (after_calls m o (option_list (decode p ks x))) /\ delete object os' = delete object os
    /\ executed p' = executed p ++ ((fun d => (n, d.1)) <$> option_list (decode p ks x))
    /\ frames (calls p') = frames (calls p) ++ frms
    /\ Forall2 carries (match decode p ks x with Some d => answer_of m o x d | None => [] end) frms
    /\ warnings p' = warnings p + match decode p ks x with Some _ => if mislabelled x then 1 else 0 | None => 1 end.
Proof.
  intros Hn Hm Ha Ho. unfold DeserializeAndExecute, SpecMethodOfObject_InternalCall, decode, answer_of. cbn [cname callee Targs]. rewrite Hn.
  destruct (read_args p (c_queue x) (c_flags x) (c_reader x) ks) as [xs r]. destruct (errors r =? 0); cbn [negb].
  - rewrite Ho. cbn [mbind option_bind option_list fst snd]. pose proof (Hm o xs r) as Hfit. destruct (m o xs r) as [o' ret] eqn:Em. cbn [snd] in *.
    destruct (converter_Execute_spec p n xs r ret x Ha Hfit) as (p' & frms & -> & Hsame & Hex & Hfr & Hc & Hw). cbn [mbind option_bind].
    eexists _, p', frms. split; [ done | ]. change (option_list (Some (xs, r))) with [(xs, r)]. unfold after_calls. cbn [fold_left fst snd fmap list_fmap]. rewrite Em.
    split_and!; [ done | by rewrite lookup_insert_eq | by rewrite delete_insert_eq | done | done | done | done ].
  - eexists _, _, []. split; [ done | ]. change (option_list (@None (list ArgValue * ByteReader))) with (@nil (list ArgValue * ByteReader)). cbn [fmap list_fmap]. rewrite !app_nil_r. by split_and!.
Qed.

Lemma log_entries_cons p ks x xs : log_entries p ks (x :: xs)
  = match decode p ks x with Some _ => if mislabelled x then 1 else 0 | None => 1 end + log_entries p ks xs.
Proof.
  unfold log_entries. rewrite !filter_cons. destruct (decode p ks x) as [d|] eqn:E.
  - rewrite (decide_False (P := Some d = None)) by done. destruct (mislabelled x) eqn:Em.
    + rewrite decide_True by (split; [ by eexists | done ]). rewrite zlen_cons. lia.
    + rewrite decide_False by (by intros [_ ?]). lia.
  - rewrite decide_True, zlen_cons by done. rewrite decide_False; [ lia | ]. by intros [[? ?] _].
Qed.

(** The peers of a run read arguments alike. *)
Lemma omap_decode_same p1 p ks (xs : list Call) : (forall x, decode p1 ks x = decode p ks x) -> omap (decode p1 ks) xs = omap (decode p ks) xs.
Proof. intros Hdec. induction xs as [|y ys IHy]; [ done | ]. cbn. rewrite Hdec. destruct (decode p ks y); by rewrite IHy. Qed.

Lemma replies_same m p1 p ks xs : (forall x, decode p1 ks x = decode p ks x) -> forall o, replies m p1 ks o xs = replies m p ks o xs.
Proof. intros Hdec. induction xs as [|y ys IHy]; intros o; [ done | ]. cbn [replies]. rewrite Hdec. destruct (decode p ks y); by rewrite IHy. Qed.

Lemma log_entries_same p1 p ks xs : (forall x, decode p1 ks x = decode p ks x) -> log_entries p1 ks xs = log_entries p ks xs.
Proof. intros Hdec. induction xs as [|y ys IHy]; [ done | ]. by rewrite !log_entries_cons, Hdec, IHy. Qed.

(** C27: calls of a method that was registered as a remote function, whatever their bytes are,
    while the peer and the object exist and the results of the method are at most [2^28 - 4]
    bytes long. Those whose arguments can be read are executed, in order and each once, on the
    object as the calls before left it; each of them that asks for an answer gets one frame with
    its id and the value the method returned, in order, and one that carries an id without
    asking for an answer leaves a log entry. The calls that cannot be read change nothing and
    get no answer, they leave one log entry each. Registering the method as a function that is
    bound to the object, as an [std::function] or as a function pointer, does exactly the same. *)
Theorem method_calls_run_in_order object m n ks xs : forall (os : Objects) (p : Peer) (o : O), name_bool n = true -> results_fit m -> peerAlive p = true -> os !! object = Some o ->
  exists os' p' frms, execute_calls (mkSpecConverter n ks (SpecMethodOfObject object m)) os p xs = Some (os', p')
    /\ os' !! object = Some (after_calls m o (omap (decode p ks) xs)) /\ delete object os' = delete object os
    /\ executed p' = executed p ++ ((fun d => (n, d.1)) <$> omap (decode p ks) xs)
    /\ frames (calls p') = frames (calls p) ++ frms /\ Forall2 carries (replies m p ks o xs) frms
    /\ warnings p' = warnings p + log_entries p ks xs
    /\ execute_calls (mkSpecConverter n ks (SpecStdFunction (Some (bind_object object m)))) os p xs = Some (os', p')
    /\ execute_calls (mkSpecConverter n ks (Spec (bind_object object m))) os p xs = Some (os', p').
Proof.
  induction xs as [|x xs IH]; intros os p o Hn Hm Ha Ho.
  { exists os, p, []. cbn. rewrite !app_nil_r, Z.add_0_r. by split_and!. }
  destruct (one_call object m n ks os p o x Hn Hm Ha Ho) as (os1 & p1 & f1 & E1 & Hsame & Ho1 & Hd1 & Hex1 & Hf1 & Hc1 & Hw1).
  assert (forall x, decode p1 ks x = decode p ks x) as Hdec by (intros y; unfold decode; by rewrite (read_args_same_peer p p1 _ _ _ Hsame)).
  destruct (IH os1 p1 (after_calls m o (option_list (decode p ks x))) Hn Hm) as (os' & p' & f' & E' & Ho' & Hd' & Hex' & Hf' & Hc' & Hw' & F1 & F2); [ by destruct Hsame as (_ & _ & ->) | exact Ho1 | ].
  rewrite (omap_decode_same p1 p ks xs Hdec), (replies_same m p1 p ks xs Hdec), (log_entries_same p1 p ks xs Hdec) in *.
  assert (omap (decode p ks) (x :: xs) = option_list (decode p ks x) ++ omap (decode p ks) xs) as -> by (cbn; by destruct (decode p ks x)).
  assert (DeserializeAndExecute (mkSpecConverter n ks (SpecStdFunction (Some (bind_object object m)))) os p (c_queue x) (c_reader x) (c_flags x) (c_returnId x) = Some (os1, p1)) as G
    by (rewrite <- method_as_function by (by eexists); done).
  exists os', p', (f1 ++ f'). cbn [execute_calls]. rewrite E1, G. cbn [mbind option_bind]. split_and!; [ done | | congruence | | | | | done | ].
  - rewrite Ho'. unfold after_calls. by rewrite fold_left_app.
  - rewrite Hex', Hex1, fmap_app. by rewrite (assoc (++)).
  - rewrite Hf', Hf1. by rewrite (assoc (++)).
  - cbn [replies]. destruct (decode p ks x) as [d|]; [ by apply Forall2_app | ]. inversion Hc1; subst. exact Hc'.
  - rewrite Hw', Hw1, log_entries_cons. lia.
  - assert (DeserializeAndExecute (mkSpecConverter n ks (Spec (bind_object object m))) os p (c_queue x) (c_reader x) (c_flags x) (c_returnId x) = Some (os1, p1)) as -> by exact G.
    exact F2.
Qed.

End Converters.

(** ** Witnesses *)

#[local] Existing Instances le_codec callbacks_map tagged_codec.

Definition byte_arg : @ArgKind Z := KValue (fun l => (hd 0 l, drop 1 l, if bool_decide (l = []) then 1 else 0)).

(** A counter with a method that adds its argument and returns the old value. *)
Definition add_method : @Method Z Z := fun o xs _ => match xs with [AValue x] => (o + x, Some [u8 o]) | _ => (o, None) end.

Lemma add_fits : results_fit add_method.
Proof.
  intros o xs r. destruct xs as [|[f|h|q| |q|x] [|y ys]]; cbn [add_method snd default]; discriminate.
Qed.

(** Two calls that add 5 and 7, and one without an argument between them. *)
Definition sample_calls : list Call := [mkCall 3 (mkReader [5] 0) 3 9; mkCall 3 (mkReader [] 0) 3 10; mkCall 3 (mkReader [7] 0) 1 0].

Lemma method_calls_run_in_order_witness :
  exists os' p' frms, execute_calls (mkSpecConverter ping [byte_arg] (SpecMethodOfObject 4 add_method)) {[4%nat := 100]} (sample_peer true) sample_calls = Some (os', p')
    /\ os' !! 4%nat = Some 112 /\ executed p' = [(ping, [AValue 5]); (ping, [AValue 7])]
    /\ frames (calls p') = frames (calls (sample_peer true)) ++ frms /\ Forall2 carries [(9, [100])] frms /\ warnings p' = warnings (sample_peer true) + 1.
Proof.
  destruct (method_calls_run_in_order 4 add_method ping [byte_arg] sample_calls {[4%nat := 100]} (sample_peer true) 100)
    as (os' & p' & frms & E & Ho & _ & Hex & Hf & Hc & Hw & _); [ reflexivity | apply add_fits | reflexivity | reflexivity | ].
  exists os', p', frms. exact (conj E (conj Ho (conj Hex (conj Hf (conj Hc Hw))))).
Defined.

End Converters.
