(* ===== verification/Dns.v ===== *)
(** * Resolved addresses (src/DNS.cpp, include/icon7/DNS.hpp)

    [AddressInfo] asks the resolver of the operating system for an address and keeps the bytes
    of the answer. [getaddrinfo] is a parameter: it fails or returns a list of structures, which
    [freeaddrinfo] releases; the model counts the lists that are not released. *)

From S2P Require Import Prelude.

Module Dns.

Inductive IPProto := IPinvalid | IPv4 | IPv6.

#[local] Instance IPProto_eq_dec : EqDecision IPProto.
Proof. solve_decision. Defined.

(** [struct addrinfo]; [ai_addr] is the pointer to the socket address. *)
Record addrinfo := mkAddrinfo {
  ai_flags : Z;
  ai_family : Z;
  ai_socktype : Z;
  ai_protocol : Z;
  ai_addrlen : Z;
  ai_addr : Z
}.

(** [w] bytes of an integer, the lowest first. *)
Fixpoint le_bytes (w : nat) (x : Z) : list Z :=
  match w with O => [] | S w => x mod 256 :: le_bytes w (x / 256) end.

(** The structure in memory, up to [ai_addr]; [ai_addr] is aligned to 8 bytes. *)
Definition addrinfo_bytes (a : addrinfo) : list Z :=
  le_bytes 4 (ai_flags a) ++ le_bytes 4 (ai_family a) ++ le_bytes 4 (ai_socktype a) ++ le_bytes 4 (ai_protocol a)
  ++ le_bytes 4 (ai_addrlen a) ++ le_bytes 4 0 ++ le_bytes 8 (ai_addr a).

Definition ADDRESS4_STORAGE_SIZE : Z := 8.
Definition ADDRESS6_STORAGE_SIZE : Z := 28.
Definition ADDRESS_STORAGE_SIZE : Z := ADDRESS6_STORAGE_SIZE.

Record AddressInfo := mkInfo { addressStorage : list Z; proto : IPProto }.

Definition Clear (t : AddressInfo) : AddressInfo := mkInfo (addressStorage t) IPinvalid.

(** The storage of a new object is not initialised: [garbage]. *)
Definition AddressInfo_new (garbage : list Z) : AddressInfo := mkInfo garbage IPinvalid.

(** The families, and the resolver: [None] is an error code. *)
Class Resolver := {
  AF_INET : Z;
  AF_INET6 : Z;
  getaddrinfo : list Z -> Z -> Z -> option (list addrinfo)
}.

Section Resolve.
Context `{Resolver}.

(** The loops over the list: the first entry of the family. *)
Fixpoint first_of (family : Z) (l : list addrinfo) : option addrinfo :=
  match l with
  | [] => None
  | a :: l => if ai_family a =? family then Some a else first_of family l
  end.

(** The family the hints ask for. *)
Definition hint_family (p : IPProto) : Z := if decide (p = IPv4) then AF_INET else AF_INET6.

(** [memcpy] of the first [n] bytes of the structure to the storage. *)
Definition store (t : AddressInfo) (a : addrinfo) (n : Z) (p : IPProto) : option AddressInfo :=
  let* m := memcpy (addressStorage t) 0 (take (Z.to_nat n) (addrinfo_bytes a)) in Some (mkInfo m p).

(** [Populate]: the object, the returned value, and the number of lists that were not
    released. *)
Definition Populate (t : AddressInfo) (address : list Z) (port : Z) (p : IPProto) : option (AddressInfo * bool * Z) :=
  let t := Clear t in
  match getaddrinfo address port (hint_family p) with
  | None => Some (t, false, 0)
  | Some result =>
      match p with
      | IPinvalid => Some (t, false, 1)
      | IPv6 =>
          match first_of AF_INET6 result with
          | None => Some (t, false, 1)
          | Some a => let* t := store t a ADDRESS6_STORAGE_SIZE IPv6 in Some (t, true, 0)
          end
      | IPv4 =>
          match first_of AF_INET result with
          | None => Some (t, false, 1)
          | Some a => let* t := store t a ADDRESS4_STORAGE_SIZE IPv4 in Some (t, true, 0)
          end
      end
  end.

(** [CopyAddressTo] memory at [ptr]. *)
Definition CopyAddressTo (t : AddressInfo) (ptr : list Z) : option (list Z * bool) :=
  match proto t with
  | IPinvalid => Some (ptr, false)
  | IPv4 => let* m := memcpy ptr 0 (take (Z.to_nat ADDRESS4_STORAGE_SIZE) (addressStorage t)) in Some (m, true)
  | IPv6 => let* m := memcpy ptr 0 (take (Z.to_nat ADDRESS6_STORAGE_SIZE) (addressStorage t)) in Some (m, true)
  end.
(** ** Properties *)

Lemma le_bytes_length w : forall x, length (le_bytes w x) = w.
Proof. induction w as [|w IH]; intros x; [ done | ]. cbn [le_bytes length]. by rewrite IH. Qed.

Lemma addrinfo_bytes_length a : length (addrinfo_bytes a) = 32%nat.
Proof. unfold addrinfo_bytes. rewrite !length_app, !le_bytes_length. done. Qed.

Lemma first_of_family family l a : first_of family l = Some a -> ai_family a = family /\ a ∈ l.
Proof.
  induction l as [|b l IH]; cbn [first_of]; [ done | ]. destruct (Z.eqb_spec (ai_family b) family) as [E | _].
  - intros [= <-]. split; [ done | set_solver ].
  - intros Ha. destruct (IH Ha) as [? ?]. split; [ done | set_solver ].
Qed.

(** Overwriting the beginning of a block. *)
Lemma memcpy_front (m src : list Z) : zlen src <= zlen m -> memcpy m 0 src = Some (src ++ drop (length src) m).
Proof.
  intros Hz. pose proof (zlen_nonneg src). rewrite memcpy_in_range by lia. f_equal. change (take (Z.to_nat 0) m) with (@nil Z). cbn [app].
  f_equal. f_equal. unfold zlen. lia.
Qed.

Definition storage_size (p : IPProto) : Z := match p with IPinvalid => 0 | IPv4 => ADDRESS4_STORAGE_SIZE | IPv6 => ADDRESS6_STORAGE_SIZE end.

Lemma storage_size_bound p : 0 <= storage_size p <= 28.
Proof. destruct p; unfold storage_size, ADDRESS4_STORAGE_SIZE, ADDRESS6_STORAGE_SIZE; lia. Qed.

(** The entry that is used. *)
Definition chosen (address : list Z) (port : Z) (p : IPProto) : option addrinfo :=
  match p with
  | IPinvalid => None
  | _ => let* l := getaddrinfo address port (hint_family p) in first_of (hint_family p) l
  end.

Lemma take_struct a n : (n <= 32)%nat -> zlen (take n (addrinfo_bytes a)) = Z.of_nat n.
Proof. intros Hn. unfold zlen. rewrite length_take, addrinfo_bytes_length. lia. Qed.

Lemma store_spec t a p : zlen (addressStorage t) = ADDRESS_STORAGE_SIZE -> exists m, store t a (storage_size p) p = Some (mkInfo m p)
  /\ zlen m = ADDRESS_STORAGE_SIZE /\ take (Z.to_nat (storage_size p)) m = take (Z.to_nat (storage_size p)) (addrinfo_bytes a).
Proof.
  intros Hz. pose proof (storage_size_bound p) as Hs. unfold ADDRESS_STORAGE_SIZE, ADDRESS6_STORAGE_SIZE in *.
  unfold store. pose proof (take_struct a (Z.to_nat (storage_size p)) ltac:(lia)) as Ht. set (src := take _ (addrinfo_bytes a)) in *.
  rewrite memcpy_front by lia. cbn [mbind option_bind]. eexists. split; [ done | ].
  assert (length src = Z.to_nat (storage_size p)) as El by (unfold zlen in Ht; lia). split.
  - unfold zlen in *. rewrite length_app, length_drop. lia.
  - rewrite <- El. apply take_app_length.
Qed.

Lemma copy_spec t ptr : zlen (addressStorage t) = ADDRESS_STORAGE_SIZE -> ADDRESS_STORAGE_SIZE <= zlen ptr -> proto t <> IPinvalid ->
  exists m, CopyAddressTo t ptr = Some (m, true) /\ take (Z.to_nat (storage_size (proto t))) m = take (Z.to_nat (storage_size (proto t))) (addressStorage t)
    /\ drop (Z.to_nat (storage_size (proto t))) m = drop (Z.to_nat (storage_size (proto t))) ptr.
Proof.
  intros Hz Hp Hv. pose proof (storage_size_bound (proto t)) as Hs. unfold ADDRESS_STORAGE_SIZE, ADDRESS6_STORAGE_SIZE in *.
  set (src := take (Z.to_nat (storage_size (proto t))) (addressStorage t)).
  assert (length src = Z.to_nat (storage_size (proto t))) as El by (unfold src, zlen in *; rewrite length_take; lia).
  assert (CopyAddressTo t ptr = let* m := memcpy ptr 0 src in Some (m, true)) as -> by (unfold CopyAddressTo, src; by destruct (proto t)).
  rewrite memcpy_front by (unfold zlen in *; lia). cbn [mbind option_bind]. eexists. split; [ done | ]. rewrite <- El. split; [ apply take_app_length | apply drop_app_length ].
Qed.

Lemma populate_found t address port p a : chosen address port p = Some a ->
  Populate t address port p = (let* t := store (Clear t) a (storage_size p) p in Some (t, true, 0)) /\ p <> IPinvalid
  /\ is_Some (getaddrinfo address port (hint_family p)) /\ ai_family a = hint_family p.
Proof.
  unfold chosen, Populate. intros Ec. destruct (getaddrinfo address port (hint_family p)) as [l|]; [ | by destruct p ].
  destruct p; [ done | | ]; cbn [mbind option_bind] in Ec; destruct (first_of_family _ _ _ Ec) as [Ef _]; change (hint_family IPv4) with AF_INET in *; change (hint_family IPv6) with AF_INET6 in *; rewrite Ec;
    (split_and!; [ done | done | by eexists | done ]).
Qed.

Lemma populate_missed t address port p : chosen address port p = None ->
  Populate t address port p = Some (Clear t, false, if bool_decide (is_Some (getaddrinfo address port (hint_family p))) then 1 else 0).
Proof.
  unfold chosen, Populate. intros Ec. destruct (getaddrinfo address port (hint_family p)) as [l|].
  - rewrite bool_decide_true by (by eexists). destruct p; [ done | | ]; cbn [mbind option_bind] in Ec; change (hint_family IPv4) with AF_INET in *; change (hint_family IPv6) with AF_INET6 in *; by rewrite Ec.
  - rewrite bool_decide_false by (by intros [? ?]). done.
Qed.

(** [Populate] always returns and stays inside its storage. It succeeds exactly when the
    resolver has an entry of the family that was asked for, and then the object is valid for the
    protocol; otherwise it is invalid, and [CopyAddressTo] copies nothing. A list of the resolver
    is lost when it was returned but has no entry that can be used. *)
Theorem populate_then_copy t address port p ptr : zlen (addressStorage t) = ADDRESS_STORAGE_SIZE -> ADDRESS_STORAGE_SIZE <= zlen ptr ->
  exists t' m, let b := bool_decide (is_Some (chosen address port p)) in
    Populate t address port p = Some (t', b, if bool_decide (is_Some (getaddrinfo address port (hint_family p))) && negb b then 1 else 0)
    /\ zlen (addressStorage t') = ADDRESS_STORAGE_SIZE /\ proto t' = (if b then p else IPinvalid)
    /\ CopyAddressTo t' ptr = Some (m, b)
    /\ match chosen address port p with
       | Some a => take (Z.to_nat (storage_size p)) m = take (Z.to_nat (storage_size p)) (addrinfo_bytes a)
                   /\ drop (Z.to_nat (storage_size p)) m = drop (Z.to_nat (storage_size p)) ptr
       | None => m = ptr
       end.
Proof.
  intros Hz Hp. destruct (chosen address port p) as [a|] eqn:Ec; cbv zeta.
  - destruct (populate_found t address port p a Ec) as (-> & Hne & Hg & _). destruct (store_spec (Clear t) a p Hz) as (m & -> & Hm & Et).
    destruct (copy_spec (mkInfo m p) ptr Hm Hp Hne) as (m' & Ecopy & E1 & E2). exists (mkInfo m p), m'. rewrite !bool_decide_true by (done || by eexists).
    cbn [proto addressStorage] in *. split_and!; try done. congruence.
  - exists (Clear t), ptr. rewrite (populate_missed t address port p Ec), (bool_decide_false (is_Some None)) by (by intros [? ?]). rewrite andb_true_r. done.
Qed.

(** The copied bytes are those of the resolver's structure and not of the address it points to:
    for IPv4 they are the flags and the family, so that all addresses give the same bytes. *)
Theorem stored_address_is_not_the_address t address port ptr a : zlen (addressStorage t) = ADDRESS_STORAGE_SIZE -> ADDRESS_STORAGE_SIZE <= zlen ptr ->
  chosen address port IPv4 = Some a ->
  exists t' m, Populate t address port IPv4 = Some (t', true, 0) /\ CopyAddressTo t' ptr = Some (m, true) /\ take 8 m = le_bytes 4 (ai_flags a) ++ le_bytes 4 AF_INET.
Proof.
  intros Hz Hp Ec. destruct (populate_found t address port IPv4 a Ec) as (-> & Hne & _ & Ef). destruct (store_spec (Clear t) a IPv4 Hz) as (m & -> & Hm & Et).
  destruct (copy_spec (mkInfo m IPv4) ptr Hm Hp Hne) as (m' & Ecopy & E1 & _). exists (mkInfo m IPv4), m'. split_and!; [ done | done | ].
  cbn [proto addressStorage storage_size] in E1, Et. change (Z.to_nat ADDRESS4_STORAGE_SIZE) with 8%nat in *. rewrite E1, Et.
  change (hint_family IPv4) with AF_INET in Ef. unfold addrinfo_bytes. rewrite <- Ef, (assoc (++)), take_app_le by (rewrite length_app, !le_bytes_length; lia).
  apply take_ge. rewrite length_app, !le_bytes_length. lia.
Qed.

End Resolve.

(** ** Witnesses *)

(** A resolver with an entry of each family, at different addresses for different names. *)
#[local] Instance sample_resolver : Resolver := {
  AF_INET := 2;
  AF_INET6 := 10;
  getaddrinfo address port family := match address with [] => None | x :: _ => Some [mkAddrinfo 1 10 1 6 28 (x + 64); mkAddrinfo 1 2 1 6 16 x] end
}.

Definition blank : AddressInfo := AddressInfo_new (replicate 28 255).

Lemma populate_then_copy_witness : exists t' m, Populate blank [9] 80 IPv4 = Some (t', true, 0) /\ CopyAddressTo t' (replicate 28 0) = Some (m, true).
Proof.
  destruct (populate_then_copy blank [9] 80 IPv4 (replicate 28 0)) as (t' & m & E & _ & _ & Ec & _); [ reflexivity | discriminate | ].
  exists t', m. exact (conj E Ec).
Defined.

Lemma stored_address_is_not_the_address_witness :
  exists t' m, Populate blank [9] 80 IPv4 = Some (t', true, 0) /\ CopyAddressTo t' (replicate 28 0) = Some (m, true) /\ take 8 m = [1; 0; 0; 0; 2; 0; 0; 0].
Proof.
  destruct (stored_address_is_not_the_address blank [9] 80 (replicate 28 0) (mkAddrinfo 1 2 1 6 16 9)) as (t' & m & E1 & E2 & E3); [ reflexivity | discriminate | reflexivity | ].
  exists t', m. exact (conj E1 (conj E2 E3)).
Defined.

End Dns.
