(* ===== verification/Receiving.v ===== *)
(** * Data on the sockets of a host (src/HostUStcp.cpp, src/Peer.cpp)

    [_Internal_on_data] finds the peer of a socket in the extension area and hands it the data.
    Each peer has its own decoder and its own calls. The file composes the connections of
    HostLifecycle.v with the receiving side of RpcDispatch.v, through an interface: whatever a
    peer does with its data, what happens to one connection does not depend on the others. The
    counters of the host and of the loop, which all peers share, are counted per peer here. *)

From S2P Require Import Prelude FlatHashMap MemoryPool ByteBuffer FramingProtocol FrameDecoder RpcCalls RpcRegistry RpcDispatch.
From S2P Require Import PeersToFlush PeerManager HostLifecycle PeerCallbacks.

(** A peer that takes data; [None]: the program stops. *)
Class Receiver (R : Type) := receive : R -> list Z -> option R.

Module Receiving.
Import PeerManager HostLifecycle.

Section Sockets.
Context {R : Type} {RI : Receiver R}.
(** The receiving side of a new peer. *)
Context (new : nat -> R).

(** [received]: the receiving side of the peers that have got data. *)
Record State := mkState { hs : HostState; received : gmap nat R }.

Definition data_of (s : State) (d : nat) : R := default (new d) (received s !! d).

(** [Host::_Internal_on_data]. *)
Definition _Internal_on_data (s : State) (socket : nat) (data : list Z) : option State :=
  let* peer := sockets (hs s) !! socket in
  match peer with
  | None => Some s
  | Some d => let* r := receive (data_of s d) data in Some (mkState (hs s) (<[d := r]> (received s)))
  end.

(** Events of HostLifecycle.v, and data on a socket that exists. *)
Inductive input := IEvent (e : event) | IData (socket : nat) (data : list Z).

Definition step (s : State) (i : input) : option State :=
  match i with
  | IEvent e => let* h := host_step (hs s) e in Some (mkState h (received s))
  | IData k data => if bool_decide (is_Some (sockets (hs s) !! k)) then _Internal_on_data s k data else Some s
  end.

Fixpoint run (s : State) (inputs : list input) : option State :=
  match inputs with
  | [] => Some s
  | i :: inputs => let* s := step s i in run s inputs
  end.

(** ** One connection alone *)

(** The event opens, or ends, the connection of the socket [k]. *)
Definition opens (k : nat) (e : event) : bool := match e with EAccept k' | EConnect (Some k') => (k' =? k)%nat | _ => false end.
Definition ends (k : nat) (e : event) : bool := match e with EClose k' | EEnd k' => (k' =? k)%nat | _ => false end.

(** The data of the connection of the socket [k], read off the inputs alone: those that arrive on
    the socket [k] after the connection was opened and before it ended. *)
Inductive phase := Unborn | Alive | Gone.

Definition phase_after (ph : phase) (k : nat) (e : event) : phase :=
  match ph with
  | Unborn => if opens k e then Alive else Unborn
  | Alive => if ends k e then Gone else Alive
  | Gone => Gone
  end.

Fixpoint own_data (ph : phase) (k : nat) (inputs : list input) : list (list Z) :=
  match inputs with
  | [] => []
  | IEvent e :: inputs => own_data (phase_after ph k e) k inputs
  | IData k' data :: inputs =>
      match ph with
      | Alive => if (k' =? k)%nat then data :: own_data ph k inputs else own_data ph k inputs
      | _ => own_data ph k inputs
      end
  end.

(** The peer that [MakePeer] makes when the connection of the socket [k] is opened. *)
Fixpoint made (h : HostState) (k : nat) (inputs : list input) : option nat :=
  match inputs with
  | [] => None
  | IEvent e :: inputs =>
      if opens k e then let* (h, d, handle) := MakePeer h k in Some d else let* h := host_step h e in made h k inputs
  | IData _ _ :: inputs => made h k inputs
  end.

(** ** The data that [_Internal_on_data] hands to a peer *)

(** The data on sockets that lead to the peer [d]. *)
Fixpoint data_for (h : HostState) (d : nat) (inputs : list input) : list (list Z) :=
  match inputs with
  | [] => []
  | IEvent e :: inputs => match host_step h e with Some h => data_for h d inputs | None => [] end
  | IData k data :: inputs => if bool_decide (sockets h !! k = Some (Some d)) then data :: data_for h d inputs else data_for h d inputs
  end.

Fixpoint receive_all (r : R) (chunks : list (list Z)) : option R :=
  match chunks with
  | [] => Some r
  | c :: chunks => let* r := receive r c in receive_all r chunks
  end.

Definition events_of (inputs : list input) : list event := omap (fun i => match i with IEvent e => Some e | IData _ _ => None end) inputs.

Lemma data_of_insert h m d r d' : data_of (mkState h (<[d := r]> m)) d' = if decide (d = d') then r else data_of (mkState h m) d'.
Proof. unfold data_of. cbn [received]. destruct (decide (d = d')) as [<- | Hne]; [ by rewrite lookup_insert_eq | by rewrite lookup_insert_ne ]. Qed.

(** Sockets that an event neither opens nor ends lead where they led. *)
Lemma disconnect_all_sockets ds : forall h, sockets (fold_left _InternalDisconnect ds h) = sockets h.
Proof.
  induction ds as [|d ds IH]; intros h; [ done | ]. cbn [fold_left]. rewrite IH. unfold _InternalDisconnect. by destruct (peer_socket _ !! d).
Qed.

Lemma open_finish_sockets h x h' : on_open_Finish h x = Some h' -> sockets h' = sockets h.
Proof. unfold on_open_Finish. cbn [world]. destruct (GetLocalPeerData _ _) as [[d|]|]; [ by intros [= <-] | by intros [= <-] | done ]. Qed.

Lemma close_sockets h b k h' : host_ok h -> is_Some (sockets h !! k) -> close_peer_of (count_disconnect h b) k = Some h' -> sockets h' = <[k := None]> (sockets h).
Proof.
  intros Hok [[d|] Hk] E.
  - destruct (close_spec (count_disconnect h b) k d (count_disconnect_ok h b Hok) Hk) as (h1 & E1 & _ & Es & _). rewrite E in E1. by injection E1 as <-.
  - unfold close_peer_of in E. cbn [count_disconnect sockets] in E. rewrite Hk in E. injection E as <-. cbn [count_disconnect sockets]. by rewrite insert_id.
Qed.

(** What an event does to the socket [k]. *)
Definition socket_after (h h' : HostState) (e : event) (k : nat) : Prop :=
  if opens k e && bool_decide (sockets h !! k = None) then exists h1 d x, MakePeer h k = Some (h1, d, x) /\ sockets h' !! k = Some (Some d)
  else if ends k e && bool_decide (is_Some (sockets h !! k)) then sockets h' !! k = Some None
  else sockets h' !! k = sockets h !! k.

Lemma insert_after (m : gmap nat (option nat)) k' v k : <[k' := v]> m !! k = if (k' =? k)%nat then Some v else m !! k.
Proof. destruct (Nat.eqb_spec k' k) as [-> | Hne]; [ by rewrite lookup_insert_eq | by rewrite lookup_insert_ne ]. Qed.

Lemma make_after h k' h1 d x k : MakePeer h k' = Some (h1, d, x) -> sockets h1 !! k = if (k' =? k)%nat then Some (Some d) else sockets h !! k.
Proof. unfold MakePeer. destruct (world_open _ _ _) as [[w y]|]; [ | done ]. intros [= <- <- <-]. host_fields. apply insert_after. Qed.

Lemma host_step_sockets h e h' k : host_ok h -> host_step h e = Some h' -> socket_after h h' e k.
Proof.
  intros Hok E. destruct (stops h e) eqn:Hst; [ by rewrite (host_step_stops h e Hok Hst) in E | ].
  unfold host_step in E. unfold socket_after. destruct (event_ok h e) eqn:Ee.
  2:{ injection E as <-. destruct e as [k' | [k'|] | k' | k' | k' | k' | k' | ]; cbn [opens ends event_ok andb] in *; try done; destruct (Nat.eqb_spec k' k) as [-> | Hne]; cbn [andb]; by rewrite ?Ee. }
  destruct e as [k' | [k'|] | k' | k' | k' | k' | k' | ]; cbn [opens ends event_ok andb] in *; try apply bool_decide_eq_true in Ee.
  - unfold on_open in E. destruct (MakePeer h k') as [[[h1 d] x]|] eqn:Em; [ | done ]. rewrite (open_finish_sockets _ _ _ E), (make_after h k' h1 d x k Em).
    destruct (Nat.eqb_spec k' k) as [-> | Hne]; [ rewrite bool_decide_true by done; by exists h1, d, x | done ].
  - unfold _InternalConnect in E. destruct (MakePeer h k') as [[[h1 d] x]|] eqn:Em; [ | done ]. injection E as <-. host_fields. rewrite (make_after h k' h1 d x k Em).
    destruct (Nat.eqb_spec k' k) as [-> | Hne]; [ rewrite bool_decide_true by done; by exists h1, d, x | done ].
  - by injection E as <-.
  - unfold on_open in E. inv_bind E. by rewrite (open_finish_sockets _ _ _ E).
  - rewrite (close_sockets h true k' h' Hok Ee E), insert_after. destruct (Nat.eqb_spec k' k) as [-> | Hne]; [ by rewrite bool_decide_true | done ].
  - rewrite (close_sockets h false k' h' Hok Ee E), insert_after. destruct (Nat.eqb_spec k' k) as [-> | Hne]; [ by rewrite bool_decide_true | done ].
  - unfold on_timeout in E. host_fields. inv_bind E. destruct o as [d|]; injection E as <-; [ | done ]. unfold _InternalDisconnect. by destruct (peer_socket _ !! d).
  - cbn [stops] in Hst. apply bool_decide_eq_false in Hst. unfold on_connect_error, on_connect_error_with in E. cbn [sockets] in E.
    destruct (sockets h !! k') as [[d|]|]; [ by destruct Hst; eexists | by injection E as <- | done ].
  - injection E as <-. unfold DisconnectAll. by rewrite disconnect_all_sockets.
Qed.

(** An event that does not stop leads to a good state. *)
Lemma step_bound h e h1 n : host_ok h -> 0 <= n -> Z.of_nat (size (wst (world h))) + (n + 1) < 2 ^ 31 -> host_step h e = Some h1 ->
  host_ok h1 /\ Z.of_nat (size (wst (world h1))) + n < 2 ^ 31.
Proof.
  intros Hok H0 Hn E. destruct (stops h e) eqn:Hst; [ by rewrite (host_step_stops h e Hok Hst) in E | ].
  destruct (host_step_ok h e Hok) as (h2 & E2 & Hok2 & Hz); [ lia | done | ]. rewrite E in E2. injection E2 as <-. split; [ done | lia ].
Qed.

(** No more data reach a closed peer. *)
Lemma closed_gets_nothing d inputs : forall h, host_ok h -> Z.of_nat (size (wst (world h))) + zlen inputs < 2 ^ 31 -> d ∈ disconnected h -> data_for h d inputs = [].
Proof.
  induction inputs as [|[e | k data] inputs IH]; intros h Hok Hn Hd; cbn [data_for]; [ done | | ]; rewrite zlen_cons in Hn; pose proof (zlen_nonneg inputs).
  - destruct (host_step h e) as [h'|] eqn:E; [ | done ].
    destruct (step_bound h e h' (zlen inputs) Hok) as [Hok' Hn']; [ done | lia | done | ]. apply IH; [ done | done | ].
    pose proof (PeerCallbacks.host_step_changes h e h' Hok E) as Hc. unfold PeerCallbacks.changes in Hc. destruct (PeerCallbacks.closed_by h e).
    + destruct Hc as [_ ->]. set_solver.
    + by destruct Hc as [-> _].
  - rewrite bool_decide_false; [ apply IH; [ done | lia | done ] | ]. intros Hk. destruct (ho_sock _ Hok k d Hk) as [Hl _]. by apply (ho_dead _ Hok d Hd).
Qed.

Lemma gone_gets_nothing k inputs : own_data Gone k inputs = [].
Proof. induction inputs as [|[e | k' data] inputs IH]; [ done | exact IH | exact IH ]. Qed.

(** A peer whose socket is [k] gets the data of [k]. *)
Lemma alive_gets_own k d inputs : forall h h', host_ok h -> Z.of_nat (size (wst (world h))) + zlen inputs < 2 ^ 31 -> host_run h (events_of inputs) = Some h' ->
  sockets h !! k = Some (Some d) -> data_for h d inputs = own_data Alive k inputs.
Proof.
  induction inputs as [|[e | k' data] inputs IH]; intros h h' Hok Hn E Hk; cbn [data_for own_data phase_after]; [ done | | ]; rewrite zlen_cons in Hn; pose proof (zlen_nonneg inputs).
  - change (events_of (IEvent e :: inputs)) with (e :: events_of inputs) in E. cbn [host_run] in E. destruct (host_step h e) as [h1|] eqn:E1; [ | done ].
    destruct (step_bound h e h1 (zlen inputs) Hok) as [Hok1 Hn1]; [ done | lia | done | ].
    pose proof (host_step_sockets h e h1 k Hok E1) as Ha. unfold socket_after in Ha. rewrite Hk in Ha. rewrite bool_decide_false, andb_false_r in Ha by done.
    rewrite bool_decide_true, andb_true_r in Ha by (by eexists). destruct (ends k e) eqn:He; [ | by eapply IH ].
    rewrite gone_gets_nothing. apply closed_gets_nothing; [ done | done | ].
    pose proof (PeerCallbacks.host_step_changes h e h1 Hok E1) as Hc. unfold PeerCallbacks.changes, PeerCallbacks.closed_by in Hc.
    assert (event_ok h e = true /\ closes h e = Some d) as [Eok Hcl].
    { destruct e; try done; cbn [ends] in He; apply Nat.eqb_eq in He as ->; cbn [event_ok closes]; rewrite Hk; (split; [ by apply bool_decide_eq_true; eexists | done ]). }
    rewrite Eok, Hcl in Hc. destruct Hc as [_ ->]. set_solver.
  - assert (bool_decide (sockets h !! k' = Some (Some d)) = (k' =? k)%nat) as ->.
    { destruct (Nat.eqb_spec k' k) as [-> | Hne]; [ by apply bool_decide_eq_true | apply bool_decide_eq_false ]. intros Hk'.
      destruct (ho_sock _ Hok k d Hk) as [_ P1]. destruct (ho_sock _ Hok k' d Hk') as [_ P2]. congruence. }
    destruct (k' =? k)%nat; [ f_equal | ]; (eapply IH; [ done | lia | done | done ]).
Qed.

(** A peer that will be made does not exist yet. *)
Lemma made_later h e h1 d : host_ok h -> Z.of_nat (size (wst (world h))) < 2 ^ 31 - 1 -> host_step h e = Some h1 -> wst (world h1) !! d = None -> wst (world h) !! d = None.
Proof.
  intros Hok Hn E. pose proof (PeerCallbacks.host_step_changes h e h1 Hok E) as Hc. unfold PeerCallbacks.changes in Hc. destruct (PeerCallbacks.closed_by h e) as [c|].
  - destruct Hc as [[_ _ (i & v & _ & _ & _ & -> & _)] _]. by intros [? _]%lookup_insert_None.
  - destruct Hc as [_ [-> | (c & x & Hc & Eo)]]; [ done | ]. destruct (world_open_spec (world h) c (this h) (ho_inv _ Hok) Hc Hn) as (w & i & v & Ew & _ & _ & _ & _ & _ & Est & _).
    rewrite Eo in Ew. injection Ew as -> _. rewrite Est. by intros [? _]%lookup_insert_None.
Qed.

Lemma made_is_new k d inputs : forall h, host_ok h -> Z.of_nat (size (wst (world h))) + zlen inputs < 2 ^ 31 -> made h k inputs = Some d -> wst (world h) !! d = None.
Proof.
  induction inputs as [|[e | k' data] inputs IH]; intros h Hok Hn; cbn [made]; [ done | | ]; rewrite zlen_cons in Hn; pose proof (zlen_nonneg inputs).
  - destruct (opens k e).
    + destruct (MakePeer h k) as [[[h1 d1] x]|] eqn:Em; [ | done ]. intros [= <-]. by destruct (PeerCallbacks.MakePeer_changes _ _ _ _ _ Em) as (_ & ? & _).
    + destruct (host_step h e) as [h1|] eqn:E1; [ | done ]. cbn [mbind option_bind]. intros Hm. destruct (step_bound h e h1 (zlen inputs) Hok) as [Hok1 Hn1]; [ done | lia | done | ].
      eapply made_later; [ done | lia | done | by apply IH ].
  - apply IH; [ done | lia ].
Qed.

(** A peer gets the data of the socket it was made for. *)
Lemma made_gets_own k d inputs : forall h h', host_ok h -> Z.of_nat (size (wst (world h))) + zlen inputs < 2 ^ 31 -> host_run h (events_of inputs) = Some h' ->
  sockets h !! k = None -> made h k inputs = Some d -> data_for h d inputs = own_data Unborn k inputs.
Proof.
  induction inputs as [|[e | k' data] inputs IH]; intros h h' Hok Hn E Hk Hm; [ done | | ]; pose proof (made_is_new k d _ h Hok Hn Hm) as Hnew;
    cbn [data_for own_data phase_after made] in *; rewrite zlen_cons in Hn; pose proof (zlen_nonneg inputs).
  - change (events_of (IEvent e :: inputs)) with (e :: events_of inputs) in E. cbn [host_run] in E. destruct (host_step h e) as [h1|] eqn:E1; [ | done ]. cbn [mbind option_bind] in *.
    destruct (step_bound h e h1 (zlen inputs) Hok) as [Hok1 Hn1]; [ done | lia | done | ].
    pose proof (host_step_sockets h e h1 k Hok E1) as Ha. unfold socket_after in Ha. rewrite Hk in Ha. rewrite bool_decide_true, andb_true_r in Ha by done.
    destruct (opens k e).
    + destruct Ha as (h2 & d2 & x & Em & Hs). rewrite Em in Hm. injection Hm as ->. by eapply alive_gets_own.
    + rewrite bool_decide_false, andb_false_r in Ha by (by intros [? ?]). by eapply IH.
  - rewrite bool_decide_false; [ eapply IH; [ done | lia | done | done | done ] | ]. intros Hk'. destruct (live_handle h d Hok (proj1 (ho_sock _ Hok k' d Hk'))) as (? & ? & Est & _).
    cbv zeta in Est. congruence.
Qed.

(** Only peers of sockets get data. *)
Lemma data_needs_socket d inputs : forall h, host_ok h -> Z.of_nat (size (wst (world h))) + zlen inputs < 2 ^ 31 -> data_for h d inputs <> [] ->
  (exists k, sockets h !! k = Some (Some d)) \/ exists k, sockets h !! k = None /\ made h k inputs = Some d.
Proof.
  induction inputs as [|[e | k data] inputs IH]; intros h Hok Hn; cbn [data_for made]; [ done | | ]; rewrite zlen_cons in Hn; pose proof (zlen_nonneg inputs).
  - destruct (host_step h e) as [h1|] eqn:E1; [ | done ]. intros Hd. cbn [mbind option_bind]. destruct (step_bound h e h1 (zlen inputs) Hok) as [Hok1 Hn1]; [ done | lia | done | ].
    assert (forall k, sockets h1 !! k <> Some None -> sockets h1 !! k = sockets h !! k \/ exists h2 d2 x, opens k e = true /\ sockets h !! k = None /\ MakePeer h k = Some (h2, d2, x) /\ sockets h1 !! k = Some (Some d2)) as Hs.
    { intros k Hne. pose proof (host_step_sockets h e h1 k Hok E1) as Ha. unfold socket_after in Ha. destruct (opens k e && _) eqn:Eo.
      - apply andb_true_iff in Eo as [Eo Ek%bool_decide_eq_true]. right. destruct Ha as (h2 & d2 & x & Em & Ha). by exists h2, d2, x.
      - destruct (ends k e && _); [ done | by left ]. }
    destruct (IH h1 Hok1 Hn1 Hd) as [[k Hk] | (k & Hk & Hm)]; (destruct (Hs k) as [Ek | (h2 & d2 & x & Eo & Ek & Em & Ek1)]; [ by rewrite Hk | | ]); rewrite Hk in *.
    + left. by exists k.
    + right. exists k. rewrite Eo, Em. split; [ done | ]. by injection Ek1 as ->.
    + right. exists k. split; [ done | ]. destruct (opens k e) eqn:Eo; [ | done ]. pose proof (host_step_sockets h e h1 k Hok E1) as Ha. unfold socket_after in Ha.
      rewrite Eo, <- Ek, bool_decide_true in Ha by done. destruct Ha as (? & ? & ? & _ & Ha). congruence.
    + done.
  - case_bool_decide as Hk; [ intros _; left; by exists k | intros Hd; apply IH; [ done | lia | done ] ].
Qed.

(** The run of all connections and the runs of each. *)
Lemma receiving_run_spec inputs : forall s h, host_ok (hs s) -> Z.of_nat (size (wst (world (hs s)))) + zlen inputs < 2 ^ 31 -> host_run (hs s) (events_of inputs) = Some h ->
  match run s inputs with
  | Some s' => hs s' = h /\ forall d, receive_all (data_of s d) (data_for (hs s) d inputs) = Some (data_of s' d)
  | None => exists d, receive_all (data_of s d) (data_for (hs s) d inputs) = None
  end.
Proof.
  induction inputs as [|[e | k data] inputs IH]; intros s h Hok Hn Eh; cbn [run step].
  - injection Eh as <-. by split.
  - rewrite zlen_cons in Hn. change (events_of (IEvent e :: inputs)) with (e :: events_of inputs) in Eh. cbn [host_run data_for] in *.
    destruct (host_step (hs s) e) as [h1|] eqn:E; [ | done ]. cbn [mbind option_bind] in *. destruct (step_bound (hs s) e h1 (zlen inputs) Hok) as [Hok1 Hn1]; [ apply zlen_nonneg | lia | done | ].
    exact (IH (mkState h1 (received s)) h Hok1 Hn1 Eh).
  - rewrite zlen_cons in Hn. change (events_of (IData k data :: inputs)) with (events_of inputs) in Eh. cbn [data_for].
    destruct (sockets (hs s) !! k) as [[d|]|] eqn:Ek.
    + rewrite bool_decide_true by (by eexists). unfold _Internal_on_data. rewrite Ek. cbn [mbind option_bind].
      assert (forall d', bool_decide (Some (Some d) = Some (Some d')) = bool_decide (d = d')) as Eb by (intros d'; apply bool_decide_ext; naive_solver).
      destruct (receive (data_of s d) data) as [r|] eqn:Er; cbn [mbind option_bind].
      * pose proof (IH (mkState (hs s) (<[d := r]> (received s))) h Hok ltac:(cbn [hs]; lia) Eh) as Hr.
        assert (forall d', receive_all (data_of s d') (if bool_decide (Some (Some d) = Some (Some d')) then data :: data_for (hs s) d' inputs else data_for (hs s) d' inputs)
          = receive_all (data_of (mkState (hs s) (<[d := r]> (received s))) d') (data_for (hs s) d' inputs)) as Hstep.
        { intros d'. rewrite Eb, data_of_insert. case_bool_decide as Hd; [ subst d'; rewrite decide_True by done; cbn [receive_all]; by rewrite Er | ].
          rewrite decide_False by done. by destruct s. }
        destruct (run _ inputs) as [s'|]; [ destruct Hr as [-> Hr]; split; [ done | ]; intros d'; by rewrite Hstep | ].
        destruct Hr as [d' Hd']. exists d'. by rewrite Hstep.
      * exists d. rewrite Eb, bool_decide_true by done. cbn [receive_all]. by rewrite Er.
    + rewrite bool_decide_true by (by eexists). unfold _Internal_on_data. rewrite Ek. cbn [mbind option_bind]. apply IH; [ done | lia | done ].
    + rewrite bool_decide_false by (by intros [? ?]). apply IH; [ done | lia | done ].
Qed.

Lemma run_events inputs : forall s s', run s inputs = Some s' -> host_run (hs s) (events_of inputs) = Some (hs s').
Proof.
  induction inputs as [|[e | k data] inputs IH]; intros s s'; cbn [run step]; [ by intros [= <-] | | ].
  - change (events_of (IEvent e :: inputs)) with (e :: events_of inputs). cbn [host_run]. destruct (host_step (hs s) e) as [h|]; [ | done ]. apply IH.
  - change (events_of (IData k data :: inputs)) with (events_of inputs). case_bool_decide; [ | apply IH ]. unfold _Internal_on_data.
    destruct (sockets (hs s) !! k) as [[d|]|]; cbn [mbind option_bind]; [ | apply IH | done ]. destruct (receive _ _); [ | done ]. apply (IH (mkState _ _)).
Qed.

Lemma events_bound inputs : zlen (events_of inputs) <= zlen inputs.
Proof.
  unfold zlen. induction inputs as [|[e | k data] inputs IH]; [ done | | ]; cbn [length].
  - change (events_of (IEvent e :: inputs)) with (e :: events_of inputs). cbn [length]. lia.
  - change (events_of (IData k data :: inputs)) with (events_of inputs). lia.
Qed.

(** Connections do not disturb each other: every peer ends as if it had received the data of the
    socket it was made for, and the program stops only at a connect error or when the data of
    one connection alone stop it. *)
Lemma connections_are_isolated l this inputs : l <> 0 -> zlen inputs < 2 ^ 31 ->
  match run (mkState (Host_init l this) ∅) inputs with
  | Some s => host_run (Host_init l this) (events_of inputs) = Some (hs s)
      /\ forall k d, made (Host_init l this) k inputs = Some d -> receive_all (new d) (own_data Unborn k inputs) = Some (data_of s d)
  | None => stops_at (Host_init l this) (events_of inputs)
      \/ exists k d, made (Host_init l this) k inputs = Some d /\ receive_all (new d) (own_data Unborn k inputs) = None
  end.
Proof.
  intros Hl Hn. set (h0 := Host_init l this). pose proof (Host_init_ok l this Hl : host_ok h0) as Hok. pose proof (events_bound inputs).
  assert (forall k, sockets h0 !! k = None) as Hk by (intros k; apply lookup_empty). change (size (wst (world h0))) with 0%nat in *.
  destruct (run _ inputs) as [s|] eqn:E.
  - pose proof (run_events _ _ _ E) as Eh. split; [ done | ]. intros k d Hm.
    pose proof (receiving_run_spec inputs (mkState h0 ∅) _ Hok Hn Eh) as Hr. rewrite E in Hr. destruct Hr as [_ Hr].
    rewrite <- (made_gets_own k d inputs h0 _ Hok Hn Eh (Hk k) Hm). apply (Hr d).
  - destruct (host_run_total (events_of inputs) h0 Hok) as [[h Eh] | [_ Hst]]; [ change (size (wst (world h0))) with 0%nat; lia | right | by left ].
    pose proof (receiving_run_spec inputs (mkState h0 ∅) h Hok Hn Eh) as Hr. rewrite E in Hr. destruct Hr as [d Hr]. cbn [hs] in Hr.
    destruct (data_needs_socket d inputs h0 Hok Hn) as [[k Hd] | (k & _ & Hm)]; [ intros E0; by rewrite E0 in Hr | by rewrite Hk in Hd | ].
    exists k, d. split; [ done | ]. by rewrite <- (made_gets_own k d inputs h0 _ Hok Hn Eh (Hk k) Hm).
Qed.

End Sockets.

(** ** Peers of RpcDispatch.v *)

Section Rpc.
Context `{Allocator} `{NameCodec}.
Context {T : Type} {MI : MapImpl T Z RpcCalls.OnReturnCallback} {V : Type}.
Context (sole : option (@RpcDispatch.Peer T V) -> bool) (env : @RpcRegistry.RPCEnvironment (@RpcDispatch.Function V)).

#[local] Instance rpc_receiver : Receiver (FrameDecoder.FrameDecoder * @RpcDispatch.Peer T V) := fun dp data => RpcDispatch._InternalOnData sole env dp.1 dp.2 data.

Lemma receive_all_chunks chunks : forall d p, receive_all (d, p) chunks = RpcDispatch.on_data_chunks sole env d p chunks.
Proof.
  induction chunks as [|c chunks IH]; intros d p; [ done | ]. cbn [receive_all RpcDispatch.on_data_chunks]. unfold receive, rpc_receiver. cbn [fst snd].
  destruct (RpcDispatch._InternalOnData sole env d p c) as [[d' p']|]; [ | done ]. cbn [mbind option_bind]. apply IH.
Qed.

(** New peers have a decoder that waits for a header. *)
Context (new_decoder : FrameDecoder.FrameDecoder) (new_peer : nat -> @RpcDispatch.Peer T V).

Definition byte_chunks (inputs : list input) : Prop :=
  Forall (fun i => match i with IData _ data => zlen data < 2 ^ 32 /\ Forall is_u8 data | IEvent _ => True end) inputs.

Lemma own_data_bytes k inputs : byte_chunks inputs -> forall ph, Forall (fun c => zlen c < 2 ^ 32 /\ Forall is_u8 c) (own_data ph k inputs).
Proof.
  intros Hi. induction Hi as [| [e | k' data] inputs Hx Hi IH]; intros ph; cbn [own_data]; [ constructor | apply IH | ].
  destruct ph; try apply IH. destruct (k' =? k)%nat; [ by constructor | apply IH ].
Qed.

(** C11: the functions that frames execute, and the answers they complete, depend on the connection
    alone. For any fewer than [2^31] events and pieces of data on the sockets of a host: the peer
    that was made when a socket was opened has processed exactly the frames that the bytes of
    this socket consist of, from its opening to its end, in order, however they were cut into
    pieces and mixed with those of other sockets, and its decoder holds the rest. Which bytes
    these are is read off the inputs, not off the pointers the host keeps. The program stops only
    if the frames of one connection alone stop it, or if a connect error is reported for a socket
    that leads to a peer. *)
Theorem each_connection_processes_its_own_frames l this inputs : l <> 0 -> zlen inputs < 2 ^ 31 -> FrameDecoder.decoder_ok new_decoder [] -> byte_chunks inputs ->
  let frames k := FrameDecoder.parse (concat (own_data Unborn k inputs)) in
  let process k d := FrameDecoder.deliver (Some (RpcDispatch._Internal_static_OnPacket env)) (Some (new_peer d)) (frames k).1 in
  match run (fun d => (new_decoder, new_peer d)) (mkState (Host_init l this) ∅) inputs with
  | Some s => host_run (Host_init l this) (events_of inputs) = Some (hs s)
      /\ forall k d, made (Host_init l this) k inputs = Some d -> exists p, process k d = Some p
           /\ (data_of (fun d => (new_decoder, new_peer d)) s d).2 = fold_left RpcDispatch.count_chunk (own_data Unborn k inputs) p
           /\ FrameDecoder.decoder_ok (data_of (fun d => (new_decoder, new_peer d)) s d).1 (frames k).2
  | None => stops_at (Host_init l this) (events_of inputs)
      \/ exists k d, made (Host_init l this) k inputs = Some d /\ process k d = None
  end.
Proof.
  intros Hl Hn Hdec Hb frames process. set (new := fun d => (new_decoder, new_peer d)). pose proof (connections_are_isolated new l this inputs Hl Hn) as Hr.
  assert (forall k d, match process k d with
    | Some p => exists d', receive_all (new d) (own_data Unborn k inputs) = Some (d', fold_left RpcDispatch.count_chunk (own_data Unborn k inputs) p)
        /\ FrameDecoder.decoder_ok d' (frames k).2
    | None => receive_all (new d) (own_data Unborn k inputs) = None end) as Hspec.
  { intros k d. unfold new. rewrite receive_all_chunks. apply (RpcDispatch.on_data_chunks_spec sole env _ new_decoder [] (new_peer d) (own_data_bytes k inputs Hb _) Hdec). }
  destruct (run new _ inputs) as [s|].
  - destruct Hr as [Eh Hr]. split; [ done | ]. intros k d Hm. specialize (Hspec k d). specialize (Hr k d Hm).
    destruct (process k d) as [p|]; [ | congruence ]. destruct Hspec as (d' & E & Hd'). rewrite E in Hr. injection Hr as Hr. exists p. rewrite <- Hr. done.
  - destruct Hr as [Hst | (k & d & Hm & Hr)]; [ by left | right ]. exists k, d. split; [ done | ]. specialize (Hspec k d). destruct (process k d); [ | done ].
    destruct Hspec as (d' & E & _). congruence.
Qed.

End Rpc.

(** ** Witnesses *)

#[local] Existing Instances RpcCalls.le_codec RpcCalls.callbacks_map RpcDispatch.tagged_codec rpc_receiver.

(** Two connections whose calls of "ping" arrive in mixed pieces; the first is closed, and data
    on its socket are ignored. *)
Definition sample_inputs : list input :=
  [IEvent (EAccept 1); IEvent (EAccept 2); IData 1 [0x90; 2; 4]; IData 2 [0x90; 2]; IData 1 [0; 0; 0; 112; 105; 110; 103; 41];
   IEvent (EClose 1); IData 1 [7; 7; 7]; IData 2 [4; 0; 0; 0; 112; 105; 110; 103; 77]].

Lemma sample_inputs_bytes : byte_chunks sample_inputs.
Proof.
  unfold byte_chunks, sample_inputs. repeat (apply Forall_cons; split; [ first [ exact I | split; [ reflexivity | repeat (apply Forall_cons; split; [ split; [ discriminate | reflexivity ] | ]); apply Forall_nil; exact I ] ] | ]).
  apply Forall_nil. exact I.
Qed.

Definition sample_run : option (@State (FrameDecoder.FrameDecoder * @RpcDispatch.Peer _ Z)) :=
  run (RI := rpc_receiver RpcDispatch.never_sole (RpcDispatch.sample_registry None)) (fun _ => (RpcDispatch.sample_decoder, RpcDispatch.sample_peer true))
    (mkState (Host_init 100 5) ∅) sample_inputs.

Example sample_executed : fmap (fun s => (fun d => RpcDispatch.executed (data_of (fun _ => (RpcDispatch.sample_decoder, RpcDispatch.sample_peer true)) s d).2) <$> [0; 1]%nat) sample_run
  = Some [[(RpcRegistry.ping, [RpcDispatch.AFlags 1; RpcDispatch.AValue 41])]; [(RpcRegistry.ping, [RpcDispatch.AFlags 1; RpcDispatch.AValue 77])]].
Proof. vm_compute. reflexivity. Qed.

Lemma each_connection_processes_its_own_frames_witness :
  exists s, sample_run = Some s /\ host_run (Host_init 100 5) [EAccept 1; EAccept 2; EClose 1] = Some (hs s)
    /\ made (Host_init 100 5) 2 sample_inputs = Some 1%nat /\ own_data Unborn 2 sample_inputs = [[0x90; 2]; [4; 0; 0; 0; 112; 105; 110; 103; 77]].
Proof.
  pose proof (each_connection_processes_its_own_frames RpcDispatch.never_sole (RpcDispatch.sample_registry None) RpcDispatch.sample_decoder
    (fun _ => RpcDispatch.sample_peer true) 100 5 sample_inputs ltac:(lia) eq_refl RpcDispatch.sample_decoder_ok sample_inputs_bytes) as Hs.
  cbv zeta in Hs. match type of Hs with match ?r with Some _ => _ | None => _ end => destruct r as [s|] eqn:E end; [ | vm_compute in E; discriminate E ].
  exists s. split; [ exact E | ]. split; [ exact (proj1 Hs) | split; vm_compute; reflexivity ].
Defined.

End Receiving.
