(* ===== verification/HandleHash.v ===== *)
(** * The hash of a peer handle (include/icon7/PeerHandle.hpp)

    [std::hash<PeerHandle>] mixes the id, the version and the loop of a handle into 64 bits by
    exclusive or and multiplication with an odd constant. Each round can be undone, so that
    handles that differ in one field only never collide: the successive handles of a slot, the
    slots of a loop at one version, and the same slot of different loops. *)

From S2P Require Import Prelude PeersToFlush PeerManager.

Module HandleHash.
Import PeerManager.

Definition offset_basis : Z := 0xcbf29ce484222325.
Definition prime : Z := 0x100000001b3.

(** [h = (h ^ x) * p] on [uint64_t]. *)
Definition mix (h x : Z) : Z := u64 (Z.lxor h x * prime).

Definition hash (peer : PeerHandle) : Z :=
  let h := offset_basis in
  let h := mix h (PeerManager.id (hid peer)) in
  let h := mix h (version (hid peer)) in
  mix h (loop peer).

(** ** Undoing a round *)

(** [p * inverse] is 1 modulo 2^64. *)
Definition inverse : Z := 0xce965057aff6957b.

Lemma prime_inverse : (prime * inverse) mod 2 ^ 64 = 1.
Proof. reflexivity. Qed.

Lemma mul_prime_inj x y : 0 <= x < 2 ^ 64 -> 0 <= y < 2 ^ 64 -> u64 (x * prime) = u64 (y * prime) -> x = y.
Proof.
  intros Hx Hy E. assert (forall z, 0 <= z < 2 ^ 64 -> (u64 (z * prime) * inverse) mod 2 ^ 64 = z) as Hundo.
  { intros z Hz. unfold u64. rewrite Z.mul_mod_idemp_l by done. rewrite <- Z.mul_assoc, <- Z.mul_mod_idemp_r, prime_inverse, Z.mul_1_r by done. by apply Z.mod_small. }
  by rewrite <- (Hundo x Hx), <- (Hundo y Hy), E.
Qed.

Lemma lxor_range h x : 0 <= h < 2 ^ 64 -> 0 <= x < 2 ^ 64 -> 0 <= Z.lxor h x < 2 ^ 64.
Proof.
  intros [H0 H1] [X0 X1]. assert (0 <= Z.lxor h x) as Hl by (by apply Z.lxor_nonneg). split; [ done | ].
  destruct (Z.eq_dec (Z.lxor h x) 0) as [-> | Hne]; [ done | ]. apply Z.log2_lt_pow2; [ lia | ].
  eapply Z.le_lt_trans; [ by apply Z.log2_lxor | ].
  apply Z.max_lub_lt; [ destruct (Z.eq_dec h 0) as [-> | ]; [ done | apply Z.log2_lt_pow2; lia ] | destruct (Z.eq_dec x 0) as [-> | ]; [ done | apply Z.log2_lt_pow2; lia ] ].
Qed.

Lemma mix_range h x : 0 <= mix h x < 2 ^ 64.
Proof. unfold mix, u64. by apply Z.mod_pos_bound. Qed.

Lemma lxor_inj_r h x y : Z.lxor h x = Z.lxor h y -> x = y.
Proof. intros E. rewrite <- (Z.lxor_0_l x), <- (Z.lxor_0_l y), <- (Z.lxor_nilpotent h), !Z.lxor_assoc. by rewrite E. Qed.

(** A round is injective in both arguments. *)
Lemma mix_inj_r h x y : 0 <= h < 2 ^ 64 -> 0 <= x < 2 ^ 64 -> 0 <= y < 2 ^ 64 -> mix h x = mix h y -> x = y.
Proof. intros Hh Hx Hy E. apply (lxor_inj_r h). apply mul_prime_inj; [ by apply lxor_range | by apply lxor_range | exact E ]. Qed.

Lemma mix_inj_l h k x : 0 <= h < 2 ^ 64 -> 0 <= k < 2 ^ 64 -> 0 <= x < 2 ^ 64 -> mix h x = mix k x -> h = k.
Proof.
  intros Hh Hk Hx E. apply (lxor_inj_r x). rewrite !(Z.lxor_comm x). apply mul_prime_inj; [ by apply lxor_range | by apply lxor_range | exact E ].
Qed.

(** The fields of a handle at their widths. *)
Definition handle_fits (h : PeerHandle) : Prop := is_u32 (PeerManager.id (hid h)) /\ is_u32 (version (hid h)) /\ 0 <= loop h < 2 ^ 64.

Lemma u32_u64 x : is_u32 x -> 0 <= x < 2 ^ 64.
Proof. unfold is_u32. lia. Qed.

(** Handles that differ in exactly one of their three fields have different hashes, and every
    hash is a 64-bit value: the versions of a slot, the slots of a loop and equal slots of
    different loops never collide with each other. *)
Theorem handle_hash_separates h1 h2 : handle_fits h1 -> handle_fits h2 -> hash h1 = hash h2 ->
  0 <= hash h1 < 2 ^ 64
  /\ (version (hid h1) = version (hid h2) -> loop h1 = loop h2 -> h1 = h2)
  /\ (PeerManager.id (hid h1) = PeerManager.id (hid h2) -> loop h1 = loop h2 -> h1 = h2)
  /\ (PeerManager.id (hid h1) = PeerManager.id (hid h2) -> version (hid h1) = version (hid h2) -> h1 = h2).
Proof.
  destruct h1 as [[i1 v1] l1], h2 as [[i2 v2] l2]. unfold handle_fits, hash. cbn [hid PeerManager.id version loop]. intros (Hi1 & Hv1 & Hl1) (Hi2 & Hv2 & Hl2) E.
  apply u32_u64 in Hi1, Hi2, Hv1, Hv2. assert (0 <= offset_basis < 2 ^ 64) as Hb by done. pose proof mix_range as Hr. split_and!.
  - apply mix_range.
  - apply mix_range.
  - intros -> ->. apply mix_inj_l in E; [ | apply Hr | apply Hr | done ]. apply mix_inj_l in E; [ | apply Hr | apply Hr | done ]. by apply mix_inj_r in E as ->.
  - intros -> ->. apply mix_inj_l in E; [ | apply Hr | apply Hr | done ]. apply mix_inj_r in E; [ by subst | apply Hr | done | done ].
  - intros -> ->. apply mix_inj_r in E; [ by subst | apply Hr | done | done ].
Qed.

(** ** Witness *)

Lemma handle_hash_separates_witness : hash (mkHandle (mkId 3 1) 4096) <> hash (mkHandle (mkId 3 2) 4096).
Proof.
  intros E. destruct (handle_hash_separates (mkHandle (mkId 3 1) 4096) (mkHandle (mkId 3 2) 4096)) as (_ & _ & Hs & _);
    [ unfold handle_fits, is_u32; cbn; lia | unfold handle_fits, is_u32; cbn; lia | exact E | ].
  discriminate (Hs eq_refl eq_refl).
Defined.

End HandleHash.
