(* ===== verification/UdpPeer.v ===== *)
(** * Listening and peers of the UDP transport (src/HostUStcpUdp.cpp, src/PeerUStcpUdp.cpp)

    The UDP transport is experimental and compiled only with a flag. A host owns a UDP socket and
    two packet buffers while it listens; a peer has an identity by which received packets name
    it, and learns the identity under which the other side knows it from a control sequence. The
    socket and the buffers are resources of uSockets and of [malloc]: the model keeps the sets of
    those that are not released, and releasing one that is not there is a failure. Received
    packets end in a function that only throws; sending is in UdpHost.v. *)

From S2P Require Import Prelude UdpHost.

Module UdpPeer.

(** ** Listening *)

(** [sockets] and [buffers]: what was created and not released; [next]: a fresh number. *)
Record Listener := mkListener {
  udpSocket : option nat;
  receivingBuffer : option nat;
  sendingBuffer : option nat;
  sockets : gset nat;
  buffers : gset nat;
  next : nat
}.

Definition Listener_init : Listener := mkListener None None None ∅ ∅ 0.

Definition us_create_udp_packet_buffer (h : Listener) : Listener * nat :=
  (mkListener (udpSocket h) (receivingBuffer h) (sendingBuffer h) (sockets h) ({[next h]} ∪ buffers h) (S (next h)), next h).

(** [us_close_and_free_udp_socket], [free] of both buffers, and the null pointers. *)
Definition release_udp (h : Listener) : option Listener :=
  let* s := udpSocket h in
  let* r := receivingBuffer h in
  let* w := sendingBuffer h in
  assert* bool_decide (s ∈ sockets h) && bool_decide (r ∈ buffers h) && bool_decide (w ∈ buffers h ∖ {[r]}) in
  Some (mkListener None None None (sockets h ∖ {[s]}) (buffers h ∖ {[r]} ∖ {[w]}) (next h)).

(** [Host::_InternalListen]: [created] tells whether [us_create_udp_socket] returned a socket,
    [tcp] the result of listening with TCP. *)
Definition _InternalListen (h : Listener) (created tcp : bool) : option (Listener * bool) :=
  let '(h, w) := us_create_udp_packet_buffer h in
  let '(h, r) := us_create_udp_packet_buffer h in
  if created then
    let k := next h in
    let h := mkListener (Some k) (Some r) (Some w) ({[k]} ∪ sockets h) (buffers h) (S k) in
    if tcp then Some (h, true) else let* h := release_udp h in Some (h, false)
  else Some (mkListener None (Some r) (Some w) (sockets h) (buffers h) (next h), false).

(** [Host::StopListening]. *)
Definition StopListening (h : Listener) : option Listener :=
  match udpSocket h with
  | Some _ => release_udp h
  | None => Some h
  end.

Inductive listen_op := LListen (created tcp : bool) | LStop.

Definition listen_step (h : Listener) (o : listen_op) : option Listener :=
  match o with
  | LListen created tcp => let* (h, _) := _InternalListen h created tcp in Some h
  | LStop => StopListening h
  end.

Fixpoint listen_run (h : Listener) (os : list listen_op) : option Listener :=
  match os with
  | [] => Some h
  | o :: os => let* h := listen_step h o in listen_run h os
  end.

(** What the fields hold. *)
Definition held (x : option nat) : gset nat := match x with Some k => {[k]} | None => ∅ end.
Definition held_buffers (h : Listener) : gset nat := held (receivingBuffer h) ∪ held (sendingBuffer h).

(** The resources that no field names any more. *)
Definition lost_sockets (h : Listener) : gset nat := sockets h ∖ held (udpSocket h).
Definition lost_buffers (h : Listener) : gset nat := buffers h ∖ held_buffers h.

Record listener_ok (h : Listener) : Prop := {
  lk_sockets : forall k, k ∈ sockets h -> (k < next h)%nat;
  lk_buffers : forall k, k ∈ buffers h -> (k < next h)%nat;
  lk_socket : forall k, udpSocket h = Some k -> k ∈ sockets h /\ is_Some (receivingBuffer h);
  lk_held : match receivingBuffer h, sendingBuffer h with
            | Some r, Some w => r <> w /\ r ∈ buffers h /\ w ∈ buffers h
            | None, None => True
            | _, _ => False
            end
}.

Lemma release_ok h : listener_ok h -> is_Some (udpSocket h) -> exists h', release_udp h = Some h' /\ listener_ok h'
  /\ held_buffers h' = ∅ /\ udpSocket h' = None /\ lost_sockets h' = lost_sockets h /\ lost_buffers h' = lost_buffers h.
Proof.
  intros [H1 H2 H3 H4] [k Hk]. destruct (H3 k Hk) as [Hin [r Hr]]. rewrite Hr in H4. destruct (sendingBuffer h) as [w|] eqn:Hw; [ | done ]. destruct H4 as (Hne & Hinr & Hinw).
  unfold release_udp. rewrite Hk, Hr, Hw. cbn [mbind option_bind]. rewrite !bool_decide_true by set_solver. cbn [andb]. eexists. split; [ done | ]. split_and!.
  - split; cbn [udpSocket receivingBuffer sendingBuffer sockets buffers next]; try done; intros x Hx; [ apply H1 | apply H2 ]; set_solver.
  - unfold held_buffers. cbn. set_solver.
  - done.
  - unfold lost_sockets. rewrite Hk. cbn. set_solver.
  - unfold lost_buffers, held_buffers. rewrite Hr, Hw. cbn. set_solver.
Qed.

(** A listen: what the fields held is lost, and the fields hold what is new. *)
Lemma listen_ok h created tcp : listener_ok h -> exists h', _InternalListen h created tcp = Some (h', created && tcp) /\ listener_ok h'
  /\ lost_sockets h' = sockets h /\ lost_buffers h' = buffers h
  /\ (is_Some (udpSocket h') <-> created && tcp = true) /\ (is_Some (receivingBuffer h') <-> created = false \/ tcp = true).
Proof.
  intros [H1 H2 H3 H4]. unfold _InternalListen, us_create_udp_packet_buffer. cbn [udpSocket receivingBuffer sendingBuffer sockets buffers next].
  assert (next h ∉ buffers h /\ S (next h) ∉ buffers h /\ S (S (next h)) ∉ sockets h) as (F1 & F2 & F3).
  { split_and!; intros Hin; [ apply H2 in Hin | apply H2 in Hin | apply H1 in Hin ]; lia. }
  assert (listener_ok (mkListener (Some (S (S (next h)))) (Some (S (next h))) (Some (next h)) ({[S (S (next h))]} ∪ sockets h) ({[S (next h)]} ∪ ({[next h]} ∪ buffers h)) (S (S (S (next h)))))) as Hok.
  { split; cbn [udpSocket receivingBuffer sendingBuffer sockets buffers next].
    - intros k [->%elem_of_singleton | Hk%H1]%elem_of_union; lia.
    - intros k [->%elem_of_singleton | [->%elem_of_singleton | Hk%H2]%elem_of_union]%elem_of_union; lia.
    - intros k [= <-]. split; [ set_solver | by eexists ].
    - split_and!; [ lia | set_solver | set_solver ]. }
  destruct created; cbn [andb]; [ destruct tcp | ].
  - eexists. split; [ done | ]. unfold lost_sockets, lost_buffers, held_buffers. cbn. split_and!; [ done | set_solver | set_solver | naive_solver | naive_solver ].
  - destruct (release_ok _ Hok) as (h' & -> & Hok' & Hb & Hs & L1 & L2); [ by eexists | ]. cbn [mbind option_bind]. exists h'. split; [ done | ].
    assert (receivingBuffer h' = None) as Hr by (unfold held_buffers in Hb; destruct (receivingBuffer h'); [ cbn in Hb; set_solver | done ]).
    split_and!; [ done | | | rewrite Hs; split; [ by intros [] | done ] | rewrite Hr; split; [ by intros [] | naive_solver ] ].
    + rewrite L1. unfold lost_sockets. cbn. set_solver.
    + rewrite L2. unfold lost_buffers, held_buffers. cbn. set_solver.
  - eexists. split; [ done | ]. unfold lost_sockets, lost_buffers, held_buffers. cbn. split_and!; [ | set_solver | set_solver | split; [ by intros [] | done ] | naive_solver ].
    split; cbn [udpSocket receivingBuffer sendingBuffer sockets buffers next]; [ | | done | ].
    + intros k Hk%H1. lia.
    + intros k [->%elem_of_singleton | [->%elem_of_singleton | Hk%H2]%elem_of_union]%elem_of_union; lia.
    + split_and!; [ lia | set_solver | set_solver ].
Qed.

(** What a host is doing: it does not listen, it failed to create its socket, or it listens. *)
Inductive activity := Idle | Broken | Listening.

Definition activity_of (h : Listener) : activity :=
  match udpSocket h, receivingBuffer h with Some _, _ => Listening | None, Some _ => Broken | None, None => Idle end.

Definition next_activity (a : activity) (o : listen_op) : activity :=
  match o with
  | LListen true true => Listening
  | LListen true false => Idle
  | LListen false _ => Broken
  | LStop => match a with Listening => Idle | _ => a end
  end.

(** The sockets and buffers an operation loses. *)
Definition loses (a : activity) (o : listen_op) : Z * Z :=
  match o, a with
  | LListen _ _, Listening => (1, 2)
  | LListen _ _, Broken => (0, 2)
  | _, _ => (0, 0)
  end.

Fixpoint losses (a : activity) (os : list listen_op) : Z * Z :=
  match os with
  | [] => (0, 0)
  | o :: os => let '(x, y) := loses a o in let '(xs, ys) := losses (next_activity a o) os in (x + xs, y + ys)
  end.

Lemma size_held h : listener_ok h -> Z.of_nat (size (sockets h)) = Z.of_nat (size (lost_sockets h)) + (match activity_of h with Listening => 1 | _ => 0 end)
  /\ Z.of_nat (size (buffers h)) = Z.of_nat (size (lost_buffers h)) + (match activity_of h with Idle => 0 | _ => 2 end).
Proof.
  intros [H1 H2 H3 H4]. unfold activity_of, lost_sockets, lost_buffers, held_buffers.
  assert (forall (X Y : gset nat), X ⊆ Y -> Z.of_nat (size Y) = Z.of_nat (size (Y ∖ X)) + Z.of_nat (size X)) as Hsz.
  { intros X Y Hsub. rewrite <- Nat2Z.inj_add, <- size_union by set_solver. f_equal. f_equal. apply set_eq. intros x. destruct (decide (x ∈ X)); set_solver. }
  assert (match receivingBuffer h, sendingBuffer h with Some r, Some w => Z.of_nat (size (buffers h)) = Z.of_nat (size (buffers h ∖ (held (Some r) ∪ held (Some w)))) + 2 | _, _ => True end) as Hb.
  { destruct (receivingBuffer h) as [r|], (sendingBuffer h) as [w|]; try done. destruct H4 as (Hne & Hr & Hw). cbn [held]. rewrite (Hsz ({[r]} ∪ {[w]})) by set_solver.
    rewrite (size_union {[r]} {[w]}) by set_solver. rewrite !size_singleton. lia. }
  destruct (udpSocket h) as [k|] eqn:Hk.
  - destruct (H3 k eq_refl) as [Hin [r Hr]]. rewrite Hr in *. destruct (sendingBuffer h) as [w|]; [ | done ]. cbn [held] in *. split; [ | exact Hb ].
    rewrite (Hsz {[k]}) by set_solver. by rewrite size_singleton.
  - cbn [held]. rewrite difference_empty_L. split; [ by destruct (receivingBuffer h); rewrite Z.add_0_r | ].
    destruct (receivingBuffer h) as [r|], (sendingBuffer h) as [w|]; try done. cbn [held]. rewrite union_empty_l_L, difference_empty_L. lia.
Qed.

Lemma listen_step_ok h o : listener_ok h -> exists h', listen_step h o = Some h' /\ listener_ok h' /\ activity_of h' = next_activity (activity_of h) o
  /\ Z.of_nat (size (lost_sockets h')) = Z.of_nat (size (lost_sockets h)) + (loses (activity_of h) o).1
  /\ Z.of_nat (size (lost_buffers h')) = Z.of_nat (size (lost_buffers h)) + (loses (activity_of h) o).2.
Proof.
  intros Hok. destruct o as [created tcp | ]; cbn [listen_step].
  - destruct (listen_ok h created tcp Hok) as (h' & -> & Hok' & L1 & L2 & Hs & Hr). cbn [mbind option_bind]. exists h'. split_and!; [ done | done | | | ].
    + unfold activity_of. destruct (udpSocket h') as [k|], (receivingBuffer h') as [r|], created, tcp; cbn in *; try done; exfalso; destruct Hs as [S1 S2], Hr as [R1 R2];
        (discriminate (S1 ltac:(by eexists)) || (destruct (S2 eq_refl); done) || (destruct (R1 ltac:(by eexists)); done) || (destruct (R2 ltac:(tauto)); done)).
    + rewrite L1, (proj1 (size_held h Hok)). by destruct (activity_of h).
    + rewrite L2, (proj2 (size_held h Hok)). by destruct (activity_of h).
  - unfold StopListening. destruct (udpSocket h) as [k|] eqn:Hk.
    + destruct (release_ok h Hok) as (h' & -> & Hok' & Hb & Hs & L1 & L2); [ by eexists | ]. exists h'. split_and!; [ done | done | | | ].
      * unfold activity_of. rewrite Hs, Hk. unfold held_buffers in Hb. destruct (receivingBuffer h'); [ cbn in Hb; set_solver | done ].
      * rewrite L1. unfold activity_of. rewrite Hk. cbn. lia.
      * rewrite L2. unfold activity_of. rewrite Hk. cbn. lia.
    + exists h. unfold activity_of. rewrite Hk. destruct (receivingBuffer h); split_and!; try done; cbn; lia.
Qed.

Lemma listen_run_ok os : forall h, listener_ok h -> exists h', listen_run h os = Some h' /\ listener_ok h' /\ activity_of h' = fold_left next_activity os (activity_of h)
  /\ Z.of_nat (size (lost_sockets h')) = Z.of_nat (size (lost_sockets h)) + (losses (activity_of h) os).1
  /\ Z.of_nat (size (lost_buffers h')) = Z.of_nat (size (lost_buffers h)) + (losses (activity_of h) os).2.
Proof.
  induction os as [|o os IH]; intros h Hok; cbn [listen_run losses fold_left]; [ exists h; split_and!; try done; cbn; lia | ].
  destruct (listen_step_ok h o Hok) as (h1 & -> & Hok1 & A1 & S1 & B1). cbn [mbind option_bind]. destruct (IH h1 Hok1) as (h' & E & Hok' & A' & S' & B'). exists h'.
  rewrite A1 in *. destruct (loses (activity_of h) o) as [x y], (losses (next_activity (activity_of h) o) os) as [xs ys]. cbn [fst snd] in *. split_and!; try done; lia.
Qed.

(** In every sequence of listening and stopping, sockets and buffers are released only when they
    exist, and each once. What is never released is exactly this: a listen while the host listens
    loses a socket and two buffers, and one after a listen whose UDP socket could not be created
    loses the two buffers of that; all the rest is released or in use. *)
Theorem udp_resources_are_accounted_for os : exists h, listen_run Listener_init os = Some h
  /\ Z.of_nat (size (sockets h)) = (losses Idle os).1 + (match fold_left next_activity os Idle with Listening => 1 | _ => 0 end)
  /\ Z.of_nat (size (buffers h)) = (losses Idle os).2 + (match fold_left next_activity os Idle with Idle => 0 | _ => 2 end).
Proof.
  assert (listener_ok Listener_init) as Hi by (split; cbn; try done; set_solver).
  destruct (listen_run_ok os Listener_init Hi) as (h & E & Hok & A & S1 & B1). exists h. split; [ done | ]. destruct (size_held h Hok) as [Es Eb]. rewrite A in Es, Eb.
  change (activity_of Listener_init) with Idle in *. change (Z.of_nat (size (lost_sockets Listener_init))) with 0 in S1.
  assert (Z.of_nat (size (lost_buffers Listener_init)) = 0) as Z0 by reflexivity. rewrite Z0 in B1. lia.
Qed.

(** ** Peers *)

Section Peers.

(** [reader.op(ptr, n)]: the bytes it stores; with enough bytes these are the next ones. *)
Context (read_bytes : list Z -> nat -> list Z).
Context (read_enough : forall l n, (n <= length l)%nat -> read_bytes l n = take n l).

(** The fields of [uS::tcpudp::Peer] that the code still uses. *)
Record Peer := mkPeer {
  hasPeerThisAddress : bool;
  hasRemoteAddress : bool;
  hasSendingIdentity : bool;
  sendingIdentity : Z;
  receivingIdentity : Z;
  receivingKey : list Z
}.

(** [Peer::Peer]: the identities are not initialised ([garbage]), the keys are random. *)
Definition Peer_new (garbage : Z) (random : list Z) : Peer := mkPeer false false false garbage garbage random.

(** [peerByReceivingIdentity] and [firstFreeReceivingIdentity] of the host. *)
Record Peers := mkPeers { peerByReceivingIdentity : gmap Z nat; firstFreeReceivingIdentity : Z; peers : gmap nat Peer }.

(** [Peer::_InternalOnOpenFinish]. *)
Definition _InternalOnOpenFinish (s : Peers) (d : nat) (isClient : bool) : option Peers :=
  let* p := peers s !! d in
  let* (i, m) := UdpHost.GenerateNewReceivingIdentityForPeer (peerByReceivingIdentity s) (firstFreeReceivingIdentity s) d in
  Some (mkPeers m i (<[d := mkPeer (negb isClient) isClient false (sendingIdentity p) i (receivingKey p)]> (peers s))).

(** [Host::MakePeer] and [Host::_Internal_on_open_Finish]. *)
Definition on_open (s : Peers) (d : nat) (garbage : Z) (random : list Z) (isClient : bool) : option Peers :=
  _InternalOnOpenFinish (mkPeers (peerByReceivingIdentity s) (firstFreeReceivingIdentity s) (<[d := Peer_new garbage random]> (peers s))) d isClient.

(** [Peer::_InternalOnPacketWithControllSequenceBackend] on the bytes behind the header; a short
    packet is only logged. Other sequences are those of the base class. *)
Definition _InternalOnPacketWithControllSequenceBackend (p : Peer) (SSL : bool) (body : list Z) : Peer :=
  match body with
  | 0x80 :: rest =>
      mkPeer (hasPeerThisAddress p) (hasRemoteAddress p) true (le_load (read_bytes rest 4)) (receivingIdentity p)
        (if SSL then read_bytes (drop 4 rest) 32 else receivingKey p)
  | 0x81 :: _ => mkPeer true (hasRemoteAddress p) (hasSendingIdentity p) (sendingIdentity p) (receivingIdentity p) (receivingKey p)
  | _ => p
  end.

(** [Peer::_InternalHasQueuedSends]: [frames] is the number of frames kept for UDP, [tcp] the
    answer of the base class. *)
Definition _InternalHasQueuedSends (p : Peer) (frames : nat) (tcp : bool) : bool :=
  if negb (frames =? 0)%nat then true
  else if negb (hasPeerThisAddress p) then true
  else tcp.

(** [Peer::_InternalOnUdpPacket] throws. *)
Definition _InternalOnUdpPacket (s : Peers) (d : nat) (data : list Z) : option Peers := None.

Inductive family := INET | INET6 | OtherFamily.

(** [Host::_InternalOnReceiveUdpPacket]: each packet is the family of its sender and the bytes of
    its payload slot, whose first four are read whatever was received. The address
    that is stored for a peer without a remote address is not kept in the model. *)
Fixpoint _InternalOnReceiveUdpPacket (s : Peers) (packets : list (family * list Z)) : option Peers :=
  match packets with
  | [] => Some s
  | (OtherFamily, _) :: packets => _InternalOnReceiveUdpPacket s packets
  | (_, payload) :: packets =>
      match peerByReceivingIdentity s !! le_load (take 4 payload) with
      | None => _InternalOnReceiveUdpPacket s packets
      | Some d => let* s := _InternalOnUdpPacket s d (drop 4 payload) in _InternalOnReceiveUdpPacket s packets
      end
  end.

Inductive peer_op := POpen (d : nat) (garbage : Z) (random : list Z) (isClient : bool) | PControl (d : nat) (SSL : bool) (body : list Z).

Definition peer_step (s : Peers) (o : peer_op) : option Peers :=
  match o with
  | POpen d g r c => if bool_decide (is_Some (peers s !! d)) then Some s else on_open s d g r c
  | PControl d ssl body =>
      match peers s !! d with
      | Some p => Some (mkPeers (peerByReceivingIdentity s) (firstFreeReceivingIdentity s) (<[d := _InternalOnPacketWithControllSequenceBackend p ssl body]> (peers s)))
      | None => Some s
      end
  end.

Fixpoint peer_run (s : Peers) (os : list peer_op) : option Peers :=
  match os with
  | [] => Some s
  | o :: os => let* s := peer_step s o in peer_run s os
  end.

Record peers_ok (s : Peers) : Prop := {
  po_first : is_u32 (firstFreeReceivingIdentity s);
  po_peer : forall d p, peers s !! d = Some p -> is_u32 (receivingIdentity p) /\ receivingIdentity p <> 0 /\ peerByReceivingIdentity s !! receivingIdentity p = Some d;
  po_table : forall i d, peerByReceivingIdentity s !! i = Some d -> i <> 0 /\ is_Some (peers s !! d)
}.

Lemma control_identity p ssl body : receivingIdentity (_InternalOnPacketWithControllSequenceBackend p ssl body) = receivingIdentity p.
Proof. unfold _InternalOnPacketWithControllSequenceBackend. repeat case_match; done. Qed.

Lemma peer_step_ok s o : peers_ok s -> Z.of_nat (size (peerByReceivingIdentity s)) < 2 ^ 32 - 2 ->
  exists s', peer_step s o = Some s' /\ peers_ok s' /\ (size (peerByReceivingIdentity s') <= S (size (peerByReceivingIdentity s)))%nat.
Proof.
  intros Hok Hn. pose proof Hok as [P1 P2 P3]. destruct o as [d g r c | d ssl body]; cbn [peer_step].
  - case_bool_decide as Hd; [ exists s; split_and!; try done; lia | ]. apply eq_None_not_Some in Hd. unfold on_open, _InternalOnOpenFinish.
    cbn [peers peerByReceivingIdentity firstFreeReceivingIdentity]. rewrite lookup_insert_eq. cbn [mbind option_bind].
    destruct (UdpHost.identity_fresh (peerByReceivingIdentity s) (firstFreeReceivingIdentity s) d P1 ltac:(rewrite size_dom; exact Hn)) as (i & -> & Hi & H0 & Hnone). cbn [mbind option_bind].
    eexists. split; [ done | ]. rewrite insert_insert_eq. split; [ | cbn; by rewrite map_size_insert_None ]. split; cbn [peers peerByReceivingIdentity firstFreeReceivingIdentity]; [ done | | ].
    + intros d' p'. destruct (decide (d = d')) as [<- | Hne].
      * rewrite lookup_insert_eq. intros [= <-]. cbn [receivingIdentity]. rewrite lookup_insert_eq. done.
      * rewrite lookup_insert_ne by done. intros Hp'. destruct (P2 d' p' Hp') as (? & ? & Hl). split_and!; try done. rewrite lookup_insert_ne; [ done | congruence ].
    + intros i' d'. destruct (decide (i = i')) as [<- | Hne].
      * rewrite lookup_insert_eq. intros [= <-]. rewrite lookup_insert_eq. split; [ done | by eexists ].
      * rewrite lookup_insert_ne by done. intros Hl. destruct (P3 i' d' Hl) as [? Hs]. split; [ done | ]. by apply lookup_insert_is_Some'; right.
  - destruct (peers s !! d) as [p|] eqn:Hp; [ | exists s; split_and!; try done; lia ]. eexists. split; [ done | ]. cbn [peerByReceivingIdentity]. split; [ | lia ].
    split; cbn [peers peerByReceivingIdentity firstFreeReceivingIdentity]; [ done | | ].
    + intros d' p'. destruct (decide (d = d')) as [<- | Hne]; [ | rewrite lookup_insert_ne by done; apply P2 ]. rewrite lookup_insert_eq. intros [= <-].
      rewrite control_identity. by apply P2.
    + intros i d' Hl. destruct (P3 i d' Hl) as [? Hs]. split; [ done | ]. by apply lookup_insert_is_Some'; right.
Qed.

Lemma peer_run_ok os : forall s, peers_ok s -> Z.of_nat (size (peerByReceivingIdentity s)) + zlen os < 2 ^ 32 - 1 -> exists s', peer_run s os = Some s' /\ peers_ok s'.
Proof.
  induction os as [|o os IH]; intros s Hok Hn; [ by exists s | ]. rewrite zlen_cons in Hn. pose proof (zlen_nonneg os). cbn [peer_run].
  destruct (peer_step_ok s o Hok) as (s1 & -> & Hok1 & Hz); [ lia | ]. cbn [mbind option_bind]. apply IH; [ done | lia ].
Qed.

(** Every UDP peer gets an identity of its own, never zero, and the table of the host leads from
    the identity to the peer, whatever control sequences arrive; a packet that carries the
    identity of a peer stops the program, and packets of unknown identities are ignored. *)
Theorem udp_identities_are_unique os first : is_u32 first -> zlen os < 2 ^ 32 - 1 ->
  exists s, peer_run (mkPeers ∅ first ∅) os = Some s
    /\ (forall d p, peers s !! d = Some p -> receivingIdentity p <> 0 /\ peerByReceivingIdentity s !! receivingIdentity p = Some d)
    /\ (forall d1 d2 p1 p2, peers s !! d1 = Some p1 -> peers s !! d2 = Some p2 -> receivingIdentity p1 = receivingIdentity p2 -> d1 = d2)
    /\ forall packets, Forall (fun x => x.1 <> OtherFamily) packets ->
         _InternalOnReceiveUdpPacket s packets = if existsb (fun x => bool_decide (is_Some (peerByReceivingIdentity s !! le_load (take 4 x.2)))) packets then None else Some s.
Proof.
  intros Hf Hn. assert (peers_ok (mkPeers ∅ first ∅)) as Hi by (split; cbn; [ done | by intros d p; rewrite lookup_empty | by intros i d; rewrite lookup_empty ]).
  destruct (peer_run_ok os _ Hi) as (s & E & [P1 P2 P3]); [ exact Hn | ]. exists s. split_and!; [ done | | | ].
  - intros d p Hp. by destruct (P2 d p Hp) as (_ & ? & ?).
  - intros d1 d2 p1 p2 H1 H2 Ei. destruct (P2 d1 p1 H1) as (_ & _ & L1), (P2 d2 p2 H2) as (_ & _ & L2). congruence.
  - induction packets as [|[f payload] packets IH]; intros Hall; [ done | ]. apply Forall_cons in Hall as [Hx Hall]. cbn [_InternalOnReceiveUdpPacket existsb snd].
    destruct f; cbn [fst] in Hx; [ | | done ]; (destruct (peerByReceivingIdentity s !! le_load (take 4 payload)) as [d|];
      [ by rewrite bool_decide_true by (by eexists) | rewrite bool_decide_false by (by intros []); by apply IH ]).
Qed.

(** A control sequence 0x80 with enough bytes stores the identity that it carries. *)
Lemma identity_is_stored p rest : (4 <= length rest)%nat ->
  let p' := _InternalOnPacketWithControllSequenceBackend p false (0x80 :: rest) in hasSendingIdentity p' = true /\ sendingIdentity p' = le_load (take 4 rest).
Proof using read_enough. intros Hl. cbn. by rewrite read_enough. Qed.

End Peers.

(** ** Witnesses *)

Lemma udp_identities_are_unique_witness : exists s, peer_run (fun l n => take n l) (mkPeers ∅ (2 ^ 32 - 1) ∅) [POpen 4 77 [] true; POpen 5 78 [] false; PControl 4 false [0x80; 1; 2; 3; 4]] = Some s
  /\ _InternalOnReceiveUdpPacket s [(INET, [9; 9; 9; 9; 1])] = Some s.
Proof.
  destruct (udp_identities_are_unique (fun l n => take n l) [POpen 4 77 [] true; POpen 5 78 [] false; PControl 4 false [0x80; 1; 2; 3; 4]] (2 ^ 32 - 1)) as (s & E & _ & _ & Hr);
    [ split; lia | reflexivity | ].
  exists s. split; [ exact E | ]. rewrite Hr by (apply Forall_cons; split; [ discriminate | apply Forall_nil; exact I ]).
  vm_compute in E. injection E as <-. vm_compute. reflexivity.
Defined.

End UdpPeer.
