(* ===== verification/PeerSharing.v ===== *)
(** * Peers used from other threads (src/PeerManager.cpp, src/Loop.cpp, src/Peer.cpp)

    Only the thread of the loop changes the table of peers, but every thread may ask it
    questions ([GetCurrentVersionShared], [ExistsShared], [GetSharedPeer], [GetSharedHost]). The
    table is protected by a [std::shared_mutex]: [Alloc] and [Release] hold it exclusively
    around their writes, a question holds it shared; the rest of the closing of a peer, which
    clears the pointer that [GetSharedPeer] copies, runs without the mutex. The model
    interleaves the single writes and reads of the loop and of any number of other threads. It
    shows that no reachable state has a race, and that every answer is that of PeerManager.v on
    the peers as they were at one moment of the question. *)

From S2P Require Import Prelude PeersToFlush PeerManager.

Module PeerSharing.
Import PeerManager.

(** ** The writes of the loop *)

Inductive write :=
| PopFree
| StorePeer (i : Z) (p : option nat)
| PushPeer (d : nat)
| PushVersion
| PushOffset
| SetHandle (d : nat) (handle : PeerHandle)
| SetSharedHandle (d : nat) (handle : PeerHandle)
| PushFree (i : Z)
| Increment (i : Z)
| SkipZero (i : Z)
| RemoveFlush (i : Z).

Definition with_manager (w : World) (m : PeerManager) : World := mkWorld m (wst w) (wrefs w).

Definition with_data (w : World) (d : nat) (pd : PeerData) : World := mkWorld (wm w) (<[d := pd]> (wst w)) (wrefs w).

Definition apply_write (w : World) (x : write) : option World :=
  let m := wm w in
  match x with
  | PopFree => Some (with_manager w (mkPM (perHostOffset m) (peersToFlush m) (peers m) (versions m) (take (length (freeIds m) - 1) (freeIds m)) (pm_loop m)))
  | StorePeer i p =>
      let* ps := vset (peers m) i p in
      Some (with_manager w (mkPM (perHostOffset m) (peersToFlush m) ps (versions m) (freeIds m) (pm_loop m)))
  | PushPeer d => Some (with_manager w (mkPM (perHostOffset m) (peersToFlush m) (peers m ++ [Some d]) (versions m) (freeIds m) (pm_loop m)))
  | PushVersion => Some (with_manager w (mkPM (perHostOffset m) (peersToFlush m) (peers m) (versions m ++ [1]) (freeIds m) (pm_loop m)))
  | PushOffset => Some (with_manager w (mkPM (perHostOffset m ++ [-1]) (peersToFlush m) (peers m) (versions m) (freeIds m) (pm_loop m)))
  | SetHandle d handle =>
      let* pd := wst w !! d in Some (with_data w d (mkData (host pd) handle (sharedPeerHandle pd)))
  | SetSharedHandle d handle =>
      let* pd := wst w !! d in Some (with_data w d (mkData (host pd) (peerHandle pd) handle))
  | PushFree i => Some (with_manager w (mkPM (perHostOffset m) (peersToFlush m) (peers m) (versions m) (freeIds m ++ [i]) (pm_loop m)))
  | Increment i =>
      let* v := vget (versions m) i in
      let* vs := vset (versions m) i (u32 (v + 1)) in
      Some (with_manager w (mkPM (perHostOffset m) (peersToFlush m) (peers m) vs (freeIds m) (pm_loop m)))
  | SkipZero i =>
      let* v := vget (versions m) i in
      if v =? 0 then
        let* vs := vset (versions m) i (u32 (v + 1)) in
        Some (with_manager w (mkPM (perHostOffset m) (peersToFlush m) (peers m) vs (freeIds m) (pm_loop m)))
      else Some w
  | RemoveFlush i =>
      let* fl := PeersToFlush.RemovePeerToFlush (peersToFlush m) i in
      Some (with_manager w (mkPM (perHostOffset m) fl (peers m) (versions m) (freeIds m) (pm_loop m)))
  end.

Fixpoint apply_writes (w : World) (xs : list write) : option World :=
  match xs with
  | [] => Some w
  | x :: xs => let* w := apply_write w x in apply_writes w xs
  end.

(** The writes of [PeerManager::Alloc] behind its [lock_guard], and the handle it returns: those
    that take a slot, and those that store the handle. *)
Definition slot_writes (m : PeerManager) (d : nat) : option (list write * PeerHandle) :=
  if 0 <? zlen (freeIds m) then
    let* i := vget (freeIds m) (zlen (freeIds m) - 1) in
    let* v := vget (versions m) i in
    let* old := vget (peers m) i in
    assert* bool_decide (old = None) in
    Some ([PopFree; StorePeer i (Some d)], mkHandle (mkId i v) (pm_loop m))
  else Some ([PushPeer d; PushVersion; PushOffset], mkHandle (mkId (u32 (zlen (peers m))) 1) (pm_loop m)).

Definition alloc_writes (m : PeerManager) (d : nat) : option (list write * PeerHandle) :=
  let* (xs, handle) := slot_writes m d in
  Some (xs ++ [SetHandle d handle; SetSharedHandle d handle], handle).

(** The writes of [PeerManager::Release] behind its [lock_guard]. *)
Definition release_writes (handle : PeerHandle) : list write :=
  let i := id (hid handle) in [PushFree i; StorePeer i None; Increment i; SkipZero i; RemoveFlush i].

(** ** The threads *)

(** What the loop is about to do. [AllocLock]: the data object exists, [Alloc] waits for the
    mutex; [Writing]: the writes that are left before it is unlocked; [AllocRefs] and
    [ReleaseRefs]: the rest of [PeerReferences::Alloc] and [Release]; [ReleaseCheck]: the test
    before the mutex; [ClearShared] and [ClearHandle]:
    [PeerData::_InternalClearInternalDataOnClose]. *)
Inductive after := AfterAlloc (d : nat) (h : Z) (handle : PeerHandle) | AfterRelease (d : nat) (handle : PeerHandle).

Inductive loop_pc :=
| Idle
| AllocLock (d : nat) (h : Z)
| Writing (xs : list write) (k : after)
| AllocRefs (d : nat) (h : Z) (handle : PeerHandle)
| ReleaseCheck (d : nat) (handle : PeerHandle)
| ReleaseLock (d : nat) (handle : PeerHandle)
| ReleaseRefs (d : nat) (handle : PeerHandle)
| ClearShared (d : nat)
| ClearHandle (d : nat).

(** The questions of other threads, and their answers; a peer is named by its data object. *)
Inductive query := GetCurrentVersionShared (h : PeerHandle) | ExistsShared (h : PeerHandle) | GetSharedPeer (h : PeerHandle) | GetSharedHost (h : PeerHandle).

Inductive answer := AHandle (h : PeerHandle) | ABool (b : bool) | APeer (p : option nat) | AHost (h : option Z).

Inductive reader_pc := RWait (q : query) | RLocked (q : query) | RData (q : query) (d : nat) | RAnswered.

Inductive event := EOpen (d : nat) (h : Z) | EClose (handle : PeerHandle) | EClear (d : nat) | EAnswer (t : nat) (q : query) (a : answer).

(** [cur]: the memory; [sharedPeer]: the data objects whose pointer [sharedPeer] is set;
    [exclusive] and [sharers]: who holds the mutex. *)
Record State := mkState {
  cur : World;
  sharedPeer : gset nat;
  lpc : loop_pc;
  exclusive : bool;
  sharers : gset nat;
  readers : gmap nat reader_pc;
  trace : list event
}.

Definition State_init (l : Z) : State := mkState (World_init l) ∅ Idle false ∅ ∅ [].

Inductive outcome := Blocked | Stopped | Next (s : State).

Definition next (o : option State) : outcome := match o with Some s => Next s | None => Stopped end.

Definition loop_at (s : State) (w : World) (pc : loop_pc) : State := mkState w (sharedPeer s) pc (exclusive s) (sharers s) (readers s) (trace s).

Definition lock_free (s : State) : bool := negb (exclusive s) && bool_decide (sharers s = ∅).

Definition lock_at (s : State) (locked : bool) (pc : loop_pc) (es : list event) : State :=
  mkState (cur s) (sharedPeer s) pc locked (sharers s) (readers s) (trace s ++ es).

Inductive loop_op := LOpen (d : nat) (h : Z) | LClose (handle : PeerHandle).

(** The loop begins an operation. [LOpen]: the constructor of a data object and the assertions
    of [Alloc]; [LClose]: [Host::_Internal_on_close_Finish] up to the release. *)
Definition loop_begin (s : State) (o : loop_op) : outcome :=
  match o with
  | LOpen d h =>
      if bool_decide (is_Some (wst (cur s) !! d)) then Blocked
      else Next (mkState (with_data (cur s) d (mkData h PeerHandle_default PeerHandle_default)) ({[d]} ∪ sharedPeer s) (AllocLock d h)
                   (exclusive s) (sharers s) (readers s) (trace s))
  | LClose handle =>
      next (let* p := GetLocalPeerData (wm (cur s)) handle in
            match p with
            | None => Some s
            | Some d => assert* bool_decide (d ∈ sharedPeer s) in Some (loop_at s (cur s) (ReleaseCheck d handle))
            end)
  end.

(** The end of [PeerReferences::Alloc]. *)
Definition alloc_refs (w : World) (d : nat) (h : Z) (handle : PeerHandle) : option World :=
  let* m := set_offset (wm w) (id (hid handle)) (i32 (zlen (refs_of w h))) in
  Some (mkWorld m (wst w) (<[h := refs_of w h ++ [d]]> (wrefs w))).

(** The end of [PeerReferences::Release], for the host of the peer. *)
Definition release_refs (w : World) (d : nat) (handle : PeerHandle) : option World :=
  let* pd := wst w !! d in
  let this := host pd in
  let refs := refs_of w this in
  let* off := vget (perHostOffset (wm w)) (id (hid handle)) in
  let* m := set_offset (wm w) (id (hid handle)) (-1) in
  let* (m, refs) :=
    if off + 1 =? zlen refs then Some (m, refs)
    else
      let* back := vget refs (zlen refs - 1) in
      let* refs := vset refs off back in
      let* moved := wst w !! back in
      let* m := set_offset m (id (hid (peerHandle moved))) off in
      Some (m, refs) in
  Some (mkWorld m (wst w) (<[this := take (length refs - 1) refs]> (wrefs w))).

(** A write to the [Peer] object needs the pointer to it. *)
Definition write_ok (s : State) (x : write) : bool :=
  match x with SetSharedHandle d _ => bool_decide (d ∈ sharedPeer s) | _ => true end.

(** One step of the thread of the loop. *)
Definition loop_step (s : State) (o : loop_op) : outcome :=
  match lpc s with
  | Idle => loop_begin s o
  | AllocLock d h =>
      if lock_free s then next (let* (xs, handle) := alloc_writes (wm (cur s)) d in Some (lock_at s true (Writing xs (AfterAlloc d h handle)) []))
      else Blocked
  | Writing (x :: xs) k => next (assert* write_ok s x in let* w := apply_write (cur s) x in Some (loop_at s w (Writing xs k)))
  | Writing [] (AfterAlloc d h handle) =>
      next (assert* negb (version (hid handle) =? 0) in Some (lock_at s false (AllocRefs d h handle) [EOpen d h]))
  | Writing [] (AfterRelease d handle) => Next (lock_at s false (ReleaseRefs d handle) [EClose handle])
  | AllocRefs d h handle => next (let* w := alloc_refs (cur s) d h handle in Some (loop_at s w Idle))
  | ReleaseCheck d handle =>
      next (let* e := ExistsLocal (wm (cur s)) handle in
            Some (loop_at s (cur s) (if (e : bool) then ReleaseLock d handle else ClearShared d)))
  | ReleaseLock d handle => if lock_free s then Next (lock_at s true (Writing (release_writes handle) (AfterRelease d handle)) []) else Blocked
  | ReleaseRefs d handle => next (let* w := release_refs (cur s) d handle in Some (loop_at s w (ClearShared d)))
  | ClearShared d =>
      next (assert* bool_decide (d ∈ sharedPeer s) in
            Some (mkState (cur s) (sharedPeer s ∖ {[d]}) (ClearHandle d) (exclusive s) (sharers s) (readers s) (trace s)))
  | ClearHandle d =>
      next (let* pd := wst (cur s) !! d in
            Some (mkState (with_data (cur s) d (mkData (host pd) PeerHandle_default (sharedPeerHandle pd))) (sharedPeer s) Idle
                    (exclusive s) (sharers s) (readers s) (trace s ++ [EClear d])))
  end.

Definition reader_at (s : State) (t : nat) (pc : reader_pc) (es : list event) : State :=
  mkState (cur s) (sharedPeer s) (lpc s) (exclusive s) (sharers s) (<[t := pc]> (readers s)) (trace s ++ es).

(** One step of another thread: the call, [shared_lock], the read of the table, for the last two
    questions the read of the data object, and the unlock. *)
Definition reader_step (s : State) (t : nat) (q : query) : outcome :=
  match readers s !! t with
  | None => Next (reader_at s t (RWait q) [])
  | Some (RWait q) =>
      if exclusive s then Blocked
      else Next (mkState (cur s) (sharedPeer s) (lpc s) (exclusive s) ({[t]} ∪ sharers s) (<[t := RLocked q]> (readers s)) (trace s))
  | Some (RLocked q) =>
      next match q with
      | GetCurrentVersionShared h => let* r := GetCurrentVersionLocal (wm (cur s)) h in Some (reader_at s t RAnswered [EAnswer t q (AHandle r)])
      | ExistsShared h => let* b := ExistsLocal (wm (cur s)) h in Some (reader_at s t RAnswered [EAnswer t q (ABool b)])
      | GetSharedPeer h =>
          let* p := GetLocalPeerData (wm (cur s)) h in
          Some match p with Some d => reader_at s t (RData q d) [] | None => reader_at s t RAnswered [EAnswer t q (APeer None)] end
      | GetSharedHost h =>
          let* p := GetLocalPeerData (wm (cur s)) h in
          Some match p with Some d => reader_at s t (RData q d) [] | None => reader_at s t RAnswered [EAnswer t q (AHost None)] end
      end
  | Some (RData q d) =>
      next match q with
      | GetSharedHost _ => let* pd := wst (cur s) !! d in Some (reader_at s t RAnswered [EAnswer t q (AHost (Some (host pd)))])
      | _ => Some (reader_at s t RAnswered [EAnswer t q (APeer (if bool_decide (d ∈ sharedPeer s) then Some d else None))])
      end
  | Some RAnswered => Next (mkState (cur s) (sharedPeer s) (lpc s) (exclusive s) (sharers s ∖ {[t]}) (delete t (readers s)) (trace s))
  end.

(** A schedule: which thread steps, and what it does next when it is idle. *)
Inductive label := Loop (o : loop_op) | Reader (t : nat) (q : query).

Definition step (s : State) (x : label) : outcome := match x with Loop o => loop_step s o | Reader t q => reader_step s t q end.

Fixpoint run (s : State) (xs : list label) : option State :=
  match xs with
  | [] => Some s
  | x :: xs => match step s x with Next s => run s xs | Blocked => run s xs | Stopped => None end
  end.

(** ** Races *)

Inductive location :=
| LPeers | LVersions | LFree | LOffsets | LFlush | LRefs
| LHost (d : nat) | LHandle (d : nat) | LSharedHandle (d : nat) | LShared (d : nat).

Definition write_location (x : write) : location :=
  match x with
  | PopFree | PushFree _ => LFree
  | StorePeer _ _ | PushPeer _ => LPeers
  | PushVersion | Increment _ | SkipZero _ => LVersions
  | PushOffset => LOffsets
  | SetHandle d _ => LHandle d
  | SetSharedHandle d _ => LSharedHandle d
  | RemoveFlush _ => LFlush
  end.

(** What the next step of the loop writes without atomics, when it begins [o] if it is idle. *)
Definition loop_writes (s : State) (o : loop_op) : list location :=
  match lpc s with
  | Idle =>
      match o with
      | LOpen d _ => if bool_decide (is_Some (wst (cur s) !! d)) then [] else [LHost d; LHandle d; LSharedHandle d; LShared d]
      | LClose _ => []
      end
  | Writing (x :: _) _ => [write_location x]
  | AllocRefs _ _ _ | ReleaseRefs _ _ => [LOffsets; LRefs]
  | ClearShared d => [LShared d]
  | ClearHandle d => [LHandle d]
  | _ => []
  end.

(** What the next step of another thread reads. *)
Definition reader_reads (s : State) (t : nat) : list location :=
  match readers s !! t with
  | Some (RLocked _) => [LPeers; LVersions]
  | Some (RData (GetSharedHost _) d) => [LHost d]
  | Some (RData _ d) => [LShared d]
  | _ => []
  end.

Definition race (s : State) : Prop := exists o t x, x ∈ loop_writes s o /\ x ∈ reader_reads s t.

(** ** The specification: one operation or question at a time *)

#[export] Instance answer_eq_dec : EqDecision answer.
Proof. solve_decision. Defined.

Definition spec_answer (w : World) (q : query) : option answer :=
  match q with
  | GetCurrentVersionShared h => let* r := GetCurrentVersionLocal (wm w) h in Some (AHandle r)
  | ExistsShared h => let* b := ExistsLocal (wm w) h in Some (ABool b)
  | GetSharedPeer h => let* p := GetLocalPeerData (wm w) h in Some (APeer p)
  | GetSharedHost h => let* p := GetLocalHost (wm w) (wst w) h in Some (AHost p)
  end.

Definition clear_data (w : World) (d : nat) : option World :=
  let* pd := wst w !! d in Some (with_data w d (mkData (host pd) PeerHandle_default (sharedPeerHandle pd))).

Definition spec_step (w : World) (e : event) : option World :=
  match e with
  | EOpen d h => let* (w, _) := world_open w d h in Some w
  | EClose handle => let* (w, _) := world_close w handle in Some w
  | EClear d => clear_data w d
  | EAnswer _ q a => assert* bool_decide (spec_answer w q = Some a) in Some w
  end.

Fixpoint spec_run (w : World) (es : list event) : option World :=
  match es with
  | [] => Some w
  | e :: es => let* w := spec_step w e in spec_run w es
  end.

Lemma spec_run_app es1 es2 : forall w, spec_run w (es1 ++ es2) = let* w := spec_run w es1 in spec_run w es2.
Proof. induction es1 as [|e es1 IH]; intros w; [ done | ]. cbn [app spec_run]. destruct (spec_step w e); [ apply IH | done ]. Qed.

(** ** The writes of an operation are the operation *)

Lemma apply_writes_app xs ys : forall w, apply_writes w (xs ++ ys) = let* w := apply_writes w xs in apply_writes w ys.
Proof. induction xs as [|x xs IH]; intros w; [ done | ]. cbn [app apply_writes]. destruct (apply_write w x); [ apply IH | done ]. Qed.

Lemma slot_writes_spec w d m handle : take_slot (wm w) d = Some (m, handle) ->
  exists xs, slot_writes (wm w) d = Some (xs, handle) /\ apply_writes w xs = Some (with_manager w m) /\ forall d' h', SetSharedHandle d' h' ∉ xs.
Proof.
  intros E. unfold take_slot, slot_writes in *. destruct (0 <? zlen (freeIds (wm w))).
  - destruct (vget (freeIds (wm w)) _) as [i|]; [ | done ]. destruct (vget (versions (wm w)) i) as [v|]; [ | done ]. destruct (vget (peers (wm w)) i) as [old|]; [ | done ].
    destruct (bool_decide (old = None)); [ | done ]. destruct (vset (peers (wm w)) i (Some d)) as [ps|] eqn:Eps; [ | done ]. injection E as <- <-.
    eexists. split; [ done | ]. cbn -[vset vget]. rewrite Eps. split; [ done | ]. intros d' h'. rewrite !elem_of_cons, elem_of_nil. naive_solver.
  - injection E as <- <-. eexists. split; [ done | ]. split; [ done | ]. intros d' h'. rewrite !elem_of_cons, elem_of_nil. naive_solver.
Qed.

Lemma alloc_writes_spec w d m st handle : Alloc (wm w) (wst w) d = Some (m, st, handle) ->
  exists xs, alloc_writes (wm w) d = Some (xs, handle) /\ apply_writes w xs = Some (mkWorld m st (wrefs w))
    /\ version (hid handle) <> 0 /\ forall d' h', SetSharedHandle d' h' ∈ xs -> d' = d.
Proof.
  unfold Alloc, alloc_writes. destruct (wst w !! d) as [pd|] eqn:Hd; [ | done ]. destruct (negb _); [ | done ].
  destruct (take_slot (wm w) d) as [[m' handle']|] eqn:Et; [ | done ]. destruct (slot_writes_spec w d m' handle' Et) as (xs & -> & Ex & Hx).
  destruct (negb (version _ =? 0)) eqn:Ev; [ | done ]. intros [= -> <- ->]. eexists. split; [ done | ]. rewrite apply_writes_app, Ex.
  cbn [apply_writes apply_write with_manager with_data wst wm wrefs]. rewrite Hd. cbn [with_data wst wm wrefs]. rewrite lookup_insert_eq. cbn [with_data wst wm wrefs host peerHandle sharedPeerHandle].
  unfold with_data, with_manager. cbn [wst wm wrefs]. rewrite insert_insert_eq. split_and!; [ done | by apply negb_true_iff, Z.eqb_neq in Ev | ].
  intros d' h'. rewrite elem_of_app, !elem_of_cons, elem_of_nil. intros [[]%Hx | Hin]. naive_solver.
Qed.

Lemma release_writes_spec w handle m d : Release (wm w) handle = Some (m, Some d) ->
  apply_writes w (release_writes handle) = Some (with_manager w m) /\ forall d' h', SetSharedHandle d' h' ∉ release_writes handle.
Proof.
  unfold Release, release_writes. set (i := id (hid handle)). intros E. destruct (ExistsLocal (wm w) handle) as [[]|]; [ | done.. ]. cbn [negb] in E.
  destruct (vget (peers (wm w)) i) as [data|] eqn:Ep; [ | done ]. destruct (vset (peers (wm w)) i None) as [ps|] eqn:Eps; [ | done ].
  destruct (vget (versions (wm w)) i) as [v|] eqn:Ev; [ | done ]. destruct (vset (versions (wm w)) i (next_version v)) as [vs|] eqn:Evs; [ | done ].
  destruct (PeersToFlush.RemovePeerToFlush (peersToFlush (wm w)) i) as [fl|] eqn:Efl; [ | done ]. injection E as <- ->.
  split; [ | intros d' h'; rewrite !elem_of_cons, elem_of_nil; naive_solver ].
  apply vset_Some in Evs as [Hr ->]. cbn -[vset vget next_version]. rewrite Eps. cbn -[vset vget next_version]. rewrite Ev, vset_in_range by done. cbn -[vset vget next_version].
  assert (forall x, vget (<[Z.to_nat i := x]> (versions (wm w))) i = Some x) as Hg by (intros x; rewrite (vget_vset _ _ _ _ _ (vset_in_range (versions (wm w)) i x Hr)), Z.eqb_refl; done).
  rewrite Hg. unfold next_version. destruct (u32 (v + 1) =? 0).
  - rewrite vset_in_range by (by rewrite zlen_insert). cbn -[vset vget]. rewrite list_insert_insert_eq, Efl. done.
  - cbn -[vset vget]. by rewrite Efl.
Qed.

Lemma release_returns m handle m' d : Release m handle = Some (m', Some d) -> GetLocalPeerData m handle = Some (Some d).
Proof.
  unfold Release, GetLocalPeerData. destruct (ExistsLocal m handle) as [[]|]; [ | done.. ]. cbn [negb]. destruct (vget (peers m) (id (hid handle))) as [data|]; [ | done ].
  destruct (vset (peers m) _ _); [ | done ]. destruct (vget (versions m) _); [ | done ]. destruct (vset (versions m) _ _); [ | done ]. destruct (PeersToFlush.RemovePeerToFlush _ _); [ | done ].
  by intros [= _ ->].
Qed.

(** ** The invariant *)

Definition dead (w : World) (d : nat) : Prop := forall i, vget (peers (wm w)) i <> Some (Some d).

Definition new_data (h : Z) : PeerData := mkData h PeerHandle_default PeerHandle_default.

(** How the memory relates to the world [w] of the specification at each point of the loop. *)
Definition phase (w : World) (s : State) : Prop :=
  match lpc s with
  | Idle => cur s = w
  | AllocLock d h => wst w !! d = None /\ d ∈ sharedPeer s /\ cur s = with_data w d (new_data h)
  | Writing xs (AfterAlloc d h handle) =>
      wst w !! d = None /\ d ∈ sharedPeer s /\ version (hid handle) <> 0 /\ (forall d' h', SetSharedHandle d' h' ∈ xs -> d' = d)
      /\ exists c, apply_writes (cur s) xs = Some c /\ Alloc (wm w) (<[d := new_data h]> (wst w)) d = Some (wm c, wst c, handle) /\ wrefs c = wrefs w
  | AllocRefs d h handle => alloc_refs (cur s) d h handle = Some w
  | ReleaseCheck d handle | ReleaseLock d handle =>
      cur s = w /\ of_loop (pm_loop (wm w)) handle /\ GetLocalPeerData (wm w) handle = Some (Some d)
  | Writing xs (AfterRelease d handle) =>
      of_loop (pm_loop (wm w)) handle /\ GetLocalPeerData (wm w) handle = Some (Some d) /\ (forall d' h', SetSharedHandle d' h' ∉ xs)
      /\ exists c, apply_writes (cur s) xs = Some c /\ Release (wm w) handle = Some (wm c, Some d) /\ wst c = wst w /\ wrefs c = wrefs w
  | ReleaseRefs d handle => release_refs (cur s) d handle = Some w /\ dead w d /\ d ∈ sharedPeer s
  | ClearShared d => cur s = w /\ dead w d /\ is_Some (wst w !! d) /\ d ∈ sharedPeer s
  | ClearHandle d => cur s = w /\ dead w d /\ is_Some (wst w !! d)
  end.

Definition query_handle (q : query) : PeerHandle :=
  match q with GetCurrentVersionShared h | ExistsShared h | GetSharedPeer h | GetSharedHost h => h end.

Definition asks_data (q : query) : bool := match q with GetSharedPeer _ | GetSharedHost _ => true | _ => false end.

Definition holds (pc : reader_pc) : bool := match pc with RWait _ => false | _ => true end.

(** A thread between its call and its unlock. *)
Definition reader_ok (w : World) (pc : reader_pc) : Prop :=
  match pc with
  | RWait q | RLocked q => of_loop (pm_loop (wm w)) (query_handle q)
  | RData q d => asks_data q = true /\ of_loop (pm_loop (wm w)) (query_handle q) /\ GetLocalPeerData (wm w) (query_handle q) = Some (Some d)
  | RAnswered => True
  end.

Definition writing (pc : loop_pc) : bool := match pc with Writing _ _ => true | _ => false end.

Record ok (w : World) (s : State) : Prop := {
  ok_inv : inv w;
  ok_phase : phase w s;
  ok_shared : forall i d, vget (peers (wm w)) i = Some (Some d) -> d ∈ sharedPeer s;
  ok_exclusive : exclusive s = writing (lpc s);
  ok_excludes : exclusive s = true -> sharers s = ∅;
  ok_sharers : forall t, t ∈ sharers s <-> exists pc, readers s !! t = Some pc /\ holds pc = true;
  ok_readers : forall t pc, readers s !! t = Some pc -> reader_ok w pc
}.

(** Setting a field of a peer that is in no slot. *)
Lemma clear_dead_inv w d pd : inv w -> dead w d -> wst w !! d = Some pd -> inv (with_data w d (mkData (host pd) PeerHandle_default (sharedPeerHandle pd))).
Proof.
  intros [] Hdead Hpd. split; cbn [with_data wm wst]; try done.
  - intros i v d' Hi Hv. rewrite lookup_insert_ne; [ by eapply inv_live0 | ]. intros <-. by apply (Hdead i).
  - by rewrite map_size_insert_Some by (by eexists).
  - intros h k d' Hk. destruct (inv_refs0 h k d' Hk) as (i & pd' & ? & ? & ? & ?). exists i, pd'. rewrite lookup_insert_ne; [ done | ]. intros <-. by apply (Hdead i).
  - intros i d' pd' Hi. rewrite lookup_insert_ne; [ by apply inv_offs0 | ]. intros <-. by apply (Hdead i).
Qed.

Lemma set_offset_table m i off m' : set_offset m i off = Some m' -> peers m' = peers m /\ versions m' = versions m /\ pm_loop m' = pm_loop m.
Proof. unfold set_offset. destruct (vset _ _ _); [ | done ]. by intros [= <-]. Qed.

Lemma alloc_refs_table c d h handle w : alloc_refs c d h handle = Some w ->
  peers (wm c) = peers (wm w) /\ versions (wm c) = versions (wm w) /\ pm_loop (wm c) = pm_loop (wm w) /\ wst c = wst w.
Proof. unfold alloc_refs. destruct (set_offset _ _ _) as [m|] eqn:E; [ | done ]. intros [= <-]. apply set_offset_table in E as (? & ? & ?). cbn. done. Qed.

Lemma release_refs_table c d handle w : release_refs c d handle = Some w ->
  peers (wm c) = peers (wm w) /\ versions (wm c) = versions (wm w) /\ pm_loop (wm c) = pm_loop (wm w) /\ wst c = wst w.
Proof.
  unfold release_refs. destruct (wst c !! d) as [pd|]; [ | done ]. destruct (vget (perHostOffset _) _) as [off|]; [ | done ]. destruct (set_offset _ _ _) as [m|] eqn:E; [ | done ].
  apply set_offset_table in E as (E1 & E2 & E3). destruct (off + 1 =? _); [ by intros [= <-] | ].
  destruct (vget _ (_ - 1)) as [back|]; [ | done ]. destruct (vset _ off back) as [refs|]; [ | done ]. destruct (wst c !! back) as [moved|]; [ | done ].
  destruct (set_offset m _ off) as [m'|] eqn:E; [ | done ]. intros [= <-]. apply set_offset_table in E as (F1 & F2 & F3). cbn. split_and!; congruence.
Qed.

(** Outside the critical sections the table in memory is that of the specification. *)
Lemma table_view w s : ok w s -> exclusive s = false ->
  peers (wm (cur s)) = peers (wm w) /\ versions (wm (cur s)) = versions (wm w) /\ pm_loop (wm (cur s)) = pm_loop (wm w)
  /\ forall d pd, wst w !! d = Some pd -> wst (cur s) !! d = Some pd.
Proof.
  intros Hok He. pose proof (ok_phase _ _ Hok) as Hp. rewrite (ok_exclusive _ _ Hok) in He. unfold phase in Hp. destruct (lpc s) as [ |d h| |d h handle|d handle|d handle|d handle|d|d]; try done.
  - by rewrite Hp.
  - destruct Hp as (Hn & _ & ->). split_and!; try done. intros d' pd Hd. cbn. rewrite lookup_insert_ne; [ done | congruence ].
  - apply alloc_refs_table in Hp as (-> & -> & -> & ->). done.
  - by destruct Hp as [-> _].
  - by destruct Hp as [-> _].
  - destruct Hp as [Hp _]. apply release_refs_table in Hp as (-> & -> & -> & ->). done.
  - by destruct Hp as [-> _].
  - by destruct Hp as [-> _].
Qed.

Lemma lookup_congr m m' h : peers m = peers m' -> versions m = versions m' -> pm_loop m = pm_loop m' ->
  GetLocalPeerData m h = GetLocalPeerData m' h /\ ExistsLocal m h = ExistsLocal m' h /\ GetCurrentVersionLocal m h = GetCurrentVersionLocal m' h.
Proof. intros E1 E2 E3. unfold GetLocalPeerData, ExistsLocal, GetCurrentVersionLocal. by rewrite E1, E2, E3. Qed.

Lemma live_data w h d : inv w -> of_loop (pm_loop (wm w)) h -> GetLocalPeerData (wm w) h = Some (Some d) ->
  exists i v pd, vget (peers (wm w)) i = Some (Some d) /\ vget (versions (wm w)) i = Some v /\ wst w !! d = Some pd /\ i = id (hid h) /\ v = version (hid h).
Proof.
  intros Hw [Hl Hid] E. destruct (GetLocalPeerData_spec w h Hw Hl Hid) as (r & E' & Hr). rewrite E in E'. injection E' as <-. destruct (proj1 (Hr d) eq_refl) as [Hi Hv].
  destruct (inv_live _ Hw _ _ _ Hi Hv) as [hh Hd]. by eexists _, _, _.
Qed.

(** ** No race *)

Lemma ok_no_race w s : ok w s -> ~ race s.
Proof.
  intros Hok (o & t & x & Hx & Ht). unfold reader_reads in Ht. destruct (readers s !! t) as [pc|] eqn:Hpc; [ | by apply not_elem_of_nil in Ht ].
  assert (holds pc = true -> exclusive s = false) as Hh.
  { intros Hh. destruct (exclusive s) eqn:He; [ | done ]. pose proof (proj2 (ok_sharers _ _ Hok t) ltac:(by eexists)) as Hin. rewrite (ok_excludes _ _ Hok He) in Hin. set_solver. }
  pose proof (ok_readers _ _ Hok _ _ Hpc) as Hr. pose proof (ok_phase _ _ Hok) as Hp. pose proof (table_view _ _ Hok) as Hv. pose proof (ok_exclusive _ _ Hok) as He.
  assert (forall q d, pc = RData q d -> is_Some (wst (cur s) !! d) /\ ~ dead w d) as Hd.
  { intros q d ->. destruct Hr as (_ & Hof & Hg). destruct (live_data _ _ _ (ok_inv _ _ Hok) Hof Hg) as (i & v & pd & Hi & _ & Hpd & _).
    split; [ eexists; by apply Hv; [ apply Hh | ] | intros Hdd; by apply (Hdd i) ]. }
  unfold loop_writes, phase in *. destruct pc as [q|q|q d|]; try by apply not_elem_of_nil in Ht.
  - rewrite Hh in He by done. destruct (lpc s) as [ |d h|[|y ys] k|d h handle|d handle|d handle|d handle|d|d]; try done; try (destruct o; [ case_bool_decide | ]); set_solver.
  - rewrite Hh in He by done. destruct (Hd q d eq_refl) as [Hs Hnd].
    assert (x = LHost d \/ x = LShared d) as Hxd by (destruct q; set_solver). clear Ht.
    destruct (lpc s) as [ |d' h|[|y ys] k|d' h handle|d' handle|d' handle|d' handle|d'|d']; try done; try by apply not_elem_of_nil in Hx.
    + destruct o as [d' h|]; [ case_bool_decide as Hb | ]; [ set_solver | | set_solver ]. assert (d' = d) as -> by set_solver. done.
    + set_solver.
    + set_solver.
    + assert (d' = d) as -> by set_solver. by destruct Hp as (_ & ? & _).
    + set_solver.
Qed.

(** ** Every step keeps the invariant *)

(** A step is blocked, or it does what the events that it records do in the specification. *)
Definition progress (w : World) (s : State) (o : outcome) : Prop :=
  o = Blocked \/ exists s' es w', o = Next s' /\ trace s' = trace s ++ es /\ spec_run w es = Some w' /\ ok w' s'
    /\ (size (wst w') <= size (wst w) + 1)%nat /\ pm_loop (wm w') = pm_loop (wm w).

Lemma silent w s s' o : o = Next s' -> trace s' = trace s -> ok w s' -> progress w s o.
Proof. intros -> Ht Hok. right. exists s', [], w. rewrite app_nil_r. split_and!; try done. lia. Qed.

Lemma loop_at_ok w s c pc : ok w s -> phase w (loop_at s c pc) -> writing pc = exclusive s -> ok w (loop_at s c pc).
Proof. intros [] Hp Hw. by split. Qed.

(** A thread moves on within its question. *)
Lemma reader_at_ok w s t pc pc' es : ok w s -> readers s !! t = Some pc -> holds pc' = holds pc -> reader_ok w pc' -> ok w (reader_at s t pc' es).
Proof.
  intros [] Hpc Hh Hr. split; try done; cbn [reader_at readers sharers].
  - intros t'. rewrite ok_sharers0. destruct (decide (t = t')) as [<- | Hne]; [ rewrite lookup_insert_eq | by rewrite lookup_insert_ne ].
    split; intros (x & E & Hx); [ | ]; eexists; (split; [ done | congruence ]).
  - intros t' x. destruct (decide (t = t')) as [<- | Hne]; [ rewrite lookup_insert_eq; by intros [= <-] | rewrite lookup_insert_ne by done; apply ok_readers0 ].
Qed.

Lemma answered w s t pc q a : ok w s -> readers s !! t = Some pc -> holds pc = true -> spec_answer w q = Some a ->
  progress w s (Next (reader_at s t RAnswered [EAnswer t q a])).
Proof.
  intros Hok Hpc Hh Ha. right. eexists _, [EAnswer t q a], w. split; [ done | ]. split; [ done | ]. split_and!; [ | | lia | done ].
  - cbn [spec_run spec_step]. by rewrite bool_decide_eq_true_2.
  - by apply (reader_at_ok w s t pc).
Qed.

Lemma GetCurrentVersionLocal_total w h : inv w -> loop h = pm_loop (wm w) -> 0 <= id (hid h) -> is_Some (GetCurrentVersionLocal (wm w) h).
Proof.
  intros Hinv Hl Hid. unfold GetCurrentVersionLocal. rewrite (inv_versions_len _ Hinv), Z.eqb_refl, Hl, Z.eqb_refl.
  destruct (Z.leb_spec (zlen (peers (wm w))) (id (hid h))); [ by eexists | ]. destruct (vget_is_Some (peers (wm w)) (id (hid h))) as [p ->]; [ lia | ].
  destruct (vget_is_Some (versions (wm w)) (id (hid h))) as [v ->]; [ rewrite (inv_versions_len _ Hinv); lia | ]. case_bool_decide; by eexists.
Qed.

Lemma reader_step_ok w s t q : ok w s -> of_loop (pm_loop (wm w)) (query_handle q) -> progress w s (reader_step s t q).
Proof.
  intros Hok Hq. unfold reader_step. destruct (readers s !! t) as [pc|] eqn:Hpc.
  2: { apply (silent w s (reader_at s t (RWait q) [])); [ done | cbn; apply app_nil_r | ]. destruct Hok. split; try done; cbn [reader_at readers sharers].
    - intros t'. rewrite ok_sharers0. destruct (decide (t = t')) as [<- | Hne]; [ rewrite lookup_insert_eq, Hpc; naive_solver | by rewrite lookup_insert_ne ].
    - intros t' x. destruct (decide (t = t')) as [<- | Hne]; [ rewrite lookup_insert_eq; by intros [= <-] | rewrite lookup_insert_ne by done; apply ok_readers0 ]. }
  pose proof (ok_readers _ _ Hok _ _ Hpc) as Hr.
  assert (holds pc = true -> exclusive s = false) as Hh.
  { intros Hh. destruct (exclusive s) eqn:He; [ | done ]. pose proof (proj2 (ok_sharers _ _ Hok t) ltac:(by eexists)) as Hin. rewrite (ok_excludes _ _ Hok He) in Hin. set_solver. }
  destruct pc as [q0|q0|q0 d|].
  - destruct (exclusive s) eqn:He; [ by left | ]. eapply silent; [ done | done | ]. destruct Hok. split; try done; cbn [readers sharers].
    + cbn. by rewrite <- He.
    + intros t'. destruct (decide (t = t')) as [<- | Hne]; [ rewrite lookup_insert_eq; split; [ intros _; by eexists | set_solver ] | rewrite lookup_insert_ne by done; rewrite <- ok_sharers0; set_solver ].
    + intros t' x. destruct (decide (t = t')) as [<- | Hne]; [ rewrite lookup_insert_eq; by intros [= <-] | rewrite lookup_insert_ne by done; apply ok_readers0 ].
  - destruct (table_view w s Hok (Hh eq_refl)) as (E1 & E2 & E3 & E4). destruct Hr as [Hl Hid]. pose proof (ok_inv _ _ Hok) as Hinv.
    destruct q0 as [h|h|h|h]; cbn [query_handle] in *; destruct (lookup_congr (wm (cur s)) (wm w) h E1 E2 E3) as (G1 & G2 & G3); rewrite ?G1, ?G2, ?G3.
    + destruct (GetCurrentVersionLocal_total w h Hinv Hl Hid) as [r E]. rewrite E. cbn [next]. eapply answered; [ done | done | done | ]. cbn. by rewrite E.
    + destruct (ExistsLocal_spec w h Hinv Hl Hid) as (b & E & _). rewrite E. cbn [next]. eapply answered; [ done | done | done | ]. cbn. by rewrite E.
    + destruct (GetLocalPeerData_spec w h Hinv Hl Hid) as (r & E & _). rewrite E. destruct r as [d|]; cbn [next].
      * eapply silent; [ done | cbn; apply app_nil_r | ]. by apply (reader_at_ok w s t (RLocked (GetSharedPeer h))).
      * eapply answered; [ done | done | done | ]. cbn. by rewrite E.
    + destruct (GetLocalPeerData_spec w h Hinv Hl Hid) as (r & E & _). rewrite E. destruct r as [d|]; cbn [next].
      * eapply silent; [ done | cbn; apply app_nil_r | ]. by apply (reader_at_ok w s t (RLocked (GetSharedHost h))).
      * eapply answered; [ done | done | done | ]. cbn. unfold GetLocalHost. by rewrite E.
  - destruct Hr as (Ha & Hof & Hg). destruct (live_data _ _ _ (ok_inv _ _ Hok) Hof Hg) as (i & v & pd & Hi & Hv & Hpd & _). destruct (table_view w s Hok (Hh eq_refl)) as (_ & _ & _ & E4).
    destruct q0 as [h|h|h|h]; try done; cbn [query_handle] in *.
    + rewrite bool_decide_eq_true_2 by (by apply (ok_shared _ _ Hok i)). eapply answered; [ done | done | done | ]. cbn. by rewrite Hg.
    + rewrite (E4 _ _ Hpd). cbn [next]. eapply answered; [ done | done | done | ]. cbn. unfold GetLocalHost. by rewrite Hg, Hpd.
  - eapply silent; [ done | done | ]. pose proof (Hh eq_refl) as He. destruct Hok. split; try done; cbn [readers sharers].
    + cbn. by rewrite He.
    + intros t'. destruct (decide (t = t')) as [<- | Hne]; [ rewrite lookup_delete_eq; set_solver | rewrite lookup_delete_ne by done; rewrite <- ok_sharers0; set_solver ].
    + intros t' x. destruct (decide (t = t')) as [<- | Hne]; [ by rewrite lookup_delete_eq | rewrite lookup_delete_ne by done; apply ok_readers0 ].
Qed.

(** *** The loop *)

(** The specification has opened the peer; the list of its host is still to be changed. *)
Lemma open_commits w d h c handle : inv w -> wst w !! d = None -> Z.of_nat (size (wst w)) < 2 ^ 31 - 1 ->
  Alloc (wm w) (<[d := new_data h]> (wst w)) d = Some (wm c, wst c, handle) -> wrefs c = wrefs w ->
  exists w', world_open w d h = Some (w', handle) /\ inv w' /\ alloc_refs c d h handle = Some w' /\ pm_loop (wm w') = pm_loop (wm w)
    /\ (size (wst w') = S (size (wst w)))%nat /\ forall i d', vget (peers (wm w')) i = Some (Some d') -> d' = d \/ vget (peers (wm w)) i = Some (Some d').
Proof.
  intros Hw Hd Hn Ha Hr. destruct (world_open_spec w d h Hw Hd Hn) as (w' & i & v & E & Hw' & _ & Hp & _ & _ & Est & _ & Hl & _). pose proof E as E0.
  unfold world_open, PeerReferences_Alloc in E. change (mkData h PeerHandle_default PeerHandle_default) with (new_data h) in E. rewrite Ha in E.
  destruct (set_offset (wm c) _ _) as [m|] eqn:Eo; [ | done ]. injection E as <- Eh. rewrite <- Eh in E0. eexists. split; [ exact E0 | ]. split; [ done | ]. split_and!; [ | done | | ].
  - unfold alloc_refs, refs_of in *. rewrite Hr, Eo. done.
  - rewrite Est. by apply map_size_insert_None.
  - intros j d'. rewrite Hp. destruct (j =? i); [ intros [= <-]; by left | by right ].
Qed.

(** The specification has closed the peer; the list of its host is still to be changed. *)
Lemma close_commits w d c handle : inv w -> of_loop (pm_loop (wm w)) handle -> GetLocalPeerData (wm w) handle = Some (Some d) ->
  Release (wm w) handle = Some (wm c, Some d) -> wst c = wst w -> wrefs c = wrefs w ->
  exists w', world_close w handle = Some (w', Some d) /\ inv w' /\ release_refs c d handle = Some w' /\ pm_loop (wm w') = pm_loop (wm w)
    /\ wst w' = wst w /\ dead w' d /\ forall i d', vget (peers (wm w')) i = Some (Some d') -> vget (peers (wm w)) i = Some (Some d').
Proof.
  intros Hw [Hl Hid] Hg Hrel Hst Hrf. destruct (live_data w handle d Hw (conj Hl Hid) Hg) as (i & v & pd & Hi & Hv & Hpd & -> & ->).
  destruct (world_close_live w handle d Hw Hl Hid Hi Hv) as (w' & E & Hw' & Est & Hl' & Hp & _). pose proof E as E0.
  unfold world_close, GetLocalHost, PeerReferences_Release in E. rewrite Hg, Hpd in E. change (default 0 (Some (host pd))) with (host pd) in E. rewrite Hrel, Hpd, Z.eqb_refl in E. exists w'. split; [ done | ]. split; [ done | ]. split_and!; [ | done | done | | ].
  - unfold release_refs, refs_of in *. rewrite Hst, Hpd, Hrf. destruct (vget (perHostOffset (wm c)) (id (hid handle))) as [off|]; [ | done ].
    destruct (set_offset (wm c) (id (hid handle)) (-1)) as [m|]; [ | done ].
    match type of E with context [if ?b then _ else _] => destruct b end; [ by injection E as <- | ].
    destruct (vget _ (_ - 1)) as [back|]; [ | done ]. destruct (vset _ off back) as [refs|]; [ | done ]. destruct (wst w !! back) as [moved|]; [ | done ].
    destruct (set_offset m _ off) as [m'|]; [ | done ]. by injection E as <-.
  - intros j. rewrite Hp. destruct (Z.eqb_spec j (id (hid handle))); [ done | ]. intros Hj. by apply (slot_inj w _ _ _ Hw Hj) in Hi.
  - intros j d'. rewrite Hp. by destruct (j =? id (hid handle)).
Qed.

(** While the loop holds the mutex nobody is at the table, so that it can change. *)
Lemma no_holder w s t pc : ok w s -> exclusive s = true -> readers s !! t = Some pc -> exists q, pc = RWait q.
Proof.
  intros Hok He Hpc. destruct pc as [q|q|q d|]; [ by eexists | exfalso.. ];
    (pose proof (proj2 (ok_sharers _ _ Hok t) ltac:(by eexists)) as Hin; rewrite (ok_excludes _ _ Hok He) in Hin; set_solver).
Qed.

(** The unlock at the end of a critical section: the specification moves from [w] to [w']. *)
Lemma unlock_ok w w' s pc es : ok w s -> inv w' -> pm_loop (wm w') = pm_loop (wm w) -> exclusive s = true -> writing pc = false ->
  (forall i d, vget (peers (wm w')) i = Some (Some d) -> d ∈ sharedPeer s) -> phase w' (lock_at s false pc es) -> ok w' (lock_at s false pc es).
Proof.
  intros Hok Hw' Hl He Hpc Hsh Hp. pose proof (no_holder w s) as Hno. destruct Hok as []. split; try done.
  intros t x Hx. cbn [lock_at readers] in Hx. destruct (Hno t x) as [q ->]; [ by split | done | done | ]. pose proof (ok_readers0 _ _ Hx) as Hr. cbn in *. by rewrite Hl.
Qed.

Lemma lock_ok w s pc : ok w s -> lock_free s = true -> writing pc = true -> phase w (lock_at s true pc []) -> ok w (lock_at s true pc []).
Proof.
  intros [] Hf Hpc Hp. unfold lock_free in Hf. apply andb_true_iff in Hf as [_ Hf%bool_decide_eq_true]. by split.
Qed.

Lemma begin_ok w s o : ok w s -> lpc s = Idle -> (forall h, o = LClose h -> of_loop (pm_loop (wm w)) h) -> progress w s (loop_begin s o).
Proof.
  intros Hok Hpc Ho. pose proof (ok_phase _ _ Hok) as Hp. pose proof (ok_exclusive _ _ Hok) as He. unfold phase in Hp. rewrite Hpc in *. cbn in He. destruct o as [d h | handle]; cbn [loop_begin].
  - case_bool_decide as Hd; [ by left | ]. apply eq_None_not_Some in Hd. eapply silent; [ done | done | ]. destruct Hok. split; try done.
    + cbn. rewrite <- Hp. split_and!; [ done | set_solver | done ].
    + intros i d' Hi. cbn. apply ok_shared0 in Hi. set_solver.
  - rewrite Hp. destruct (Ho handle eq_refl) as [Hl Hid]. destruct (GetLocalPeerData_spec w handle (ok_inv _ _ Hok) Hl Hid) as (r & E & _). rewrite E.
    destruct r as [d|]; [ | by eapply silent ]. destruct (live_data w handle d (ok_inv _ _ Hok) (conj Hl Hid) E) as (i & _ & _ & Hi & _).
    rewrite bool_decide_eq_true_2 by (by apply (ok_shared _ _ Hok i)). eapply silent; [ done | done | ]. apply loop_at_ok; [ done | done | by rewrite He ].
Qed.

(** One write inside a critical section. *)
Lemma write_step_ok w s x xs k : ok w s -> lpc s = Writing (x :: xs) k ->
  exists c, write_ok s x = true /\ apply_write (cur s) x = Some c /\ ok w (loop_at s c (Writing xs k)).
Proof.
  intros Hok Hpc. pose proof (ok_phase _ _ Hok) as Hp. pose proof (ok_exclusive _ _ Hok) as He. unfold phase in Hp. rewrite Hpc in *. cbn in He. destruct k as [d h handle | d handle].
  - destruct Hp as (Hd & Hs & Hv & Hx & c & Ec & Ha & Hr). cbn [apply_writes] in Ec. destruct (apply_write (cur s) x) as [c1|] eqn:E1; [ | done ]. exists c1. split_and!; [ | done | ].
    + destruct x; try done. cbn. apply bool_decide_eq_true_2. by rewrite (Hx _ _ ltac:(by left)).
    + apply loop_at_ok; [ done | | done ]. cbn. split_and!; [ done | done | done | intros d' h' Hin; apply (Hx d' h'); by right | by exists c ].
  - destruct Hp as (Hof & Hg & Hx & c & Ec & Ha & Hr). cbn [apply_writes] in Ec. destruct (apply_write (cur s) x) as [c1|] eqn:E1; [ | done ]. exists c1. split_and!; [ | done | ].
    + destruct x as [| | | | | |d' h'| | | |]; try done. exfalso. apply (Hx d' h'). by left.
    + apply loop_at_ok; [ done | | done ]. cbn. split_and!; [ done | done | intros d' h' Hin; apply (Hx d' h'); by right | by exists c ].
Qed.

Lemma unlock_step_ok w s k : ok w s -> lpc s = Writing [] k -> Z.of_nat (size (wst w)) < 2 ^ 31 - 1 -> forall o, progress w s (loop_step s o).
Proof.
  intros Hok Hpc Hn o. pose proof (ok_phase _ _ Hok) as Hp. pose proof (ok_exclusive _ _ Hok) as He. pose proof (ok_inv _ _ Hok) as Hw. unfold phase in Hp. unfold loop_step. rewrite Hpc in *. cbn in He. right.
  destruct k as [d h handle | d handle].
  - destruct Hp as (Hd & Hs & Hv & _ & c & [= <-] & Ha & Hr). destruct (open_commits w d h (cur s) handle Hw Hd Hn Ha Hr) as (w' & E & Hw' & Er & Hl & Hz & Hp').
    rewrite (proj2 (Z.eqb_neq _ _) Hv). cbn [negb next]. eexists _, [EOpen d h], w'. split; [ done | ]. split; [ done | ]. split_and!; [ cbn; by rewrite E | | lia | done ].
    apply (unlock_ok w); try done. intros i d' Hi. destruct (Hp' i d' Hi) as [-> | Hi']; [ done | by apply (ok_shared _ _ Hok i) ].
  - destruct Hp as (Hof & Hg & _ & c & [= <-] & Ha & Hst & Hr). destruct (close_commits w d (cur s) handle Hw Hof Hg Ha Hst Hr) as (w' & E & Hw' & Er & Hl & Est & Hdead & Hp').
    eexists _, [EClose handle], w'. split; [ done | ]. split; [ done | ]. split_and!; [ cbn; by rewrite E | | rewrite Est; lia | done ].
    apply (unlock_ok w); try done; [ intros i d' Hi%Hp'; by apply (ok_shared _ _ Hok i) | ]. cbn. split_and!; [ done | done | ].
    destruct (live_data w handle d Hw Hof Hg) as (i & _ & _ & Hi & _). by apply (ok_shared _ _ Hok i).
Qed.

Lemma clear_step_ok w s d : ok w s -> lpc s = ClearHandle d -> forall o, progress w s (loop_step s o).
Proof.
  intros Hok Hpc o. pose proof (ok_phase _ _ Hok) as Hp. pose proof (ok_exclusive _ _ Hok) as He. unfold phase in Hp. unfold loop_step. rewrite Hpc in *. cbn in He. destruct Hp as (E & Hdead & [pd Hpd]). rewrite E, Hpd. cbn [next].
  right. eexists _, [EClear d], (with_data w d (mkData (host pd) PeerHandle_default (sharedPeerHandle pd))). split; [ done | ]. split; [ done | ]. split_and!; [ | | | done ].
  - cbn. unfold clear_data. by rewrite Hpd.
  - pose proof (clear_dead_inv w d pd (ok_inv _ _ Hok) Hdead Hpd) as Hw'. destruct Hok. by split.
  - cbn. rewrite map_size_insert_Some by (by eexists). lia.
Qed.

Lemma sharing_loop_ok w s o : ok w s -> (forall h, o = LClose h -> of_loop (pm_loop (wm w)) h) -> Z.of_nat (size (wst w)) < 2 ^ 31 - 1 -> progress w s (loop_step s o).
Proof.
  intros Hok Ho Hn. pose proof (ok_phase _ _ Hok) as Hp. pose proof (ok_exclusive _ _ Hok) as He. pose proof (ok_inv _ _ Hok) as Hw.
  destruct (lpc s) as [ |d h|[|x xs] k|d h handle|d handle|d handle|d handle|d|d] eqn:Hpc;
    [ unfold loop_step; rewrite Hpc; by apply begin_ok | | by eapply unlock_step_ok | | | | | | | by eapply clear_step_ok ];
    unfold phase in Hp; unfold loop_step; rewrite Hpc in *; cbn in He.
  - destruct (lock_free s) eqn:Hf; [ | by left ]. destruct Hp as (Hd & Hs & Ec).
    destruct (world_open_spec w d h Hw Hd Hn) as (w' & i & v & E & _). unfold world_open, PeerReferences_Alloc in E. change (mkData h PeerHandle_default PeerHandle_default) with (new_data h) in E.
    destruct (Alloc (wm w) (<[d := new_data h]> (wst w)) d) as [[[m st] handle]|] eqn:Ea; [ | done ].
    destruct (alloc_writes_spec (cur s) d m st handle) as (xs & E1 & E2 & Hv & Hx); [ by rewrite Ec | ]. rewrite E1. cbn [next]. eapply silent; [ done | cbn; apply app_nil_r | ]. apply lock_ok; try done.
    cbn. split_and!; [ done.. | ]. eexists. split; [ done | ]. by rewrite Ec.
  - destruct (write_step_ok w s x xs k Hok Hpc) as (c & -> & -> & Hok'). by eapply silent.
  - rewrite Hp. cbn [next]. eapply silent; [ done | done | ]. by apply loop_at_ok.
  - destruct Hp as (Ec & [Hl Hid] & Hg). rewrite Ec. destruct (ExistsLocal_spec w handle Hw Hl Hid) as (b & E & Hb). rewrite E. cbn [next]. unfold GetLocalPeerData in Hg. rewrite E in Hg. destruct b; [ | done ].
    eapply silent; [ done | done | ]. apply loop_at_ok; [ done | | done ]. cbn. unfold GetLocalPeerData. by rewrite E.
  - destruct (lock_free s) eqn:Hf; [ | by left ]. destruct Hp as (Ec & Hof & Hg). destruct (live_data w handle d Hw Hof Hg) as (i & v & pd & Hi & Hv & Hpd & -> & ->). destruct Hof as [Hl Hid].
    destruct (world_close_live w handle d Hw Hl Hid Hi Hv) as (w' & E & _). unfold world_close, GetLocalHost, PeerReferences_Release in E. rewrite Hg, Hpd in E.
    destruct (Release (wm w) handle) as [[m [d'|]]|] eqn:Er; [ | done | done ]. rewrite (release_returns _ _ _ _ Er) in Hg. injection Hg as ->.
    destruct (release_writes_spec (cur s) handle m d) as [E1 Hx]; [ by rewrite Ec | ]. eapply silent; [ done | cbn; apply app_nil_r | ]. apply lock_ok; try done. cbn. split_and!; [ done | | done | ].
    + by apply (release_returns _ _ _ _ Er).
    + eexists. split; [ done | ]. by rewrite Ec.
  - destruct Hp as (Hr & Hdead & Hs). rewrite Hr. cbn [next]. eapply silent; [ done | done | ]. apply loop_at_ok; [ done | | done ]. cbn. split_and!; try done.
    pose proof (release_refs_table _ _ _ _ Hr) as (_ & _ & _ & <-). unfold release_refs in Hr. destruct (wst (cur s) !! d); [ by eexists | done ].
  - destruct Hp as (Ec & Hdead & Hd & Hs). rewrite bool_decide_eq_true_2 by done. cbn [next]. eapply silent; [ done | done | ]. destruct Hok. split; try done.
    intros i d' Hi. cbn. apply elem_of_difference. split; [ by apply (ok_shared0 i) | ]. intros ->%elem_of_singleton. by apply (Hdead i).
Qed.

(** ** Properties *)

(** The handles that are used are handles of this loop. *)
Definition label_ok (l : Z) (x : label) : Prop :=
  match x with
  | Loop (LOpen _ _) => True
  | Loop (LClose h) => of_loop l h
  | Reader _ q => of_loop l (query_handle q)
  end.

Lemma sharing_step_ok w s x : ok w s -> label_ok (pm_loop (wm w)) x -> Z.of_nat (size (wst w)) < 2 ^ 31 - 1 -> progress w s (step s x).
Proof.
  intros Hok Hx Hn. destruct x as [[d h|h] | t q]; cbn [step]; [ by apply sharing_loop_ok | apply sharing_loop_ok; [ done | by intros ? [= ->] | done ] | by apply reader_step_ok ].
Qed.

Lemma sharing_run_ok xs : forall w s, ok w s -> Forall (label_ok (pm_loop (wm w))) xs -> Z.of_nat (size (wst w)) + zlen xs < 2 ^ 31 ->
  exists s' es w', run s xs = Some s' /\ trace s' = trace s ++ es /\ spec_run w es = Some w' /\ ok w' s'.
Proof.
  induction xs as [|x xs IH]; intros w s Hok Hxs Hn; cbn [run]; [ exists s, [], w; by rewrite app_nil_r | ]. rewrite zlen_cons in Hn. pose proof (zlen_nonneg xs). apply Forall_cons in Hxs as [Hx Hxs].
  destruct (sharing_step_ok w s x Hok Hx) as [-> | (s1 & es1 & w1 & -> & Ht & Hs & Hok1 & Hz & Hl)]; [ lia | apply IH; [ done | done | lia ] | ].
  destruct (IH w1 s1 Hok1) as (s' & es & w' & E & Ht' & Hs' & Hok'); [ by rewrite Hl | lia | ]. exists s', (es1 ++ es), w'. split_and!; [ done | by rewrite Ht', Ht, app_assoc | by rewrite spec_run_app, Hs | done ].
Qed.

Lemma State_init_ok l : l <> 0 -> ok (World_init l) (State_init l).
Proof.
  intros Hl. split; cbn; try done; [ by apply World_init_inv | intros i d; by rewrite vget_nil | ]. intros t. split; [ set_solver | ]. intros (pc & E & _). by rewrite lookup_empty in E.
Qed.

(** C13: however the steps of the loop and of any number of other threads interleave, no assertion
    fails and no pointer is missing, the next step of the loop writes nothing that the next step
    of another thread reads, and the openings, closings and answers that happened are those of
    a run that does one after the other: every question is answered for the peers that were there
    at one moment of it, and the peer of a handle that resolves is never null. *)
Theorem shared_reads_are_linearizable l xs : l <> 0 -> Forall (label_ok l) xs -> zlen xs < 2 ^ 31 ->
  exists s w, run (State_init l) xs = Some s /\ spec_run (World_init l) (trace s) = Some w /\ ~ race s.
Proof.
  intros Hl Hxs Hn. destruct (sharing_run_ok xs (World_init l) (State_init l) (State_init_ok l Hl) Hxs) as (s & es & w & E & Ht & Hs & Hok); [ exact Hn | ].
  exists s, w. split; [ done | ]. cbn in Ht. rewrite Ht. split; [ done | by apply (ok_no_race w) ].
Qed.

(** Without the mutex the loop and a question race: between the two writes that add a slot the
    vectors have different lengths, and the assertion of [ExistsLocal] fails. *)
Theorem unlocked_lookup_can_stop l d h : exists xs c, alloc_writes (PeerManager_init l) d = Some (PushPeer d :: xs, mkHandle (mkId 0 1) l)
  /\ apply_write (with_data (World_init l) d (new_data h)) (PushPeer d) = Some c
  /\ forall handle, ExistsLocal (wm c) handle = None.
Proof. eexists _, _. split; [ done | ]. split; [ done | ]. done. Qed.

(** ** Witnesses *)

(** One peer is opened; while it is closed, two threads ask for it, one of them in between. *)
Definition sample_handle : PeerHandle := mkHandle (mkId 0 1) 1.

Definition sample_schedule : list label :=
  replicate 9 (Loop (LOpen 7 3)) ++ replicate 3 (Reader 1 (GetSharedPeer sample_handle)) ++ replicate 4 (Loop (LClose sample_handle))
  ++ replicate 2 (Reader 1 (GetSharedPeer sample_handle)) ++ replicate 12 (Loop (LClose sample_handle)) ++ replicate 4 (Reader 2 (GetSharedHost sample_handle)).

Lemma sample_schedule_ok : Forall (label_ok 1) sample_schedule.
Proof. repeat first [ apply Forall_app; split | apply Forall_replicate ]; cbn; try done; split; cbn; lia. Qed.

Lemma shared_reads_are_linearizable_witness : exists s w, run (State_init 1) sample_schedule = Some s /\ spec_run (World_init 1) (trace s) = Some w
  /\ trace s = [EOpen 7 3; EAnswer 1 (GetSharedPeer sample_handle) (APeer (Some 7%nat)); EClose sample_handle; EClear 7; EAnswer 2 (GetSharedHost sample_handle) (AHost None)].
Proof.
  destruct (shared_reads_are_linearizable 1 sample_schedule) as (s & w & E & Hs & _); [ discriminate | exact sample_schedule_ok | reflexivity | ].
  exists s, w. split; [ exact E | ]. split; [ exact Hs | ]. clear Hs. vm_compute in E. injection E as <-. reflexivity.
Defined.

End PeerSharing.
