(* ===== verification/Example1.v ===== *)
(** * The first example program (examples/example1.cpp)

    The program registers two functions, [Sum] under the number 1 and [Mul] under the name
    [mul], and connects a host of one loop to a host of another. A thread calls the first without
    an answer and the second with a callback; both functions and the callback print a line and
    increment a counter, and the program returns 0 when the counter reached 3. The calls go
    through RpcSend.v, RpcCalls.v and RpcDispatch.v, the callback through ReturnCallback.v. The
    listening, the connections and the clock are not repeated here: the two peers are connected,
    and the stream between them is cut into pieces in any way. *)

From Stdlib Require Import Ascii String.
From S2P Require Import Prelude CString MemoryPool ByteBuffer FramingProtocol FrameDecoder PeersToFlush PeerManager Hash FlatHashMap RpcCalls RpcRegistry RpcDispatch PeerSend LoopFlush BatchWriter CommandsBuffer CommandQueue SendPaths LoopIteration Delivery RpcSend ReturnCallback.

(** What bitscpp writes and reads for an [int]; the third result of the reader are its errors. *)
Class IntCodec := {
  op_int : Z -> list Z;
  read_int : list Z -> Z * list Z * Z;
  read_op_int : forall x r, - 2 ^ 31 <= x < 2 ^ 31 -> read_int (op_int x ++ r) = (x, r, 0);
  op_int_bytes : forall x, Forall is_u8 (op_int x);
  op_int_size : forall x, zlen (op_int x) <= 16
}.

Module Example1.
Import CString FramingProtocol FrameDecoder RpcCalls RpcRegistry RpcDispatch.

(** ** The functions *)

(** The counter [returned] and what was printed. *)
Record Program := mkProgram { returned : Z; output : list (list Z) }.

Definition Program_init : Program := mkProgram 0 [].

(** A result of [int] arithmetic; overflow is undefined. *)
Definition int_result (x : Z) : option Z := if (- 2 ^ 31 <=? x) && (x <? 2 ^ 31) then Some x else None.

(** [printf(" %i + %i = %i\n")]. *)
Definition print_line (op : Z) (a b x : Z) : list Z :=
  [32] ++ print_int 1 a ++ [32; op; 32] ++ print_int 1 b ++ [32; 61; 32] ++ print_int 1 x ++ [10].

Definition Sum (p : Program) (a b : Z) : option (Program * Z) :=
  let* x := int_result (a + b) in
  Some (mkProgram (returned p + 1) (output p ++ [print_line 43 a b x]), x).

Definition Mul (p : Program) (a b : Z) : option (Program * Z) :=
  let* x := int_result (a * b) in
  Some (mkProgram (returned p + 1) (output p ++ [print_line 42 a b x]), x).

(** The callback of the call, and its timeout. *)
Definition onReturned (p : Program) (result : Z) : Program :=
  mkProgram (returned p + 1) (output p ++ [chars " Multiplication result returned = "%string ++ print_int 1 (i32 result) ++ [10]]).

Definition onTimeout (p : Program) : Program := mkProgram (returned p) (output p ++ [chars " Multiplication timeout"%string ++ [10]]).

(** The loop of [main] that waits: [load i] is what it reads in round [i]; the result is the
    number of rounds it sleeps. *)
Fixpoint wait_rounds (fuel : nat) (load : Z -> Z) (i : Z) : Z :=
  match fuel with
  | O => i
  | S fuel => if (i <? 3000) && (load i <? 3) then wait_rounds fuel load (i + 1) else i
  end.

Definition exit_code (p : Program) : Z := if returned p =? 3 then 0 else 1.

Section Run.
Context `{Allocator} `{NameCodec} `{IntCodec}.
Context {T : Type} {MI : MapImpl T Z RpcCalls.OnReturnCallback}.
Context (sole : option (@RpcDispatch.Peer T Z) -> bool).
(** How bitscpp reads the [uint32_t] that the callback takes. *)
Context (read_uint32 : list Z -> Z).

(** ** Registration *)

(** The converter of a function of two [int]s; the value it returns does not depend on the rest
    of the program. *)
Definition int_function (f : Program -> Z -> Z -> option (Program * Z)) : @Function Z :=
  mkFunction None None [KValue read_int; KValue read_int]
    (fun xs _ => match xs with [AValue a; AValue b] => let* (_, x) := f Program_init a b in Some (op_int x) | _ => None end).

Definition name_sum : option RpcName := RpcName_int32 1.
Definition name_mul : option RpcName := RpcName_string (chars "mul"%string).

(** The registrations of [main]. *)
Definition main_registry : option (@RPCEnvironment (@Function Z)) :=
  let* n1 := name_sum in
  let* (_, e) := RegisterMessage RPCEnvironment_init n1 (int_function Sum) in
  let* n2 := name_mul in
  let* (_, e) := RegisterMessage e n2 (int_function Mul) in
  Some e.

(** ** The thread of the client *)

(** [rpc->Send(peer, FLAG_RELIABLE, {1}, 3, 23)]. *)
Definition send_sum : option (list Z) :=
  let* n := name_sum in RpcSend.SerializeSend FLAG_RELIABLE n [op_int 3; op_int 23].

(** [rpc->Call(peer, FLAG_RELIABLE, callback, "mul", 5, 13)]. *)
Definition call_mul (c : PeerCalls (T := T)) (callback : RpcCalls.OnReturnCallback) : option (PeerCalls (T := T)) :=
  let* n := name_mul in
  let* nb := RpcName_write n in
  Call c (nb ++ op_int 5 ++ op_int 13) callback FLAG_RELIABLE.

(** [OnReturnCallback::Make<uint32_t>]: function 0 is the callback, function 1 the timeout. *)
Definition make_callback (peer : PeerManager.PeerHandle) (now : Z) : ReturnCallback.OnReturnCallback :=
  ReturnCallback.Make false (Some 0%nat) (Some 1%nat) 10000 peer None None now.

(** ** What the program does with what the library executes *)

Definition run_function (p : Program) (x : RpcName * list (@ArgValue Z)) : option Program :=
  match x with
  | (n, [AValue a; AValue b]) =>
      if decide (Some n = name_sum) then let* (p, _) := Sum p a b in Some p
      else if decide (Some n = name_mul) then let* (p, _) := Mul p a b in Some p
      else None
  | _ => None
  end.

Fixpoint run_functions (p : Program) (xs : list (RpcName * list (@ArgValue Z))) : option Program :=
  match xs with
  | [] => Some p
  | x :: xs => let* p := run_function p x in run_functions p xs
  end.

Definition run_user_call (p : Program) (u : @ReturnCallback.user_call Z) : Program :=
  match u with
  | ReturnCallback.UReturned _ _ _ (Some v) => onReturned p v
  | ReturnCallback.UReturned _ _ _ None => p
  | ReturnCallback.UTimeout _ _ => onTimeout p
  end.

(** The events of the client, through its callback objects, to the functions of the program. *)
Definition run_client (p : Program) (peer : PeerManager.PeerHandle) (st : gmap nat ReturnCallback.OnReturnCallback) (es : list RpcCalls.event)
  : option Program :=
  let* (w, _) := ReturnCallback.run_events read_uint32 peer (ReturnCallback.mkWorld [] ∅ 0, st) es in
  Some (fold_left run_user_call (ReturnCallback.calls w) p).

(** ** The run *)

Lemma two_registrations {C} (c1 c2 : C) : exists e1 p1 p2 e,
  RegisterMessage RPCEnvironment_init (mkName [] 1) c1 = Some (p1, e1) /\ RegisterMessage e1 (mkName (chars "mul"%string) 0) c2 = Some (p2, e)
  /\ FindConverter e (mkName [] 1) = Some (Some p1) /\ heap e !! p1 = Some (mkConverter (mkName [] 1) c1)
  /\ FindConverter e (mkName (chars "mul"%string) 0) = Some (Some p2) /\ heap e !! p2 = Some (mkConverter (mkName (chars "mul"%string) 0) c2).
Proof. do 4 eexists. split; [ vm_compute; reflexivity | ]. split; [ vm_compute; reflexivity | ]. split_and!; vm_compute; reflexivity. Qed.

(** A call without an answer and one with an answer, in pieces of any sizes. *)
Lemma receive_send_and_call (e : @RPCEnvironment (@Function Z)) dec (p : @Peer T Z) v xs n nb argb ys ret id frm chunks :
  decoder_ok dec [] -> RpcSend.invocation_ok v -> RpcSend.understands e p v xs ->
  name_ok n -> zlen (str n) < 2 ^ 28 -> Forall is_u8 (str n) -> RpcName_write n = Some nb -> serves e p n argb ys ret -> peerAlive p = true ->
  is_u32 id -> id <> 0 -> zlen ret <= 2 ^ 28 - 4 -> Forall is_u8 argb -> zlen (nb ++ argb) <= 2 ^ 28 - 4 ->
  frame (put_u32 id ++ nb ++ argb) (Z.lor FLAG_RELIABLE FLAGS_CALL) = Some frm ->
  concat chunks = frame_of (RpcSend.message_of v).2 ++ frm -> short chunks ->
  exists dec' p' ans F, on_data_chunks sole e dec p chunks = Some (dec', p')
    /\ executed p' = executed p ++ [(RpcSend.iname v, xs); (n, ys)] /\ frames (calls p') = frames (calls p) ++ [ans]
    /\ frame (put_u32 id ++ ret) F = Some ans /\ Z.land F 6 = 4.
Proof.
  intros Hd Hv Hu Hn Hz Hs Hnb Hsv Ha Hid Hid0 Hr Hua Hl Ef Ech Hsh. set (m := (put_u32 id ++ nb ++ argb, Z.lor FLAG_RELIABLE FLAGS_CALL) : message).
  pose proof (zlen_nonneg (nb ++ argb)). assert (message_ok m) as Hm.
  { split; cbn [m fst]; [ rewrite zlen_app, put_u32_zlen; lia | ]. repeat (apply Forall_app; split); try done; [ apply put_u32_bytes | by eapply name_bytes ]. }
  assert (frame_of m = frm) as Efm by (unfold frame_of, m; cbn [fst snd]; by rewrite Ef).
  assert (Forall message_ok [(RpcSend.message_of v).2; m]) as Hms by (repeat (apply Forall_cons; split); [ by apply RpcSend.message_of_ok | done | by apply Forall_nil ]).
  assert (concat chunks = concat (frame_of <$> [(RpcSend.message_of v).2; m])) as Ec by (rewrite Ech; cbn [fmap list_fmap concat]; by rewrite Efm, app_nil_r).
  assert (Forall is_u8 (concat chunks)) as Hb.
  { rewrite Ec. apply Forall_concat, Forall_fmap. eapply Forall_impl; [ exact Hms | ]. intros x Hx. by destruct (frame_of_spec x Hx) as (? & ? & ? & ? & _). }
  pose proof (on_data_chunks_spec sole e chunks dec [] p) as Hspec. cbn [app] in Hspec. rewrite Ec, (parse_frames _ Hms) in Hspec. cbn [fst snd] in Hspec.
  unfold deliver in Hspec. cbn [fmap list_fmap fold_left fst snd] in Hspec. unfold _Internal_static_OnPacket at 2 in Hspec. rewrite (RpcSend.receive_invocation e p v xs Hv Hu) in Hspec. cbn [fst] in Hspec.
  set (p1 := add_executed (count p add_frame) (RpcSend.iname v, xs)) in *.
  destruct (call_spec e (count p1 add_frame) n nb argb ys ret id) as (ans & F & Hans & HF & Ecall); try done.
  { destruct Hsv as (ptr & c & r & ? & ? & ? & ? & ? & Hargs & ?). exists ptr, c, r. split_and!; try tauto. rewrite <- Hargs. apply (RpcSend.read_args_same p). by split. }
  destruct (frame_packet (T := T) (V := Z) (put_u32 id ++ nb ++ argb) (Z.lor FLAG_RELIABLE FLAGS_CALL)) as (frm' & Ef' & Hp); [ apply Hm | ]. rewrite Ef in Ef'. injection Ef' as <-.
  unfold _Internal_static_OnPacket in Hspec. rewrite Efm in Hspec. unfold frame_header_size in Hspec. cbn [m fst] in Hspec. rewrite Hp in Hspec by done.
  change (Z.lor 1 (Z.land (Z.lor FLAG_RELIABLE FLAGS_CALL) 6)) with 3 in Hspec. rewrite Ecall in Hspec. cbn [fst] in Hspec.
  destruct Hspec as (dec' & E & _); [ apply Forall_and; split; [ done | by apply Forall_concat ] | done | ].
  eexists dec', _, ans, F. split; [ exact E | ]. destruct (count_chunks_fields chunks (Send (add_executed (count p1 add_frame) (n, ys)) ans)) as [E1 E2]. rewrite E1, E2.
  split_and!; [ cbn; by rewrite <- app_assoc | done | done | done ].
Qed.

Definition sum_name : RpcName := mkName [] 1.
Definition mul_name : RpcName := mkName (chars "mul"%string) 0.

(** The frames of the two calls are not too long. *)
Definition codec_fits : Prop := 1 <= zlen (put_uint 1) <= 2 ^ 27 /\ zlen (put_str (chars "mul"%string)) <= 2 ^ 27.

Lemma arguments_read (p : @Peer T Z) q fl a b : - 2 ^ 31 <= a < 2 ^ 31 -> - 2 ^ 31 <= b < 2 ^ 31 ->
  read_args p q fl (mkReader (op_int a ++ op_int b) 0) [KValue read_int; KValue read_int] = ([AValue a; AValue b], mkReader [] 0).
Proof.
  intros Ha Hb. cbn [read_args ReadType rest errors]. rewrite read_op_int by done. cbn [rest errors]. rewrite <- (app_nil_r (op_int b)), read_op_int by done. done.
Qed.

Definition sum_invocation (peer : PeerManager.PeerHandle) : RpcSend.invocation := RpcSend.mkInvocation peer FLAG_RELIABLE sum_name [op_int 3; op_int 23].

Lemma sum_invocation_ok peer : codec_fits -> RpcSend.invocation_ok (sum_invocation peer).
Proof.
  intros [Hs _]. pose proof (op_int_size 3). pose proof (op_int_size 23). pose proof (zlen_nonneg (op_int 3)). pose proof (zlen_nonneg (op_int 23)).
  split; cbn [sum_invocation RpcSend.iname RpcSend.iargs RpcSend.iflags]; [ by right | done | by apply Forall_nil | | | done ].
  - cbn [concat]. rewrite app_nil_r. apply Forall_app. split; apply op_int_bytes.
  - change (RpcSend.body _) with (put_uint 1 ++ op_int 3 ++ op_int 23 ++ []). rewrite !zlen_app, zlen_nil. lia.
Qed.

(** The registered functions, as the other components look at them. *)
Lemma sum_understood e (server : @Peer T Z) peer p1 : FindConverter e sum_name = Some (Some p1) -> heap e !! p1 = Some (mkConverter sum_name (int_function Sum)) ->
  RpcSend.understands e server (sum_invocation peer) [AValue 3; AValue 23].
Proof.
  intros F1 G1. eexists p1, _, (mkReader [] 0). split; [ exact F1 | ]. split; [ exact G1 | ]. split_and!; try done. cbn [sum_invocation RpcSend.iargs concat]. rewrite app_nil_r. by apply arguments_read.
Qed.

Lemma mul_served e (server : @Peer T Z) p2 : FindConverter e mul_name = Some (Some p2) -> heap e !! p2 = Some (mkConverter mul_name (int_function Mul)) ->
  serves e server mul_name (op_int 5 ++ op_int 13) [AValue 5; AValue 13] (op_int 65).
Proof. intros F2 G2. eexists p2, _, (mkReader [] 0). split; [ exact F2 | ]. split; [ exact G2 | ]. split_and!; try done. by apply arguments_read. Qed.

(** The answer, in pieces of any sizes. *)
Lemma receive_answer eC dC (client : @Peer T Z) calls1 id callback ret F ans chunks :
  decoder_ok dC [] -> calls_ok calls1 -> is_u32 id -> waiting calls1 !! id = Some callback -> zlen ret <= 2 ^ 28 - 4 -> Forall is_u8 ret ->
  frame (put_u32 id ++ ret) F = Some ans -> Z.land F 6 = 4 -> concat chunks = ans -> short chunks ->
  exists dC' client', on_data_chunks sole eC dC (set_calls client calls1) chunks = Some (dC', client') /\ events (calls client') = events calls1 ++ [Returned callback 5 ret].
Proof.
  intros Hd Hc Hid Hw Hr Hu Hans HF Ech Hsh. pose proof (zlen_nonneg ret). destruct (return_spec eC (count (set_calls client calls1) add_frame) id ret callback Hc Hid Hw) as (client' & Eret & Hev & _).
  pose proof (on_data_frame sole eC dC (set_calls client calls1) (put_u32 id ++ ret) F ans chunks Hd) as HC. rewrite HF in HC. change (Z.lor 1 4) with 5 in HC. rewrite Eret in HC.
  destruct HC as (dC' & EC & _); try done.
  - rewrite zlen_app, put_u32_zlen. lia.
  - apply Forall_app; split; [ apply put_u32_bytes | done ].
  - eexists dC', _. split; [ exact EC | ]. by rewrite (proj1 (count_chunks_fields _ _)).
Qed.

(** ** The program *)

(** C40: whatever pieces the streams between the two peers arrive in, the server executes [Sum] and
    [Mul], each once and in this order, the answer of [Mul] reaches the callback of the client,
    the three lines are printed, the counter is 3 and the program returns 0. *)
Theorem example1_counts_to_three (client server : @Peer T Z) dC dS eC peer token now :
  codec_fits -> calls_ok (calls client) -> waiting (calls client) = ∅ -> events (calls client) = [] -> frames (calls server) = [] -> executed server = [] ->
  decoder_ok dC [] -> decoder_ok dS [] -> peerAlive server = true -> 0 < map_limit ->
  let callback := RpcCalls.mkCallback token false (ReturnCallback.timeoutTimePoint (make_callback peer now)) in
  exists e f1 calls1 f2, main_registry = Some e /\ send_sum = Some f1 /\ call_mul (calls client) callback = Some calls1 /\ frames calls1 = frames (calls client) ++ [f2]
    /\ forall chunks, concat chunks = f1 ++ f2 -> short chunks ->
  exists dS' server' ans, on_data_chunks sole e dS server chunks = Some (dS', server') /\ frames (calls server') = [ans]
    /\ forall chunks', concat chunks' = ans -> short chunks' ->
  exists dC' client' p1 p2, on_data_chunks sole eC dC (set_calls client calls1) chunks' = Some (dC', client')
    /\ run_functions Program_init (executed server') = Some p1 /\ run_client p1 peer {[token := make_callback peer now]} (events (calls client')) = Some p2
    /\ output p2 = [chars " 3 + 23 = 26"%string ++ [10]; chars " 5 * 13 = 65"%string ++ [10];
                    chars " Multiplication result returned = "%string ++ print_int 1 (i32 (read_uint32 (op_int 65))) ++ [10]]
    /\ exit_code p2 = 0.
Proof.
  intros Hfit Hc Hw Hev Hfr Hex HdC HdS Ha Hlim callback. pose proof (sum_invocation_ok peer Hfit) as Hv. destruct Hfit as [_ Hf2].
  destruct (two_registrations (int_function Sum) (int_function Mul)) as (e1 & p1 & p2 & e & R1 & R2 & F1 & G1 & F2 & G2).
  set (argb := op_int 5 ++ op_int 13). assert (0 <= zlen argb <= 32) as Hz by (split; [ apply zlen_nonneg | unfold argb; rewrite zlen_app; pose proof (op_int_size 5); pose proof (op_int_size 13); lia ]).
  assert (zlen (op_int 65) <= 2 ^ 28 - 4) as H65 by (pose proof (op_int_size 65); lia).
  destruct (Call_spec (calls client) (put_str (chars "mul"%string) ++ argb) callback FLAG_RELIABLE Hc) as (calls1 & id & f2 & E1 & Hc1 & Hid & Hid0 & _ & Hw1 & He1 & Hfr1 & Hfrm);
    [ rewrite zlen_app; lia | rewrite Hw, map_size_empty; lia | rewrite Hw, map_size_empty; lia | ].
  exists e, (frame_of (RpcSend.message_of (sum_invocation peer)).2), calls1, f2. split; [ unfold main_registry; change name_sum with (Some sum_name); change name_mul with (Some mul_name); unfold sum_name, mul_name; by rewrite R1, R2 | ].
  split; [ by apply (RpcSend.SerializeSend_spec (sum_invocation peer)) | ]. split; [ exact E1 | ]. split; [ done | ]. intros chunks Ech Hsh.
  destruct (receive_send_and_call e dS server (sum_invocation peer) [AValue 3; AValue 23] mul_name (put_str (chars "mul"%string)) argb [AValue 5; AValue 13] (op_int 65) id f2 chunks)
    as (dS' & server' & ans & F & ES & Hx & Hfs & Hans & HF); try done.
  { by apply (sum_understood e server peer p1). }
  { by left. }
  { repeat (apply Forall_cons; split; [ done | ]). by apply Forall_nil. }
  { by apply (mul_served e server p2). }
  { apply Forall_app; split; apply op_int_bytes. }
  { rewrite zlen_app. lia. }
  exists dS', server', ans. split; [ done | ]. split; [ by rewrite Hfs, Hfr | ]. intros chunks' Ech' Hsh'.
  destruct (receive_answer eC dC client calls1 id callback (op_int 65) F ans chunks') as (dC' & client' & EC & Hevs); try done; [ by rewrite Hw1, lookup_insert_eq | apply op_int_bytes | ].
  rewrite Hex in Hx. cbn [app] in Hx. rewrite Hx. eexists dC', client', _, _. split; [ exact EC | ]. split; [ vm_compute; reflexivity | ]. split; [ | split ].
  - rewrite Hevs, He1, Hev. unfold run_client. cbn [ReturnCallback.run_events ReturnCallback.run_event app event_callback RpcCalls.token callback]. rewrite lookup_singleton_eq. cbn. rewrite bool_decide_eq_true_2 by done. reflexivity.
  - reflexivity.
  - reflexivity.
Qed.

(** The loop of [main] sleeps at most 3000 times, and stops as soon as it reads 3. *)
Lemma wait_rounds_bounded load : forall fuel i, 0 <= i <= 3000 -> 3000 - i < Z.of_nat fuel ->
  let n := wait_rounds fuel load i in i <= n <= 3000 /\ (forall j, i <= j < n -> load j < 3) /\ (n < 3000 -> 3 <= load n).
Proof.
  induction fuel as [|fuel IH]; intros i Hi Hf; [ lia | ]. cbn [wait_rounds]. destruct (Z.ltb_spec i 3000); cbn [andb]; [ | split_and!; lia ].
  destruct (Z.ltb_spec (load i) 3); [ | split_and!; lia ]. destruct (IH (i + 1)) as (W1 & W2 & W3); [ lia | lia | ]. split_and!; [ lia | lia | | done ].
  intros j Hj. destruct (Z.eq_dec j i) as [-> | ]; [ done | ]. apply W2. lia.
Qed.

End Run.

(** ** Witness *)

#[local] Existing Instances RpcCalls.callbacks_map RpcCalls.le_codec RpcDispatch.tagged_codec.

(** Integers as four bytes. *)
#[local, refine] Instance le_int : IntCodec := {
  op_int x := le_put (u32 x);
  read_int l := (i32 (le_load (take 4 l)), drop 4 l, 0)
}.
Proof.
  - intros x r Hx. assert (is_u32 (u32 x)) as Hu by (unfold is_u32, u32; apply Z.mod_pos_bound; lia).
    pose proof (get_put_u32 (U32Codec := RpcCalls.le_codec) (u32 x) r Hu) as E. apply (f_equal fst) in E. cbn [get_u32 put_u32 RpcCalls.le_codec fst] in E. rewrite E. change (drop 4 (le_put (u32 x) ++ r)) with r. f_equal. f_equal.
    unfold i32, u32 in *. rewrite Z.mod_mod by done. destruct (Z.ltb_spec x 0).
    + replace (x mod 2 ^ 32) with (x + 2 ^ 32); [ destruct (Z.ltb_spec (x + 2 ^ 32) (2 ^ 31)); lia | ]. apply (Z.mod_unique_pos _ _ (-1)); lia.
    + rewrite Z.mod_small by lia. destruct (Z.ltb_spec x (2 ^ 31)); lia.
  - intros x. apply (put_u32_bytes (U32Codec := RpcCalls.le_codec)).
  - intros x. change (zlen (le_put (u32 x))) with 4. lia.
Defined.

Lemma example1_counts_to_three_witness : exists e f1 calls1 f2, main_registry = Some e /\ send_sum = Some f1
    /\ call_mul (calls (sample_peer true)) (RpcCalls.mkCallback 4 false 10000000009) = Some calls1 /\ frames calls1 = [f2]
    /\ forall chunks, concat chunks = f1 ++ f2 -> short chunks ->
  exists dS' server' ans, on_data_chunks never_sole e sample_decoder (sample_peer true) chunks = Some (dS', server') /\ frames (calls server') = [ans]
    /\ forall chunks', concat chunks' = ans -> short chunks' ->
  exists dC' client' p1 p2, on_data_chunks never_sole RPCEnvironment_init sample_decoder (set_calls (sample_peer true) calls1) chunks' = Some (dC', client')
    /\ run_functions Program_init (executed server') = Some p1
    /\ run_client (fun l => le_load l) p1 (PeerManager.mkHandle (PeerManager.mkId 0 1) 100) {[4%nat := make_callback (PeerManager.mkHandle (PeerManager.mkId 0 1) 100) 9]} (events (calls client')) = Some p2
    /\ output p2 = [chars " 3 + 23 = 26"%string ++ [10]; chars " 5 * 13 = 65"%string ++ [10]; chars " Multiplication result returned = "%string ++ print_int 1 (i32 (le_load (op_int 65))) ++ [10]]
    /\ exit_code p2 = 0.
Proof.
  apply (example1_counts_to_three never_sole (fun l => le_load l) (sample_peer true) (sample_peer true) sample_decoder sample_decoder RPCEnvironment_init (PeerManager.mkHandle (PeerManager.mkId 0 1) 100) 4 9);
    try reflexivity; try apply sample_decoder_ok; try apply no_calls_spec.
  split; [ vm_compute; split; discriminate | vm_compute; discriminate ].
Defined.

End Example1.
