(* ===== verification/FramePrint.v ===== *)
(** * Names and frames as text (src/RpcName.cpp, src/ByteBuffer.cpp, include/icon7/MessageConverter.hpp)

    [RpcName::ToString], which the log uses, the error text of a converter whose arguments could
    not be read, and [PrintBufferMetadata], which prints the header, the kind and the bytes of a
    frame. A name can be read back from its text, and the text of a frame that the library wrote
    shows what it was written from. *)

From Stdlib Require Import Ascii String.
From S2P Require Import Prelude CString MemoryPool ByteBuffer FramingProtocol Hash FlatHashMap RpcCalls RpcRegistry RpcDispatch Time LogPath LogName Log.

Module FramePrint.
Import CString FramingProtocol RpcRegistry.
Open Scope string_scope.
Open Scope list_scope.
Open Scope Z_scope.

(** ** Names *)

Definition ToString (n : RpcName) : option (list Z) :=
  if negb (bool_decide (str n = [])) then
    assert* uint n =? 0 in Some (chars "'" ++ str n ++ chars "'")
  else if negb (uint n =? 0) then
    assert* bool_decide (str n = []) in Some (chars "[" ++ print_int 1 (uint n) ++ chars "]")
  else Some (chars "!!##INVALID_RPC_FUNCTION_NAME##!!").

(** [ICON7_MESSAGE_CONVERTER_HPP_PRINT_ERROR]: the text, with the error bits of bitscpp. *)
Definition converter_error (too_small mismatch err : Z) (n : RpcName) : option (list Z) :=
  let errStr :=
    if err =? too_small then chars "BUFFER_TOO_SMALL"
    else if err =? mismatch then chars "TYPE_MISMATCH"
    else chars "BUFFER_TOO_SMALL | TYPE_MISMATCH" in
  let* s := ToString n in
  Some (chars "Failed to execute function call " ++ s ++ chars ", error in ByteReader: " ++ errStr ++ chars ".").

(** The inverse of [ToString]. *)
Definition of_text (s : list Z) : option RpcName :=
  match s with
  | 39 :: s => Some (mkName (take (length s - 1) s) 0)
  | 91 :: s => let* (x, _) := scan_int s in Some (mkName [] x)
  | _ => None
  end.

Lemma scan_print_int x s : 0 <= x < 10 ^ 20 -> starts_with_digit s = false -> scan_int (print_int 1 x ++ s) = Some (x, s).
Proof.
  intros Hx Hs. unfold print_int. rewrite (proj2 (Z.ltb_ge x 0)), Z.abs_eq by lia. cbn [app]. apply scan_int_digits; [ | lia | done ]. split; [ lia | ].
  pose proof (ndigits_bound 20 x ltac:(lia)). eapply Z.lt_le_trans; [ done | ]. apply Z.pow_le_mono_r; lia.
Qed.

(** Every name that can be registered has a text, from which it can be read back: different
    names have different texts. *)
Theorem name_text_round_trip n : name_ok n -> exists s, ToString n = Some s /\ of_text s = Some n.
Proof.
  destruct n as [s x]. intros [[Hs Hx] | [Hs Hx]]; cbn [str uint] in *; unfold ToString; cbn [str uint].
  - rewrite bool_decide_eq_false_2 by done. subst x. eexists. split; [ reflexivity | ]. change (of_text _) with (Some (mkName (take (length (s ++ chars "'") - 1) (s ++ chars "'")) 0)).
    rewrite length_app. change (length (chars "'")) with 1%nat. rewrite Nat.add_sub. by rewrite take_app_length.
  - subst s. rewrite bool_decide_eq_true_2 by done. rewrite (proj2 (Z.eqb_neq x 0)) by lia. eexists. split; [ reflexivity | ].
    change (of_text _) with (let* (x, _) := scan_int (print_int 1 x ++ chars "]") in Some (mkName [] x)). rewrite scan_print_int; [ done | lia | done ].
Qed.

(** ** Frames *)

Section Frames.
Context `{NameCodec}.

(** ["%2.2x"] and ["%s"]. *)
Definition lower_digit (x : Z) : Z := if x <? 10 then 48 + x else 87 + x.
Definition print_lower (b : Z) : list Z := [lower_digit (b / 16); lower_digit (b mod 16)].

Fixpoint c_str (s : list Z) : list Z :=
  match s with
  | [] => []
  | c :: s => if c =? 0 then [] else c :: c_str s
  end.

(** The loop over the bytes of the header. *)
Fixpoint print_header (i : nat) (n : nat) (data : list Z) : option (list Z) :=
  match n with
  | O => Some []
  | S n =>
      let* b := data !! i in
      let* r := print_header (S i) n data in
      Some ((if (i =? 0)%nat then [] else [32]) ++ print_lower b ++ r)
  end.

(** [PrintBufferMetadata]: the text that is printed for the bytes of a buffer. *)
Definition PrintBufferMetadata (data : list Z) : option (list Z) :=
  let size := zlen data in
  let* b0 := vget data 0 in
  let headerSize := GetPacketHeaderSize b0 in
  let* flags := GetPacketFlags data 0 in
  let* hex := print_header 0 (Z.to_nat headerSize) data in
  let reader := drop (Z.to_nat headerSize) data in
  let* (what, reader) :=
    if Z.land flags 6 =? FLAGS_CALL_NO_FEEDBACK then
      let '(name, reader, _) := get_str reader in
      Some (chars "invoke `" ++ c_str name ++ chars "`[" ++ print_int 1 (zlen name) ++ chars "]", reader)
    else if Z.land flags 6 =? FLAGS_CALL then
      let '(callId, reader) := get_u32 reader in
      let '(name, reader, _) := get_str reader in
      Some (chars "call `" ++ c_str name ++ chars "`[" ++ print_int 1 (zlen name) ++ chars "]->" ++ print_int 1 callId, reader)
    else if Z.land flags 6 =? FLAGS_CALL_RETURN_FEEDBACK then
      let '(callId, reader) := get_u32 reader in
      Some (chars "return " ++ print_int 1 callId, reader)
    else
      let* c := vget data headerSize in
      Some (chars "ctrl: " ++ print_int 1 c, drop 1 reader) in
  Some (chars "buffer [" ++ Log.print_padded 2 size ++ chars "],  h[" ++ Log.print_padded 2 headerSize ++ chars "] = {" ++ hex ++ chars "}  "
        ++ what ++ chars "  data [" ++ print_int 1 (zlen reader) ++ chars "]:" ++ concat (Log.print_hex <$> reader) ++ [10]).

Lemma print_header_total n : forall i data, (i + n <= length data)%nat -> is_Some (print_header i n data).
Proof.
  induction n as [|n IH]; intros i data Hl; [ by eexists | ]. cbn [print_header]. destruct (lookup_lt_is_Some_2 data i) as [b ->]; [ lia | ]. destruct (IH (S i) data) as [r ->]; [ lia | ]. by eexists.
Qed.

Lemma c_str_plain s : Forall (fun c => c <> 0) s -> c_str s = s.
Proof. induction 1 as [|c s Hc _ IH]; [ done | ]. cbn [c_str]. by rewrite (proj2 (Z.eqb_neq c 0)), IH. Qed.

(** What is printed for a call with the given identity, or for one that wants no answer. *)
Definition call_text (name : list Z) (callId : option Z) : list Z :=
  match callId with
  | None => chars "invoke `" ++ name ++ chars "`[" ++ print_int 1 (zlen name) ++ chars "]"
  | Some i => chars "call `" ++ name ++ chars "`[" ++ print_int 1 (zlen name) ++ chars "]->" ++ print_int 1 i
  end.

Definition call_body (name args : list Z) (callId : option Z) : list Z :=
  match callId with None => [] | Some i => put_u32 i end ++ put_str name ++ args.

Definition call_flags (callId : option Z) : Z := match callId with None => FLAGS_CALL_NO_FEEDBACK | Some _ => FLAGS_CALL end.

(** The text of a call of a function with a string as name: its sizes, the bytes of its header,
    its name, its identity if it has one, and the bytes of its arguments. *)
Theorem printed_call_shows_its_parts name args callId fl :
  let body := call_body name args callId in
  1 <= zlen body <= 2 ^ 28 -> Z.land fl 6 = call_flags callId -> zlen name < 2 ^ 28 -> Forall (fun c => c <> 0) name -> (forall i, callId = Some i -> is_u32 i) ->
  exists data hex, frame body fl = Some data /\ print_header 0 (Z.to_nat (GetHeaderSize (zlen body))) data = Some hex
    /\ PrintBufferMetadata data = Some (chars "buffer [" ++ Log.print_padded 2 (zlen data) ++ chars "],  h[" ++ Log.print_padded 2 (GetHeaderSize (zlen body))
         ++ chars "] = {" ++ hex ++ chars "}  " ++ call_text name callId ++ chars "  data [" ++ print_int 1 (zlen args) ++ chars "]:"
         ++ concat (Log.print_hex <$> args) ++ [10]).
Proof.
  intros body Hb Hfl Hz Hn Hid. destruct (header_fields (zlen body) fl Hb) as (header & h0 & Eh & Hzh & _ & Hb0 & Hhs & Hf & _). unfold frame. rewrite Eh.
  pose proof (zlen_nonneg body). assert (vget (header ++ body) 0 = Some h0) as Hv0 by (unfold vget in *; cbn in *; by apply lookup_app_l_Some).
  destruct (print_header_total (Z.to_nat (GetHeaderSize (zlen body))) 0 (header ++ body)) as [hex Ex]; [ rewrite length_app; unfold zlen in *; lia | ].
  exists (header ++ body), hex. split; [ done | ]. split; [ done | ]. unfold PrintBufferMetadata. rewrite Hv0, Hhs, Hf, Ex, Z.lor_0_l, Hfl.
  assert (drop (Z.to_nat (GetHeaderSize (zlen body))) (header ++ body) = body) as -> by (rewrite <- Hzh; unfold zlen; rewrite Nat2Z.id; apply drop_app_length).
  unfold body, call_body, call_flags, call_text in *. destruct callId as [i|].
  - change (Z.land FLAGS_CALL 6 =? FLAGS_CALL_NO_FEEDBACK) with false. change (Z.land FLAGS_CALL 6 =? FLAGS_CALL) with true. cbv iota. rewrite get_put_u32 by (by apply Hid).
    rewrite get_put_str, c_str_plain by done. rewrite <- !app_assoc. done.
  - change (Z.land FLAGS_CALL_NO_FEEDBACK 6 =? FLAGS_CALL_NO_FEEDBACK) with true. cbv iota. cbn [app]. rewrite get_put_str, c_str_plain by done. rewrite <- !app_assoc. done.
Qed.

End Frames.

(** ** Witnesses *)

#[local] Existing Instances RpcCalls.le_codec RpcDispatch.tagged_codec.

Lemma name_text_round_trip_witness : exists s, ToString (mkName (chars "mul") 0) = Some s /\ of_text s = Some (mkName (chars "mul") 0).
Proof. apply (name_text_round_trip (mkName (chars "mul") 0)). left. split; [ discriminate | reflexivity ]. Defined.

Lemma printed_call_shows_its_parts_witness : exists data hex, frame (call_body (chars "mul") [5; 13] (Some 7)) 3 = Some data /\ print_header 0 1 data = Some hex
  /\ PrintBufferMetadata data = Some (chars "buffer [15],  h[ 1] = {" ++ hex ++ chars "}  call `mul`[3]->7  data [2]: 05 0D" ++ [10]).
Proof.
  destruct (printed_call_shows_its_parts (chars "mul") [5; 13] (Some 7) 3) as (data & hex & E1 & E2 & E3).
  - vm_compute. split; discriminate.
  - reflexivity.
  - reflexivity.
  - repeat (apply Forall_cons; split; [ discriminate | ]). apply Forall_nil. exact I.
  - intros i [= <-]. split; [ discriminate | reflexivity ].
  - exists data, hex. split; [ exact E1 | ]. split; [ exact E2 | ]. rewrite E3. vm_compute in E1. injection E1 as <-. vm_compute in E2. injection E2 as <-. vm_compute. reflexivity.
Defined.

End FramePrint.
