(* ===== verification/LogMacros.v ===== *)
(** * The macros of the log (include/icon7/Debug.hpp)

    A program logs through macros, one family for each level, with variants that say whether the
    time and the file are printed. The levels from warnings on can be left out of the program
    when it is compiled; leaving out one level defines the switch of the next, so that all lower
    levels are left out too. A statement that is left out expands to nothing, the others to a
    call of [Log]. *)

From Stdlib Require Import Ascii String.
From S2P Require Import Prelude CString Time TimeString LogPath LogName Log.

Module LogMacros.
Import Time TimeString Log.

Inductive Family := FATAL_ | ERROR_ | WARN_ | INFO_ | DEBUG_ | TRACE_.

(** [LOG_X], [LOG_X_], [LOG_X_T], [LOG_X_F] and [LOG_X_TF]: the time and the file. *)
Inductive Variant := Default_ | None_ | T_ | F_ | TF_.

Definition variant_args (v : Variant) : bool * bool :=
  match v with
  | Default_ => (true, true)
  | None_ => (false, false)
  | T_ => (true, false)
  | F_ => (false, true)
  | TF_ => (true, true)
  end.

(** The symbols [ICON7_DISABLE_LOG_LEVEL_X] that are defined. *)
Record Symbols := mkSymbols { no_warn : bool; no_info : bool; no_debug : bool; no_trace : bool }.

(** The symbols behind each [#ifndef ... #else #define ... #endif]. *)
Definition after_warn (y : Symbols) : Symbols := if no_warn y then mkSymbols (no_warn y) true (no_debug y) (no_trace y) else y.
Definition after_info (y : Symbols) : Symbols :=
  let y := after_warn y in if no_info y then mkSymbols (no_warn y) (no_info y) true (no_trace y) else y.
Definition after_debug (y : Symbols) : Symbols :=
  let y := after_info y in if no_debug y then mkSymbols (no_warn y) (no_info y) (no_debug y) true else y.

(** The arguments of [LOG_FULL] that a macro passes on; [None]: it expands to nothing. *)
Definition LOG_ARGS (y : Symbols) (f : Family) (v : Variant) : option (Z * bool * bool) :=
  let '(time, file) := variant_args v in
  match f with
  | FATAL_ => Some (FATAL, time, file)
  | ERROR_ => Some (LL_ERROR, time, file)
  | WARN_ => if no_warn y then None else Some (WARN, time, file)
  | INFO_ => if no_info (after_warn y) then None else Some (INFO, time, file)
  | DEBUG_ => if no_debug (after_info y) then None else Some (DEBUG, time, file)
  | TRACE_ => if no_trace (after_debug y) then None else Some (TRACE, time, file)
  end.

Definition level_of (f : Family) : Z :=
  match f with FATAL_ => FATAL | ERROR_ => LL_ERROR | WARN_ => WARN | INFO_ => INFO | DEBUG_ => DEBUG | TRACE_ => TRACE end.

Section Statements.
Context (g : DayTimeBegin) (pid : Z).

(** A statement with its place and its text. *)
Record Statement := mkStatement { family : Family; variant : Variant; path : list Z; line : Z; function : list Z; text : list Z }.

Definition LOG_FULL (o : Options) (s : LogState) (t : nat) (e : Env) (t0 level : Z) (time file : bool) (x : Statement) : option LogState :=
  Log_ g pid o s t e t0 level time file (Some (path x)) (line x) (function x) (text x).

Definition execute (y : Symbols) (o : Options) (s : LogState) (t : nat) (e : Env) (t0 : Z) (x : Statement) : option LogState :=
  match LOG_ARGS y (family x) (variant x) with
  | None => Some s
  | Some (level, time, file) => LOG_FULL o s t e t0 level time file x
  end.
(** ** Properties *)

Hypothesis offset_small : -2 ^ 20 < hoursOffset g < 2 ^ 20.
Hypothesis pid_range : 0 <= pid < 2 ^ 64.

(** Leaving out a level leaves out the ones behind it; fatal errors and errors always stay. *)
Lemma left_out_closed y f v f' v' : LOG_ARGS y f v = None -> level_of f <= level_of f' -> LOG_ARGS y f' v' = None.
Proof.
  destruct y as [[] [] [] []], f, f'; unfold LOG_ARGS, level_of, FATAL, LL_ERROR, WARN, INFO, DEBUG, TRACE; cbn; destruct (variant_args v), (variant_args v'); try done; lia.
Qed.

(** A log statement changes nothing when its level was left out of the program or does not apply
    to the thread; otherwise it writes exactly one line. When it was left out, so are all
    statements of lower levels. Whether the variant asks for the file makes no difference. *)
Theorem log_statements_are_filtered y o s t e t0 x : log_ok s -> clock_ok g (now e) -> clock_ok g t0 ->
  exists s', execute y o s t e t0 x = Some s' /\ log_ok s'
    /\ (LOG_ARGS y (family x) (variant x) = None -> s' = s /\ forall f v, level_of (family x) <= level_of f -> LOG_ARGS y f v = None)
    /\ (LOG_ARGS y (family x) (variant x) <> None ->
          if IsLogLevelApplicable s t (level_of (family x)) then
            exists full f evs, full_line o (level_of (family x))
                (if (variant_args (variant x)).1 || enablePrintingTime s then GetCurrentTimestampString g t0 (DATETIME_SUBSECONDS_DIGITS o) else None)
                (Z.of_nat t) (Some (path x)) (line x) (function x) (text x) = Some full
              /\ Forall no_write evs
              /\ let l := take (Z.to_nat (BYTES - 1)) full in
                 events s' = events s ++ evs ++ (if decide (f = Stderr) then [] else [EWrite f l]) ++ [EWrite Stderr l]
          else s' = s).
Proof.
  intros Hs He Ht. unfold execute. destruct (LOG_ARGS y (family x) (variant x)) as [[[level time] file]|] eqn:E.
  - assert (level = level_of (family x) /\ time = (variant_args (variant x)).1) as [-> ->].
    { unfold LOG_ARGS in E. destruct (variant_args (variant x)), (family x); cbn in *; repeat case_match; by simplify_eq. }
    destruct (Log_writes g pid offset_small pid_range o s t e t0 (level_of (family x)) (variant_args (variant x)).1 file (Some (path x)) (line x) (function x) (text x) Hs He Ht) as (s' & E' & Hs' & Hw);
      [ destruct (family x); unfold level_of, FATAL, LL_ERROR, WARN, INFO, DEBUG, TRACE; lia | ].
    exists s'. split_and!; [ done | done | done | intros _ ]. destruct (IsLogLevelApplicable s t (level_of (family x))); [ | done ].
    destruct Hw as (full & f & evs & E1 & _ & E3 & E4). by exists full, f, evs.
  - exists s. split_and!; [ done | done | | done ]. intros _. split; [ done | ]. intros f v Hl. by eapply left_out_closed.
Qed.

End Statements.

(** ** Witness *)

Lemma log_statements_are_filtered_witness : exists s s',
  execute (mkBegin 0 0) 4711 (mkSymbols false true false false) sample_options (LogState_init TRACE) 7 (mkEnv 1709210096000000000 false) 1709210096123456789
    (mkStatement DEBUG_ T_ (CString.chars "a.cpp"%string) 12 (CString.chars "main"%string) (CString.chars "step"%string)) = Some s /\ events s = []
  /\ execute (mkBegin 0 0) 4711 (mkSymbols false true false false) sample_options (LogState_init TRACE) 7 (mkEnv 1709210096000000000 false) 1709210096123456789
    (mkStatement WARN_ T_ (CString.chars "a.cpp"%string) 12 (CString.chars "main"%string) (CString.chars "step"%string)) = Some s' /\ length (events s') = 1%nat.
Proof.
  assert (log_ok (LogState_init TRACE)) as Hs by (split; [ cbn; unfold DAY; lia | apply names_ok_empty ]).
  assert (clock_ok (mkBegin 0 0) (now (mkEnv 1709210096000000000 false)) /\ clock_ok (mkBegin 0 0) 1709210096123456789) as [H1 H2] by (unfold clock_ok, DAY, hoursOffsetNanoseconds; cbn [nanosecondsSinceEpoch hoursOffset now]; lia).
  destruct (log_statements_are_filtered (mkBegin 0 0) 4711 ltac:(cbn; lia) ltac:(lia) (mkSymbols false true false false) sample_options (LogState_init TRACE) 7 (mkEnv 1709210096000000000 false) 1709210096123456789
    (mkStatement DEBUG_ T_ (CString.chars "a.cpp"%string) 12 (CString.chars "main"%string) (CString.chars "step"%string)) Hs H1 H2) as (s & E & _ & Hn & _).
  destruct (log_statements_are_filtered (mkBegin 0 0) 4711 ltac:(cbn; lia) ltac:(lia) (mkSymbols false true false false) sample_options (LogState_init TRACE) 7 (mkEnv 1709210096000000000 false) 1709210096123456789
    (mkStatement WARN_ T_ (CString.chars "a.cpp"%string) 12 (CString.chars "main"%string) (CString.chars "step"%string)) Hs H1 H2) as (s' & E' & _ & _ & _).
  exists s, s'. split; [ exact E | ]. split; [ by destruct (Hn eq_refl) as [-> _] | ]. split; [ exact E' | ]. vm_compute in E'. injection E' as <-. reflexivity.
Defined.
End LogMacros.
