(* ===== verification/RandomBytes.v ===== *)
(** * Random bytes and the base of the hashes (src/Random.cpp, src/FlatHashMap.cpp)

    [Random::Bytes] fills memory with the outputs of a generator, eight bytes at a time and the
    first bytes of one more output for the rest. [RandHashBase] draws from a generator that is
    created at the first use and seeded with the first output of another one. The generator
    ([std::mt19937_64]) is a class: a state, its seeding, and a step with a 64-bit output. *)

From S2P Require Import Prelude.

Class Generator := {
  G : Type;
  seed : Z -> G;
  mt : G -> Z * G;
  mt_u64 : forall g, is_u64 (mt g).1
}.

Module RandomBytes.

(** The bytes of a [uint64_t] in memory. *)
Definition bytes8 (v : Z) : list Z := (fun i => v / 2 ^ (8 * i) mod 256) <$> [0; 1; 2; 3; 4; 5; 6; 7].

Section Random.
Context `{Generator}.

Definition UInt64 (g : G) : Z * G := mt g.

(** The loop: the generator, the memory, the pointer and the bytes that are left. *)
Fixpoint fill_words (fuel : nat) (g : G) (mem : list Z) (ptr bytes : Z) : option (G * list Z * Z * Z) :=
  match fuel with
  | O => None
  | S fuel =>
      if 8 <=? bytes then
        let '(v, g) := mt g in
        let* mem := memcpy mem ptr (bytes8 v) in
        fill_words fuel g mem (ptr + 8) (bytes - 8)
      else Some (g, mem, ptr, bytes)
  end.

Definition Bytes (g : G) (mem : list Z) (ptr bytes : Z) : option (G * list Z) :=
  let* (g, mem, ptr, bytes) := fill_words (S (Z.to_nat bytes)) g mem ptr bytes in
  if negb (bytes =? 0) then
    let '(v, g) := mt g in
    let* mem := memcpy mem ptr (take (Z.to_nat bytes) (bytes8 v)) in
    Some (g, mem)
  else Some (g, mem).

(** The outputs of [n] draws, and the generator behind them. *)
Fixpoint draws (n : nat) (g : G) : list Z * G :=
  match n with
  | O => ([], g)
  | S n => let '(v, g) := mt g in let '(vs, g) := draws n g in (v :: vs, g)
  end.

Definition stream (n : nat) (g : G) : list Z := concat (bytes8 <$> (draws n g).1).

Lemma length_bytes8 v : length (bytes8 v) = 8%nat.
Proof. done. Qed.

Lemma memcpy_next (pre done_ src post : list Z) : zlen src <= zlen post ->
  memcpy (pre ++ done_ ++ post) (zlen pre + zlen done_) src = Some (pre ++ (done_ ++ src) ++ drop (length src) post).
Proof.
  intros Hl. pose proof (zlen_nonneg pre). pose proof (zlen_nonneg done_). rewrite memcpy_in_range; [ | lia | rewrite !zlen_app; lia ]. rewrite (app_assoc pre done_ post). unfold zlen.
  replace (Z.to_nat (Z.of_nat (length pre) + Z.of_nat (length done_))) with (length (pre ++ done_)) by (rewrite length_app; lia).
  replace (Z.to_nat (Z.of_nat (length pre) + Z.of_nat (length done_) + Z.of_nat (length src))) with (length (pre ++ done_) + length src)%nat by (rewrite length_app; lia).
  rewrite take_app_length, <- drop_drop, drop_app_length. by rewrite <- !app_assoc.
Qed.

Lemma fill_words_spec fuel : forall g pre done_ post bytes, 0 <= bytes -> bytes <= zlen post -> bytes < Z.of_nat fuel ->
  let n := Z.to_nat (bytes / 8) in
  fill_words fuel g (pre ++ done_ ++ post) (zlen pre + zlen done_) bytes
  = Some ((draws n g).2, pre ++ (done_ ++ stream n g) ++ drop (8 * n) post, zlen pre + zlen done_ + 8 * (bytes / 8), bytes mod 8).
Proof.
  induction fuel as [|fuel IH]; intros g pre done_ post bytes Hb Hp Hf n; [ lia | ]. cbn [fill_words]. destruct (Z.leb_spec 8 bytes) as [Hge | Hlt].
  - destruct (mt g) as [v g1] eqn:Eg. rewrite (memcpy_next pre done_ (bytes8 v) post) by (unfold zlen; rewrite length_bytes8; unfold zlen in Hp; lia).
    assert ((bytes - 8) / 8 = bytes / 8 - 1 /\ (bytes - 8) mod 8 = bytes mod 8) as [Hdiv Hmod] by (replace (bytes - 8) with (bytes + (-1) * 8) by lia; rewrite Z.div_add, Z.mod_add by lia; lia).
    assert (1 <= bytes / 8) by (apply Z.div_le_lower_bound; lia). assert (n = S (Z.to_nat ((bytes - 8) / 8))) as En by (unfold n; lia).
    rewrite <- Z.add_assoc. change 8 with (zlen (bytes8 v)) at 1. rewrite <- zlen_app. rewrite IH; [ | lia | unfold zlen in *; rewrite length_drop, length_bytes8; lia | lia ].
    rewrite En. cbn [draws]. unfold stream. cbn [draws]. rewrite Eg. destruct (draws (Z.to_nat ((bytes - 8) / 8)) g1) as [vs g2]. cbn [fst snd fmap list_fmap concat]. rewrite length_bytes8.
    rewrite zlen_app. change (zlen (bytes8 v)) with 8. rewrite Hmod, Hdiv, drop_drop, <- (app_assoc done_ (bytes8 v)).
    replace (8 + 8 * Z.to_nat (bytes / 8 - 1))%nat with (8 * S (Z.to_nat (bytes / 8 - 1)))%nat by lia. do 3 f_equal. lia.
  - assert (n = 0%nat) as -> by (unfold n; rewrite Z.div_small; [ done | lia ]). cbn. rewrite app_nil_r, Z.div_small, Z.mod_small by lia. by rewrite Z.add_0_r.
Qed.

Lemma draws_S n g : draws (S n) g = ((mt g).1 :: (draws n (mt g).2).1, (draws n (mt g).2).2).
Proof. cbn [draws]. destruct (mt g) as [v g1]. cbn [fst snd]. by destruct (draws n g1). Qed.

Lemma draws_snoc n : forall g, draws (S n) g = ((draws n g).1 ++ [(mt (draws n g).2).1], (mt (draws n g).2).2).
Proof. induction n as [|n IH]; intros g; [ by rewrite draws_S | ]. rewrite draws_S, IH. by rewrite (draws_S n g). Qed.

Lemma stream_snoc n g : stream (S n) g = stream n g ++ bytes8 (mt (draws n g).2).1.
Proof. unfold stream. rewrite draws_snoc. cbn [fst]. rewrite fmap_app, concat_app. cbn [fmap list_fmap concat]. by rewrite app_nil_r. Qed.

Lemma length_stream n g : length (stream n g) = (8 * n)%nat.
Proof. induction n as [|n IH]; [ done | ]. rewrite stream_snoc, length_app, length_bytes8, IH. lia. Qed.

(** [Random::Bytes] fills exactly the bytes it was asked for, wherever they are, with the bytes
    of as many outputs as are needed, and draws no more; the memory around them stays. *)
Theorem random_fills_exactly g pre old post :
  let n := zlen old in let k := Z.to_nat ((n + 7) / 8) in
  Bytes g (pre ++ old ++ post) (zlen pre) n = Some ((draws k g).2, pre ++ take (length old) (stream k g) ++ post).
Proof.
  intros n k. pose proof (zlen_nonneg old) as Hn. unfold Bytes. replace (zlen pre) with (zlen pre + zlen (@nil Z)) by (rewrite zlen_nil; lia).
  pose proof (fill_words_spec (S (Z.to_nat n)) g pre [] (old ++ post) n Hn ltac:(unfold n; rewrite ?zlen_app; pose proof (zlen_nonneg post); lia) ltac:(lia)) as E. cbn [app] in E. rewrite E. clear E.
  set (q := n / 8). set (r := n mod 8). pose proof (Z.div_mod n 8 ltac:(lia)) as Hdm. pose proof (Z.mod_pos_bound n 8 ltac:(lia)) as Hr. fold q r in Hdm, Hr. cbn [app].
  assert (0 <= q) as Hq by lia. pose proof (length_stream (Z.to_nat q) g) as Hls.
  assert (length old = Z.to_nat n) as Ho by (unfold n, zlen; lia). destruct (Z.eqb_spec r 0) as [Hr0 | Hr0]; cbn [negb].
  - assert (k = Z.to_nat q) as -> by (unfold k; f_equal; symmetry; apply Z.div_unique with 7; lia). f_equal. f_equal. f_equal. f_equal.
    + rewrite take_ge; [ done | lia ].
    + rewrite drop_app_ge by lia. replace (8 * Z.to_nat q - length old)%nat with 0%nat by lia. done.
  - assert (k = S (Z.to_nat q)) as -> by (unfold k; rewrite <- Z2Nat.inj_succ by lia; f_equal; symmetry; apply Z.div_unique with (r - 1); lia).
    rewrite draws_snoc, stream_snoc. cbn [snd]. destruct (mt (draws (Z.to_nat q) g).2) as [v g2]. cbn [fst snd].
    replace (zlen pre + zlen [] + 8 * q) with (zlen pre + zlen (stream (Z.to_nat q) g)) by (rewrite zlen_nil; unfold zlen; rewrite Hls; lia).
    rewrite memcpy_next. 2: { rewrite zlen_take. unfold zlen. rewrite length_bytes8, length_drop, length_app. lia. }
    f_equal. f_equal. f_equal.
    rewrite length_take, length_bytes8. rewrite take_app_ge by lia. replace (length old - length (stream (Z.to_nat q) g))%nat with (Z.to_nat r) by lia. rewrite <- !app_assoc. f_equal. f_equal.
    rewrite drop_drop, drop_app_ge by lia. replace (8 * Z.to_nat q + Z.to_nat r `min` 8 - length old)%nat with 0%nat by lia. done.
Qed.

(** ** The base of the hashes *)

(** The static variables; [device] is what [std::random_device] gives. *)
Record Statics := mkStatics { init_mt : option G; base_mt : option G }.

Definition InitRandom (device : Z) (s : Statics) : Z * Statics :=
  let g := match init_mt s with Some g => g | None => seed device end in
  let '(v, g) := mt g in (v, mkStatics (Some g) (base_mt s)).

Definition RandHashBase (device : Z) (s : Statics) : Z * Statics :=
  let '(g, s) := match base_mt s with
                 | Some g => (g, s)
                 | None => let '(v, s) := InitRandom device s in (seed v, s)
                 end in
  let '(v, g) := mt g in (v, mkStatics (init_mt s) (Some g)).

Fixpoint bases (device : Z) (n : nat) (s : Statics) : list Z * Statics :=
  match n with
  | O => ([], s)
  | S n => let '(v, s) := RandHashBase device s in let '(vs, s) := bases device n s in (v :: vs, s)
  end.

Lemma bases_seeded device n : forall i g, (bases device n (mkStatics i (Some g))).1 = (draws n g).1.
Proof.
  induction n as [|n IH]; intros i g; [ done | ]. cbn [bases draws RandHashBase base_mt init_mt]. unfold RandHashBase. cbn [base_mt init_mt]. destruct (mt g) as [v g1]. specialize (IH i g1).
  destruct (bases device n _) as [vs s], (draws n g1) as [ws g2]. cbn [fst] in *. by subst.
Qed.

(** The bases of the maps of a program are the successive outputs of one generator, whose seed is
    the first output of the generator that the device seeded. *)
Theorem hash_bases_come_from_one_seed device n : (bases device (S n) (mkStatics None None)).1 = (draws (S n) (seed (mt (seed device)).1)).1.
Proof.
  cbn [bases]. unfold RandHashBase, InitRandom. cbn [base_mt init_mt]. destruct (mt (seed device)) as [v0 g0]. cbn [base_mt init_mt fst draws]. destruct (mt (seed v0)) as [v g].
  pose proof (bases_seeded device n (Some g0) g) as Hs. destruct (bases device n _) as [vs s], (draws n g) as [ws g2]. cbn [fst] in *. by subst.
Qed.

End Random.
End RandomBytes.
