(* ===== verification/MallocPool.v ===== *)
(** * The pool without rpmalloc, and the operators new and delete (src/MemoryPool.cpp, src/MemoryPool_new.cpp)

    When rpmalloc is switched off, [Allocate] and [Release] use [malloc] and [free] and keep
    fewer statistics; the operators [new] and [delete] of the program all go through them.
    [malloc] is a class: the address it gives is not null, is a multiple of 16 and is not in use.
    A block that is released must be in use. The statistics then count the blocks in use, except
    that the deletion of a null pointer counts as well. *)

From S2P Require Import Prelude MemoryPool.

(** [malloc], given the addresses in use. *)
Class Malloc := {
  malloc : gset Z -> Z -> Z;
  malloc_fresh : forall used n, malloc used n ∉ used;
  malloc_aligned : forall used n, malloc used n mod 16 = 0;
  malloc_not_null : forall used n, malloc used n <> 0
}.

Module MallocPool.
Import MemoryPool.

(** [struct MemoryStats] of this build. *)
Record MallocStats := mkMallocStats {
  small_allocations : Z;
  medium_allocations : Z;
  large_allocations : Z;
  allocated_bytes : Z;
  deallocations : Z
}.

(** The blocks in use, with the sizes that were asked for. *)
Record Heap := mkHeap { stats : MallocStats; blocks : gmap Z Z }.

Definition Heap_init : Heap := mkHeap (mkMallocStats 0 0 0 0 0) ∅.

Section Pool.
Context `{Malloc}.

Definition Allocate (h : Heap) (bytes : Z) : option (Heap * Z * Z) :=
  let s := stats h in
  let s := mkMallocStats (small_allocations s) (medium_allocations s) (large_allocations s) (allocated_bytes s + bytes) (deallocations s) in
  let s :=
    if bytes <=? MAX_BYTES_FOR_SMALL_ALLOCATIONS then mkMallocStats (small_allocations s + 1) (medium_allocations s) (large_allocations s) (allocated_bytes s) (deallocations s)
    else if bytes <=? MAX_BYTES_FOR_MEDIUM_ALLOCATIONS then mkMallocStats (small_allocations s) (medium_allocations s + 1) (large_allocations s) (allocated_bytes s) (deallocations s)
    else mkMallocStats (small_allocations s) (medium_allocations s) (large_allocations s + 1) (allocated_bytes s) (deallocations s) in
  let ptr := malloc (dom (blocks h)) bytes in
  assert* Z.land ptr 0xF =? 0 in
  assert* negb (ptr =? 0) in
  Some (mkHeap s (<[ptr := bytes]> (blocks h)), ptr, bytes).

(** [free(nullptr)] does nothing; [free] of an address that is not in use is undefined. *)
Definition free (bs : gmap Z Z) (ptr : Z) : option (gmap Z Z) :=
  if ptr =? 0 then Some bs
  else assert* bool_decide (is_Some (bs !! ptr)) in Some (delete ptr bs).

Definition Release (h : Heap) (ptr bytes : Z) : option Heap :=
  let s := stats h in
  let s := mkMallocStats (small_allocations s) (medium_allocations s) (large_allocations s) (allocated_bytes s) (deallocations s + 1) in
  let* bs := free (blocks h) ptr in
  Some (mkHeap s bs).

(** The forms of the operators: for arrays, and without exceptions or with a size. *)
Inductive pool_op := New (array nothrow : bool) (size : Z) | Delete (array sized : bool) (p : Z) (size : Z).

Definition operator_new (h : Heap) (size : Z) : option (Heap * Z) := let* (h, ptr, _) := Allocate h size in Some (h, ptr).

Definition operator_delete (h : Heap) (p : Z) : option Heap := Release h p 0.

Definition pool_step (h : Heap) (o : pool_op) : option Heap :=
  match o with
  | New _ _ size => let* (h, _) := operator_new h size in Some h
  | Delete _ _ p _ => operator_delete h p
  end.

Fixpoint pool_run (h : Heap) (os : list pool_op) : option Heap :=
  match os with
  | [] => Some h
  | o :: os => let* h := pool_step h o in pool_run h os
  end.

Definition is_null (o : pool_op) : Z := match o with Delete _ _ p _ => if p =? 0 then 1 else 0 | New _ _ _ => 0 end.

Definition nulls (os : list pool_op) : Z := foldr (fun o x => is_null o + x) 0 os.

Definition requested (os : list pool_op) : Z := foldr (fun o x => match o with New _ _ n => n + x | _ => x end) 0 os.

Definition total_allocations (s : MallocStats) : Z := small_allocations s + medium_allocations s + large_allocations s.

Lemma Allocate_ok h n : exists h' ptr, Allocate h n = Some (h', ptr, n) /\ ptr <> 0 /\ ptr ∉ dom (blocks h) /\ blocks h' = <[ptr := n]> (blocks h)
  /\ total_allocations (stats h') = total_allocations (stats h) + 1 /\ allocated_bytes (stats h') = allocated_bytes (stats h) + n /\ deallocations (stats h') = deallocations (stats h).
Proof.
  unfold Allocate. change 0xF with (Z.ones 4). rewrite Z.land_ones by lia. change (2 ^ 4) with 16. rewrite malloc_aligned, Z.eqb_refl. rewrite (proj2 (Z.eqb_neq _ _) (malloc_not_null _ _)). cbn [negb].
  eexists _, _. split; [ done | ]. split; [ apply malloc_not_null | ]. split; [ apply malloc_fresh | ]. split; [ done | ]. unfold total_allocations. cbn [stats].
  destruct (n <=? _); [ cbn; lia | ]. destruct (n <=? _); cbn; lia.
Qed.

Lemma pool_run_stats os : forall h h', pool_run h os = Some h' ->
  allocated_bytes (stats h') = allocated_bytes (stats h) + requested os
  /\ total_allocations (stats h') - deallocations (stats h') + nulls os - Z.of_nat (size (blocks h')) = total_allocations (stats h) - deallocations (stats h) - Z.of_nat (size (blocks h)).
Proof.
  induction os as [|o os IH]; intros h h' E; cbn [pool_run] in E; [ injection E as <-; cbn; lia | ].
  destruct (pool_step h o) as [h1|] eqn:E1; [ | done ]. destruct (IH h1 h' E) as [Hb Ht]. change (nulls (o :: os)) with (is_null o + nulls os). change (requested (o :: os)) with (match o with New _ _ n => n + requested os | _ => requested os end).
  destruct o as [a n sz | a z p sz]; cbn [pool_step] in E1.
  - cbn [is_null]. unfold operator_new in E1. destruct (Allocate_ok h sz) as (h2 & ptr & E2 & _ & Hd & Hbs & Hta & Hal & Hde). rewrite E2 in E1. injection E1 as ->.
    rewrite Hbs, map_size_insert_None in Ht by (by apply not_elem_of_dom). lia.
  - unfold operator_delete, Release, free in E1. cbn [is_null]. destruct (Z.eqb_spec p 0) as [-> | Hp].
    + injection E1 as <-. unfold total_allocations in *. cbn [stats blocks small_allocations medium_allocations large_allocations deallocations allocated_bytes] in *. lia.
    + case_bool_decide as Hin; [ | done ]. injection E1 as <-. destruct Hin as [x Hx].
      unfold total_allocations in *. cbn [stats blocks small_allocations medium_allocations large_allocations deallocations allocated_bytes] in *.
      rewrite map_size_delete_Some in Ht by (by eexists). assert (size (blocks h) <> 0)%nat by (intros E0%map_size_empty_inv; rewrite E0, lookup_empty in Hx; done). lia.
Qed.

(** In every run of [new] and [delete] that releases only blocks that are in use, the allocations
    minus the deallocations are the blocks in use minus the null pointers that were deleted, and
    the counted bytes are those that were asked for. *)
Theorem malloc_stats_count_the_blocks os h : pool_run Heap_init os = Some h ->
  total_allocations (stats h) - deallocations (stats h) = Z.of_nat (size (blocks h)) - nulls os /\ allocated_bytes (stats h) = requested os.
Proof.
  intros E. destruct (pool_run_stats os Heap_init h E) as [Hb Ht]. change (allocated_bytes (stats Heap_init)) with 0 in Hb. change (total_allocations (stats Heap_init) - deallocations (stats Heap_init) - Z.of_nat (size (blocks Heap_init))) with 0 in Ht. lia.
Qed.

(** A new block is never one that is in use. *)
Theorem new_gives_an_unused_block h n : exists h' ptr, operator_new h n = Some (h', ptr) /\ ptr <> 0 /\ blocks h !! ptr = None /\ blocks h' = <[ptr := n]> (blocks h).
Proof. unfold operator_new. destruct (Allocate_ok h n) as (h' & ptr & -> & H0 & Hd & Hb & _). eexists _, _. split_and!; try done. by apply not_elem_of_dom. Qed.

End Pool.

(** ** Witness *)

(** The next multiple of 16 above everything in use. *)
Definition bump (used : gset Z) : Z := 16 * (1 + foldr (fun x y => Z.max (Z.abs x) y) 0 (elements used)).

Lemma bump_above used x : x ∈ used -> Z.abs x < bump used.
Proof.
  intros Hx%elem_of_elements. unfold bump. assert (forall l, 0 <= foldr (fun x y => Z.max (Z.abs x) y) 0 l) as Hn by (induction l; cbn; lia).
  induction (elements used) as [|y l IH]; [ by apply elem_of_nil in Hx | ]. apply elem_of_cons in Hx as [-> | Hx]; cbn [foldr]; pose proof (Hn l); [ lia | specialize (IH Hx); lia ].
Qed.

#[local, refine] Instance bump_malloc : Malloc := { malloc used _ := bump used }.
Proof.
  - intros used _ Hin%bump_above. assert (0 <= bump used) by lia. lia.
  - intros used _. unfold bump. rewrite Z.mul_comm. by apply Z.mod_mul.
  - intros used _. unfold bump. assert (forall l, 0 <= foldr (fun x y => Z.max (Z.abs x) y) 0 l) as Hn by (induction l; cbn; lia). pose proof (Hn (elements used)). lia.
Defined.

Lemma malloc_stats_count_the_blocks_witness : exists h, pool_run Heap_init [New false false 40; New true false 5000; Delete false true 16 40; Delete false false 0 0] = Some h
  /\ total_allocations (stats h) - deallocations (stats h) = Z.of_nat (size (blocks h)) - 1 /\ allocated_bytes (stats h) = 5040.
Proof.
  destruct (pool_run Heap_init [New false false 40; New true false 5000; Delete false true 16 40; Delete false false 0 0]) as [h|] eqn:E; [ | vm_compute in E; discriminate E ].
  exists h. split; [ reflexivity | ]. apply (malloc_stats_count_the_blocks _ h E).
Defined.

End MallocPool.
