(* ===== verification/ByteWriters.v ===== *)
(** * Byte writers (include/icon7/ByteWriter.hpp)

    A [ByteWriter] owns a [ByteBufferWritable], and its base class, the writer of bitscpp, keeps
    a pointer to this member. Every constructor therefore sets the pointer again: a moved writer
    would otherwise write into the member of the old one. Writers are objects at addresses, and
    what bitscpp writes goes through the pointer. The theorem: whatever is constructed, moved,
    assigned and written, every writer points to its own buffer, and the buffers hold what was
    written to their writers. *)

From S2P Require Import Prelude MemoryPool ByteBuffer.

Module ByteWriters.

(** A writer: the member [_data], and the address that the base class was initialised with. *)
Record ByteWriter := mkWriter { _data : ByteBufferWritable; target : nat }.

Abbreviation Writers := (gmap nat ByteWriter).

Section Writers.
Context `{Allocator}.

(** [Init(&_data)] of the writer at [a]. *)
Definition Init (a : nat) (data : ByteBufferWritable) : ByteWriter := mkWriter data a.

Definition construct (ws : Writers) (a : nat) : option Writers := Some (<[a := Init a ByteBufferWritable_default]> ws).

Definition construct_capacity (ws : Writers) (a : nat) (initialCapacity : Z) : option Writers :=
  let* b := ByteBufferWritable_capacity initialCapacity in
  Some (<[a := Init a b]> ws).

(** [ByteWriter(ByteWriter &&o)]: the move leaves an empty buffer behind. *)
Definition construct_move (ws : Writers) (a o : nat) : option Writers :=
  let* w := ws !! o in
  let ws := <[o := mkWriter ByteBufferWritable_default (target w)]> ws in
  Some (<[a := Init a (_data w)]> ws).

(** The destructor. *)
Definition destroy (ws : Writers) (a : nat) : option (ByteBufferWritable * Writers) :=
  let* w := ws !! a in
  let* b := free_buffer (_data w) in
  Some (b, delete a ws).

(** [operator=]: destroy, then construct in place. Assigned to itself, a writer moves out of what
    the destructor left. *)
Definition assign (ws : Writers) (a o : nat) : option Writers :=
  let* (b, ws') := destroy ws a in
  if decide (a = o) then Some (<[a := Init a ByteBufferWritable_default]> ws')
  else construct_move ws' a o.

Definition Reinit (ws : Writers) (a : nat) (capacity : Z) : option Writers :=
  let* w := ws !! a in
  let* b := clear (_data w) in
  let* b := reserve b capacity in
  Some (<[a := Init a b]> ws).

(** What the writer of bitscpp does with the bytes of a value: it appends them to its target. *)
Definition op (ws : Writers) (a : nat) (bytes : list Z) : option Writers :=
  let* w := ws !! a in
  let* t := ws !! target w in
  let* b := append (_data t) bytes in
  Some (<[target w := mkWriter b (target t)]> ws).

(** [std::move(writer._data)], as the code takes the frame out of a writer. *)
Definition take_data (ws : Writers) (a : nat) : option (ByteBufferWritable * Writers) :=
  let* w := ws !! a in
  Some (_data w, <[a := mkWriter ByteBufferWritable_default (target w)]> ws).

(** ** Programs *)

Inductive writer_op :=
| WConstruct (a : nat)
| WCapacity (a : nat) (initialCapacity : Z)
| WMove (a o : nat)
| WAssign (a o : nat)
| WReinit (a : nat) (capacity : Z)
| WOp (a : nat) (bytes : list Z)
| WTake (a : nat)
| WDestroy (a : nat).

(** Objects are constructed where there is none, and used while they exist. *)
Definition allowed {X} (ws : gmap nat X) (o : writer_op) : bool :=
  match o with
  | WConstruct a | WCapacity a _ => bool_decide (ws !! a = None)
  | WMove a o => bool_decide (ws !! a = None) && bool_decide (is_Some (ws !! o))
  | WAssign a o => bool_decide (is_Some (ws !! a)) && bool_decide (is_Some (ws !! o))
  | WReinit a _ | WOp a _ | WTake a | WDestroy a => bool_decide (is_Some (ws !! a))
  end.

Definition writer_step (ws : Writers) (o : writer_op) : option Writers :=
  if allowed ws o then
    match o with
    | WConstruct a => construct ws a
    | WCapacity a n => construct_capacity ws a n
    | WMove a o => construct_move ws a o
    | WAssign a o => assign ws a o
    | WReinit a n => Reinit ws a n
    | WOp a bytes => op ws a bytes
    | WTake a => let* (_, ws) := take_data ws a in Some ws
    | WDestroy a => let* (_, ws) := destroy ws a in Some ws
    end
  else Some ws.

Fixpoint writer_run (ws : Writers) (os : list writer_op) : option Writers :=
  match os with
  | [] => Some ws
  | o :: os => let* ws := writer_step ws o in writer_run ws os
  end.

(** The specification: a list of bytes for each writer. *)
Definition spec_step (m : gmap nat (list Z)) (o : writer_op) : gmap nat (list Z) :=
  if allowed m o then
    match o with
    | WConstruct a | WCapacity a _ => <[a := []]> m
    | WMove a o => <[a := default [] (m !! o)]> (<[o := []]> m)
    | WAssign a o => if decide (a = o) then <[a := []]> m else <[a := default [] (m !! o)]> (<[o := []]> m)
    | WReinit a _ => <[a := []]> m
    | WOp a bytes => <[a := default [] (m !! a) ++ bytes]> m
    | WTake a => <[a := []]> m
    | WDestroy a => delete a m
    end
  else m.

Definition spec_run (m : gmap nat (list Z)) (os : list writer_op) : gmap nat (list Z) := fold_left spec_step os m.

(** ** The invariant *)

(** [n]: no buffer holds more than this. *)
Record ok (n : Z) (ws : Writers) (m : gmap nat (list Z)) : Prop := {
  ok_same : forall a, m !! a = (fun w => contents (_data w)) <$> ws !! a;
  ok_target : forall a w, ws !! a = Some w -> target w = a;
  ok_wf : forall a w, ws !! a = Some w -> wf (_data w) /\ _size (_data w) <= n
}.

Lemma default_wf : wf ByteBufferWritable_default.
Proof. done. Qed.

(** One writer gets a new buffer. *)
Lemma ok_set n n' ws m a b : ok n ws m -> n <= n' -> wf b -> _size b <= n' -> ok n' (<[a := mkWriter b a]> ws) (<[a := contents b]> m).
Proof.
  intros [H1 H2 H3] Hn Hb Hs. split; intros a'; destruct (decide (a = a')) as [<- | Hne]; rewrite ?lookup_insert_eq, ?lookup_insert_ne by done; try done.
  - by intros w [= <-].
  - apply H2.
  - by intros w [= <-].
  - intros w Hw. destruct (H3 a' w Hw). split; [ done | lia ].
Qed.

Lemma allowed_same n ws m o : ok n ws m -> allowed m o = allowed ws o.
Proof.
  intros [H1 _ _]. assert (forall a, bool_decide (m !! a = None) = bool_decide (ws !! a = None) /\ bool_decide (is_Some (m !! a)) = bool_decide (is_Some (ws !! a))) as E.
  { intros a. rewrite H1. destruct (ws !! a); cbn; split; done. }
  destruct o; cbn [allowed]; rewrite ?(proj1 (E _)), ?(proj2 (E _)); done.
Qed.

Lemma move_ok n ws m a o w : ok n ws m -> 0 <= n -> ws !! o = Some w -> a <> o ->
  ok n (<[a := Init a (_data w)]> (<[o := mkWriter ByteBufferWritable_default (target w)]> ws)) (<[a := default [] (m !! o)]> (<[o := []]> m)).
Proof.
  intros Hok Hn Hw Hne. destruct (ok_wf _ _ _ Hok _ _ Hw) as [Hwf Hs]. rewrite (ok_same _ _ _ Hok), Hw. cbn [fmap option_fmap option_map default]. rewrite (ok_target _ _ _ Hok _ _ Hw).
  apply (ok_set n); [ | lia | done | done ]. by apply (ok_set n n _ _ o ByteBufferWritable_default); [ | lia | | ].
Qed.

Lemma delete_ok n ws m a : ok n ws m -> ok n (delete a ws) (delete a m).
Proof.
  intros [H1 H2 H3]. split; intros a'; destruct (decide (a = a')) as [<- | Hne]; rewrite ?lookup_delete_eq, ?lookup_delete_ne by done; try done; [ apply H2 | apply H3 ].
Qed.

Lemma destroy_ok n ws m a : ok n ws m -> is_Some (ws !! a) -> exists b, destroy ws a = Some (b, delete a ws).
Proof. intros Hok [w Hw]. unfold destroy. rewrite Hw. destruct (free_buffer_wf (_data w)) as [-> | ->]; [ by apply (ok_wf _ _ _ Hok a) | by eexists.. ]. Qed.

Definition op_size (o : writer_op) : Z := match o with WOp _ bytes => zlen bytes | _ => 0 end.

Definition op_fits (o : writer_op) : Prop :=
  match o with WCapacity _ n => 0 <= n < 2 ^ 30 | WReinit _ n => 0 <= n <= MAX_RESERVE | _ => True end.

Lemma op_size_nonneg o : 0 <= op_size o.
Proof. destruct o; cbn [op_size]; try lia. apply zlen_nonneg. Qed.

Lemma writers_step_ok n ws m o : ok n ws m -> 0 <= n -> op_fits o -> n + op_size o <= MAX_RESERVE ->
  exists ws', writer_step ws o = Some ws' /\ ok (n + op_size o) ws' (spec_step m o).
Proof.
  intros Hok Hn Hf Hs. unfold writer_step, spec_step. rewrite (allowed_same n ws m o Hok). pose proof (op_size_nonneg o) as Ho.
  destruct (allowed ws o) eqn:Ha; [ | exists ws; split; [ done | ]; destruct Hok; split; try done; intros a w Hw; destruct (ok_wf0 a w Hw); split; [ done | lia ] ].
  destruct o as [a|a c|a o|a o|a c|a bytes|a|a]; cbn [allowed op_size op_fits] in *; rewrite ?Z.add_0_r; rewrite ?andb_true_iff, ?bool_decide_eq_true in Ha.
  - eexists. split; [ done | ]. by apply (ok_set n n ws m a ByteBufferWritable_default); [ | lia | | ].
  - unfold construct_capacity. destruct (Z.eq_dec c 0) as [-> | Hc].
    + eexists. split; [ done | ]. by apply (ok_set n n ws m a ByteBufferWritable_default); [ | lia | | ].
    + destruct (ByteBufferWritable_capacity_spec c) as (mem & cap & -> & Hcap & Hm & Hm'); [ lia | ]. eexists. split; [ done | ].
      rewrite <- (contents_empty (mkW (Some mem) 0 cap 32 0)) by done. apply (ok_set n n ws m a); [ done | lia | | done ]. split; [ cbn; lia | ]. unfold sizeof_StorageHeader, INITIAL_DATA_OFFSET. cbn. lia.
  - destruct Ha as [Hna [w Hw]]. unfold construct_move. rewrite Hw. eexists. split; [ done | ]. apply move_ok; [ done | done | done | congruence ].
  - destruct Ha as [Hsa Hso]. unfold assign. destruct (destroy_ok n ws m a Hok Hsa) as [b ->]. destruct (decide (a = o)) as [<- | Hne].
    + eexists. split; [ done | ]. unfold Init. rewrite insert_delete_eq. by apply (ok_set n n ws m a ByteBufferWritable_default); [ | lia | | ].
    + destruct Hso as [w Hw]. unfold construct_move. rewrite lookup_delete_ne, Hw by done. eexists. split; [ done | ]. rewrite <- (insert_delete_eq (<[o := []]> m) a), delete_insert_ne by done.
      replace (m !! o) with (delete a m !! o) by (by rewrite lookup_delete_ne). rewrite <- (insert_delete_eq (<[o:=mkWriter _ _]> (delete a ws)) a).
      rewrite (delete_insert_ne (delete a ws)) by done. rewrite delete_delete_eq. apply move_ok; [ by apply delete_ok | done | by rewrite lookup_delete_ne | done ].
  - destruct Ha as [w Hw]. destruct (ok_wf _ _ _ Hok a w Hw) as [Hwf Hsz]. unfold Reinit. rewrite Hw. destruct (clear_spec (_data w) Hwf) as (b & -> & Hb & Hc & Hs0 & _).
    destruct (reserve_spec 0 b c Hb Hf) as (b' & E & Hb' & Hc' & Hs' & _). unfold reserve. rewrite E. eexists. split; [ done | ]. rewrite <- Hc, <- Hc'. apply (ok_set n); [ done | lia | done | lia ].
  - destruct Ha as [w Hw]. destruct (ok_wf _ _ _ Hok a w Hw) as [Hwf Hsz]. unfold op. rewrite Hw, (ok_target _ _ _ Hok a w Hw), Hw, (ok_target _ _ _ Hok a w Hw).
    destruct (append_spec (_data w) bytes) as (b & -> & [W1 C1 S1 _ _ _]); [ done | lia | ]. eexists. split; [ done | ].
    rewrite (ok_same _ _ _ Hok), Hw. change (default [] _) with (contents (_data w)). rewrite <- C1. apply (ok_set n); [ done | lia | done | lia ].
  - destruct Ha as [w Hw]. unfold take_data. rewrite Hw, (ok_target _ _ _ Hok a w Hw). eexists. split; [ done | ]. by apply (ok_set n n ws m a ByteBufferWritable_default); [ | lia | | ].
  - destruct (destroy_ok n ws m a Hok Ha) as [b ->]. eexists. split; [ done | ]. by apply delete_ok.
Qed.

Definition total_size (os : list writer_op) : Z := foldr (fun o x => op_size o + x) 0 os.

Lemma total_size_nonneg os : 0 <= total_size os.
Proof. induction os as [|o os IH]; [ done | ]. change (total_size (o :: os)) with (op_size o + total_size os). pose proof (op_size_nonneg o). lia. Qed.

Lemma writers_run_ok os : forall n ws m, ok n ws m -> 0 <= n -> Forall op_fits os -> n + total_size os <= MAX_RESERVE -> exists ws' n', writer_run ws os = Some ws' /\ ok n' ws' (spec_run m os).
Proof.
  induction os as [|o os IH]; intros n ws m Hok Hn Hf Hs; [ by exists ws, n | ]. apply Forall_cons in Hf as [Ho Hf]. change (total_size (o :: os)) with (op_size o + total_size os) in Hs.
  pose proof (op_size_nonneg o). pose proof (total_size_nonneg os).
  destruct (writers_step_ok n ws m o Hok Hn Ho) as (ws1 & E & Hok1); [ lia | ]. cbn [writer_run]. rewrite E. unfold spec_run. cbn [fold_left]. apply (IH (n + op_size o)); [ done | lia | done | lia ].
Qed.

(** Whatever writers are constructed, moved, assigned, emptied and destroyed, and whatever is
    written through them, no assertion fails, every writer points to its own buffer, and each
    buffer holds exactly what was written to its writer since it was constructed, moved along
    when the writer was moved. *)
Theorem byte_writers_refine_lists os : Forall op_fits os -> total_size os <= MAX_RESERVE ->
  exists ws, writer_run ∅ os = Some ws
    /\ (forall a w, ws !! a = Some w -> target w = a /\ wf (_data w))
    /\ forall a, spec_run ∅ os !! a = (fun w => contents (_data w)) <$> ws !! a.
Proof.
  intros Hf Hs. assert (ok 0 ∅ ∅) as Hi by (split; [ done | | ]; intros a w; by rewrite lookup_empty).
  destruct (writers_run_ok os 0 ∅ ∅ Hi ltac:(lia) Hf ltac:(lia)) as (ws & n & E & Hok). exists ws. split_and!; [ done | | apply Hok ].
  intros a w Hw. split; [ by apply (ok_target _ _ _ Hok) | by apply (ok_wf _ _ _ Hok a) ].
Qed.

End Writers.

(** ** Witness *)

Definition sample_ops : list writer_op := [WCapacity 1 100; WOp 1 [5; 6]; WMove 2 1; WOp 2 [7]; WOp 1 [8]; WConstruct 3; WAssign 3 2; WAssign 1 1].

Lemma byte_writers_refine_lists_witness : exists ws, writer_run ∅ sample_ops = Some ws /\ (contents ∘ _data) <$> (ws !! 3%nat) = Some [5; 6; 7].
Proof.
  destruct (byte_writers_refine_lists sample_ops) as (ws & E & _ & Hc).
  - repeat (apply Forall_cons; split; [ first [ exact I | split; [ discriminate | reflexivity ] ] | ]). apply Forall_nil. exact I.
  - vm_compute. discriminate.
  - exists ws. split; [ exact E | ]. specialize (Hc 3%nat). destruct (ws !! 3%nat) as [w|]; [ | vm_compute in Hc; discriminate Hc ]. change (Some [5; 6; 7] = Some (contents (_data w))) in Hc. symmetry. exact Hc.
Defined.

End ByteWriters.
