(* ===== verification/PeerFlags.v ===== *)
(** * The state flags of a peer (include/icon7/Peer.hpp, src/Peer.cpp)

    Every peer has a word of flags that any thread may read: ready to use, disconnecting, closed
    and connect error. Bits are set by the events of the sockets and by the requests of other
    threads, and never cleared. This file relates what the questions answer to what has happened
    to the peer, in the runs of PeerCallbacks.v. *)

From S2P Require Import Prelude PeersToFlush PeerManager HostLifecycle PeerCallbacks.

Module PeerFlags.
Import PeerManager HostLifecycle PeerCallbacks.

Definition BIT_ERROR_CONNECT : Z := 8.

(** The questions, on the flags of a peer. *)
Definition IsReadyToUse (peerFlags : Z) : bool := negb (Z.land peerFlags BIT_READY =? 0).
Definition IsClosed (peerFlags : Z) : bool := negb (Z.land peerFlags BIT_CLOSED =? 0).
Definition HadConnectError (peerFlags : Z) : bool := negb (Z.land peerFlags BIT_ERROR_CONNECT =? 0).

Definition GetPeerStateFlags (s : HostState) (d : nat) : option Z := peerFlags s !! d.

Lemma test_bit f n : 0 <= n -> negb (Z.land f (2 ^ n) =? 0) = Z.testbit f n.
Proof.
  intros Hn. destruct (Z.testbit f n) eqn:E.
  - apply negb_true_iff, Z.eqb_neq. intros H0. apply (f_equal (fun x => Z.testbit x n)) in H0. by rewrite Z.land_spec, E, Z.pow2_bits_true, Z.bits_0 in H0.
  - apply negb_false_iff, Z.eqb_eq, Z.bits_inj'. intros m Hm. rewrite Z.land_spec, Z.bits_0, Z.pow2_bits_eqb by done.
    destruct (Z.eqb_spec n m) as [<- | _]; [ by rewrite E | apply andb_false_r ].
Qed.

Lemma ready_bit f : IsReadyToUse f = Z.testbit f 0.
Proof. by apply (test_bit f 0). Qed.
Lemma disconnecting_bit f : IsDisconnecting f = Z.testbit f 1.
Proof. by apply (test_bit f 1). Qed.
Lemma closed_bit f : IsClosed f = Z.testbit f 2.
Proof. by apply (test_bit f 2). Qed.
Lemma error_bit f : HadConnectError f = Z.testbit f 3.
Proof. by apply (test_bit f 3). Qed.

(** ** The invariant *)

(** The peer [d] was announced as connected. *)
Definition opened (h : HostState) (d : nat) : Prop := exists x, shared_handle h d = Some x /\ x ∈ connected h.

(** The word [f] tells what happened to [d]. *)
Record tells_state (h : HostState) (d : nat) (f : Z) : Prop := {
  ts_ready : Z.testbit f 0 = true <-> opened h d;
  ts_disconnecting : Z.testbit f 2 = true -> Z.testbit f 1 = true;
  ts_closed : Z.testbit f 2 = true <-> d ∈ disconnected h;
  ts_error : Z.testbit f 3 = false
}.

Record flags_inv (h : HostState) : Prop := {
  fi_tells : forall d f, peerFlags h !! d = Some f -> tells_state h d f;
  fi_known : forall d f, peerFlags h !! d = Some f -> is_Some (wst (world h) !! d);
  fi_connected : forall x, x ∈ connected h -> exists d, shared_handle h d = Some x
}.

Definition grows (h h' : HostState) : Prop := forall d f, peerFlags h !! d = Some f -> exists f', peerFlags h' !! d = Some f' /\ Z.lor f f' = f'.

Definition advances (h h' : HostState) : Prop := flags_inv h' /\ grows h h'.

Lemma grows_refl h h' : peerFlags h' = peerFlags h -> grows h h'.
Proof. intros E d f Hd. exists f. by rewrite E, Z.lor_diag. Qed.

Lemma grows_trans h1 h2 h3 : grows h1 h2 -> grows h2 h3 -> grows h1 h3.
Proof.
  intros H12 H23 d f Hd. destruct (H12 d f Hd) as (f2 & Hd2 & E2). destruct (H23 d f2 Hd2) as (f3 & Hd3 & E3).
  exists f3. split; [ done | ]. by rewrite <- E3, Z.lor_assoc, E2.
Qed.

Lemma advances_trans h1 h2 h3 : advances h1 h2 -> advances h2 h3 -> advances h1 h3.
Proof. intros [_ H12] [H H23]. split; [ done | by eapply grows_trans ]. Qed.

Lemma grows_alter h h' d bits : peerFlags h' = alter (fun f => Z.lor f bits) d (peerFlags h) -> grows h h'.
Proof.
  intros E d' f Hd. rewrite E. destruct (decide (d = d')) as [<- | Hne].
  - exists (Z.lor f bits). by rewrite lookup_alter_eq, Hd, Z.lor_assoc, Z.lor_diag.
  - exists f. by rewrite lookup_alter_ne, Z.lor_diag.
Qed.

(** The fields the flags tell about are as before. *)
Lemma flags_same h h' : flags_inv h -> world h' = world h -> peerFlags h' = peerFlags h -> connected h' = connected h -> disconnected h' = disconnected h -> advances h h'.
Proof.
  intros [H1 H2 H3] Ew Ef Ec Ed. split; [ | by apply grows_refl ]. split; unfold shared_handle in *; rewrite ?Ew, ?Ef, ?Ec; [ | done | done ].
  intros d f Hd. destruct (H1 d f Hd). split; unfold opened, shared_handle in *; by rewrite ?Ew, ?Ec, ?Ed.
Qed.

(** A bit is set in the word of [d]; the other peers are told about as before. *)
Lemma set_bit_advances h h' d bits : flags_inv h -> peerFlags h' = alter (fun f => Z.lor f bits) d (peerFlags h) ->
  (forall d', is_Some (wst (world h) !! d') -> is_Some (wst (world h') !! d')) ->
  (forall d' f, d' <> d -> tells_state h d' f -> tells_state h' d' f) ->
  (forall f, peerFlags h !! d = Some f -> tells_state h d f -> tells_state h' d (Z.lor f bits)) ->
  (forall x, x ∈ connected h' -> exists d', shared_handle h' d' = Some x) -> advances h h'.
Proof.
  intros [H1 H2 H3] E Hk Ho Hd Hc. split; [ | by eapply grows_alter ]. split; [ | | done ]; intros d' f; rewrite E.
  - intros [[<- (f0 & Hf & ->)] | [Hne Hf]]%lookup_alter_Some; [ by apply Hd, H1 | apply Ho; [ congruence | by apply H1 ] ].
  - intros [[<- (f0 & Hf & ->)] | [Hne Hf]]%lookup_alter_Some; by eapply Hk, H2.
Qed.

(** ** The steps *)

Lemma disconnecting_advances h d : flags_inv h -> advances h (or_flags h d BIT_DISCONNECTING).
Proof.
  intros Hi. apply (set_bit_advances h _ d BIT_DISCONNECTING Hi); try done; [ by intros d' f _ [] | | by apply Hi ].
  intros f Hf [T1 T2 T3 T4]. split; rewrite ?Z.lor_spec; cbn; rewrite ?orb_false_r, ?orb_true_r; done.
Qed.

Lemma disconnect_advances h d : host_ok h -> live h d -> flags_inv h -> advances h (_InternalDisconnect h d).
Proof.
  intros Hok Hl Hi. destruct (ho_live _ Hok d Hl) as [k Hk]. destruct (ho_sock _ Hok k d Hk) as [_ Hs].
  unfold _InternalDisconnect. cbn [or_flags peer_socket]. rewrite Hs. by apply disconnecting_advances.
Qed.

Lemma disconnect_all_advances ds : forall h, host_ok h -> Forall (live h) ds -> flags_inv h -> advances h (fold_left _InternalDisconnect ds h).
Proof.
  induction ds as [|d ds IH]; intros h Hok Hl Hi; cbn [fold_left]; [ by apply flags_same | ]. apply Forall_cons in Hl as [Hd Hl].
  destruct (disconnect_advances h d Hok Hd Hi) as [Hi' Hg]. eapply advances_trans; [ split; [ exact Hi' | exact Hg ] | ].
  apply IH; [ by apply host_disconnect_ok | | done ]. eapply Forall_impl; [ exact Hl | ]. intros d'. unfold live. by rewrite disconnect_world.
Qed.

Lemma refs_live h : host_ok h -> Forall (live h) (refs_of (world h) (this h)).
Proof.
  intros Hok. apply Forall_lookup. intros k d Hk. destruct (inv_refs _ (ho_inv _ Hok) (this h) (Z.of_nat k) d) as (i & _ & Hi & _); [ | by exists i ].
  unfold vget. rewrite (proj2 (Z.ltb_ge _ _)) by lia. by rewrite Nat2Z.id.
Qed.

(** [on_open_Finish] announces the peer and marks it as ready. *)
Lemma open_finish_advances h d x h' : history_ok h -> flags_inv h -> shared_handle h d = Some x -> GetLocalPeerData (wm (world h)) x = Some (Some d) ->
  on_open_Finish h x = Some h' -> advances h h'.
Proof.
  intros Hy Hi Hx Hg. unfold on_open_Finish. host_fields. rewrite Hg. cbn [mbind option_bind]. intros [= <-].
  apply (set_bit_advances h _ d BIT_READY Hi); try done; unfold or_flags; host_fields.
  - intros d' f Hne [T1 T2 T3 T4]. split; host_fields; try done. rewrite T1. unfold opened, shared_handle. host_fields. setoid_rewrite elem_of_app. split.
    + intros (y & Hy1 & Hy2). exists y. auto.
    + intros (y & Hy1 & [Hy2 | ->%list_elem_of_singleton]); [ by exists y | ]. destruct Hne. by apply (hy_inj _ Hy d' d x).
  - intros f Hf [T1 T2 T3 T4]. split; rewrite ?Z.lor_spec; cbn; rewrite ?orb_false_r, ?orb_true_r; host_fields; try done. split; [ | done ]. intros _.
    exists x. split; [ done | ]. host_fields. apply elem_of_app. right. by apply list_elem_of_singleton.
  - intros y [Hin | ->%list_elem_of_singleton]%elem_of_app; [ by apply (fi_connected _ Hi) in Hin | by exists d ].
Qed.

(** A new peer has no flags, and its handle was never announced. *)
Lemma make_advances h k h' d x : host_ok h -> history_ok h -> Z.of_nat (size (wst (world h))) < 2 ^ 31 - 1 -> flags_inv h -> MakePeer h k = Some (h', d, x) ->
  advances h h' /\ history_ok h' /\ shared_handle h' d = Some x.
Proof.
  intros Hok Hy Hn [H1 H2 H3] Em. destruct (MakePeer_changes _ _ _ _ _ Em) as (Ed & Hd & Eo).
  destruct (history_open h h' d x Hok Hy Hn Hd Eo Ed) as (Hy' & Hk & Hx).
  assert (peerFlags h' = <[d := 0]> (peerFlags h) /\ connected h' = connected h) as [Ef Ec] by (unfold MakePeer in Em; destruct (world_open _ _ _) as [[w y]|]; [ by injection Em as <- <- <- | done ]).
  assert (forall d', is_Some (wst (world h) !! d') -> d <> d' /\ is_Some (wst (world h') !! d')) as Hold.
  { intros d' Hd'. split; [ intros <-; rewrite Hd in Hd'; by destruct Hd' | ]. destruct Hd' as [pd Hpd]. specialize (Hk d' (sharedPeerHandle pd)). unfold shared_handle in Hk.
    rewrite Hpd in Hk. specialize (Hk eq_refl). apply fmap_Some in Hk as (pd' & -> & _). by eexists. }
  assert (forall d', opened h' d' <-> opened h d') as Hop.
  { intros d'. unfold opened. rewrite Ec. split; intros (y & Hy1 & Hy2); exists y; (split; [ | done ]); [ | by apply Hk ].
    destruct (H3 y Hy2) as [d0 Hd0]. by rewrite (hy_inj _ Hy' d' d0 y Hy1 (Hk _ _ Hd0)). }
  split; [ | done ]. split; [ split | ].
  - intros d' f. rewrite Ef. intros [[<- <-] | [Hne Hf]]%lookup_insert_Some.
    + split; rewrite ?Hop, ?Ed; try done.
      * split; [ done | ]. intros (y & Hy1 & _). unfold shared_handle in Hy1. by rewrite Hd in Hy1.
      * split; [ done | ]. intros Hin. destruct (closed_known h d Hok Hin) as [y Hy1]. unfold shared_handle in Hy1. by rewrite Hd in Hy1.
    + destruct (H1 d' f Hf). split; rewrite ?Hop, ?Ed; done.
  - intros d' f. rewrite Ef. intros [[<- <-] | [Hne Hf]]%lookup_insert_Some; [ | by apply Hold, (H2 _ f) ].
    apply fmap_Some in Hx as (pd & -> & _). by eexists.
  - intros y. rewrite Ec. intros (d' & Hd')%H3. exists d'. by apply Hk.
  - intros d' f Hf. exists f. rewrite Ef, lookup_insert_ne, Z.lor_diag; [ done | ]. apply Hold. by apply (H2 d' f).
Qed.

(** A closed peer is marked as disconnecting and as closed. *)
Lemma close_flags h k d h' : host_ok h -> sockets h !! k = Some (Some d) -> close_peer_of h k = Some h' ->
  peerFlags h' = alter (fun f => Z.lor f (Z.lor BIT_DISCONNECTING BIT_CLOSED)) d (peerFlags h) /\ connected h' = connected h.
Proof.
  intros Hok Hk. destruct (ho_sock _ Hok k d Hk) as [Hl Hs]. destruct (live_handle h d Hok Hl) as (i & v & Est & H0 & Hi & Hv & Hg & _). cbv zeta in *.
  unfold close_peer_of. rewrite Hk, Est. cbn [peerHandle]. unfold on_close_Finish. rewrite Hg. unfold release. destruct (PeerReferences_Release _ _ _ _ _) as [[[m refs] o]|]; [ | done ].
  unfold clear_on_close, or_flags. host_fields. cbn [wst]. rewrite Est, Hs. intros [= <-]. host_fields. split; [ | done ].
  apply map_eq. intros d'. destruct (decide (d = d')) as [<- | Hne]; [ | by rewrite !lookup_alter_ne ].
  rewrite !lookup_alter_eq. destruct (peerFlags h !! d) as [f|]; [ | done ]. cbn. by rewrite Z.lor_assoc.
Qed.

Lemma close_advances h k h' : host_ok h -> history_ok h -> flags_inv h -> Z.of_nat (size (wst (world h))) < 2 ^ 31 - 1 ->
  close_peer_of h k = Some h' -> advances h h'.
Proof.
  intros Hok Hy Hi Hn E. destruct (sockets h !! k) as [[d|]|] eqn:Hk; [ | unfold close_peer_of in E; rewrite Hk in E; injection E as <-; by apply flags_same | unfold close_peer_of in E; by rewrite Hk in E ].
  destruct (close_flags h k d h' Hok Hk E) as [Ef Ec]. destruct (close_spec h k d Hok Hk) as (h1 & E1 & _ & _ & Ed & Hf & _). rewrite E in E1. injection E1 as <-.
  pose proof (disconnected_bound h Hok). destruct (history_close h h' d Hok Hy) as [_ Hsh]; [ lia | done | done | ].
  assert (forall d', opened h' d' <-> opened h d') as Hop by (intros d'; unfold opened; by rewrite Hsh, Ec).
  apply (set_bit_advances h h' d _ Hi Ef).
  - intros d' [pd Hpd]. destruct (cf_store _ _ _ Hf) as (i & v & _ & _ & _ & -> & _). rewrite lookup_insert_is_Some'. right. by eexists.
  - intros d' f Hne [T1 T2 T3 T4]. split; rewrite ?Hop; try done. rewrite T3, Ed, elem_of_app, list_elem_of_singleton. naive_solver.
  - intros f Hff [T1 T2 T3 T4]. split; rewrite ?Hop, ?Z.lor_spec; cbn; rewrite ?orb_false_r, ?orb_true_r; try done. split; [ | done ]. intros _. rewrite Ed. apply elem_of_app. right. by apply list_elem_of_singleton.
  - intros x. rewrite Ec. intros (d' & Hd')%(fi_connected _ Hi). exists d'. by rewrite Hsh.
Qed.

Lemma host_step_advances h e h' : host_ok h -> history_ok h -> Z.of_nat (size (wst (world h))) < 2 ^ 31 - 1 -> flags_inv h -> host_step h e = Some h' -> advances h h'.
Proof.
  intros Hok Hy Hn Hi E. destruct (stops h e) eqn:Hst; [ by rewrite (host_step_stops h e Hok Hst) in E | ]. unfold host_step in E. destruct (event_ok h e) eqn:Ee; [ | injection E as <-; by apply flags_same ].
  destruct e as [k | [k|] | k | k | k | k | k | ]; cbn [event_ok] in Ee; try apply bool_decide_eq_true in Ee.
  - unfold on_open in E. destruct (MakePeer_spec h k Hok Ee Hn) as (h1 & d & x & Em & _ & _ & _ & _ & _ & _ & _ & Hg). rewrite Em in E.
    destruct (make_advances h k h1 d x Hok Hy Hn Hi Em) as (Ha & Hy1 & Hx). eapply advances_trans; [ exact Ha | ]. by apply (open_finish_advances h1 d x); [ | apply Ha | .. ].
  - unfold _InternalConnect in E. destruct (MakePeer h k) as [[[h1 d] x]|] eqn:Em; [ | done ]. destruct (make_advances h k h1 d x Hok Hy Hn Hi Em) as (Ha & _).
    injection E as <-. eapply advances_trans; [ exact Ha | ]. by apply flags_same; [ apply Ha | .. ].
  - injection E as <-. by apply flags_same.
  - unfold on_open in E. destruct (sockets h !! k) as [[d|]|] eqn:Ek; try done. destruct (ho_sock _ Hok k d Ek) as [Hl _].
    destruct (live_handle h d Hok Hl) as (i & v & Est & _ & _ & _ & Hg & _). cbv zeta in *. rewrite Est in E. cbn [peerHandle] in E.
    eapply (open_finish_advances h d); [ done | done | unfold shared_handle; by rewrite Est | done | done ].
  - unfold on_close in E. eapply advances_trans; [ by apply (flags_same h (count_disconnect h true)) | ]. apply (close_advances _ k); try done; [ by apply count_disconnect_ok | by apply (history_same h) | by apply (flags_same h) ].
  - unfold on_end in E. eapply advances_trans; [ by apply (flags_same h (count_disconnect h false)) | ]. apply (close_advances _ k); try done; [ by apply count_disconnect_ok | by apply (history_same h) | by apply (flags_same h) ].
  - unfold on_timeout in E. host_fields. destruct (sockets h !! k) as [[d|]|] eqn:Ek; cbn [sockets mbind option_bind] in E; rewrite Ek in E; [ | injection E as <-; by apply flags_same | done ]. injection E as <-.
    match goal with |- advances _ (_InternalDisconnect ?x d) => assert (advances h x) as Ha by (by apply flags_same); assert (host_ok x) as Hx by (destruct Hok; by split) end.
    eapply advances_trans; [ exact Ha | ]. apply disconnect_advances; [ done | by apply (ho_sock _ Hok k) | apply Ha ].
  - cbn [stops] in Hst. apply bool_decide_eq_false in Hst. unfold on_connect_error, on_connect_error_with in E. cbn [sockets] in E.
    destruct (sockets h !! k) as [[d|]|]; [ by destruct Hst; eexists | | done ]. injection E as <-. by apply flags_same.
  - injection E as <-. apply disconnect_all_advances; [ done | by apply refs_live | done ].
Qed.

(** A peer that a handle resolves to is connected. *)
Lemma resolved_live h x d : GetLocalPeerData (wm (world h)) x = Some (Some d) -> live h d.
Proof.
  unfold GetLocalPeerData. destruct (ExistsLocal _ _) as [[|]|]; [ | done | done ]. intros E. exists (id (hid x)).
  destruct (vget (peers (wm (world h))) (id (hid x))) as [p|]; [ by injection E as -> | done ].
Qed.

Lemma execute_advances s c s' : host_ok (hs s) -> flags_inv (hs s) -> Execute s c = Some s' -> advances (hs s) (hs s').
Proof.
  intros Hok Hi. assert (advances (hs s) (hs s)) as Hrefl by (by apply flags_same). destruct c as [x f | x | ]; cbn [Execute].
  - destruct (GetLocalPeerData _ _) as [[d|]|]; [ by intros [= <-].. | done ].
  - destruct (handle_valid x); [ | by intros [= <-] ]. destruct (GetLocalPeerData _ _) as [[d|]|] eqn:Eg; [ | by intros [= <-] | done ].
    intros [= <-]. apply disconnect_advances; [ done | by eapply resolved_live | done ].
  - intros [= <-]. apply disconnect_all_advances; [ done | by apply refs_live | done ].
Qed.

Lemma step_advances s t o s' : refines s t -> Z.of_nat (size (wst (world (hs s)))) < 2 ^ 31 - 1 -> flags_inv (hs s) -> step s o = Some s' -> advances (hs s) (hs s').
Proof.
  intros Hr Hn Hi. pose proof (rf_ok _ _ Hr) as Hok. pose proof (rf_history _ _ Hr) as Hy. assert (advances (hs s) (hs s)) as Hrefl by (by apply flags_same).
  unfold step. destruct (op_ok (hs s) o) eqn:Eo; [ | by intros [= <-] ].
  destruct o as [e | k | f | f | d f | d | | ]; cbn [op_ok] in Eo; [ | | by intros [= <-].. | | | by intros [= <-] | ].
  - unfold host_event. destruct (match closed_by (hs s) e with Some d => _InternalOnDisconnect s d | None => Some s end) as [s1|] eqn:E1; [ | done ].
    assert (hs s1 = hs s) as ->. { destruct (closed_by (hs s) e); [ | by injection E1 as <- ]. unfold _InternalOnDisconnect in E1. inv_bind E1.
      destruct (peer_onDisconnect s !! n); [ by injection E1 as <- | ]. destruct (onDisconnect s); by injection E1 as <-. }
    destruct (host_step (hs s) e) as [h|] eqn:Eh; [ | done ]. cbn [mbind option_bind]. intros [= <-]. unfold call_onConnect. destruct (onConnect _); by apply (host_step_advances _ e).
  - unfold on_long_timeout. callback_fields. destruct (sockets (hs s) !! k) as [[d|]|] eqn:Ek; [ | by intros [= <-] | done ]. intros [= <-]. callback_fields.
    apply disconnect_advances; [ done | by apply (ho_sock _ Hok k) | done ].
  - unfold Peer_SetOnDisconnect. destruct (peerFlags (hs s) !! d); [ | done ]. cbn [mbind option_bind]. destruct (IsDisconnecting _); [ by intros [= <-] | ].
    destruct (shared_handle (hs s) d); [ by intros [= <-] | done ].
  - unfold Peer_Disconnect. destruct (shared_handle _ d); [ | done ]. intros [= <-]. by apply disconnecting_advances.
  - unfold execute_next. destruct (commandQueue s) as [|c q]; [ by intros [= <-] | ]. by apply execute_advances.
Qed.

Lemma run_advances os : forall s t s', refines s t -> flags_inv (hs s) -> Z.of_nat (size (wst (world (hs s)))) + zlen os < 2 ^ 31 -> run s os = Some s' ->
  exists t', refines s' t' /\ advances (hs s) (hs s') /\ Z.of_nat (size (wst (world (hs s')))) <= Z.of_nat (size (wst (world (hs s)))) + zlen os.
Proof.
  induction os as [|o os IH]; intros s t s' Hr Hi Hn E; [ injection E as <-; exists t; split_and!; [ done | by apply flags_same | change (zlen []) with 0; lia ] | ].
  rewrite zlen_cons in Hn |- *. pose proof (zlen_nonneg os). cbn [run] in E. destruct (op_stops (hs s) o) eqn:Hst; [ by rewrite (proj1 (stop_refines s t o Hr Hst)) in E | ].
  destruct (step_refines s t o Hr) as (s1 & t1 & E1 & _ & Hr1 & Hz); [ lia | done | ]. pose proof (step_advances s t o s1 Hr ltac:(lia) Hi E1) as Ha. rewrite E1 in E.
  destruct (IH s1 t1 s' Hr1 (proj1 Ha)) as (t' & Hr' & Ha' & Hz'); [ lia | done | ]. exists t'. split_and!; [ done | by eapply advances_trans | lia ].
Qed.

Lemma init_flags l this : flags_inv (hs (State_init l this)).
Proof. split; cbn; intros *; try (by rewrite lookup_empty). by intros ?%elem_of_nil. Qed.

(** ** Properties *)

(** What the flags of a peer say at one moment. *)
Definition flags_say (s : State) : Prop :=
  forall d f, GetPeerStateFlags (hs s) d = Some f ->
    (IsReadyToUse f = true <-> opened (hs s) d) /\ (IsClosed f = true <-> d ∈ disconnected (hs s))
    /\ (IsClosed f = true -> IsDisconnecting f = true) /\ HadConnectError f = false.

(** What a connect error of a connecting socket does to its peer: a build that checks assertions
    stops, any other one marks the peer as closed and sets no other flag. *)
Definition connect_error_flags (s : State) : Prop :=
  forall k d f, sockets (hs s) !! k = Some (Some d) -> GetPeerStateFlags (hs s) d = Some f ->
    on_connect_error (hs s) k = None
    /\ exists h f', on_connect_error_with false (hs s) k = Some h /\ GetPeerStateFlags h d = Some f'
      /\ IsClosed f' = true /\ HadConnectError f' = false /\ IsDisconnecting f' = IsDisconnecting f /\ disconnected h = disconnected (hs s).

Lemma inv_flags_say s : flags_inv (hs s) -> flags_say s.
Proof.
  intros Hi d f Hf. rewrite ready_bit, closed_bit, disconnecting_bit, error_bit. by destruct (fi_tells _ Hi d f Hf).
Qed.

Lemma inv_connect_error s : host_ok (hs s) -> flags_inv (hs s) -> connect_error_flags s.
Proof.
  intros Hok Hi k d f Hk Hf. split; [ by apply (connect_error_stops _ k d) | ].
  destruct (connect_error_unchecked (hs s) k d f Hok Hk Hf) as (h & E & Ef & _ & Ed & _). exists h, (Z.lor f BIT_CLOSED). split; [ done | ].
  unfold GetPeerStateFlags. rewrite Ef, lookup_insert_eq, closed_bit, error_bit, !disconnecting_bit, !Z.lor_spec.
  destruct (fi_tells _ Hi d f Hf) as [_ _ _ ->]. change (Z.testbit BIT_CLOSED 2) with true. change (Z.testbit BIT_CLOSED 3) with false.
  change (Z.testbit BIT_CLOSED 1) with false. by rewrite orb_true_r, !orb_false_r.
Qed.

(** C19: the flags of a peer tell what happened to it, and never go back. Take any run of fewer
    than [2^31] operations and any moment of it. A peer is ready exactly when its connection was
    announced, closed exactly when its closing was announced, a closed peer is also
    disconnecting, and every flag that is set at this moment is set at every later one. A run
    stops only at a connect error of a socket that leads to a peer. [HadConnectError] answers
    false for every peer, also after such an error: a build that checks assertions stops there,
    any other build marks the peer as closed, neither disconnecting nor announced, and does not
    set the flag. *)
Theorem peer_flags_only_advance l this os os' : l <> 0 -> zlen os + zlen os' < 2 ^ 31 ->
  match run (State_init l this) os with
  | Some s =>
      flags_say s /\ connect_error_flags s
      /\ match run s os' with
         | Some s' => forall d f, GetPeerStateFlags (hs s) d = Some f -> exists f', GetPeerStateFlags (hs s') d = Some f' /\ Z.lor f f' = f'
         | None => run_stops_at s os'
         end
  | None => run_stops_at (State_init l this) os
  end.
Proof.
  intros Hl Hn. pose proof (zlen_nonneg os'). destruct (run_refines os _ _ (init_refines l this Hl)) as [(s & t & E & _ & _) | (E & _ & Hst)];
    [ change (zlen os < 2 ^ 31); lia | rewrite E | by rewrite E ].
  destruct (run_advances os _ _ s (init_refines l this Hl) (init_flags l this)) as (t' & Hr & [Hi _] & Hz); [ change (zlen os < 2 ^ 31); lia | done | ].
  change (Z.of_nat (size (wst (world (hs (State_init l this)))))) with 0 in Hz.
  split; [ by apply inv_flags_say | ]. split; [ apply inv_connect_error; [ apply Hr | done ] | ].
  destruct (run_refines os' s t' Hr) as [(s' & t2 & E' & _ & _) | (E' & _ & Hst)]; [ lia | rewrite E' | by rewrite E' ].
  destruct (run_advances os' s t' s' Hr Hi) as (_ & _ & [_ Hg] & _); [ lia | done | exact Hg ].
Qed.

(** ** Witness *)

(** A peer is accepted, another one connects, the first one is asked to leave and closed. *)
Definition sample_before : list op := [OEvent (EAccept 7); OEvent (EConnect (Some 8%nat)); OPeerDisconnect 0].
Definition sample_after : list op := [OExecute; OEvent (EClose 7); OEvent (EConnectError 7); OEvent (EConnected 8)].

Lemma peer_flags_only_advance_witness :
  exists s s', run (State_init 100 3) sample_before = Some s /\ run s sample_after = Some s'
    /\ (forall d f, GetPeerStateFlags (hs s) d = Some f -> exists f', GetPeerStateFlags (hs s') d = Some f' /\ Z.lor f f' = f')
    /\ (GetPeerStateFlags (hs s) 0, GetPeerStateFlags (hs s) 1, GetPeerStateFlags (hs s') 0, GetPeerStateFlags (hs s') 1) = (Some 3, Some 0, Some 7, Some 1)
    /\ run s [OEvent (EConnectError 8)] = None.
Proof.
  pose proof (peer_flags_only_advance 100 3 sample_before sample_after ltac:(discriminate) eq_refl) as H.
  destruct (run (State_init 100 3) sample_before) as [s|] eqn:E; [ | vm_compute in E; discriminate E ]. destruct H as (_ & _ & H).
  destruct (run s sample_after) as [s'|] eqn:E'; [ | vm_compute in E; injection E as <-; vm_compute in E'; discriminate E' ].
  exists s, s'. split; [ reflexivity | ]. split; [ exact E' | ]. split; [ exact H | ].
  clear H. vm_compute in E. injection E as <-. split; [ vm_compute in E'; injection E' as <- | ]; vm_compute; reflexivity.
Defined.

End PeerFlags.
