(* ===== verification/BufferMoves.v ===== *)
(** * Objects of commands buffers (src/CommandsBuffer.cpp)

    Commands buffers are moved between the handler that fills them and the queue that executes
    them. Here buffers are objects at addresses that are constructed, moved, assigned, initialised
    again, executed and destroyed in any order; the operations on one buffer are those of
    CommandsBuffer.v. The objects refine a map of plain queues: a move takes the commands along
    and leaves an empty buffer, and what a destructor, an assignment or a new initialisation finds
    in a buffer is destroyed, so that no command is executed twice or lost in silence. *)

From S2P Require Import Prelude MemoryPool ByteBuffer CommandsBuffer.

Module BufferMoves.
Import CommandsBuffer.

Section Moves.
Context `{Allocator} {C : Type}.

Abbreviation Buffers := (gmap nat (CommandsBuffer (C := C))).

(** What an operation did: whether it took a command, and the commands that were executed and
    destroyed without having been executed. *)
Record effect := mkEffect { accepted : bool; executed : list C; destroyed : list C }.

Definition silent : effect := mkEffect false [] [].

(** [CommandsBuffer(uint32_t size)]. *)
Definition construct_size (size : Z) : option (CommandsBuffer (C := C)) :=
  let* (_, b) := Init CommandsBuffer_default size in Some b.

(** [~CommandsBuffer]. *)
Definition destructor (b : CommandsBuffer (C := C)) : option (list C) :=
  let* (cs, _) := Reset b in Some cs.

(** [operator=(CommandsBuffer &&o)] on the object at [a]. *)
Definition move_assign (bs : Buffers) (a o : nat) : option (list C * Buffers) :=
  if decide (a = o) then Some ([], bs)
  else
    let* x := bs !! a in
    let* y := bs !! o in
    let* cs := destructor x in
    let (x, y) := move y in
    Some (cs, <[a := x]> (<[o := y]> bs)).

Inductive op :=
| BConstruct (a : nat)
| BConstructSize (a : nat) (size : Z)
| BInit (a : nat) (size : Z)
| BEnqueue (a : nat) (size al : Z) (c : C)
| BExecute (a : nat)
| BMove (a o : nat)
| BAssign (a o : nat)
| BDestroy (a : nat).

(** Objects are constructed where there is none; everything else is done to objects. *)
Definition allowed {X} (m : gmap nat X) (x : op) : bool :=
  match x with
  | BConstruct a | BConstructSize a _ => bool_decide (m !! a = None)
  | BMove a o => bool_decide (m !! a = None) && bool_decide (is_Some (m !! o))
  | BAssign a o => bool_decide (is_Some (m !! a)) && bool_decide (is_Some (m !! o))
  | BInit a _ | BEnqueue a _ _ _ | BExecute a | BDestroy a => bool_decide (is_Some (m !! a))
  end.

Definition step (bs : Buffers) (x : op) : option (Buffers * effect) :=
  if allowed bs x then
    match x with
    | BConstruct a => Some (<[a := CommandsBuffer_default]> bs, silent)
    | BConstructSize a size => let* b := construct_size size in Some (<[a := b]> bs, silent)
    | BInit a size => let* b := bs !! a in let* (cs, b) := Init b size in Some (<[a := b]> bs, mkEffect false [] cs)
    | BEnqueue a size al c => let* b := bs !! a in let* (ok, b) := EnqueueCommand b size al c in Some (<[a := b]> bs, mkEffect ok [] [])
    | BExecute a => let* b := bs !! a in let* (cs, b) := ExecuteAll b in Some (<[a := b]> bs, mkEffect false cs [])
    | BMove a o => let* y := bs !! o in let (x, y) := move y in Some (<[a := x]> (<[o := y]> bs), silent)
    | BAssign a o => let* (cs, bs) := move_assign bs a o in Some (bs, mkEffect false [] cs)
    | BDestroy a => let* b := bs !! a in let* cs := destructor b in Some (delete a bs, mkEffect false [] cs)
    end
  else Some (bs, silent).

Fixpoint run (bs : Buffers) (xs : list op) : option (Buffers * list effect) :=
  match xs with
  | [] => Some (bs, [])
  | x :: xs => let* (bs, e) := step bs x in let* (bs, es) := run bs xs in Some (bs, e :: es)
  end.

(** ** The specification: a map of queues *)

Abbreviation Queues := (gmap nat (list C)).

(** [ok]: whether there was room for the command of a [BEnqueue]. *)
Definition spec_step (m : Queues) (x : op) (ok : bool) : Queues * effect :=
  if allowed m x then
    match x with
    | BConstruct a | BConstructSize a _ => (<[a := []]> m, silent)
    | BInit a _ => (<[a := []]> m, mkEffect false [] (m !!! a))
    | BEnqueue a _ _ c => (if ok then <[a := m !!! a ++ [c]]> m else m, mkEffect ok [] [])
    | BExecute a => (<[a := []]> m, mkEffect false (m !!! a) [])
    | BMove a o => (<[a := m !!! o]> (<[o := []]> m), silent)
    | BAssign a o => if decide (a = o) then (m, mkEffect false [] []) else (<[a := m !!! o]> (<[o := []]> m), mkEffect false [] (m !!! a))
    | BDestroy a => (delete a m, mkEffect false [] (m !!! a))
    end
  else (m, silent).

Fixpoint spec_run (m : Queues) (xs : list op) (oks : list bool) : Queues * list effect :=
  match xs, oks with
  | x :: xs, ok :: oks => let (m, e) := spec_step m x ok in let (m, es) := spec_run m xs oks in (m, e :: es)
  | _, _ => (m, [])
  end.

(** ** The relation *)

(** The commands that wait in a buffer. *)
Definition pending (b : CommandsBuffer (C := C)) (cs : list C) : Prop :=
  (exists l n, holds b l n /\ cs = e_cmd <$> drop n l)
  \/ (commandsBufferData b = None /\ countCommands b = 0 /\ commandsExecuted b = 0 /\ cs = []).

Definition related (bs : Buffers) (m : Queues) : Prop :=
  forall a, match bs !! a, m !! a with Some b, Some cs => pending b cs | None, None => True | _, _ => False end.

Lemma pending_default : pending CommandsBuffer_default [].
Proof. by right. Qed.

Lemma related_insert bs m a b cs : related bs m -> pending b cs -> related (<[a := b]> bs) (<[a := cs]> m).
Proof.
  intros Hr Hp a'. destruct (decide (a = a')) as [<- | Hne]; [ by rewrite !lookup_insert_eq | rewrite !lookup_insert_ne by done; apply Hr ].
Qed.

Lemma related_delete bs m a : related bs m -> related (delete a bs) (delete a m).
Proof. intros Hr a'. destruct (decide (a = a')) as [<- | Hne]; [ by rewrite !lookup_delete_eq | rewrite !lookup_delete_ne by done; apply Hr ]. Qed.

Lemma related_lookup bs m a : related bs m -> is_Some (bs !! a) -> exists b, bs !! a = Some b /\ m !! a = Some (m !!! a) /\ pending b (m !!! a).
Proof.
  intros Hr [b Hb]. specialize (Hr a). rewrite Hb in Hr. unfold lookup_total, map_lookup_total. destruct (m !! a) as [cs|]; [ | done ]. by exists b.
Qed.

Lemma related_allowed bs m x : related bs m -> allowed m x = allowed bs x.
Proof.
  intros Hr. assert (forall a, bool_decide (m !! a = None) = bool_decide (bs !! a = None) /\ bool_decide (is_Some (m !! a)) = bool_decide (is_Some (bs !! a))) as Ha.
  { intros a. specialize (Hr a). destruct (bs !! a), (m !! a); try done; split; apply bool_decide_ext; split; (done || by eexists). }
  destruct x; cbn [allowed]; rewrite ?(proj1 (Ha _)), ?(proj2 (Ha _)); done.
Qed.

(** [Reset] gives the waiting commands to their destructors. *)
Lemma pending_reset b cs : pending b cs -> exists b', Reset b = Some (cs, b') /\ commandsBufferData b' = None.
Proof.
  intros [(l & n & Hh & ->) | (Hd & _ & _ & ->)].
  - destruct (Reset_spec b l n Hh) as (b' & E & Hd & _). by exists b'.
  - exists b. split; [ | done ]. unfold Reset. by rewrite current_invalid.
Qed.

Lemma pending_destructor b cs : pending b cs -> destructor b = Some cs.
Proof. intros Hp. unfold destructor. by destruct (pending_reset b cs Hp) as (b' & -> & _). Qed.

Definition size_ok (size : Z) : Prop := 0 < size <= 2 ^ 28 /\ 4 <= usable size <= 2 ^ 29.

Lemma pending_init b cs size : pending b cs -> size_ok size -> exists b', Init b size = Some (cs, b') /\ pending b' [].
Proof.
  intros Hp [Hs Hu]. destruct (pending_reset b cs Hp) as (b1 & E1 & Hd). destruct (Init_spec (C := C) CommandsBuffer_default size) as (b' & E' & Hh & _); [ done | done | lia | lia | ].
  unfold Init in E'. change (Reset (C := C) CommandsBuffer_default) with (Some ([] : list C, CommandsBuffer_default (C := C))) in E'. injection E' as E'.
  unfold Init. rewrite E1, E'. exists b'. split; [ done | ]. left. by exists [], 0%nat.
Qed.

Lemma pending_enqueue b cs size al c : pending b cs -> request_ok size al ->
  exists ok b', EnqueueCommand b size al c = Some (ok, b') /\ pending b' (if ok then cs ++ [c] else cs).
Proof.
  intros [(l & n & Hh & ->) | Hp] Hr.
  - destruct (Enqueue_spec b l n size al c Hh Hr) as (off & _ & _ & _ & He). destruct (_ <=? _).
    + destruct He as (b' & E & Hh' & _). exists true, b'. split; [ done | ]. left. eexists _, n. split; [ exact Hh' | ].
      destruct (h_done _ _ _ Hh) as [_ Hn]. by rewrite drop_app_le, fmap_app.
    + exists false, b. split; [ done | ]. left. by exists l, n.
  - exists false, b. split; [ | by right ]. destruct Hp as (Hd & _). unfold EnqueueCommand, Allocate, CanAllocate. by rewrite current_invalid.
Qed.

Lemma pending_execute b cs : pending b cs -> exists b', ExecuteAll b = Some (cs, b') /\ pending b' [].
Proof.
  intros [(l & n & Hh & ->) | (Hd & Hc & He & ->)].
  - destruct (ExecuteAll_spec b l n Hh) as (b' & E & Hh' & _). exists b'. split; [ done | ]. left. exists l, (length l). split; [ done | ]. by rewrite drop_all.
  - exists b. split; [ | by right ]. unfold ExecuteAll. assert (rounds b = 0%nat) as -> by (unfold rounds; by rewrite Hc, He). cbn [visit]. by rewrite He, Hc.
Qed.

Definition op_ok (x : op) : Prop :=
  match x with
  | BConstructSize _ size | BInit _ size => size_ok size
  | BEnqueue _ size al _ => request_ok size al
  | _ => True
  end.

(** A move takes the commands along. *)
Lemma related_move bs m a o y : related bs m -> bs !! o = Some y -> related (<[a := y]> (<[o := CommandsBuffer_default]> bs)) (<[a := m !!! o]> (<[o := []]> m)).
Proof.
  intros Hr Ho. destruct (related_lookup bs m o Hr) as (b & Hb & _ & Hp); [ by eexists | ]. simplify_eq. apply related_insert; [ | done ]. by apply related_insert; [ | apply pending_default ].
Qed.

Lemma move_refines bs m x : related bs m -> op_ok x -> exists bs' e, step bs x = Some (bs', e) /\ exists m', spec_step m x (accepted e) = (m', e) /\ related bs' m'.
Proof.
  intros Hr Hx. unfold step, spec_step. rewrite (related_allowed bs m x Hr). destruct (allowed bs x) eqn:Ea; [ | by eexists bs, silent; split; [ | exists m ] ].
  destruct x as [a | a size | a size | a size al c | a | a o | a o | a]; cbn [allowed op_ok] in *;
    try (apply andb_true_iff in Ea as [Ea Eo]; apply bool_decide_eq_true in Eo); apply bool_decide_eq_true in Ea;
    try destruct (related_lookup bs m a Hr Ea) as (b & Hb & Hm & Hp); try (rewrite Hb; cbn [mbind option_bind]).
  - eexists _, _. split; [ done | ]. eexists. split; [ done | ]. by apply related_insert; [ | apply pending_default ].
  - unfold construct_size. destruct (pending_init CommandsBuffer_default [] size pending_default Hx) as (b & -> & Hp). eexists _, _. split; [ done | ]. eexists. split; [ done | ]. by apply related_insert.
  - destruct (pending_init b _ size Hp Hx) as (b' & -> & Hp'). eexists _, _. split; [ done | ]. eexists. split; [ done | ]. by apply related_insert.
  - destruct (pending_enqueue b _ size al c Hp Hx) as (ok & b' & -> & Hp'). eexists _, _. split; [ done | ]. eexists. split; [ done | ]. destruct ok; [ by apply related_insert | ].
    rewrite <- (insert_id m a _ Hm). by apply related_insert.
  - destruct (pending_execute b _ Hp) as (b' & -> & Hp'). eexists _, _. split; [ done | ]. eexists. split; [ done | ]. by apply related_insert.
  - destruct Eo as [y Ho]. rewrite Ho. eexists _, _. split; [ done | ]. eexists. split; [ done | ]. by apply related_move.
  - unfold move_assign. destruct (decide (a = o)); [ eexists _, _; split; [ done | by exists m ] | ]. rewrite Hb. destruct Eo as [y Ho]. rewrite Ho. cbn [mbind option_bind].
    rewrite (pending_destructor b _ Hp). eexists _, _. split; [ done | ]. eexists. split; [ done | ]. by apply related_move.
  - rewrite (pending_destructor b _ Hp). eexists _, _. split; [ done | ]. eexists. split; [ done | ]. by apply related_delete.
Qed.

Lemma moves_refine xs : forall bs m, related bs m -> Forall op_ok xs ->
  exists bs' es m', run bs xs = Some (bs', es) /\ spec_run m xs (accepted <$> es) = (m', es) /\ related bs' m'.
Proof.
  induction xs as [|x xs IH]; intros bs m Hr Hxs; cbn [run]; [ by exists bs, [], m | ]. apply Forall_cons in Hxs as [Hx Hxs].
  destruct (move_refines bs m x Hr Hx) as (bs1 & e & -> & m1 & E1 & Hr1). destruct (IH bs1 m1 Hr1 Hxs) as (bs' & es & m' & E & Es & Hr').
  exists bs', (e :: es), m'. rewrite E. split; [ done | ]. cbn [spec_run fmap list_fmap]. by rewrite E1, Es.
Qed.

(** ** Every command is accounted for *)

Definition waiting (m : Queues) : list C := concat (snd <$> map_to_list m).

Lemma waiting_split m a : waiting m ≡ₚ m !!! a ++ waiting (delete a m).
Proof.
  unfold waiting, lookup_total, map_lookup_total. destruct (m !! a) as [l|] eqn:E; [ by rewrite <- (map_to_list_delete m a l E) | by rewrite delete_id ].
Qed.

Lemma waiting_insert m a l : waiting (<[a := l]> m) ≡ₚ l ++ waiting (delete a m).
Proof. by rewrite (waiting_split _ a), lookup_total_insert_eq, delete_insert_eq. Qed.

(** A move keeps them. *)
Lemma waiting_move m a o : a <> o -> m !!! a ++ waiting (<[a := m !!! o]> (<[o := []]> m)) ≡ₚ waiting m.
Proof.
  intros Hne. rewrite waiting_insert, delete_insert_ne by done. rewrite waiting_insert, delete_delete. cbn [app].
  rewrite (waiting_split m a), (waiting_split (delete a m) o), lookup_total_delete_ne by done. by rewrite delete_delete.
Qed.

(** The commands that were accepted. *)
Definition taken_by (x : op) (e : effect) : list C := match x with BEnqueue _ _ _ c => if accepted e then [c] else [] | _ => [] end.

Fixpoint taken (xs : list op) (es : list effect) : list C :=
  match xs, es with
  | x :: xs, e :: es => taken_by x e ++ taken xs es
  | _, _ => []
  end.
Lemma step_accounts m x ok m' e : spec_step m x ok = (m', e) -> waiting m ++ taken_by x e ≡ₚ executed e ++ destroyed e ++ waiting m'.
Proof.
  unfold spec_step. destruct (allowed m x) eqn:Ea; [ | intros [= <- <-]; destruct x; cbn [taken_by silent accepted executed destroyed app]; by rewrite app_nil_r ].
  destruct x as [a | a size | a size | a size al c | a | a o | a o | a]; cbn [allowed] in Ea; try (apply andb_true_iff in Ea as [Ea Eo]; apply bool_decide_eq_true in Eo); apply bool_decide_eq_true in Ea;
    try (intros [= <- <-]; cbn [taken_by silent accepted executed destroyed app]; rewrite ?app_nil_r).
  - by rewrite waiting_insert, delete_id.
  - by rewrite waiting_insert, delete_id.
  - by rewrite waiting_insert, <- waiting_split.
  - destruct ok; [ | by rewrite app_nil_r ]. rewrite waiting_insert, (waiting_split m a). by rewrite <- !app_assoc, (Permutation_app_comm (waiting _) [c]).
  - by rewrite waiting_insert, <- waiting_split.
  - assert (a <> o) as Hne by (intros ->; rewrite Ea in Eo; by destruct Eo). rewrite <- (waiting_move m a o Hne) at 1. unfold lookup_total at 1, map_lookup_total. by rewrite Ea.
  - destruct (decide (a = o)) as [-> | Hne]; intros [= <- <-]; cbn [taken_by executed destroyed app]; rewrite app_nil_r; [ done | ]. by rewrite <- (waiting_move m a o Hne) at 1.
  - by rewrite <- waiting_split.
Qed.

Lemma run_accounts xs : forall oks m m' es, length xs = length oks -> spec_run m xs oks = (m', es) ->
  waiting m ++ taken xs es ≡ₚ concat (executed <$> es) ++ concat (destroyed <$> es) ++ waiting m'.
Proof.
  induction xs as [|x xs IH]; intros [|ok oks] m m' es Hl; cbn [spec_run]; try done; [ intros [= <- <-]; cbn; by rewrite app_nil_r | ].
  destruct (spec_step m x ok) as [m1 e] eqn:E1. destruct (spec_run m1 xs oks) as [m2 es'] eqn:E2. intros [= <- <-]. cbn [taken fmap list_fmap concat].
  rewrite app_assoc, (step_accounts m x ok m1 e E1), <- !app_assoc. apply Permutation_app_head.
  rewrite (IH oks m1 m2 es' ltac:(by injection Hl) E2). rewrite !app_assoc. apply Permutation_app_tail. apply Permutation_app_tail. apply Permutation_app_comm.
Qed.

Lemma run_length xs : forall bs bs' es, run bs xs = Some (bs', es) -> length es = length xs.
Proof.
  induction xs as [|x xs IH]; intros bs bs' es; cbn [run]; [ by intros [= _ <-] | ]. destruct (step bs x) as [[bs1 e]|]; [ | done ]. destruct (run bs1 xs) as [[bs2 es']|] eqn:E; [ | done ].
  intros [= _ <-]. cbn. f_equal. by eapply IH.
Qed.

(** ** Properties *)

(** Whatever is constructed, initialised, filled, executed, moved, assigned and destroyed, in any
    order and at any address, nothing stops, every operation executes and destroys the commands
    that the map of queues says, in their order, and every buffer holds the commands of its
    queue. Each command that was accepted is therefore exactly once among those that were
    executed, those that were destroyed and those that wait. *)
Theorem moved_buffers_refine_queues xs : Forall op_ok xs ->
  exists bs es m, run ∅ xs = Some (bs, es) /\ spec_run ∅ xs (accepted <$> es) = (m, es) /\ related bs m
    /\ taken xs es ≡ₚ concat (executed <$> es) ++ concat (destroyed <$> es) ++ waiting m.
Proof.
  intros Hxs. destruct (moves_refine xs ∅ ∅) as (bs & es & m & E & Es & Hr); [ intros a; by rewrite !lookup_empty | done | ]. exists bs, es, m. split_and!; try done.
  pose proof (run_accounts xs (accepted <$> es) ∅ m es) as Hc. change (waiting ∅) with ([] : list C) in Hc. apply Hc; [ | done ]. by rewrite length_fmap, (run_length _ _ _ _ E).
Qed.

End Moves.

(** ** Witness *)

(** A buffer is filled, moved and executed, another one is overwritten by an assignment, and the
    moved buffer takes no command. *)
Definition sample_ops : list (@op nat) :=
  [BConstructSize 1 128; BEnqueue 1 24 8 11%nat; BMove 2 1; BEnqueue 1 24 8 12%nat; BEnqueue 2 16 16 13%nat; BConstructSize 3 128; BEnqueue 3 8 8 14%nat; BAssign 3 2; BAssign 3 3;
   BExecute 3; BDestroy 1; BDestroy 3].

Lemma sample_moves_ok : Forall op_ok sample_ops.
Proof.
  unfold sample_ops. repeat (apply Forall_cons; split); [ .. | by apply Forall_nil ]; cbn [op_ok]; try exact I;
    try (split; [ lia | ]; first [ by exists 3 | by exists 4 ]); (split; [ lia | ]); split; intros E; vm_compute in E; discriminate E.
Qed.

Lemma moved_buffers_refine_queues_witness : exists bs es m, run ∅ sample_ops = Some (bs, es) /\ spec_run ∅ sample_ops (accepted <$> es) = (m, es)
  /\ taken sample_ops es = [11; 13; 14]%nat /\ concat (executed <$> es) = [11; 13]%nat /\ concat (destroyed <$> es) = [14%nat].
Proof.
  destruct (moved_buffers_refine_queues sample_ops sample_moves_ok) as (bs & es & m & E & Es & _). exists bs, es, m. split; [ exact E | ]. split; [ exact Es | ].
  clear Es. vm_compute in E. injection E as _ <-. vm_compute. split_and!; reflexivity.
Defined.

End BufferMoves.
