(* ===== verification/TimeOps.v ===== *)
(** * Arithmetic on timestamps (include/icon7/Time.hpp, src/Time.cpp)

    The comparisons, sums and differences of timestamps, at the width of [int64_t]: a sum or a
    difference that does not fit is undefined, here [None]. The clocks of the system are
    arguments: [date] and [now0] are what the wall clock and the steady clock showed when the
    process took its beginning of time. *)

From S2P Require Import Prelude Time TimeString.

Module TimeOps.
Import Time TimeString.

(** [Timestamp], [Diff] and [Point] are structures with the one field [ns]. *)
Definition lt (l r : Z) : bool := l <? r.
Definition le (l r : Z) : bool := l <=? r.
Definition gt (l r : Z) : bool := r <? l.
Definition ge (l r : Z) : bool := r <=? l.
Definition eq (l r : Z) : bool := l =? r.
Definition ne (l r : Z) : bool := negb (l =? r).

(** [operator+] and [operator+=], [operator-] and [operator-=] with a [Diff]. *)
Definition add (p d : Z) : option Z := assert* fits 64 (p + d) in Some (p + d).
Definition sub (p d : Z) : option Z := assert* fits 64 (p - d) in Some (p - d).

(** [operator-] of two timestamps. *)
Definition diff (a b : Z) : option Z := assert* fits 64 (a - b) in Some (a - b).

(** [GetTimestamp]: the steady clock shows [now]. *)
Definition GetTimestamp (g : DayTimeBegin) (now : Z) : option Z := TemporaryTimestampToTimestamp g now.

Record YMD := mkYMD { year : Z; month : Z; day : Z }.

(** The overloads on [YMD]. *)
Definition YMDFromTimestamp (timestamp : Z) : option YMD :=
  let* (d, m, y) := Time.YMDFromTimestamp timestamp in Some (mkYMD y m d).

Definition TimestampFromYMD (ymd : YMD) : option Z := Time.TimestampFromYMD (day ymd) (month ymd) (year ymd).

Definition is_i64 (x : Z) : Prop := fits 64 x = true.

(** ** Properties *)

(** When the difference of two timestamps can be represented, adding it to the one and taking it
    from the other lead back, it is what [DeltaNsBetweenTimestamps] gives, and its sign decides
    all comparisons; the difference of two timestamps that are not before the epoch always can. *)
Theorem timestamp_operators_agree a b : is_i64 a -> is_i64 b ->
  (0 <= a -> 0 <= b -> is_Some (diff a b)) /\ forall d, diff a b = Some d ->
    add b d = Some a /\ sub a d = Some b /\ DeltaNsBetweenTimestamps b a = Some d
    /\ (lt a b, le a b, gt a b, ge a b, eq a b, ne a b) = (d <? 0, d <=? 0, 0 <? d, 0 <=? d, d =? 0, negb (d =? 0)).
Proof.
  unfold is_i64, diff, fits. rewrite !andb_true_iff, !Z.leb_le, !Z.ltb_lt. change (64 - 1) with 63. intros Ha Hb. split.
  - intros H1 H2. rewrite (proj2 (Z.leb_le _ _)), (proj2 (Z.ltb_lt _ _)) by lia. by eexists.
  - intros d. destruct (_ && _) eqn:E; [ | done ]. intros [= <-]. unfold add, sub, DeltaNsBetweenTimestamps, fits. change (64 - 1) with 63. rewrite E.
    replace (b + (a - b)) with a by lia. replace (a - (a - b)) with b by lia. rewrite !(proj2 (Z.leb_le _ _)), !(proj2 (Z.ltb_lt _ _)) by lia. cbn [andb]. split_and!; try done.
    unfold lt, le, gt, ge, eq, ne.
    assert ((a <? b) = (a - b <? 0)) as -> by (destruct (Z.ltb_spec a b), (Z.ltb_spec (a - b) 0); (done || lia)).
    assert ((a <=? b) = (a - b <=? 0)) as -> by (destruct (Z.leb_spec a b), (Z.leb_spec (a - b) 0); (done || lia)).
    assert ((b <? a) = (0 <? a - b)) as -> by (destruct (Z.ltb_spec b a), (Z.ltb_spec 0 (a - b)); (done || lia)).
    assert ((b <=? a) = (0 <=? a - b)) as -> by (destruct (Z.leb_spec b a), (Z.leb_spec 0 (a - b)); (done || lia)).
    assert ((a =? b) = (a - b =? 0)) as -> by (destruct (Z.eqb_spec a b), (Z.eqb_spec (a - b) 0); (done || lia)). done.
Qed.

(** While the clocks show times between the epoch and the limit of the type, the timestamps that
    are taken are those of the wall clock, advanced by the steady clock: later ones are not
    smaller, and they differ as the temporary timestamps do. *)
Theorem taken_timestamps_advance date now0 now1 now2 g : 0 <= date < 2 ^ 62 -> 0 <= now0 <= now1 -> now1 <= now2 < 2 ^ 62 -> DayTimeBegin_init date now0 = Some g ->
  exists t1 t2, GetTimestamp g now1 = Some t1 /\ GetTimestamp g now2 = Some t2 /\ t1 = date + (now1 - now0) /\ le t1 t2 = true
    /\ diff t2 t1 = DeltaNsBetweenTimepoints now1 now2.
Proof.
  intros Hd H0 H1. unfold DayTimeBegin_init. destruct (fits 64 (date - now0)); [ | done ]. intros [= <-]. unfold GetTimestamp, TemporaryTimestampToTimestamp, diff, DeltaNsBetweenTimepoints, le. cbn [nanosecondsSinceEpoch].
  assert (forall x, - 2 ^ 62 <= x < 2 ^ 63 -> fits 64 x = true) as Hf.
  { intros x Hx. unfold fits. change (64 - 1) with 63. rewrite (proj2 (Z.leb_le _ _)), (proj2 (Z.ltb_lt _ _)); [ done | lia | lia ]. }
  rewrite !Hf by lia. eexists _, _. split_and!; [ done | done | lia | apply Z.leb_le; lia | rewrite Hf by lia; apply (f_equal Some); lia ].
Qed.

(** The date of a timestamp gives back the beginning of its day. *)
Theorem ymd_of_timestamp_gives_its_day ns : 0 <= ns < 2 ^ 63 -> exists ymd, YMDFromTimestamp ns = Some ymd /\ valid_date (day ymd) (month ymd) (year ymd) /\ TimestampFromYMD ymd = Some (ns / DAY_NS * DAY_NS).
Proof.
  intros Hn. destruct (date_of_timestamp ns Hn) as (d & m & y & E & Hv & _ & Et). exists (mkYMD y m d). unfold YMDFromTimestamp, TimestampFromYMD. by rewrite E.
Qed.

(** ** Witnesses *)

Lemma timestamp_operators_agree_witness : add 5 12 = Some 17 /\ sub 17 12 = Some 5 /\ lt 17 5 = false.
Proof. destruct (timestamp_operators_agree 17 5) as [_ H]; [ reflexivity | reflexivity | ]. destruct (H 12 eq_refl) as (H1 & H2 & _). split; [ exact H1 | ]. split; [ exact H2 | reflexivity ]. Defined.

Lemma taken_timestamps_advance_witness : exists t1 t2, GetTimestamp (mkBegin 900 0) 150 = Some t1 /\ GetTimestamp (mkBegin 900 0) 170 = Some t2 /\ t1 = 1050 /\ diff t2 t1 = Some 20.
Proof.
  destruct (taken_timestamps_advance 1000 100 150 170 (mkBegin 900 0)) as (t1 & t2 & E1 & E2 & Et & _ & Ed); [ lia | lia | lia | reflexivity | ].
  exists t1, t2. split; [ exact E1 | ]. split; [ exact E2 | ]. split; [ exact Et | exact Ed ].
Defined.

Lemma ymd_of_timestamp_gives_its_day_witness : exists ymd, YMDFromTimestamp 1700000000000000000 = Some ymd /\ ymd = mkYMD 2023 11 14.
Proof.
  destruct (ymd_of_timestamp_gives_its_day 1700000000000000000) as (ymd & E & _); [ lia | ]. exists ymd. split; [ exact E | ]. vm_compute in E. injection E as <-. reflexivity.
Defined.

End TimeOps.
